(* ===== verification/_CoqProject ===== *)
-Q . S2P
Prelude.v
Words.v
CString.v
Log.v
Buffer.v
StdMap.v
Base64.v
WebsocketFrame.v
CoSocket.v
Http.v
HttpCalm.v
HttpServer.v
Http2Frame.v
Http2Client.v
Http2Session.v
Timer.v
Coroutine.v
Waiters.v
Sleep.v
Channel.v
Event.v
Threads.v
Progress.v
SocketLoop.v
Ownership.v
ServerLoop.v
Examples.v
WebExamples.v
HttpLoop.v
Http2Loop.v
Http2Exchange.v
Http2Process.v
UnixSocket.v
FaultyExamples.v
TestSuite.v
