(* ===== verification/Prelude.v ===== *)
(** * fsw: a verification library for the fsw coroutine network library

    fsw (include/ and src/) is a C++ library of stackful coroutines: a
    scheduler, an event loop on epoll with timers, sockets that suspend the
    coroutine instead of blocking, channels, and on top of them a plain server,
    an HTTP/1.1 server with WebSocket, an HTTP/2 client, and child processes
    with a pair of sockets. This library translates that code into executable
    definitions and proves what it does and does not guarantee.

    ** The model of C++

    A function that can fail returns an [outcome]: [Ok] of its result, [Exit]
    when the process ends ([fswError], a failed [assert] or [exit]), [UB] when
    the code does what C++ leaves undefined (an access outside an array, a null
    or deleted object, an uninitialised value). So [f x = Ok y] says that the
    call is defined and that it returns. Machine integers are [Z] with their
    conversions written out ([u8], [u16], [u32], [u64], [i32], [i64] of Words);
    bytes are [Z], arrays are [list Z] with [mem_read], [mem_write] and
    [mem_get] that check their bounds; objects behind pointers are entries of an
    explicit heap. What an uninitialised variable or array holds is an argument.
    Loops that need not end take fuel and return [option]: [None] is fuel
    exhausted, and a theorem that a loop returns names the fuel that is enough
    and proves it for every larger one.

    What is not under src/ or include/ is a parameter with its documented
    behaviour as hypotheses: epoll (class [Epoll] of Event), the answers of the
    other system calls (scripts of answers of a descriptor in CoSocket), the
    priority queue of the standard library (class [PQueue] of Timer), the HTTP
    parser of thirdparty/http, the header compression of nghttp2, the SHA-1 of
    OpenSSL, the file system. The assembly of thirdparty/boost is the jump
    between two saved contexts (Coroutine).

    ** The files, from the bottom

    - Prelude: outcomes, memory, byte strings, shared tactics and lemmas.
    - Words: machine integers, little and big endian words (include/help.h).
    - CString: [tolower], [strncasecmp], [atoi] and terminated strings.
    - Log: src/log.cc, src/error.cc, include/log.h, include/error.h.
    - Buffer: src/buffer.cc, the bounded buffer; [Spec] is its contract.
    - StdMap: [std::map] as a sorted association list.
    - Base64: src/base64.cc against RFC 4648.
    - WebsocketFrame: src/websocket_frame.cc against RFC 6455.
    - CoSocket: src/socket.cc and src/coroutine/socket.cc, as a coroutine sees
      them; [wait_event] is a scripted answer there.
    - Http: src/coroutine/http/http.cc and its header: the callbacks of the
      parser, responses, the WebSocket handshake.
    - HttpServer: src/coroutine/http/server.cc and src/coroutine/server.cc:
      routes, the loop of a connection, the loop of the server.
    - Http2Frame, Http2Client, Http2Session: src/coroutine/http2/: frames and
      settings; the client; an abstract session that the client refines.
    - Timer: src/timer.cc on an abstract priority queue and on a list.
    - Coroutine: src/coroutine/coroutine.cc, context.cc and their headers: a
      machine with one CPU whose contexts hold programs ([prog]) that call the
      scheduler ([Sched.step]).
    - Waiters: what the waiting operations have in common: a suspended
      coroutine is pending on exactly one thing that will resume it.
    - Sleep, Channel, Event: [Coroutine::sleep], src/coroutine/channel.cc, and
      src/core/event.cc with [Socket::wait_event], as programs of the machine
      that reach their part of the process state through the class [Part].
    - Threads: the scheduler seen from a stack: a pool of threads that the
      machine of Coroutine refines.
    - Progress: every pool of threads comes to an end, and the process can
      always go on to the return of the event loop.
    - SocketLoop: the operations of CoSocket as programs of the machine that wait
      with the loop of Event.
    - Ownership: a judgement of programs, one coroutine and its descriptors at a
      time, that is adequate for the process.
    - ServerLoop: the accept loop of src/coroutine/server.cc on the machine, with
      a coroutine for each connection.
    - HttpLoop: src/coroutine/http/server.cc and the responses of http.cc on the
      machine, against the functions of Http and HttpServer.
    - Http2Loop: the frames that HTTP/2 clients build in the scratch buffer of
      the process ([FswG.buffer_stack]) and send from it, on the machine.
    - Http2Exchange: the rest of src/coroutine/http2/client.cc on the machine:
      connecting and receiving a response.
    - Http2Process: a client that owns the scratch buffer, on the event loop
      beside coroutines that do not.
    - UnixSocket: src/unix_socket.cc and src/process.cc, and the system of a
      parent and its child.
    - Examples, WebExamples, FaultyExamples: the programs of examples/ on the
      library.
    - TestSuite: the tests of src/test, and which of them pass.

    Higher layers use the lower ones as the code does: an HTTP response is
    rendered into a Buffer and sent by [CoSocket.send]; the HTTP/2 client
    receives into the read buffer of a CoSocket; sleeping and [wait_event]
    suspend coroutines of the machine that the timers and the loop of Event
    resume; a child process runs its handler on the machine.

    ** What is proved

    - The scheduler (Coroutine): every reachable state is well formed
      ([scheduler_invariant]), exactly which calls are undefined or end the
      process ([scheduler_step_outcome]), that [create] and [resume] return to
      their caller, that a body and its deferred tasks run once, last first.
    - Waiting (Channel, Event): coroutines that follow a small protocol never
      make an undefined step, for every interleaving, clock and report of the
      kernel; a channel is a bounded queue and loses no wake-up; [wait] returns
      only when nothing is left to wait for; a pop with a timeout dangles.
    - Timers: due timers fire in order, nothing due is left, the timeout given
      to epoll is exact.
    - Threads and processes (Threads, Progress, Ownership): the scheduler
      refines threads that do not see it ([scheduler_refines_threads]); from
      every state some reports of the kernel and some times lead to the return
      of the event loop ([event_loop_can_return]); programs whose coroutines own
      their descriptors are right together when each is right alone
      ([ownership_adequate]).
    - Servers (ServerLoop, HttpLoop): any number of concurrent connections, under
      every interleaving, are served as each would be alone
      ([server_serves_each_connection], [http_server_serves_as_alone]).
    - Programs (Examples, WebExamples, FaultyExamples, TestSuite): what create.cc
      prints, what the example servers send and the WebSocket example answers;
      where the other examples are undefined; the tests, for every clock and
      schedule where they depend on them.
    - Data (Buffer, Base64, WebsocketFrame, Http2Frame): refinement of a bounded
      string, equality with the RFCs, round trips, and where lengths of the peer
      are not checked.
    - Streams (CoSocket, SocketLoop): [recv_all] and [send_all] move exactly the
      bytes asked for whatever pieces the kernel makes of them; run on the
      machine, the operations have the results CoSocket gives them and are
      clients of the loop.
    - HTTP (Http, HttpServer): header lines, the rendered response, the
      handshake, routing, the answer to every request, termination of a
      connection.
    - HTTP/2 (Http2Session): the client refines the session of one stream,
      whose frames arrive when they do, one or more at a time; its state stays
      typed whatever the peer sends; a data frame too many, an unknown stream
      and a closed connection are the errors it does not handle.
    - HTTP/2 on the machine (Http2Loop, Http2Exchange, Http2Process): a client
      that connects, sends a request and receives its response sends and gets
      what the protocol says, through any waits ([http2_exchange]), as long as
      the others leave its frames in the scratch buffer
      ([http2_sends_intact]); it does on the event loop, beside any coroutines
      that do not use the buffer ([http2_client_beside_others]); two clients
      both use it, and their frames are mixed ([frames_are_mixed]).
    - Processes (UnixSocket): each side reads exactly what the other wrote, in
      order; what [start] does, also when [fork] fails; deleting a process is
      undefined.
    - Log: the arrays are large enough for every line of the macros.

    ** Bounds and fuel

    Capacities are the constants of the code (1024 bytes for the buffers of a
    socket, of which a response is built in one, and 65536 for the scratch
    buffer). Loops over a script of the kernel consume an answer at each turn,
    so the length of the script and one or two turns more are enough; the
    decoding loop of HTTP/2 consumes a byte at each turn under the hypothesis
    that the decoder makes progress; [recv_reponse] needs one turn per frame on
    top of that.

    On the machine, a loop that need not end carries a bound on its turns
    ([fuel], [turns]) and goes on as [stop] behind it; the theorems take a bound
    above the number of the kernel's answers for the descriptor, and then [stop]
    is not reached. [recv_reponse] takes a turn for each frame there, too, as
    many as in Http2Session. The list [later] of ServerLoop holds what the flag [running]
    is each time the accept loop reads it: a server is shut down after the
    connections of the theorem. So a program of the machine is a finite tree,
    and what Progress says of processes is about those.

    ** Not modelled

    Third-party code (thirdparty/), the build and the docs. Of examples/, the
    four programs of examples/coroutine/socket/server call functions that the
    library no longer has (fsw_event_init, fsw_event_wait, the fswSocket_
    functions, [create] with an argument), so they have no meaning at this
    commit; the loop of the WebSocket example is modelled round by round, as its
    connection sees it, without the sleep between two rounds. Of src/test, the
    tests that only ask the system (binding, socket options, names) and the size
    of a struct are left out.

    Allocation does not fail and freed memory is not reused, so a use of a
    deleted object is a failing lookup; leaks are not visible. A descriptor that
    was closed is not handed out again, and the deletion of a connection leaves
    nothing behind. [sendfile], files and [SIGPIPE] are those of a process in
    which they neither suspend a coroutine nor end the process. The stacks of
    the coroutines do not overflow. Logging is modelled in Log only: the other
    files leave the lines out, except that [fswError] is [Exit]. Errors of the C
    library that the code does not look at ([localtime], [prctl]) are left out.
    Concurrency is that of coroutines and of two processes: fsw has no threads.

    A client of HTTP/2 is used by one coroutine at a time: its object is passed
    from call to call, while the scratch buffer is shared. A frame is taken to
    arrive whole, as the client does not look at how much of a header or of a
    payload it got.

    ** Plan

    Next: clients of HTTP/2 that hand the scratch buffer to each other between
    their operations, and what they send then; handlers of WebSockets that sleep
    between their frames. *)

From stdpp Require Export base list numbers strings pretty option.
From Stdlib Require Export ZArith Lia.

Global Open Scope Z_scope.

(** ** Outcomes of C++ code

    A C++ function of the library returns normally ([Ok]), ends the process
    through the [fswError] macro of include/log.h, whose last statement is
    [exit(-1)] ([Exit]), or performs an access outside an object, a null
    dereference or another operation the language leaves undefined ([UB]). *)
Inductive outcome (A : Type) : Type :=
| Ok (a : A)
| Exit
| UB.
Arguments Ok {A} a.
Arguments Exit {A}.
Arguments UB {A}.

#[global] Instance outcome_ret : MRet outcome := @Ok.
#[global] Instance outcome_bind : MBind outcome :=
  λ A B f m, match m with Ok a => f a | Exit => Exit | UB => UB end.
#[global] Instance outcome_fmap : FMap outcome :=
  λ A B f m, match m with Ok a => Ok (f a) | Exit => Exit | UB => UB end.

#[global] Instance outcome_eq_dec {A} `{EqDecision A} : EqDecision (outcome A).
Proof. solve_decision. Defined.

(** An outcome that is a normal return. *)
Definition defined {A} (m : outcome A) : bool :=
  match m with Ok _ => true | _ => false end.

Section outcome_laws.
Context {A B C : Type}.
Implicit Types (m : outcome A) (f : A → outcome B) (g : B → outcome C).

Lemma outcome_bind_ok f (a : A) : (x ← Ok a; f x) = f a.
Proof. reflexivity. Qed.

Lemma outcome_bind_assoc f g m :
  (y ← (x ← m; f x); g y) = (x ← m; y ← f x; g y).
Proof. by destruct m. Qed.

Lemma outcome_bind_inv f m (b : B) :
  (x ← m; f x) = Ok b → ∃ a, m = Ok a ∧ f a = Ok b.
Proof. destruct m as [a| |]; intros H; try discriminate H. by exists a. Qed.

Lemma outcome_fmap_inv (h : A → B) m (b : B) :
  h <$> m = Ok b → ∃ a, m = Ok a ∧ b = h a.
Proof. destruct m as [a| |]; intros H; try discriminate H. injection H as <-. eauto. Qed.
End outcome_laws.

(** [outcome_inv] opens every hypothesis that says a bind returned. *)
Ltac outcome_inv :=
  repeat match goal with
  | H : (_ ← _; _) = Ok _ |- _ =>
      let a := fresh "v" in let H1 := fresh "Hv" in
      apply outcome_bind_inv in H as (a & H1 & H)
  | H : Ok _ = Ok _ |- _ => injection H as H
  | H : Exit = Ok _ |- _ => discriminate H
  | H : UB = Ok _ |- _ => discriminate H
  end; subst.

(** Boolean comparisons on [Z], as the guards of the code compute them. *)
Ltac zify_bools :=
  repeat match goal with
  | H : (_ <? _) = true |- _ => apply Z.ltb_lt in H
  | H : (_ <? _) = false |- _ => apply Z.ltb_ge in H
  | H : (_ <=? _) = true |- _ => apply Z.leb_le in H
  | H : (_ <=? _) = false |- _ => apply Z.leb_gt in H
  | H : (_ =? _) = true |- _ => apply Z.eqb_eq in H
  | H : (_ =? _) = false |- _ => apply Z.eqb_neq in H
  | H : (_ && _) = true |- _ => apply andb_true_iff in H as [? ?]
  | H : (_ || _) = false |- _ => apply orb_false_iff in H as [? ?]
  | H : negb _ = true |- _ => apply negb_true_iff in H
  | H : negb _ = false |- _ => apply negb_false_iff in H
  end.

(** Case analysis on the boolean guard of an [if] in the goal. *)
Ltac split_if :=
  match goal with
  | |- context [if ?b then _ else _] =>
      let E := fresh "Hguard" in destruct b eqn:E; zify_bools
  end.
Ltac split_if_in H :=
  match type of H with
  | context [if ?b then _ else _] =>
      let E := fresh "Hguard" in destruct b eqn:E; zify_bools
  end.

(** ** Bytes, strings and lengths *)

(** A byte string: a [char] or [unsigned char] array as the list of its bytes,
    each read as an [unsigned char]. *)
Abbreviation bytes := (list Z).

Definition is_byte (b : Z) : Prop := 0 ≤ b < 256.
#[global] Instance is_byte_dec b : Decision (is_byte b) := _.

Abbreviation bytes_ok := (Forall is_byte).

(** The length of a list as the code's [size_t]. *)
Definition zlen {A} (l : list A) : Z := Z.of_nat (length l).

(** A string literal (without its terminating NUL) or a [std::string]. *)
Definition str (s : string) : bytes :=
  (λ c, Z.of_N (Ascii.N_of_ascii c)) <$> String.list_ascii_of_string s.

(** [std::to_string] of an [int]. *)
Definition to_string (v : Z) : bytes := str (pretty v).

Section zlen_laws.
Context {A : Type}.
Implicit Types l k : list A.
Lemma zlen_nonneg l : 0 ≤ zlen l. Proof. unfold zlen; lia. Qed.
Lemma zlen_nil : zlen (@nil A) = 0. Proof. reflexivity. Qed.
Lemma zlen_cons (a : A) l : zlen (a :: l) = zlen l + 1.
Proof. unfold zlen. cbn [length]. lia. Qed.
Lemma zlen_app l k : zlen (l ++ k) = zlen l + zlen k.
Proof. unfold zlen. rewrite length_app. lia. Qed.
Lemma zlen_replicate n (a : A) : zlen (replicate n a) = Z.of_nat n.
Proof. unfold zlen. by rewrite length_replicate. Qed.
Lemma zlen_take (z : Z) l : 0 ≤ z ≤ zlen l → zlen (take (Z.to_nat z) l) = z.
Proof. unfold zlen. rewrite length_take. lia. Qed.
Lemma zlen_drop (z : Z) l : 0 ≤ z ≤ zlen l → zlen (drop (Z.to_nat z) l) = zlen l - z.
Proof. unfold zlen. rewrite length_drop. lia. Qed.
Lemma zlen_take_nat n l : (n ≤ length l)%nat → zlen (take n l) = Z.of_nat n.
Proof. unfold zlen. rewrite length_take. lia. Qed.
Lemma zlen_fmap {B} (f : A → B) l : zlen (f <$> l) = zlen l.
Proof. unfold zlen. by rewrite length_fmap. Qed.
Lemma take_zlen_app l k : take (Z.to_nat (zlen l)) (l ++ k) = l.
Proof. unfold zlen. by rewrite Nat2Z.id, take_app_length. Qed.
Lemma drop_zlen_app l k : drop (Z.to_nat (zlen l)) (l ++ k) = k.
Proof. unfold zlen. by rewrite Nat2Z.id, drop_app_length. Qed.
End zlen_laws.

Lemma bytes_ok_str s : bytes_ok (str s).
Proof.
  unfold str. rewrite Forall_fmap. apply Forall_forall; intros c _.
  destruct c as [[] [] [] [] [] [] [] []]; done.
Qed.

Lemma bytes_ok_to_string v : bytes_ok (to_string v).
Proof. apply bytes_ok_str. Qed.

(** A boolean fact about every integer of a range, by evaluation. *)
Lemma range_brute (P : Z → bool) (n : Z) :
  forallb P (seqZ 0 n) = true → ∀ b, 0 ≤ b < n → P b = true.
Proof.
  intros H b Hb. rewrite forallb_forall in H. apply H.
  apply list_elem_of_In, elem_of_seqZ. lia.
Qed.

(** The bytes of a closed string, by evaluation. *)
Lemma bytes_ok_check l : forallb (λ b, (0 <=? b) && (b <? 256)) l = true → bytes_ok l.
Proof.
  rewrite forallb_forall. intros H. apply Forall_forall. intros b Hb.
  apply H in Hb. zify_bools. unfold is_byte. lia.
Qed.

(** Induction by chunks of three and of four. *)
Lemma list_ind3 {A} (P : list A → Prop) :
  P [] → (∀ a, P [a]) → (∀ a b, P [a; b]) →
  (∀ a b c l, P l → P (a :: b :: c :: l)) → ∀ l, P l.
Proof.
  intros H0 H1 H2 H3. enough (∀ n l, (length l ≤ n)%nat → P l) by eauto.
  induction n as [|n IH]; intros [|a [|b [|c l]]] Hl; auto; cbn in Hl; [lia|].
  apply H3, IH. lia.
Qed.
Lemma list_ind4 {A} (P : list A → Prop) :
  P [] → (∀ a, P [a]) → (∀ a b, P [a; b]) → (∀ a b c, P [a; b; c]) →
  (∀ a b c d l, P l → P (a :: b :: c :: d :: l)) → ∀ l, P l.
Proof.
  intros H0 H1 H2 H3 H4. enough (∀ n l, (length l ≤ n)%nat → P l) by eauto.
  induction n as [|n IH]; intros [|a [|b [|c [|d l]]]] Hl; auto; cbn in Hl; [lia|].
  apply H4, IH. lia.
Qed.

(** ** Memory regions

    A region is the list of the bytes of one object; offsets and lengths are
    the [size_t] or pointer arithmetic of the code. Reading or writing outside
    the region is [UB]. *)

(** [n] bytes at offset [off] (the source of a memcpy, a load). *)
Definition mem_read (mem : bytes) (off n : Z) : outcome bytes :=
  if (0 <=? off) && (0 <=? n) && (off + n <=? zlen mem)
  then Ok (take (Z.to_nat n) (drop (Z.to_nat off) mem))
  else UB.

(** The bytes [data] stored at offset [off] (the target of a memcpy, a store). *)
Definition mem_write (mem : bytes) (off : Z) (data : bytes) : outcome bytes :=
  if (0 <=? off) && (off + zlen data <=? zlen mem)
  then Ok (take (Z.to_nat off) mem ++ data ++ drop (Z.to_nat (off + zlen data)) mem)
  else UB.

(** One byte. *)
Definition mem_get (mem : bytes) (off : Z) : outcome Z :=
  if 0 <=? off
  then match mem !! Z.to_nat off with Some b => Ok b | None => UB end
  else UB.

Section memory_laws.
Implicit Types mem data : bytes.

Lemma mem_read_ok mem off n :
  0 ≤ off → 0 ≤ n → off + n ≤ zlen mem →
  mem_read mem off n = Ok (take (Z.to_nat n) (drop (Z.to_nat off) mem)).
Proof. intros. unfold mem_read. split_if; [done|]. lia. Qed.

Lemma mem_read_inv mem off n r :
  mem_read mem off n = Ok r →
  0 ≤ off ∧ 0 ≤ n ∧ off + n ≤ zlen mem ∧
  r = take (Z.to_nat n) (drop (Z.to_nat off) mem).
Proof. unfold mem_read. intros H. split_if_in H; [|done]. outcome_inv. auto. Qed.

Lemma mem_write_ok mem off data :
  0 ≤ off → off + zlen data ≤ zlen mem →
  mem_write mem off data =
    Ok (take (Z.to_nat off) mem ++ data ++ drop (Z.to_nat (off + zlen data)) mem).
Proof. intros. unfold mem_write. split_if; [done|]. lia. Qed.

Lemma mem_write_inv mem off data r :
  mem_write mem off data = Ok r →
  0 ≤ off ∧ off + zlen data ≤ zlen mem ∧
  r = take (Z.to_nat off) mem ++ data ++ drop (Z.to_nat (off + zlen data)) mem.
Proof. unfold mem_write. intros H. split_if_in H; [|done]. outcome_inv. auto. Qed.

Lemma mem_write_zlen mem off data r :
  mem_write mem off data = Ok r → zlen r = zlen mem.
Proof.
  intros (?&?&->)%mem_write_inv. pose proof (zlen_nonneg data).
  rewrite !zlen_app, zlen_take, zlen_drop by lia. lia.
Qed.

Lemma mem_write_bytes_ok mem off data r :
  mem_write mem off data = Ok r → bytes_ok mem → bytes_ok data → bytes_ok r.
Proof.
  intros (?&?&->)%mem_write_inv ??.
  repeat apply Forall_app_2; auto using Forall_take, Forall_drop.
Qed.

(** Splitting a region around an offset: the form in which a write is
    easiest to use. *)
Lemma mem_write_split a b data c :
  zlen b = zlen data →
  mem_write (a ++ b ++ c) (zlen a) data = Ok (a ++ data ++ c).
Proof.
  intros Hb. pose proof (zlen_nonneg a). pose proof (zlen_nonneg b).
  pose proof (zlen_nonneg c).
  rewrite mem_write_ok by (rewrite ?zlen_app; lia). unfold zlen in *.
  rewrite Nat2Z.id, take_app_length.
  replace (Z.to_nat (Z.of_nat (length a) + Z.of_nat (length data))) with (length a + length b)%nat by lia.
  rewrite <- drop_drop, drop_app_length, drop_app_length. done.
Qed.

Lemma mem_read_split a b c n :
  n = zlen b → mem_read (a ++ b ++ c) (zlen a) n = Ok b.
Proof.
  intros ->. pose proof (zlen_nonneg a). pose proof (zlen_nonneg b).
  pose proof (zlen_nonneg c).
  rewrite mem_read_ok by (rewrite ?zlen_app; lia). unfold zlen.
  by rewrite !Nat2Z.id, drop_app_length, take_app_length.
Qed.

Lemma mem_get_ok mem off b :
  0 ≤ off → mem !! Z.to_nat off = Some b → mem_get mem off = Ok b.
Proof. intros ? H. unfold mem_get. split_if; [by rewrite H|lia]. Qed.

(** The memory primitives never end the process. *)
Lemma mem_read_exit mem off n : mem_read mem off n ≠ Exit.
Proof. unfold mem_read. by split_if. Qed.
Lemma mem_write_exit mem off data : mem_write mem off data ≠ Exit.
Proof. unfold mem_write. by split_if. Qed.
Lemma mem_get_exit mem off : mem_get mem off ≠ Exit.
Proof. unfold mem_get. split_if; [|done]. by destruct (mem !! _). Qed.

Lemma mem_get_split a b c : mem_get (a ++ b :: c) (zlen a) = Ok b.
Proof.
  apply mem_get_ok; [apply zlen_nonneg|]. unfold zlen. by rewrite Nat2Z.id, list_lookup_middle.
Qed.
End memory_laws.

Create HintDb fsw discriminated.
Create Rewrite HintDb zlen.
Create Rewrite HintDb outcome.
#[export] Hint Resolve zlen_nonneg bytes_ok_str bytes_ok_to_string Forall_take Forall_drop Forall_app_2 : fsw.
#[export] Hint Rewrite @zlen_nil @zlen_cons @zlen_app @zlen_replicate @zlen_fmap : zlen.
#[export] Hint Rewrite @outcome_bind_ok : outcome.

(** Goals about lengths: push [zlen] inwards, add that it is not negative. *)
Ltac zlen_pos :=
  repeat match goal with
  | |- context [zlen ?l] =>
      lazymatch goal with H : 0 ≤ zlen l |- _ => fail | _ => pose proof (zlen_nonneg l) end
  | H0 : context [zlen ?l] |- _ =>
      lazymatch goal with H : 0 ≤ zlen l |- _ => fail | _ => pose proof (zlen_nonneg l) end
  end.
Ltac solve_zlen := autorewrite with zlen in *; zlen_pos; lia.
