(* ===== verification/Words.v ===== *)
(** * Words: machine integers, byte order and the epoll user word

    Fixed-width integers are [Z] with the wrap-around written out; a word in
    memory is the list of its bytes. The host is little-endian (x86-64), as the
    bit-field layout of include/websocket_frame.h requires. [Help] models
    include/help.h. *)

From S2P Require Import Prelude.

(** ** Conversions to the integer types of the code *)
Definition u8 (z : Z) : Z := z mod 2 ^ 8.
Definition u16 (z : Z) : Z := z mod 2 ^ 16.
Definition u32 (z : Z) : Z := z mod 2 ^ 32.
Definition u64 (z : Z) : Z := z mod 2 ^ 64.
Definition i32 (z : Z) : Z := (z + 2 ^ 31) mod 2 ^ 32 - 2 ^ 31.
Definition i64 (z : Z) : Z := (z + 2 ^ 63) mod 2 ^ 64 - 2 ^ 63.

Definition INT_MAX : Z := 2 ^ 31 - 1.
Definition SIZE_MAX : Z := 2 ^ 64 - 1.

(** [in_words] opens the conversions and hands the goal to [lia]. *)
Ltac in_words :=
  unfold u8, u16, u32, u64, i32, i64, INT_MAX, SIZE_MAX, is_byte in *;
  Z.div_mod_to_equations; lia.

Lemma u8_id z : 0 ≤ z < 2 ^ 8 → u8 z = z.
Proof. apply Z.mod_small. Qed.
Lemma u16_id z : 0 ≤ z < 2 ^ 16 → u16 z = z.
Proof. apply Z.mod_small. Qed.
Lemma u32_id z : 0 ≤ z < 2 ^ 32 → u32 z = z.
Proof. apply Z.mod_small. Qed.
Lemma u64_id z : 0 ≤ z < 2 ^ 64 → u64 z = z.
Proof. apply Z.mod_small. Qed.
Lemma i32_id z : - 2 ^ 31 ≤ z < 2 ^ 31 → i32 z = z.
Proof. intros. unfold i32. rewrite Z.mod_small; lia. Qed.
Lemma i64_id z : - 2 ^ 63 ≤ z < 2 ^ 63 → i64 z = z.
Proof. intros. unfold i64. rewrite Z.mod_small; lia. Qed.
Lemma u8_byte z : is_byte (u8 z).
Proof. unfold is_byte, u8. apply Z.mod_pos_bound. lia. Qed.
Lemma i32_bound z : - 2 ^ 31 ≤ i32 z < 2 ^ 31.
Proof. unfold i32. pose proof (Z.mod_pos_bound (z + 2 ^ 31) (2 ^ 32)). lia. Qed.
Lemma u32_bound z : 0 ≤ u32 z < 2 ^ 32.
Proof. apply Z.mod_pos_bound. lia. Qed.
Lemma u64_bound z : 0 ≤ u64 z < 2 ^ 64.
Proof. apply Z.mod_pos_bound. lia. Qed.
#[export] Hint Resolve u8_byte : fsw.

(** ** Bits of sums of disjoint parts *)
Lemma testbit_small a n i : 0 ≤ a < 2 ^ n → 0 ≤ n → n ≤ i → Z.testbit a i = false.
Proof.
  intros Ha Hn Hi. rewrite <- (Z.mod_small a (2 ^ n)) by done.
  by apply Z.mod_pow2_bits_high.
Qed.

Lemma land_shiftl_small a b n : 0 ≤ n → 0 ≤ b < 2 ^ n → Z.land (Z.shiftl a n) b = 0.
Proof.
  intros Hn Hb. apply Z.bits_inj'; intros i Hi. rewrite Z.land_spec, Z.bits_0.
  destruct (decide (i < n)).
  - rewrite Z.shiftl_spec_low by lia. done.
  - rewrite (testbit_small b n i) by lia. apply andb_false_r.
Qed.

Lemma lor_shiftl_add a b n :
  0 ≤ n → 0 ≤ b < 2 ^ n → Z.lor (Z.shiftl a n) b = a * 2 ^ n + b.
Proof.
  intros Hn Hb. rewrite <- Z.shiftl_mul_pow2 by done.
  pose proof (Z.add_lor_land (Z.shiftl a n) b).
  rewrite land_shiftl_small in H by done. lia.
Qed.

Lemma lxor_bound a b n : 0 ≤ n → 0 ≤ a < 2 ^ n → 0 ≤ b < 2 ^ n → 0 ≤ Z.lxor a b < 2 ^ n.
Proof.
  intros Hn Ha Hb. assert (Hx : 0 ≤ Z.lxor a b) by (apply Z.lxor_nonneg; lia).
  split; [done|]. destruct (decide (Z.lxor a b = 0)) as [->|Hnz]; [lia|].
  apply Z.log2_lt_pow2; [lia|].
  eapply Z.le_lt_trans; [apply Z.log2_lxor; lia|].
  apply Z.max_lub_lt.
  - destruct (decide (a = 0)) as [->|]; [|apply Z.log2_lt_pow2; lia].
    destruct (decide (b = 0)) as [->|]; [done|].
    enough (0 < n) by (cbn; lia). destruct (decide (n = 0)) as [->|]; [|lia]. change (2 ^ 0) with 1 in *. lia.
  - destruct (decide (b = 0)) as [->|]; [|apply Z.log2_lt_pow2; lia].
    destruct (decide (a = 0)) as [->|]; [done|].
    enough (0 < n) by (cbn; lia). destruct (decide (n = 0)) as [->|]; [|lia]. change (2 ^ 0) with 1 in *. lia.
Qed.

Lemma lxor_shifted a b x y n :
  0 ≤ n → 0 ≤ a < 2 ^ n → 0 ≤ b < 2 ^ n →
  Z.lxor (a + 2 ^ n * x) (b + 2 ^ n * y) = Z.lxor a b + 2 ^ n * Z.lxor x y.
Proof.
  intros Hn Ha Hb. pose proof (lxor_bound a b n Hn Ha Hb) as Hab.
  assert (Hs : ∀ c z, 0 ≤ c < 2 ^ n → c + 2 ^ n * z = Z.lor (Z.shiftl z n) c).
  { intros c z Hc. rewrite lor_shiftl_add by done. lia. }
  rewrite !Hs by done. apply Z.bits_inj'; intros i Hi.
  rewrite ?Z.lxor_spec, ?Z.lor_spec, ?Z.lxor_spec.
  destruct (decide (i < n)).
  - by rewrite !Z.shiftl_spec_low by lia.
  - rewrite !Z.shiftl_spec, ?Z.lxor_spec by lia.
    rewrite !(testbit_small _ n i), ?orb_false_r by lia. done.
Qed.

Lemma lor_ones_below a n : 0 ≤ n → 0 ≤ a < 2 ^ n → Z.lor a (Z.ones n) = Z.ones n.
Proof.
  intros Hn Ha. apply Z.bits_inj'; intros i Hi. rewrite Z.lor_spec.
  destruct (decide (i < n)).
  - rewrite Z.ones_spec_low by lia. apply orb_true_r.
  - by rewrite (testbit_small a n i) by lia.
Qed.

(** ** Words in memory *)

(** The value of a word whose bytes are [l], on the little-endian host. *)
Fixpoint le_load (l : bytes) : Z :=
  match l with
  | [] => 0
  | b :: l => b + 256 * le_load l
  end.

(** The [n] bytes of the word [z], on the little-endian host. *)
Fixpoint le_store (n : nat) (z : Z) : bytes :=
  match n with
  | O => []
  | S n => z mod 256 :: le_store n (z / 256)
  end.

(** Network byte order. *)
Definition be_load (l : bytes) : Z := le_load (reverse l).
Definition be_store (n : nat) (z : Z) : bytes := reverse (le_store n z).

Section words_in_memory.
Implicit Types l k : bytes.

Lemma length_le_store n z : length (le_store n z) = n.
Proof. revert z. induction n; intros; cbn; auto. Qed.
Lemma zlen_le_store n z : zlen (le_store n z) = Z.of_nat n.
Proof. unfold zlen. by rewrite length_le_store. Qed.
Lemma length_be_store n z : length (be_store n z) = n.
Proof. unfold be_store. by rewrite length_reverse, length_le_store. Qed.
Lemma zlen_be_store n z : zlen (be_store n z) = Z.of_nat n.
Proof. unfold zlen. by rewrite length_be_store. Qed.

Lemma le_store_bytes_ok n z : bytes_ok (le_store n z).
Proof.
  revert z. induction n as [|n IH]; intros z; constructor; [|apply IH].
  unfold is_byte. apply Z.mod_pos_bound. lia.
Qed.
Lemma be_store_bytes_ok n z : bytes_ok (be_store n z).
Proof. apply Forall_reverse, le_store_bytes_ok. Qed.

Lemma pow256_S n : 256 ^ Z.of_nat (S n) = 256 * 256 ^ Z.of_nat n.
Proof. rewrite Nat2Z.inj_succ, Z.pow_succ_r; lia. Qed.

Lemma le_load_store n z : le_load (le_store n z) = z mod 256 ^ Z.of_nat n.
Proof.
  revert z. induction n as [|n IH]; intros z; [cbn; by rewrite Z.mod_1_r|].
  cbn [le_store le_load]. rewrite IH, pow256_S, Z.rem_mul_r by lia. lia.
Qed.
Lemma be_load_store n z : be_load (be_store n z) = z mod 256 ^ Z.of_nat n.
Proof. unfold be_load, be_store. by rewrite reverse_involutive, le_load_store. Qed.

Lemma le_load_bound l : bytes_ok l → 0 ≤ le_load l < 256 ^ zlen l.
Proof.
  unfold zlen. induction 1 as [|b l Hb _ IH]; [cbn; lia|].
  cbn [le_load length]. rewrite pow256_S. unfold is_byte in Hb. lia.
Qed.

Lemma le_store_load l : bytes_ok l → le_store (length l) (le_load l) = l.
Proof.
  induction 1 as [|b l Hb _ IH]; [done|]. unfold is_byte in Hb. cbn [length le_store le_load].
  replace ((b + 256 * le_load l) mod 256) with b by (Z.div_mod_to_equations; lia).
  replace ((b + 256 * le_load l) / 256) with (le_load l) by (Z.div_mod_to_equations; lia).
  by rewrite IH.
Qed.
Lemma be_store_load l : bytes_ok l → be_store (length l) (be_load l) = l.
Proof.
  intros H. unfold be_store, be_load. rewrite <- (length_reverse l).
  rewrite le_store_load by by apply Forall_reverse. apply reverse_involutive.
Qed.

Lemma le_load_app l k : le_load (l ++ k) = le_load l + 256 ^ zlen l * le_load k.
Proof.
  unfold zlen. induction l as [|b l IH].
  - cbn [app le_load length]. change (256 ^ Z.of_nat 0) with 1. lia.
  - cbn [app le_load length]. rewrite pow256_S, IH. lia.
Qed.
Lemma be_load_app l k : be_load (l ++ k) = be_load l * 256 ^ zlen k + be_load k.
Proof.
  unfold be_load. rewrite reverse_app, le_load_app. unfold zlen.
  rewrite length_reverse. lia.
Qed.

(** A word xor-ed in memory is the xor of its bytes. *)
Lemma le_load_lxor l k :
  length l = length k → bytes_ok l → bytes_ok k →
  Z.lxor (le_load l) (le_load k) = le_load (zip_with Z.lxor l k).
Proof.
  revert k. induction l as [|a l IH]; intros [|b k] Hlen Hl Hk; try done.
  apply Forall_cons_1 in Hl as [Ha Hl]; apply Forall_cons_1 in Hk as [Hb Hk].
  cbn [le_load zip_with]. injection Hlen as Hlen. rewrite <- IH by done.
  by apply (lxor_shifted a b (le_load l) (le_load k) 8).
Qed.
End words_in_memory.

Lemma lxor_is_byte a b : is_byte a → is_byte b → is_byte (Z.lxor a b).
Proof. intros. by apply (lxor_bound _ _ 8). Qed.
#[export] Hint Resolve le_store_bytes_ok be_store_bytes_ok lxor_is_byte : fsw.
#[export] Hint Rewrite zlen_le_store zlen_be_store : zlen.

(** ** Host and network order (libc on the little-endian host)

    [htonl x] is the word whose bytes in memory are [x] in network order. *)
Definition htons (x : Z) : Z := be_load (le_store 2 x).
Definition ntohs (x : Z) : Z := be_load (le_store 2 x).
Definition htonl (x : Z) : Z := be_load (le_store 4 x).
Definition ntohl (x : Z) : Z := be_load (le_store 4 x).

Section byte_order.
Lemma le_store_be_load n l :
  length l = n → bytes_ok l → le_store n (be_load l) = reverse l.
Proof.
  intros <- H. unfold be_load. rewrite <- (length_reverse l).
  by apply le_store_load, Forall_reverse.
Qed.

(** What a store of a converted word leaves in memory. *)
Lemma store_htons x : le_store 2 (htons x) = be_store 2 x.
Proof. apply le_store_be_load; auto using length_le_store with fsw. Qed.
Lemma store_htonl x : le_store 4 (htonl x) = be_store 4 x.
Proof. apply le_store_be_load; auto using length_le_store with fsw. Qed.

(** What a converted load reads from memory. *)
Lemma ntohs_load l : length l = 2%nat → bytes_ok l → ntohs (le_load l) = be_load l.
Proof. intros Hl H. unfold ntohs. by rewrite <- Hl, le_store_load. Qed.
Lemma ntohl_load l : length l = 4%nat → bytes_ok l → ntohl (le_load l) = be_load l.
Proof. intros Hl H. unfold ntohl. by rewrite <- Hl, le_store_load. Qed.
End byte_order.

(** ** help.h: the epoll user word *)
Module Help.
(** Packs a descriptor and a coroutine id, both [int]; each is converted to
    [uint64_t] first, so a negative one is sign-extended. *)
Definition touint64 (fd id : Z) : Z :=
  let ret := 0 in
  let ret := Z.lor ret (u64 (Z.shiftl (u64 fd) 32)) in
  Z.lor ret (u64 id).

Definition fromuint64 (v : Z) : Z * Z :=
  (i32 (Z.shiftr v 32), i32 (Z.land v 0xffffffff)).

(** The word read back: the id always survives, the descriptor survives
    unless the id is negative, whose sign bits cover it. *)
Lemma fromuint64_touint64_gen fd id :
  - 2 ^ 31 ≤ fd < 2 ^ 31 → - 2 ^ 31 ≤ id < 2 ^ 31 →
  fromuint64 (touint64 fd id) = (if 0 <=? id then fd else -1, id).
Proof.
  intros Hfd Hid. unfold touint64, fromuint64. cbv zeta. rewrite Z.lor_0_l.
  assert (Hhi : u64 (Z.shiftl (u64 fd) 32) = Z.shiftl (u32 fd) 32).
  { unfold u64, u32. rewrite !Z.shiftl_mul_pow2 by lia.
    rewrite Z.mul_mod_idemp_l by lia.
    change (2 ^ 64) with (2 ^ 32 * 2 ^ 32). rewrite Z.mul_mod_distr_r by lia. done. }
  rewrite Hhi.
  assert (Hland : ∀ v, Z.land v 0xffffffff = v mod 2 ^ 32).
  { intros v. change 0xffffffff with (Z.ones 32). apply Z.land_ones. lia. }
  rewrite Hland, Z.shiftr_div_pow2 by lia.
  pose proof (u32_bound fd).
  split_if.
  - rewrite (u64_id id) by lia. rewrite lor_shiftl_add by lia.
    rewrite Z.div_add_l, Z.div_small, Z.add_0_r by lia.
    f_equal; in_words.
  - assert (Hlow : u64 id = Z.lor (Z.shiftl (Z.ones 32) 32) (id + 2 ^ 32)).
    { rewrite lor_shiftl_add by lia. change (Z.ones 32) with (2 ^ 32 - 1). in_words. }
    rewrite Hlow, Z.lor_assoc, <- Z.shiftl_lor.
    rewrite lor_ones_below by lia.
    rewrite lor_shiftl_add by lia.
    rewrite Z.div_add_l, (Z.div_small (_ + _)), Z.add_0_r by lia.
    f_equal; in_words.
Qed.
End Help.
