(* ===== verification/CString.v ===== *)
(** * CString: the C library's functions on characters and strings

    [tolower], [strncasecmp], [atoi] and the reading of a terminated string, as
    the source uses them, in the C locale. *)

From S2P Require Import Prelude.
#[local] Open Scope Z_scope.

(** [::tolower] on a character. *)
Definition tolower (c : Z) : Z := if (65 <=? c) && (c <=? 90) then c + 32 else c.
Definition lowercase (s : bytes) : bytes := tolower <$> s.

(** The C string an array starts with. *)
Fixpoint c_str (a : bytes) : outcome bytes :=
  match a with
  | [] => UB
  | c :: a => if c =? 0 then Ok [] else cons c <$> c_str a
  end.

(** [strncasecmp] on terminated strings: at most [n] characters, in lower case,
    up to the end of a string. *)
Fixpoint strncasecmp (n : nat) (s1 s2 : bytes) : Z :=
  match n, s1, s2 with
  | S n, c1 :: s1, c2 :: s2 =>
      if tolower c1 =? tolower c2 then if c1 =? 0 then 0 else strncasecmp n s1 s2
      else tolower c1 - tolower c2
  | _, _, _ => 0
  end.

(** [atoi]: blanks, a sign, digits up to the first other character. *)
Definition is_space (c : Z) : bool := (c =? 32) || ((9 <=? c) && (c <=? 13)).
Definition is_digit (c : Z) : bool := (48 <=? c) && (c <=? 57).

Fixpoint digits (acc : Z) (s : bytes) : Z :=
  match s with
  | c :: s => if is_digit c then digits (10 * acc + (c - 48)) s else acc
  | [] => acc
  end.

Fixpoint atoi (s : bytes) : Z :=
  match s with
  | [] => 0
  | c :: s' =>
      if is_space c then atoi s'
      else if c =? 45 then - digits 0 s'
      else if c =? 43 then digits 0 s'
      else digits 0 s
  end.

Example atoi_status : atoi (str "200") = 200 ∧ atoi (str " -7x") = -7 ∧ atoi (str "x") = 0.
Proof. done. Qed.

Module CStringFacts.

Lemma c_str_ok p : 0 ∉ p → c_str (p ++ [0]) = Ok p.
Proof.
  induction p as [|c p IH]; intros Hp; [done|]. apply not_elem_of_cons in Hp as [Hc Hp]. cbn [app c_str].
  rewrite (proj2 (Z.eqb_neq c 0)) by congruence. by rewrite (IH Hp).
Qed.

Lemma tolower_zero c : tolower c = 0 ↔ c = 0.
Proof. unfold tolower. destruct ((65 <=? c) && (c <=? 90)) eqn:E; zify_bools; lia. Qed.

Lemma strncasecmp_spec f p :
  length f = length p → 0 ∉ p → strncasecmp (length f) (f ++ [0]) (p ++ [0]) = 0 ↔ lowercase f = lowercase p.
Proof.
  revert p. induction f as [|c f IH]; intros [|d p] Hlen Hp; try done. injection Hlen as Hlen.
  apply not_elem_of_cons in Hp as [Hd Hp]. cbn [length app strncasecmp].
  change (lowercase (c :: f)) with (tolower c :: lowercase f).
  change (lowercase (d :: p)) with (tolower d :: lowercase p).
  destruct (tolower c =? tolower d) eqn:E; zify_bools.
  - destruct (c =? 0) eqn:Ec; zify_bools.
    + subst c. symmetry in E. change (tolower 0) with 0 in E. apply (proj1 (tolower_zero d)) in E. congruence.
    + rewrite (IH p Hlen Hp), E. split; congruence.
  - split; [lia|congruence].
Qed.

End CStringFacts.
