(* ===== verification/Log.v ===== *)
(** * Log: log lines and error texts (include/log.h, src/log.cc,
    include/error.h, src/error.cc)

    What the C library formats and the clock reports are explicit: a line is the
    bytes that [write] gets. *)

From S2P Require Import Prelude Words CString.
#[local] Open Scope Z_scope.

Definition FSW_LOG_BUFFER_SIZE : Z := 1024.
Definition FSW_LOG_DATE_STRLEN : Z := 64.
Definition FSW_WARN_MSG_SIZE : Z := 512.
Definition FSW_ERROR_MSG_SIZE : Z := 512.

(** [enum fswLog_level] *)
Definition FSW_LOG_DEBUG : Z := 0.
Definition FSW_LOG_TRACE : Z := 1.
Definition FSW_LOG_INFO : Z := 2.
Definition FSW_LOG_NOTICE : Z := 3.
Definition FSW_LOG_WARNING : Z := 4.
Definition FSW_LOG_ERROR : Z := 5.

(** [enum fswErrorCode] *)
Definition FSW_ERROR_SESSION_CLOSED_BY_SERVER : Z := 1001.
Definition FSW_ERROR_SESSION_CLOSED_BY_CLIENT : Z := 1002.

(** [struct tm] *)
Record tm := mkTm { tm_year : Z; tm_mon : Z; tm_mday : Z; tm_hour : Z; tm_min : Z; tm_sec : Z }.

Module Log.

(** [snprintf(dst, size, ...)] of the text [s]: what the array [dst] holds
    then, and the result, the length of the whole text. *)
Definition snprintf (dst : bytes) (size : Z) (s : bytes) : outcome (bytes * Z) :=
  dst ← mem_write dst 0 (take (Z.to_nat (size - 1)) s ++ [0]); Ok (dst, zlen s).

(** [%02d] *)
Definition two_digits (z : Z) : bytes :=
  let s := to_string z in if zlen s <? 2 then 48 :: s else s.

Definition level_str (level : Z) : bytes :=
  if level =? FSW_LOG_DEBUG then str "DEBUG"
  else if level =? FSW_LOG_NOTICE then str "NOTICE"
  else if level =? FSW_LOG_ERROR then str "ERROR"
  else if level =? FSW_LOG_WARNING then str "WARNING"
  else if level =? FSW_LOG_TRACE then str "TRACE"
  else str "INFO".

Definition date (p : tm) : bytes :=
  to_string (tm_year p + 1900) ++ str "-" ++ two_digits (tm_mon p + 1) ++ str "-" ++ two_digits (tm_mday p) ++ str " " ++
  two_digits (tm_hour p) ++ str ":" ++ two_digits (tm_min p) ++ str ":" ++ two_digits (tm_sec p).

(** [fswLog_put(level, cnt)]: [cnt] is a region with a string, [p] the local
    time, [date_str] and [log_str] what the two arrays hold. The result is what
    [write] is given. *)
Definition fswLog_put (level : Z) (cnt : bytes) (p : tm) (date_str log_str : bytes) : outcome bytes :=
  '(date_str, _) ← snprintf date_str FSW_LOG_DATE_STRLEN (date p);
  date ← c_str date_str;
  cnt ← c_str cnt;
  '(log_str, n) ← snprintf log_str FSW_LOG_BUFFER_SIZE
    (str "[" ++ date ++ str "]" ++ [9] ++ level_str level ++ [9] ++ cnt ++ [10]);
  mem_read log_str 0 n.

(** The text of [fswWarn] and [fswError]: the function, the formatted message
    and the place. *)
Definition message (func text file : bytes) (line : Z) : bytes :=
  func ++ str ": " ++ text ++ str " in " ++ file ++ str " on line " ++ to_string line ++ str ".".

(** [fswWarn] and [fswError]; [global] is what the global array holds. *)
Definition fswWarn (func text file : bytes) (line : Z) (global : bytes) (p : tm) (date_str log_str : bytes) : outcome bytes :=
  '(fsw_warn, _) ← snprintf global FSW_WARN_MSG_SIZE (message func text file line);
  fswLog_put FSW_LOG_WARNING fsw_warn p date_str log_str.
Definition fswError (func text file : bytes) (line : Z) (global : bytes) (p : tm) (date_str log_str : bytes) : outcome bytes :=
  '(fsw_error, _) ← snprintf global FSW_ERROR_MSG_SIZE (message func text file line);
  _ ← fswLog_put FSW_LOG_ERROR fsw_error p date_str log_str;
  Exit.

(** [fsw_strerror(code)] *)
Definition fsw_strerror (code : Z) (fsw_error : bytes) : outcome bytes :=
  if code =? FSW_ERROR_SESSION_CLOSED_BY_SERVER then Ok (str "Session closed by server")
  else if code =? FSW_ERROR_SESSION_CLOSED_BY_CLIENT then Ok (str "Session closed by client")
  else
    '(fsw_error, _) ← snprintf fsw_error FSW_ERROR_MSG_SIZE (str "Unknown error: " ++ to_string code);
    c_str fsw_error.

End Log.

Module LogFacts.
Import Log.

(** Texts without a terminator inside. *)
Definition text_ok (s : bytes) : Prop := 0 ∉ s.

Lemma text_ok_app s t : text_ok s → text_ok t → text_ok (s ++ t).
Proof. unfold text_ok. rewrite elem_of_app. tauto. Qed.

Lemma text_ok_take n s : text_ok s → text_ok (take n s).
Proof.
  intros H Hin. apply H. apply elem_of_take in Hin as (i & Hi & _). by eapply list_elem_of_lookup_2.
Qed.

Lemma text_ok_check s : forallb (λ b, negb (b =? 0)) s = true → text_ok s.
Proof.
  rewrite forallb_forall. intros H Hin. apply list_elem_of_In, H in Hin. zify_bools. done.
Qed.

(** Decimal numbers have no terminator, and [k] digits when below [10 ^ k]. *)
Lemma pretty_go_text x : ∀ s, text_ok (str s) → text_ok (str (pretty_N_go x s)).
Proof.
  induction (N.lt_wf_0 x) as [x _ IH]; intros s Hs. destruct (decide (x = 0)%N) as [->|Hx]; [done|].
  rewrite pretty_N_go_step by lia. apply IH; [by apply N.div_lt; lia|].
  intros Hin. change (str (String ?c s)) with (Z.of_N (Ascii.N_of_ascii c) :: str s) in Hin.
  apply elem_of_cons in Hin as [E|Hin]; [|by apply Hs]. unfold pretty_N_char in E.
  repeat case_match; discriminate E.
Qed.

Lemma pretty_go_length k : ∀ x s, (x < 10 ^ N.of_nat k)%N → (String.length (pretty_N_go x s) ≤ k + String.length s)%nat.
Proof.
  induction k as [|k IH]; intros x s Hx.
  - change (10 ^ N.of_nat 0)%N with 1%N in Hx. assert (x = 0)%N as -> by lia. done.
  - destruct (decide (x = 0)%N) as [->|H0]; [rewrite pretty_N_go_0; lia|]. rewrite pretty_N_go_step by lia.
    etrans; [apply IH|cbn [String.length]; lia]. rewrite Nat2N.inj_succ, N.pow_succ_r' in Hx.
    apply N.Div0.div_lt_upper_bound; lia.
Qed.

Lemma to_string_text v : text_ok (to_string v).
Proof.
  assert (HN : ∀ n : N, text_ok (str (pretty n))).
  { intros n. unfold pretty, pretty_N. case_decide; [by apply text_ok_check|]. by apply pretty_go_text, text_ok_check. }
  destruct v as [|v|v]; [by apply text_ok_check|apply (HN (Npos v))|].
  change (to_string (Zneg v)) with (45 :: str (pretty (Npos v))). intros Hin.
  apply elem_of_cons in Hin as [?|Hin]; [done|by apply (HN (Npos v))].
Qed.

Lemma zlen_str s : zlen (str s) = Z.of_nat (String.length s).
Proof. unfold zlen, str. rewrite length_fmap. f_equal. by induction s; cbn; f_equal. Qed.

Lemma to_string_length k v : (0 < k)%nat → 0 ≤ v < 10 ^ Z.of_nat k → zlen (to_string v) ≤ Z.of_nat k.
Proof.
  intros Hk Hv. unfold to_string. rewrite zlen_str. destruct v as [|v|v]; [cbn; lia| |lia].
  change (pretty (Zpos v)) with (pretty_N_go (Npos v) ""). pose proof (pretty_go_length k (Npos v) "") as H.
  cbn [String.length] in H. assert (N.pos v < 10 ^ N.of_nat k)%N.
  { apply N2Z.inj_lt. rewrite N2Z.inj_pow, nat_N_Z. change (Z.of_N 10) with 10. change (Z.of_N (Npos v)) with (Zpos v). lia. }
  lia.
Qed.

Lemma two_digits_text v : text_ok (two_digits v).
Proof. unfold two_digits. destruct (_ <? _); [|apply to_string_text]. intros Hin. apply elem_of_cons in Hin as [?|Hin]; [done|by apply to_string_text in Hin]. Qed.

Lemma two_digits_length v : 0 ≤ v < 100 → zlen (two_digits v) ≤ 2.
Proof.
  intros Hv. pose proof (to_string_length 2 v ltac:(lia) Hv). unfold two_digits. split_if; [rewrite zlen_cons; lia|lia].
Qed.

(** A date of our calendar. *)
Definition tm_ok (p : tm) : Prop :=
  0 ≤ tm_year p + 1900 < 10000 ∧ 0 ≤ tm_mon p < 12 ∧ 0 ≤ tm_mday p < 32 ∧ 0 ≤ tm_hour p < 24 ∧ 0 ≤ tm_min p < 60 ∧ 0 ≤ tm_sec p < 61.

Lemma date_text p : text_ok (date p).
Proof.
  unfold date. repeat apply text_ok_app; first [apply to_string_text|apply two_digits_text|by apply text_ok_check].
Qed.

Lemma date_length p : tm_ok p → zlen (date p) ≤ 19.
Proof.
  intros (H1 & H2 & H3 & H4 & H5 & H6). unfold date. rewrite !zlen_app.
  pose proof (to_string_length 4 _ ltac:(lia) H1).
  pose proof (two_digits_length (tm_mon p + 1) ltac:(lia)). pose proof (two_digits_length (tm_mday p) ltac:(lia)).
  pose proof (two_digits_length (tm_hour p) ltac:(lia)). pose proof (two_digits_length (tm_min p) ltac:(lia)).
  pose proof (two_digits_length (tm_sec p) ltac:(lia)). change (zlen (str "-")) with 1. change (zlen (str " ")) with 1.
  change (zlen (str ":")) with 1. lia.
Qed.

Lemma level_length level : zlen (level_str level) ≤ 7.
Proof. unfold level_str. repeat destruct (_ =? _); by vm_compute. Qed.

Lemma c_str_text x t : text_ok x → c_str (x ++ 0 :: t) = Ok x.
Proof.
  unfold text_ok. induction x as [|a x IH]; intros Hx; [done|]. apply not_elem_of_cons in Hx as [Ha Hx].
  cbn [app c_str]. rewrite (proj2 (Z.eqb_neq a 0)) by congruence. by rewrite IH.
Qed.

(** What [snprintf] leaves in an array of its size. *)
Lemma snprintf_ok dst size s :
  0 < size ≤ zlen dst → text_ok s →
  ∃ tail, snprintf dst size s = Ok (take (Z.to_nat (size - 1)) s ++ [0] ++ tail, zlen s) ∧
    zlen (take (Z.to_nat (size - 1)) s ++ [0] ++ tail) = zlen dst ∧
    c_str (take (Z.to_nat (size - 1)) s ++ [0] ++ tail) = Ok (take (Z.to_nat (size - 1)) s).
Proof.
  intros Hs Ht. set (x := take (Z.to_nat (size - 1)) s).
  assert (Hx : zlen x ≤ size - 1) by (unfold x, zlen; rewrite length_take; lia). pose proof (zlen_nonneg x).
  assert (Hx1 : zlen (x ++ [0]) = zlen x + 1) by (by rewrite zlen_app).
  exists (drop (Z.to_nat (zlen x + 1)) dst). unfold snprintf. fold x.
  rewrite mem_write_ok, outcome_bind_ok by lia. change (take (Z.to_nat 0) dst) with (@nil Z). cbn [app].
  rewrite Z.add_0_l, Hx1, <- app_assoc. split; [done|]. split.
  - rewrite zlen_app. cbn [app]. rewrite zlen_cons, zlen_drop by lia. lia.
  - cbn [app]. by apply c_str_text, text_ok_take.
Qed.

(** The line of a message. *)
Definition line_of (level : Z) (c : bytes) (p : tm) : bytes :=
  str "[" ++ date p ++ str "]" ++ [9] ++ level_str level ++ [9] ++ c ++ [10].

Lemma level_text level : text_ok (level_str level).
Proof. unfold level_str. repeat destruct (_ =? _); by apply text_ok_check. Qed.

Lemma line_text level c p : text_ok c → text_ok (line_of level c p).
Proof.
  intros Hc. unfold line_of.
  repeat first [apply date_text|apply level_text|exact Hc|apply text_ok_app|by apply text_ok_check].
Qed.

Lemma line_length level c p : tm_ok p → zlen (line_of level c p) ≤ 31 + zlen c.
Proof.
  intros Hp. unfold line_of. rewrite !zlen_app. pose proof (date_length p Hp). pose proof (level_length level).
  change (zlen (str "[")) with 1. change (zlen (str "]")) with 1. change (zlen [9]) with 1. change (zlen [10]) with 1. lia.
Qed.

(** [fswLog_put] of a text: the line when it fits, a NUL at its end when it is
    one byte too long, and a read behind the array otherwise. *)
Lemma put_line level c t p date_str log_str :
  text_ok c → tm_ok p → zlen date_str = FSW_LOG_DATE_STRLEN → zlen log_str = FSW_LOG_BUFFER_SIZE →
  fswLog_put level (c ++ 0 :: t) p date_str log_str =
    if zlen (line_of level c p) <=? 1023 then Ok (line_of level c p)
    else if zlen (line_of level c p) =? 1024 then Ok (take 1023 (line_of level c p) ++ [0]) else UB.
Proof.
  intros Hc Hp Hd Hl. unfold fswLog_put.
  destruct (snprintf_ok date_str FSW_LOG_DATE_STRLEN (date p)) as (t1 & -> & _ & H1);
    [rewrite Hd; by vm_compute|apply date_text|].
  rewrite outcome_bind_ok, H1, outcome_bind_ok, c_str_text, outcome_bind_ok by done.
  rewrite take_ge by (pose proof (date_length p Hp); unfold zlen, FSW_LOG_DATE_STRLEN in *; lia).
  change (str "[" ++ date p ++ _) with (line_of level c p).
  destruct (snprintf_ok log_str FSW_LOG_BUFFER_SIZE (line_of level c p)) as (t2 & -> & H2 & _);
    [rewrite Hl; by vm_compute|by apply line_text|].
  rewrite outcome_bind_ok. set (line := line_of level c p) in *. rewrite Hl in H2.
  change (Z.to_nat (FSW_LOG_BUFFER_SIZE - 1)) with 1023%nat in *. pose proof (zlen_nonneg line).
  unfold FSW_LOG_BUFFER_SIZE in H2. destruct (zlen line <=? 1023) eqn:E1; zify_bools.
  - rewrite mem_read_ok by lia. change (drop (Z.to_nat 0) ?l) with l. rewrite (take_ge line) by (unfold zlen in *; lia).
    by rewrite take_zlen_app.
  - destruct (zlen line =? 1024) eqn:E2; zify_bools.
    + rewrite mem_read_ok by lia. change (drop (Z.to_nat 0) ?l) with l. f_equal. rewrite app_assoc, take_app_le, take_ge; [done|..];
        rewrite length_app, length_take; cbn [length]; unfold zlen in *; lia.
    + unfold mem_read. split_if; [|done]. lia.
Qed.
End LogFacts.

(** A message of [fswWarn] always comes out as one whole line, cut to 511 bytes,
    and [fswError] ends the process: the sizes of the arrays are enough. *)
Theorem log_lines_fit (func text file : bytes) (line : Z) (global : bytes) (p : tm) (date_str log_str : bytes) :
  LogFacts.text_ok (func ++ text ++ file) → LogFacts.tm_ok p → zlen global = 512 →
  zlen date_str = FSW_LOG_DATE_STRLEN → zlen log_str = FSW_LOG_BUFFER_SIZE →
  Log.fswWarn func text file line global p date_str log_str =
    Ok (LogFacts.line_of FSW_LOG_WARNING (take 511 (Log.message func text file line)) p) ∧
  Log.fswError func text file line global p date_str log_str = Exit.
Proof.
  intros Ht Hp Hg Hd Hl. unfold LogFacts.text_ok in Ht. rewrite !not_elem_of_app in Ht. destruct Ht as (T1 & T2 & T3).
  set (m := Log.message func text file line).
  assert (Hm : LogFacts.text_ok m).
  { unfold m, Log.message. repeat apply LogFacts.text_ok_app; try done; try apply LogFacts.to_string_text; by apply LogFacts.text_ok_check. }
  destruct (LogFacts.snprintf_ok global 512 m) as (t & H & _ & _); [lia|done|]. change (Z.to_nat (512 - 1)) with 511%nat in H.
  assert (Hlen : ∀ l, zlen (LogFacts.line_of l (take 511 m) p) ≤ 1023).
  { intros l. pose proof (LogFacts.line_length l (take 511 m) p Hp) as Hn. unfold zlen in *. rewrite length_take in Hn. lia. }
  assert (Hput : ∀ l, Log.fswLog_put l (take 511 m ++ [0] ++ t) p date_str log_str = Ok (LogFacts.line_of l (take 511 m) p)).
  { intros l. cbn [app]. rewrite LogFacts.put_line by (done || by apply LogFacts.text_ok_take).
    by rewrite (proj2 (Z.leb_le _ _)) by apply Hlen. }
  unfold Log.fswWarn, Log.fswError. fold m. unfold FSW_WARN_MSG_SIZE, FSW_ERROR_MSG_SIZE.
  rewrite H, !outcome_bind_ok, !Hput. by rewrite outcome_bind_ok.
Qed.

(** Every code has its text. *)
Theorem strerror_total (code : Z) (fsw_error : bytes) :
  - 2 ^ 31 ≤ code < 2 ^ 31 → zlen fsw_error = FSW_ERROR_MSG_SIZE →
  Log.fsw_strerror code fsw_error =
    Ok (if code =? 1001 then str "Session closed by server" else if code =? 1002 then str "Session closed by client"
        else take 511 (str "Unknown error: " ++ to_string code)).
Proof.
  intros Hc Hz. unfold Log.fsw_strerror.
  change FSW_ERROR_SESSION_CLOSED_BY_SERVER with 1001. change FSW_ERROR_SESSION_CLOSED_BY_CLIENT with 1002.
  destruct (code =? 1001); [done|]. destruct (code =? 1002); [done|].
  destruct (LogFacts.snprintf_ok fsw_error FSW_ERROR_MSG_SIZE (str "Unknown error: " ++ to_string code)) as (t & -> & _ & H);
    [rewrite Hz; by vm_compute|apply LogFacts.text_ok_app; [by apply LogFacts.text_ok_check|apply LogFacts.to_string_text]|].
  by rewrite outcome_bind_ok, H.
Qed.
