(* ===== verification/Buffer.v ===== *)
(** * Buffer: the bounded byte buffer (include/buffer.h, src/buffer.cc)

    [buffer] is the object, with the bytes of the array [_buffer] points to.
    [Spec] is what the class promises: a byte string with a capacity, whose
    append ends the process when the capacity is exceeded. *)

From S2P Require Import Prelude Words.

(** ** The object *)
Record buffer := mkBuffer {
  _size : Z;      (** valid characters, excluding the last NUL *)
  _length : Z;
  _buffer : bytes
}.

#[global] Instance buffer_eq_dec : EqDecision buffer.
Proof. solve_decision. Defined.

Module Buffer.

(** [Buffer::Buffer(size_t size)]: the array is value-initialised. *)
Definition make (size : Z) : buffer :=
  mkBuffer size 0 (replicate (Z.to_nat (u64 (size + 1))) 0).

(** [append(char *str, size_t length)]: [str] is the region the pointer
    points into. The sum in the guard is a [size_t]. *)
Definition append_raw (b : buffer) (str : bytes) (length : Z) : outcome buffer :=
  if _size b <? u64 (_length b + length)
  then Exit (* fswError("buffer capacity is not enough") *)
  else
    data ← mem_read str 0 length;
    mem ← mem_write (_buffer b) (_length b) data;
    let length' := u64 (_length b + length) in
    mem ← mem_write mem length' [0];
    Ok (mkBuffer (_size b) length' mem).

(** [append(std::string str)] *)
Definition append_str (b : buffer) (s : bytes) : outcome buffer :=
  append_raw b (s ++ [0]) (zlen s).

(** [append(int value)] *)
Definition append_int (b : buffer) (value : Z) : outcome buffer :=
  append_str b (to_string value).

(** [append(Buffer *buffer)] *)
Definition append_buf (b buf : buffer) : outcome buffer :=
  append_raw b (_buffer buf) (_length buf).

Definition dup (b : buffer) : outcome buffer :=
  append_buf (make (_length b)) b.

(** [memcmp(p, q, n) == 0] *)
Definition memcmp_eq (p q : bytes) (n : Z) : outcome bool :=
  x ← mem_read p 0 n; y ← mem_read q 0 n; Ok (bool_decide (x = y)).

Definition equal (b target : buffer) : outcome bool :=
  if negb (_length b =? _length target) then Ok false
  else memcmp_eq (_buffer b) (_buffer target) (_length b).

Definition equal_str (b : buffer) (target : bytes) : outcome bool :=
  if negb (_length b =? zlen target) then Ok false
  else memcmp_eq (_buffer b) (target ++ [0]) (_length b).

Definition clear (b : buffer) : outcome buffer :=
  mem ← mem_write (_buffer b) 0 [0];
  Ok (mkBuffer (_size b) 0 mem).

(** [deep_equal] compares addresses: [this], [target] and the two data
    pointers are passed with the objects they denote. *)
Definition deep_equal (this this_data target target_data : positive)
    (b t : buffer) : outcome bool :=
  if negb (bool_decide (this = target)) || negb (_size b =? _size t)
     || negb (_length b =? _length t) || negb (bool_decide (this_data = target_data))
  then Ok false
  else memcmp_eq (_buffer b) (_buffer t) (_length b).

(** The characters stored so far. *)
Definition contents (b : buffer) : bytes := take (Z.to_nat (_length b)) (_buffer b).

(** The object invariant: the array has room for the capacity and a NUL, the
    length is within the capacity, and the character after the contents is
    the NUL that makes [c_buffer()] a C string. The capacity is below
    [SIZE_MAX], the largest one the constructor can allocate for. *)
Record wf (b : buffer) : Prop := {
  wf_len : 0 ≤ _length b ≤ _size b;
  wf_size : _size b < SIZE_MAX;
  wf_mem : zlen (_buffer b) = _size b + 1;
  wf_bytes : bytes_ok (_buffer b);
  wf_nul : _buffer b !! Z.to_nat (_length b) = Some 0
}.

(** A well-formed buffer is its contents, a NUL and some slack. *)
Definition shape (b : buffer) (c tail : bytes) : Prop :=
  _length b = zlen c ∧ _buffer b = c ++ 0 :: tail ∧
  _size b = zlen c + zlen tail ∧ bytes_ok c ∧ bytes_ok tail.

Lemma wf_shape b : wf b → ∃ tail, shape b (contents b) tail.
Proof.
  intros [Hl Hs Hm Hb Hn]. exists (drop (S (Z.to_nat (_length b))) (_buffer b)).
  assert (Hc : zlen (contents b) = _length b) by (apply zlen_take; lia).
  assert (He : _buffer b = contents b ++ 0 :: drop (S (Z.to_nat (_length b))) (_buffer b)).
  { unfold contents. symmetry. by apply take_drop_middle. }
  repeat split; try done; [|by apply Forall_take|by apply Forall_drop].
  apply (f_equal zlen) in He. rewrite zlen_app, zlen_cons in He. lia.
Qed.

Lemma shape_wf b c tail : shape b c tail → _size b < SIZE_MAX → wf b ∧ contents b = c.
Proof.
  intros (Hl & Hm & Hs & Hc & Ht) Hlt. pose proof (zlen_nonneg tail).
  assert (Hn : Z.to_nat (_length b) = length c) by (rewrite Hl; unfold zlen; lia).
  split; [|unfold contents; by rewrite Hn, Hm, take_app_length].
  split; [pose proof (zlen_nonneg c); lia|done| | |].
  - rewrite Hm, zlen_app, zlen_cons. lia.
  - rewrite Hm. apply Forall_app_2; [done|]. by constructor.
  - by rewrite Hm, Hn, list_lookup_middle.
Qed.

Lemma zlen_contents b : wf b → zlen (contents b) = _length b.
Proof. intros [Hl Hs Hm Hb Hn]. apply zlen_take; lia. Qed.

Lemma contents_bytes_ok b : wf b → bytes_ok (contents b).
Proof. intros []. by apply Forall_take. Qed.

Lemma make_wf size : 0 ≤ size < SIZE_MAX → wf (make size) ∧ contents (make size) = [].
Proof.
  intros Hs. apply (shape_wf _ [] (replicate (Z.to_nat size) 0)); [|unfold make; cbn; lia].
  unfold make, shape, SIZE_MAX in *. cbn [_length _buffer _size].
  rewrite u64_id by lia. rewrite zlen_replicate.
  split_and!; [done| |unfold zlen; cbn [length]; lia|by constructor|].
  - replace (Z.to_nat (size + 1)) with (S (Z.to_nat size)) by lia. done.
  - by apply Forall_replicate.
Qed.

(** The whole behaviour of an append of [length] bytes that the source
    region holds, when the guard's sum does not wrap. *)
Lemma append_raw_ok b s n :
  wf b → bytes_ok s → 0 ≤ n ≤ zlen s → _length b + n < 2 ^ 64 →
  if _size b <? _length b + n then append_raw b s n = Exit
  else ∃ b', append_raw b s n = Ok b' ∧ wf b' ∧ _size b' = _size b ∧
             contents b' = contents b ++ take (Z.to_nat n) s.
Proof.
  intros Hwf Hs Hn Hsum. pose proof (zlen_contents b Hwf) as Hlen.
  destruct (wf_shape b Hwf) as (tail & Hl & Hm & Hsz & Hc & Ht).
  pose proof (wf_len b Hwf). pose proof (wf_size b Hwf).
  unfold append_raw. rewrite u64_id by lia. split_if; [done|].
  set (d := take (Z.to_nat n) s). assert (Hd : zlen d = n) by (apply zlen_take; lia).
  rewrite mem_read_ok by lia. change (drop (Z.to_nat 0) s) with s. fold d. rewrite outcome_bind_ok.
  (* the copied bytes replace the NUL and the head of the tail *)
  assert (Hsplit : ∃ u z v, 0 :: tail = u ++ z :: v ∧ zlen u = n ∧ bytes_ok v).
  { exists (take (Z.to_nat n) (0 :: tail)).
    destruct (drop (Z.to_nat n) (0 :: tail)) as [|z v] eqn:E.
    { apply (f_equal length) in E. rewrite length_drop in E. unfold zlen in *.
      cbn [length] in E. lia. }
    exists z, v. rewrite <- E, take_drop. split; [done|]. split.
    - apply zlen_take. rewrite zlen_cons. lia.
    - assert (bytes_ok (z :: v)) as Hv by (rewrite <- E; apply Forall_drop; by constructor).
      by inversion Hv. }
  destruct Hsplit as (u & z & v & Huv & Hu & Hv).
  rewrite Hm, Huv, <- Hlen.
  rewrite (mem_write_split (contents b) u d (z :: v)) by congruence.
  rewrite outcome_bind_ok. cbv zeta.
  replace (zlen (contents b) + n) with (zlen (contents b ++ d)) by (rewrite zlen_app; lia).
  rewrite (app_assoc (contents b)). change (z :: v) with ([z] ++ v).
  rewrite mem_write_split by done. rewrite outcome_bind_ok.
  eexists; split; [reflexivity|]. apply (f_equal zlen) in Huv.
  autorewrite with zlen in Huv.
  destruct (shape_wf (mkBuffer (_size b) (zlen (contents b ++ d))
    ((contents b ++ d) ++ [0] ++ v)) (contents b ++ d) v) as [Hw Hco]; cbn; try done.
  repeat split; cbn; try done.
  - rewrite zlen_app. lia.
  - apply Forall_app_2; [done|]. by apply Forall_take.
Qed.

Lemma append_str_ok b s :
  wf b → bytes_ok s → _length b + zlen s < 2 ^ 64 →
  if _size b <? _length b + zlen s then append_str b s = Exit
  else ∃ b', append_str b s = Ok b' ∧ wf b' ∧ _size b' = _size b ∧
             contents b' = contents b ++ s.
Proof.
  intros Hwf Hs Hsum.
  pose proof (append_raw_ok b (s ++ [0]) (zlen s) Hwf) as H.
  rewrite take_zlen_app in H.
  apply H; [|solve_zlen|done].
  apply Forall_app_2; [done|by repeat constructor].
Qed.

Lemma append_buf_ok b o :
  wf b → wf o → _length b + _length o < 2 ^ 64 →
  if _size b <? _length b + _length o then append_buf b o = Exit
  else ∃ b', append_buf b o = Ok b' ∧ wf b' ∧ _size b' = _size b ∧
             contents b' = contents b ++ contents o.
Proof.
  intros Hb Ho Hsum.
  apply (append_raw_ok b (_buffer o) (_length o)); auto using wf_bytes.
  destruct Ho as [? ? Hm _ _]. lia.
Qed.

Lemma clear_ok b : wf b → ∃ b', clear b = Ok b' ∧ wf b' ∧ _size b' = _size b ∧ contents b' = [].
Proof.
  intros Hwf. pose proof (wf_len b Hwf). pose proof (wf_size b Hwf) as Hsz.
  pose proof (wf_mem b Hwf) as Hm. pose proof (wf_bytes b Hwf) as Hb.
  unfold clear. destruct (_buffer b) as [|x t] eqn:E; [rewrite zlen_nil in Hm; lia|].
  rewrite (mem_write_split [] [x] [0] t eq_refl : mem_write (x :: t) 0 [0] = _).
  rewrite outcome_bind_ok. eexists; split; [reflexivity|].
  rewrite zlen_cons in Hm. inversion Hb; subst.
  destruct (shape_wf (mkBuffer (_size b) 0 ([] ++ [0] ++ t)) [] t); cbn; try done.
  repeat split; cbn; try done. unfold zlen in *. cbn. lia.
Qed.
End Buffer.

(** ** What the class promises *)
Module BufferSpec.
(** A bounded byte string. *)
Record t := mk { cap : Z; chars : bytes }.

(** The calls of the public interface that change the buffer, with the
    object the pointer argument denotes. *)
Inductive op :=
| AppendRaw (s : bytes) (length : Z)
| AppendStr (s : bytes)
| AppendInt (value : Z)
| AppendBuf (o : buffer)
| Clear.

Definition added (o : op) : bytes :=
  match o with
  | AppendRaw s n => take (Z.to_nat n) s
  | AppendStr s => s
  | AppendInt v => to_string v
  | AppendBuf b => Buffer.contents b
  | Clear => []
  end.

Definition spec_step (s : t) (o : op) : outcome t :=
  match o with
  | Clear => Ok (mk (cap s) [])
  | _ => if cap s <? zlen (chars s) + zlen (added o) then Exit
         else Ok (mk (cap s) (chars s ++ added o))
  end.

Definition step (b : buffer) (o : op) : outcome buffer :=
  match o with
  | AppendRaw s n => Buffer.append_raw b s n
  | AppendStr s => Buffer.append_str b s
  | AppendInt v => Buffer.append_int b v
  | AppendBuf o => Buffer.append_buf b o
  | Clear => Buffer.clear b
  end.

(** The arguments a caller may pass: bytes, a length the source region has,
    a live buffer; no object is larger than [PTRDIFF_MAX]. *)
Definition op_ok (o : op) : Prop :=
  match o with
  | AppendRaw s n => bytes_ok s ∧ 0 ≤ n ≤ zlen s ∧ zlen s < 2 ^ 63
  | AppendStr s => bytes_ok s ∧ zlen s < 2 ^ 63
  | AppendInt v => zlen (to_string v) < 2 ^ 63
  | AppendBuf b => Buffer.wf b ∧ _size b < 2 ^ 63
  | Clear => True
  end.

Definition abs (b : buffer) : t := mk (_size b) (Buffer.contents b).

Lemma step_refines b o :
  Buffer.wf b → _size b < 2 ^ 63 → op_ok o →
  match step b o with
  | Ok b' => spec_step (abs b) o = Ok (abs b') ∧ Buffer.wf b' ∧ _size b' = _size b
  | Exit => spec_step (abs b) o = Exit
  | UB => False
  end.
Proof.
  intros Hwf Hsz Hop. pose proof (Buffer.wf_len b Hwf).
  pose proof (Buffer.zlen_contents b Hwf) as Hlen.
  (* every append has the same shape *)
  assert (Happ : ∀ (m : outcome buffer) n d, zlen d = n →
    (if _size b <? _length b + n then m = Exit
     else ∃ b', m = Ok b' ∧ Buffer.wf b' ∧ _size b' = _size b ∧
                Buffer.contents b' = Buffer.contents b ++ d) →
    match m with
    | Ok b' => (if _size b <? zlen (Buffer.contents b) + zlen d then Exit
                else Ok (mk (_size b) (Buffer.contents b ++ d))) = Ok (abs b')
               ∧ Buffer.wf b' ∧ _size b' = _size b
    | Exit => (if _size b <? zlen (Buffer.contents b) + zlen d then Exit
               else Ok (mk (_size b) (Buffer.contents b ++ d))) = Exit
    | UB => False
    end).
  { intros m n d <-. rewrite Hlen. split_if; [by intros ->|].
    intros (b' & -> & Hb' & Hs & Hc). unfold abs. by rewrite Hs, Hc. }
  destruct o as [s n|s|v|o|]; cbn [op_ok step] in *; unfold spec_step, added; cbn [cap chars abs].
  - destruct Hop as (Hs & Hn & ?). apply (Happ _ n); [by apply zlen_take|].
    apply Buffer.append_raw_ok; auto. lia.
  - destruct Hop as (Hs & ?). apply (Happ _ (zlen s)); [done|].
    apply Buffer.append_str_ok; auto. lia.
  - apply (Happ _ (zlen (to_string v))); [done|].
    apply Buffer.append_str_ok; auto with fsw. lia.
  - destruct Hop as (Ho & ?). pose proof (Buffer.wf_len o Ho).
    apply (Happ _ (_length o)); [by apply Buffer.zlen_contents|].
    apply Buffer.append_buf_ok; auto. lia.
  - destruct (Buffer.clear_ok b Hwf) as (b' & -> & Hb' & Hs & Hc).
    unfold abs. by rewrite Hs, Hc.
Qed.

(** A sequence of calls. *)
Fixpoint run {S} (f : S → op → outcome S) (s : S) (ops : list op) : outcome S :=
  match ops with
  | [] => Ok s
  | o :: ops => s' ← f s o; run f s' ops
  end.

Lemma run_refines b ops :
  Buffer.wf b → _size b < 2 ^ 63 → Forall op_ok ops →
  match run step b ops with
  | Ok b' => run spec_step (abs b) ops = Ok (abs b') ∧ Buffer.wf b'
  | Exit => run spec_step (abs b) ops = Exit
  | UB => False
  end.
Proof.
  intros Hwf Hsz Hops. revert b Hwf Hsz. induction Hops as [|o ops Ho _ IH]; intros b Hwf Hsz.
  { by cbn. }
  cbn [run]. pose proof (step_refines b o Hwf Hsz Ho) as Hstep.
  destruct (step b o) as [b'| |]; [|by rewrite Hstep|done].
  destruct Hstep as (-> & Hwf' & Hs). apply IH; [done|lia].
Qed.
End BufferSpec.

(** ** Properties *)
Section buffer_properties.

(** C15: data refinement of the bounded byte string. A buffer built by the
    constructor and driven through any sequence of appends (of raw bytes, a
    string, an int, another buffer) and clears behaves as the abstract
    string of that capacity: it never makes an access outside its array, it
    ends the process exactly when the abstract append exceeds the capacity,
    and otherwise holds the abstract contents, still well-formed. *)
Theorem buffer_refines_bounded_string (size : Z) (ops : list BufferSpec.op) :
  0 ≤ size < 2 ^ 63 → Forall BufferSpec.op_ok ops →
  match BufferSpec.run BufferSpec.step (Buffer.make size) ops with
  | Ok b => BufferSpec.run BufferSpec.spec_step (BufferSpec.mk size []) ops
              = Ok (BufferSpec.abs b) ∧ Buffer.wf b
  | Exit => BufferSpec.run BufferSpec.spec_step (BufferSpec.mk size []) ops = Exit
  | UB => False
  end.
Proof.
  intros Hs Hops. destruct (Buffer.make_wf size) as [Hwf Hc]; [in_words|].
  pose proof (BufferSpec.run_refines (Buffer.make size) ops Hwf) as H.
  unfold BufferSpec.abs in H at 1 2. rewrite Hc in H. apply H; [cbn; lia|done].
Qed.

(** A duplicate has exactly the capacity it needs, equals the original,
    and equality of buffers is equality of their contents (NUL bytes
    included: the buffer is binary safe). *)
Theorem buffer_dup_equal (b t : buffer) :
  Buffer.wf b → Buffer.wf t → _size b < 2 ^ 63 →
  Buffer.equal b t = Ok (bool_decide (Buffer.contents b = Buffer.contents t)) ∧
  ∃ b', Buffer.dup b = Ok b' ∧ Buffer.wf b' ∧ _size b' = _length b ∧
        Buffer.contents b' = Buffer.contents b ∧ Buffer.equal b b' = Ok true.
Proof.
  intros Hb Ht Hs.
  assert (Heq : ∀ x, Buffer.wf x →
    Buffer.equal b x = Ok (bool_decide (Buffer.contents b = Buffer.contents x))).
  { intros x Hx. unfold Buffer.equal, Buffer.memcmp_eq.
    destruct Hb as [Hbl _ Hbm _ _], Hx as [Hxl _ Hxm _ _].
    destruct (_length b =? _length x) eqn:E; zify_bools; cbn [negb].
    - rewrite !mem_read_ok by lia. cbn. unfold Buffer.contents. by rewrite E.
    - rewrite bool_decide_false; [done|]. intros Hc. apply E.
      apply (f_equal zlen) in Hc. unfold Buffer.contents in Hc.
      rewrite !zlen_take in Hc by lia. done. }
  split; [by apply Heq|].
  pose proof (Buffer.wf_len b Hb). unfold Buffer.dup.
  destruct (Buffer.make_wf (_length b)) as [Hm Hc]; [in_words|].
  pose proof (Buffer.append_buf_ok _ b Hm Hb) as H'. cbn [Buffer.make _length _size] in H'.
  split_if_in H'; [lia|]. destruct H' as (b' & Hd & Hb' & Hs' & Hc'); [lia|].
  exists b'. rewrite Hc in Hc'. rewrite (Heq b' Hb'), Hc'. cbn [app].
  by rewrite bool_decide_true.
Qed.

(** The capacity guard adds two [size_t]s. For every length a caller can
    pass, the append ends the process when the wrapped sum exceeds the
    capacity, succeeds when the true sum fits, and otherwise (the sum wrapped
    below the capacity) goes on to copy outside the source object. *)
Theorem buffer_append_guard (b : buffer) (s : bytes) (n : Z) :
  Buffer.wf b → bytes_ok s → 0 ≤ n < 2 ^ 64 → _size b < 2 ^ 63 → zlen s < 2 ^ 63 →
  defined (Buffer.append_raw b s n) =
    (_length b + n <=? _size b) && (n <=? zlen s) ∧
  (2 ^ 64 ≤ _length b + n ≤ 2 ^ 64 + _size b → Buffer.append_raw b s n = UB).
Proof.
  intros Hb Hs Hn Hsz Hzs. pose proof (Buffer.wf_len b Hb).
  assert (Hwrap : 2 ^ 64 ≤ _length b + n ≤ 2 ^ 64 + _size b → Buffer.append_raw b s n = UB).
  { intros Hw. unfold Buffer.append_raw, mem_read.
    replace (u64 (_length b + n)) with (_length b + n - 2 ^ 64) by in_words.
    split_if; [lia|]. split_if; [lia|done]. }
  split; [|done].
  destruct (decide (n ≤ zlen s)) as [Hle|Hgt].
  - pose proof (Buffer.append_raw_ok b s n Hb Hs) as H'.
    split_if_in H'; [rewrite H' by lia|destruct H' as (b' & -> & _); [lia|lia|]];
      cbn; symmetry; [apply andb_false_intro1|apply andb_true_intro; split]; lia.
  - rewrite (proj2 (Z.leb_gt n _)), andb_false_r by lia.
    unfold Buffer.append_raw, mem_read. split_if; [done|]. split_if; [lia|done].
Qed.
End buffer_properties.

(** Witnesses: a concrete buffer satisfies the hypotheses. *)
Definition buffer_example : buffer := Eval vm_compute in Buffer.make 8.

Lemma buffer_example_wf : Buffer.wf buffer_example.
Proof. apply (Buffer.make_wf 8). unfold SIZE_MAX. lia. Qed.

Lemma buffer_refines_bounded_string_witness :
  match BufferSpec.run BufferSpec.step (Buffer.make 8)
          [BufferSpec.AppendStr (str "fsw"); BufferSpec.AppendInt (-42)] with
  | Ok b => BufferSpec.run BufferSpec.spec_step (BufferSpec.mk 8 [])
              [BufferSpec.AppendStr (str "fsw"); BufferSpec.AppendInt (-42)]
              = Ok (BufferSpec.abs b) ∧ Buffer.wf b
  | Exit => False
  | UB => False
  end.
Proof.
  apply (buffer_refines_bounded_string 8
    [BufferSpec.AppendStr (str "fsw"); BufferSpec.AppendInt (-42)]); [lia|].
  repeat constructor; cbn; lia.
Defined.

Lemma buffer_dup_equal_witness :
  Buffer.equal buffer_example buffer_example = Ok true ∧ _size buffer_example = 8.
Proof.
  split; [|reflexivity].
  destruct (buffer_dup_equal buffer_example buffer_example) as [H _];
    [apply buffer_example_wf|apply buffer_example_wf|cbn; lia|].
  rewrite H. reflexivity.
Defined.

Lemma buffer_append_guard_witness :
  defined (Buffer.append_raw buffer_example (str "fsw") 3) = true ∧
  Buffer.append_raw buffer_example (str "fsw") SIZE_MAX = Exit.
Proof.
  split; [|reflexivity].
  destruct (buffer_append_guard buffer_example (str "fsw") 3) as [H _];
    [apply buffer_example_wf|apply bytes_ok_str|lia|reflexivity|reflexivity|].
  rewrite H. reflexivity.
Defined.
