(* ===== verification/StdMap.v ===== *)
(** * StdMap: [std::map] with string keys

    What the source uses of the standard library's ordered map
    ([operator[]], [find], [clear], iteration), as the list of its entries in
    key order, and the refinement of it to a finite map. *)

From S2P Require Import Prelude.
From stdpp Require Import gmap sorting.
#[local] Open Scope Z_scope.

(** [std::less<std::string>]: [char_traits<char>::compare] compares the
    characters as unsigned ones, a proper prefix is smaller. *)
Fixpoint string_lt (a b : bytes) : bool :=
  match a, b with
  | _, [] => false
  | [], _ :: _ => true
  | x :: a, y :: b => (x <? y) || ((x =? y) && string_lt a b)
  end.

Abbreviation stdmap A := (list (bytes * A)).

Module StdMap.
Section ops.
Context {A : Type}.
Implicit Types (m : stdmap A) (k : bytes) (v : A).

(** [m[k] = v] *)
Fixpoint assign k v m : stdmap A :=
  match m with
  | [] => [(k, v)]
  | (k', v') :: m' =>
      if string_lt k k' then (k, v) :: m
      else if string_lt k' k then (k', v') :: assign k v m'
      else (k', v) :: m'
  end.

(** [m.find(k)]: [None] is [m.end()]. *)
Fixpoint find k m : option A :=
  match m with
  | [] => None
  | (k', v) :: m' =>
      if string_lt k k' then None
      else if string_lt k' k then find k m'
      else Some v
  end.

(** The entries in strictly increasing key order. *)
Definition before (x y : bytes * A) : Prop := string_lt x.1 y.1 = true.
Definition ordered m : Prop := StronglySorted before m.
End ops.

(** ** The order *)
Lemma string_lt_irrefl a : string_lt a a = false.
Proof.
  induction a as [|x a IH]; [done|]. cbn. rewrite Z.ltb_irrefl, Z.eqb_refl. exact IH.
Qed.

Lemma string_lt_trans a b c : string_lt a b = true → string_lt b c = true → string_lt a c = true.
Proof.
  revert b c. induction a as [|x a IH]; intros [|y b] [|z c]; cbn; try done.
  intros [H1|H1]%orb_true_iff [H2|H2]%orb_true_iff; apply orb_true_iff; zify_bools.
  - left. apply Z.ltb_lt. lia.
  - left. apply Z.ltb_lt. lia.
  - left. apply Z.ltb_lt. lia.
  - right. apply andb_true_iff. split; [apply Z.eqb_eq; lia|by eapply IH].
Qed.

Lemma string_lt_total a b : string_lt a b = false → string_lt b a = false → a = b.
Proof.
  revert b. induction a as [|x a IH]; intros [|y b]; cbn; try done.
  intros H1 H2. zify_bools.
  assert (x = y) as -> by lia. rewrite Z.eqb_refl in *. cbn in *. f_equal. auto.
Qed.

Lemma string_lt_asym a b : string_lt a b = true → string_lt b a = false.
Proof.
  intros H. destruct (string_lt b a) eqn:E; [|done].
  pose proof (string_lt_trans _ _ _ H E) as H1. by rewrite string_lt_irrefl in H1.
Qed.

Lemma string_lt_ne a b : string_lt a b = true → a ≠ b.
Proof. intros H ->. by rewrite string_lt_irrefl in H. Qed.

Section laws.
Context {A : Type}.
Implicit Types (m : stdmap A) (k : bytes) (v : A).

#[export] Instance before_trans : Transitive (@before A).
Proof. intros x y z. apply string_lt_trans. Qed.

Lemma find_absent k m : Forall (λ x, string_lt k x.1 = true) m → find k m = None.
Proof. destruct m as [|[k' v] m]; [done|]. intros [H _]%Forall_cons_1. cbn in *. by rewrite H. Qed.

Lemma assign_forall (P : bytes → Prop) k v m :
  P k → Forall (λ x, P x.1) m → Forall (λ x, P x.1) (assign k v m).
Proof.
  intros Hk. induction m as [|[k' v'] m IH]; cbn; intros H.
  - by apply Forall_cons_2.
  - apply Forall_cons_1 in H as [H1 H2].
    destruct (string_lt k k'); [|destruct (string_lt k' k)]; repeat apply Forall_cons_2; auto.
Qed.

Lemma assign_ordered k v m : ordered m → ordered (assign k v m).
Proof.
  induction 1 as [|[k' v'] m Hm IH Hk]; cbn; [by repeat constructor|].
  destruct (string_lt k k') eqn:E1; [|destruct (string_lt k' k) eqn:E2].
  - constructor; [by constructor|]. apply Forall_cons_2; [done|].
    eapply Forall_impl; [exact Hk|]. intros [k2 v2] H. by eapply string_lt_trans.
  - constructor; [done|]. by apply (assign_forall (λ x, string_lt k' x = true)).
  - by constructor.
Qed.

Lemma find_assign_eq k v m : ordered m → find k (assign k v m) = Some v.
Proof.
  induction 1 as [|[k' v'] m Hm IH Hk]; cbn; [by rewrite string_lt_irrefl|].
  destruct (string_lt k k') eqn:E1; [|destruct (string_lt k' k) eqn:E2]; cbn.
  - by rewrite string_lt_irrefl.
  - by rewrite E1, E2.
  - by rewrite E1, E2.
Qed.

Lemma find_assign_ne k k2 v m : ordered m → k ≠ k2 → find k2 (assign k v m) = find k2 m.
Proof.
  intros Hm Hne. induction Hm as [|[k' v'] m Hm IH Hk]; cbn.
  - destruct (string_lt k2 k) eqn:E1; [done|]. destruct (string_lt k k2) eqn:E2; [done|].
    destruct Hne. by apply string_lt_total.
  - destruct (string_lt k k') eqn:E1; [|destruct (string_lt k' k) eqn:E2]; cbn.
    + destruct (string_lt k2 k) eqn:E3.
      * by rewrite (string_lt_trans _ _ _ E3 E1).
      * destruct (string_lt k k2) eqn:E4; [done|]. destruct Hne. by apply string_lt_total.
    + by rewrite IH.
    + assert (k = k') as <- by (by apply string_lt_total).
      destruct (string_lt k2 k) eqn:E3; [done|]. destruct (string_lt k k2) eqn:E4; [done|].
      destruct Hne. by apply string_lt_total.
Qed.

Lemma find_in k v m : ordered m → find k m = Some v ↔ (k, v) ∈ m.
Proof.
  induction 1 as [|[k' v'] m Hm IH Hk]; cbn; [split; [done|by intros ?%elem_of_nil]|].
  rewrite elem_of_cons. rewrite Forall_forall in Hk.
  destruct (string_lt k k') eqn:E1; [|destruct (string_lt k' k) eqn:E2].
  - split; [done|]. intros [[= -> ->]|Hin]; [by rewrite string_lt_irrefl in E1|].
    apply Hk in Hin. unfold before in Hin. cbn in Hin. rewrite (string_lt_asym _ _ Hin) in E1. done.
  - rewrite IH. split; [by right|]. intros [[= -> ->]|Hin]; [by rewrite string_lt_irrefl in E2|done].
  - assert (k = k') as <- by (by apply string_lt_total). split; [intros [= ->]; by left|].
    intros [[= ->]|Hin]; [done|]. apply Hk in Hin. unfold before in Hin. cbn in Hin. congruence.
Qed.

(** An ordered map is determined by its lookups. *)
Lemma ordered_ext m m' : ordered m → ordered m' → (∀ k, find k m = find k m') → m = m'.
Proof.
  intros Hm. revert m'. induction Hm as [|[k v] m Hm IH Hk]; intros m' Hm' H.
  - destruct m' as [|[k v] m']; [done|]. specialize (H k). cbn in H. by rewrite string_lt_irrefl in H.
  - destruct Hm' as [|[k' v'] m' Hm' Hk'].
    { specialize (H k). cbn in H. by rewrite string_lt_irrefl in H. }
    assert (k = k') as <-.
    { apply string_lt_total.
      - pose proof (H k) as Ek. cbn in Ek. rewrite string_lt_irrefl in Ek.
        by destruct (string_lt k k').
      - pose proof (H k') as Ek. cbn in Ek. rewrite string_lt_irrefl in Ek.
        by destruct (string_lt k' k). }
    assert (v = v') as <-.
    { pose proof (H k) as Ek. cbn in Ek. rewrite string_lt_irrefl in Ek. by injection Ek. }
    f_equal. apply IH; [done|]. intros k2. specialize (H k2). cbn in H.
    destruct (string_lt k2 k) eqn:E1.
    + assert (G : ∀ n : stdmap A, Forall (before (k, v)) n → find k2 n = None).
      { intros n Hn. apply find_absent. eapply Forall_impl; [exact Hn|].
        intros x Hx. eapply string_lt_trans; [exact E1|exact Hx]. }
      by rewrite (G m), (G m').
    + destruct (string_lt k k2) eqn:E2; [done|].
      assert (k = k2) as <- by (by apply string_lt_total).
      rewrite (find_absent k m), (find_absent k m'); done.
Qed.

(** ** Refinement to finite maps *)
Definition to_gmap m : gmap bytes A := list_to_map m.

Lemma ordered_keys m : ordered m → NoDup m.*1.
Proof.
  induction 1 as [|[k v] m Hm IH Hk]; cbn; [constructor|]. apply NoDup_cons. split; [|done].
  intros Hin. apply list_elem_of_fmap in Hin as ([k' v'] & -> & Hin).
  rewrite Forall_forall in Hk. apply Hk in Hin. unfold before in Hin. cbn in Hin.
  by rewrite string_lt_irrefl in Hin.
Qed.

Lemma find_to_gmap k m : ordered m → find k m = to_gmap m !! k.
Proof.
  intros Hm. unfold to_gmap. destruct (find k m) as [v|] eqn:E.
  - symmetry. apply elem_of_list_to_map; [by apply ordered_keys|]. by apply find_in.
  - symmetry. apply not_elem_of_list_to_map. intros Hin.
    apply list_elem_of_fmap in Hin as ([k' v] & -> & Hin). cbn in E.
    apply find_in in Hin; [congruence|done].
Qed.

Lemma assign_to_gmap k v m : ordered m → to_gmap (assign k v m) = <[k := v]> (to_gmap m).
Proof.
  intros Hm. apply map_eq. intros k2. rewrite <- find_to_gmap by (by apply assign_ordered).
  destruct (decide (k = k2)) as [<-|Hne].
  - by rewrite find_assign_eq, lookup_insert_eq.
  - by rewrite find_assign_ne, lookup_insert_ne, find_to_gmap.
Qed.
End laws.

(** ** Programs over a map *)
Section folding.
Context {A : Type}.

(** The map after the assignments of a list, from the first to the last. *)
Definition assign_all (l : list (bytes * A)) (m : stdmap A) : stdmap A :=
  foldl (λ m x, assign x.1 x.2 m) m l.

Lemma assign_all_ordered l (m : stdmap A) : ordered m → ordered (assign_all l m).
Proof. revert m. induction l as [|[k v] l IH]; intros m Hm; [done|]. apply IH. by apply assign_ordered. Qed.

Lemma assign_all_to_gmap l (m : stdmap A) :
  ordered m → to_gmap (assign_all l m) = list_to_map (reverse l) ∪ to_gmap m.
Proof.
  revert m. induction l as [|[k v] l IH]; intros m Hm; cbn [assign_all foldl].
  - rewrite reverse_nil. cbn. by rewrite map_empty_union.
  - change (foldl _ _ l) with (assign_all l (assign k v m)). rewrite IH by (by apply assign_ordered).
    rewrite assign_to_gmap by done. rewrite reverse_cons, list_to_map_app. cbn.
    rewrite insert_empty. apply map_eq. intros k2. rewrite !lookup_union.
    destruct (list_to_map (reverse l) !! k2); cbn; [by rewrite !union_Some_l|].
    destruct (decide (k = k2)) as [<-|Hne].
    + rewrite !lookup_insert_eq. cbn. rewrite lookup_singleton_eq. cbn. by destruct (to_gmap m !! k).
    + rewrite !lookup_insert_ne by done. rewrite lookup_singleton_ne by done.
      by rewrite !(left_id None _).
Qed.
End folding.
End StdMap.
