(* ===== verification/Base64.v ===== *)
(** * Base64: the codec behind the websocket handshake (src/base64.cc)

    Both functions work on small local arrays that C++ leaves uninitialised:
    their initial contents [j3], [j4] are arguments of the model, so a theorem
    about the result also says that it does not depend on them. [Rfc4648] is
    the reference: groups of 24 bits read as four sextets. *)

From S2P Require Import Prelude Words.

Module Base64.

Definition base64_chars : bytes :=
  str "ABCDEFGHIJKLMNOPQRSTUVWXYZabcdefghijklmnopqrstuvwxyz0123456789+/".

(** [isalnum] in the C locale. *)
Definition isalnum (c : Z) : bool :=
  ((48 <=? c) && (c <=? 57)) || ((65 <=? c) && (c <=? 90)) || ((97 <=? c) && (c <=? 122)).

Definition is_base64 (c : Z) : bool := isalnum c || (c =? 43) || (c =? 47).

(** [base64_chars[k]]: a [std::string] may be indexed up to its size, where it
    has a NUL. *)
Definition char_at (k : Z) : outcome Z := mem_get (base64_chars ++ [0]) k.

(** [base64_chars.find(c)], [npos] when absent. *)
Fixpoint find_from (s : bytes) (i c : Z) : Z :=
  match s with
  | [] => SIZE_MAX
  | x :: s => if x =? c then i else find_from s (i + 1) c
  end.
Definition find (c : Z) : Z := find_from base64_chars 0 c.

(** The first [n] entries of the index array, looked up: the emission loops. *)
Fixpoint emit (a4 : bytes) (j n : nat) : outcome bytes :=
  match n with
  | O => Ok []
  | S n =>
      k ← mem_get a4 (Z.of_nat j);
      c ← char_at k;
      rest ← emit a4 (S j) n;
      Ok (c :: rest)
  end.

(** The three assignments shared by the loop body and the tail. *)
Definition sextets_012 (a3 a4 : bytes) : outcome bytes :=
  x0 ← mem_get a3 0; x1 ← mem_get a3 1; x2 ← mem_get a3 2;
  a4 ← mem_write a4 0 [u8 (Z.shiftr (Z.land x0 0xfc) 2)];
  a4 ← mem_write a4 1 [u8 (Z.shiftl (Z.land x0 0x03) 4 + Z.shiftr (Z.land x1 0xf0) 4)];
  mem_write a4 2 [u8 (Z.shiftl (Z.land x1 0x0f) 2 + Z.shiftr (Z.land x2 0xc0) 6)].

(** [while (in_len--)] *)
Fixpoint encode_loop (in_len : nat) (p : bytes) (i : Z) (a3 a4 ret : bytes)
    : outcome (Z * bytes * bytes * bytes) :=
  match in_len with
  | O => Ok (i, a3, a4, ret)
  | S n =>
      c ← mem_get p 0;
      a3 ← mem_write a3 i [c];
      if i + 1 =? 3 then
        a4 ← sextets_012 a3 a4;
        x2 ← mem_get a3 2;
        a4 ← mem_write a4 3 [u8 (Z.land x2 0x3f)];
        s ← emit a4 0 4;
        encode_loop n (drop 1 p) 0 a3 a4 (ret ++ s)
      else encode_loop n (drop 1 p) (i + 1) a3 a4 ret
  end.

(** [for (j = i; j < 3; j++) char_array_3[j] = '\0';] *)
Fixpoint zero_fill (j : Z) (n : nat) (a3 : bytes) : outcome bytes :=
  match n with
  | O => Ok a3
  | S n => a3 ← mem_write a3 j [0]; zero_fill (j + 1) n a3
  end.

(** [if (i) { ... } return ret;] after the loop *)
Definition encode_tail (r : Z * bytes * bytes * bytes) : outcome bytes :=
  let '(i, a3, a4, ret) := r in
  if negb (i =? 0) then
    a3 ← zero_fill i (Z.to_nat (3 - i)) a3;
    a4 ← sextets_012 a3 a4;
    s ← emit a4 0 (Z.to_nat (i + 1));
    Ok (ret ++ s ++ replicate (Z.to_nat (3 - i)) 61 (* '=' *))
  else Ok ret.

Definition base64_encode (j3 j4 bytes_to_encode : bytes) (in_len : Z) : outcome bytes :=
  r ← encode_loop (Z.to_nat (u32 in_len)) bytes_to_encode 0 j3 j4 [];
  encode_tail r.

(** [for (j = 0; j < n; j++) char_array_4[j] = base64_chars.find(char_array_4[j]);] *)
Fixpoint find_all (j n : nat) (a4 : bytes) : outcome bytes :=
  match n with
  | O => Ok a4
  | S n =>
      c ← mem_get a4 (Z.of_nat j);
      a4 ← mem_write a4 (Z.of_nat j) [u8 (find c)];
      find_all (S j) n a4
  end.

Definition octets_01 (a4 a3 : bytes) : outcome bytes :=
  x0 ← mem_get a4 0; x1 ← mem_get a4 1; x2 ← mem_get a4 2;
  a3 ← mem_write a3 0 [u8 (Z.shiftl x0 2 + Z.shiftr (Z.land x1 0x30) 4)];
  mem_write a3 1 [u8 (Z.shiftl (Z.land x1 0xf) 4 + Z.shiftr (Z.land x2 0x3c) 2)].

(** [while (in_len-- && (encoded_string[in_] != '=') && is_base64(...))]: past
    the end [encoded_string[in_]] is the NUL, which is not a base64 character. *)
Fixpoint decode_loop (s : bytes) (in_len : Z) (i : Z) (a4 a3 ret : bytes)
    : outcome (Z * bytes * bytes * bytes) :=
  match s with
  | [] => Ok (i, a4, a3, ret)
  | c :: s =>
      if (in_len =? 0) || (c =? 61) || negb (is_base64 c) then Ok (i, a4, a3, ret)
      else
        a4 ← mem_write a4 i [c];
        if i + 1 =? 4 then
          a4 ← find_all 0 4 a4;
          a3 ← octets_01 a4 a3;
          x2 ← mem_get a4 2; x3 ← mem_get a4 3;
          a3 ← mem_write a3 2 [u8 (Z.shiftl (Z.land x2 0x3) 6 + x3)];
          out ← mem_read a3 0 3;
          decode_loop s (in_len - 1) 0 a4 a3 (ret ++ out)
        else decode_loop s (in_len - 1) (i + 1) a4 a3 ret
  end.

Definition decode_tail (r : Z * bytes * bytes * bytes) : outcome bytes :=
  let '(i, a4, a3, ret) := r in
  if negb (i =? 0) then
    a4 ← find_all 0 (Z.to_nat i) a4;
    a3 ← octets_01 a4 a3;
    out ← mem_read a3 0 (i - 1);
    Ok (ret ++ out)
  else Ok ret.

Definition base64_decode (j4 j3 encoded_string : bytes) : outcome bytes :=
  r ← decode_loop encoded_string (i32 (zlen encoded_string)) 0 j4 j3 [];
  decode_tail r.

End Base64.

(** ** The reference: RFC 4648 *)
Module Rfc4648.

(** The alphabet, table 1 of the RFC: the value [k] is written as one of
    [A] to [Z], [a] to [z], [0] to [9], [+] and [/]. *)
Definition char (k : Z) : Z :=
  if k <? 26 then 65 + k
  else if k <? 52 then 97 + (k - 26)
  else if k <? 62 then 48 + (k - 52)
  else if k =? 62 then 43 else 47.

(** The value a character stands for, if it is in the alphabet. *)
Definition value (c : Z) : option Z :=
  if (65 <=? c) && (c <=? 90) then Some (c - 65)
  else if (97 <=? c) && (c <=? 122) then Some (c - 97 + 26)
  else if (48 <=? c) && (c <=? 57) then Some (c - 48 + 52)
  else if c =? 43 then Some 62
  else if c =? 47 then Some 63
  else None.

(** A 24-bit group as four sextets, and back. *)
Definition group (a b c : Z) : Z := a * 65536 + b * 256 + c.
Definition sextets (n : Z) : list Z :=
  [n / 262144; (n / 4096) mod 64; (n / 64) mod 64; n mod 64].
Definition ungroup (w x y z : Z) : Z := ((w * 64 + x) * 64 + y) * 64 + z.
Definition octets (n : Z) : list Z := [n / 65536; (n / 256) mod 256; n mod 256].

Fixpoint encode (l : bytes) : bytes :=
  match l with
  | [] => []
  | [a] => (char <$> take 2 (sextets (group a 0 0))) ++ [61; 61]
  | [a; b] => (char <$> take 3 (sextets (group a b 0))) ++ [61]
  | a :: b :: c :: l => (char <$> sextets (group a b c)) ++ encode l
  end.

(** Decoding of sextets; a lone last sextet carries no octet. *)
Fixpoint decode_sextets (l : list Z) : bytes :=
  match l with
  | w :: x :: y :: z :: l => octets (ungroup w x y z) ++ decode_sextets l
  | [w; x; y] => take 2 (octets (ungroup w x y 0))
  | [w; x] => take 1 (octets (ungroup w x 0 0))
  | _ => []
  end.

(** The values of the characters up to the first that is not of the alphabet. *)
Fixpoint values (s : bytes) : list Z :=
  match s with
  | [] => []
  | c :: s => match value c with Some k => k :: values s | None => [] end
  end.

Definition decode (s : bytes) : bytes := decode_sextets (values s).

End Rfc4648.

(** ** Facts about the alphabet and the bit arithmetic *)
Module Base64Facts.
Import Base64.

(** The code's table is the alphabet of the RFC, its predicate the RFC's domain
    and its search the RFC's value. *)
Lemma base64_chars_rfc k : 0 ≤ k < 64 → base64_chars !!! Z.to_nat k = Rfc4648.char k.
Proof.
  intros Hk. apply Z.eqb_eq. revert k Hk.
  apply (range_brute (λ k, base64_chars !!! Z.to_nat k =? Rfc4648.char k)). by vm_compute.
Qed.

Lemma char_at_ok k : 0 ≤ k < 64 → char_at k = Ok (Rfc4648.char k).
Proof.
  intros Hk. unfold char_at. rewrite <- base64_chars_rfc by done.
  apply mem_get_ok; [lia|].
  rewrite lookup_app_l by (cbn; lia).
  apply list_lookup_lookup_total_lt. cbn; lia.
Qed.

Lemma value_find c :
  is_byte c → Rfc4648.value c = if is_base64 c then Some (find c) else None.
Proof.
  intros Hc. apply (bool_decide_eq_true_1 _). revert c Hc.
  apply (range_brute (λ c, bool_decide
    (Rfc4648.value c = if is_base64 c then Some (find c) else None))).
  by vm_compute.
Qed.

(** The characters up to the first that is not of the alphabet. *)
Fixpoint alphabet_prefix (s : bytes) : bytes :=
  match s with
  | [] => []
  | c :: s => if is_base64 c then c :: alphabet_prefix s else []
  end.

Lemma values_prefix s : bytes_ok s → Rfc4648.values s = find <$> alphabet_prefix s.
Proof.
  induction 1 as [|c s Hc _ IH]; [done|]. cbn [Rfc4648.values alphabet_prefix].
  rewrite value_find by done. destruct (is_base64 c); [|done]. cbn. by rewrite IH.
Qed.

Lemma find_char k : 0 ≤ k < 64 → find (Rfc4648.char k) = k.
Proof.
  intros Hk. apply Z.eqb_eq. revert k Hk.
  apply (range_brute (λ k, find (Rfc4648.char k) =? k)). by vm_compute.
Qed.

Lemma is_base64_char k :
  0 ≤ k < 64 → is_base64 (Rfc4648.char k) = true ∧ (Rfc4648.char k =? 61) = false.
Proof.
  intros Hk. rewrite <- negb_true_iff. apply andb_true_iff. revert k Hk.
  apply (range_brute (λ k, is_base64 (Rfc4648.char k) && negb (Rfc4648.char k =? 61))).
  by vm_compute.
Qed.

Lemma char_facts k : 0 ≤ k < 64 → is_byte (Rfc4648.char k) ∧ is_base64 (Rfc4648.char k) = true.
Proof.
  intros Hk. split; [|by apply is_base64_char].
  assert (H : (0 <=? Rfc4648.char k) && (Rfc4648.char k <? 256) = true); [|zify_bools; done].
  revert k Hk. apply (range_brute (λ k, (0 <=? Rfc4648.char k) && (Rfc4648.char k <? 256))).
  by vm_compute.
Qed.

Lemma find_range c : is_byte c → is_base64 c = true → 0 ≤ find c < 64.
Proof.
  intros Hc Hb.
  assert (H : implb (is_base64 c) ((0 <=? find c) && (find c <? 64)) = true).
  { clear Hb; revert c Hc. apply (range_brute (λ c, implb (is_base64 c) ((0 <=? find c) && (find c <? 64)))).
    by vm_compute. }
  rewrite Hb in H. cbn [implb] in H. zify_bools. lia.
Qed.

(** The masks and shifts of one byte. *)
Lemma byte_masks a :
  is_byte a →
  Z.shiftr (Z.land a 0xfc) 2 = a / 4 ∧ Z.shiftl (Z.land a 0x03) 4 = a mod 4 * 16 ∧
  Z.shiftr (Z.land a 0xf0) 4 = a / 16 ∧ Z.shiftl (Z.land a 0x0f) 2 = a mod 16 * 4 ∧
  Z.shiftr (Z.land a 0xc0) 6 = a / 64 ∧ Z.land a 0x3f = a mod 64.
Proof.
  intros Ha. rewrite <- !Z.eqb_eq, <- !andb_true_iff. revert a Ha.
  apply (range_brute (λ a, (Z.shiftr (Z.land a 0xfc) 2 =? a / 4) &&
    ((Z.shiftl (Z.land a 0x03) 4 =? a mod 4 * 16) && ((Z.shiftr (Z.land a 0xf0) 4 =? a / 16) &&
    ((Z.shiftl (Z.land a 0x0f) 2 =? a mod 16 * 4) && ((Z.shiftr (Z.land a 0xc0) 6 =? a / 64) &&
    (Z.land a 0x3f =? a mod 64))))))).
  by vm_compute.
Qed.

(** The masks and shifts of one sextet. *)
Lemma sextet_masks x :
  0 ≤ x < 64 →
  Z.shiftl x 2 = x * 4 ∧ Z.shiftr (Z.land x 0x30) 4 = x / 16 ∧
  Z.shiftl (Z.land x 0xf) 4 = x mod 16 * 16 ∧ Z.shiftr (Z.land x 0x3c) 2 = x / 4 ∧
  Z.shiftl (Z.land x 0x3) 6 = x mod 4 * 64.
Proof.
  intros Hx. rewrite <- !Z.eqb_eq, <- !andb_true_iff. revert x Hx.
  apply (range_brute (λ x, (Z.shiftl x 2 =? x * 4) && ((Z.shiftr (Z.land x 0x30) 4 =? x / 16) &&
    ((Z.shiftl (Z.land x 0xf) 4 =? x mod 16 * 16) && ((Z.shiftr (Z.land x 0x3c) 2 =? x / 4) &&
    (Z.shiftl (Z.land x 0x3) 6 =? x mod 4 * 64)))))).
  by vm_compute.
Qed.

(** ** The assignments on concrete arrays *)
Lemma sextets_012_ok a b c w x y z :
  is_byte a → is_byte b → is_byte c →
  sextets_012 [a; b; c] [w; x; y; z] = Ok (take 3 (Rfc4648.sextets (Rfc4648.group a b c)) ++ [z]).
Proof.
  intros Ha Hb Hc.
  trans (Ok [u8 (Z.shiftr (Z.land a 0xfc) 2);
             u8 (Z.shiftl (Z.land a 0x03) 4 + Z.shiftr (Z.land b 0xf0) 4);
             u8 (Z.shiftl (Z.land b 0x0f) 2 + Z.shiftr (Z.land c 0xc0) 6); z]); [reflexivity|].
  destruct (byte_masks a Ha) as (-> & -> & _), (byte_masks b Hb) as (_ & _ & -> & -> & _),
    (byte_masks c Hc) as (_ & _ & _ & _ & -> & _).
  unfold Rfc4648.sextets, Rfc4648.group. cbn [take app].
  do 2 f_equal; [in_words|]. f_equal; [in_words|]. f_equal; in_words.
Qed.

Lemma emit_ok l j n :
  Forall (λ k, 0 ≤ k < 64) (take n (drop j l)) → (j + n ≤ length l)%nat →
  emit l j n = Ok (Rfc4648.char <$> take n (drop j l)).
Proof.
  revert j. induction n as [|n IH]; intros j Hl Hn; [done|].
  destruct (lookup_lt_is_Some_2 l j) as [k Hk]; [lia|].
  rewrite (drop_S l k j Hk) in Hl |- *. cbn [take] in *. inversion Hl; subst.
  cbn [emit]. rewrite (mem_get_ok _ _ k), outcome_bind_ok by (rewrite ?Nat2Z.id; auto with lia).
  rewrite char_at_ok, outcome_bind_ok by done. rewrite IH by (done || lia). done.
Qed.

Lemma sextets_range a b c :
  is_byte a → is_byte b → is_byte c →
  Forall (λ k, 0 ≤ k < 64) (Rfc4648.sextets (Rfc4648.group a b c)).
Proof.
  intros. unfold Rfc4648.sextets, Rfc4648.group. repeat constructor; in_words.
Qed.

Lemma arr3 (l : bytes) : length l = 3%nat → ∃ a b c, l = [a; b; c].
Proof. destruct l as [|a [|b [|c [|]]]]; intros [=]; eauto. Qed.
Lemma arr4 (l : bytes) : length l = 4%nat → ∃ a b c d, l = [a; b; c; d].
Proof. destruct l as [|a [|b [|c [|d [|]]]]]; intros [=]; eauto 6. Qed.

(** One full group goes through the loop in three iterations. *)
Lemma encode_loop_group a b c n p a3 a4 ret :
  is_byte a → is_byte b → is_byte c → length a3 = 3%nat → length a4 = 4%nat →
  ∃ a4', length a4' = 4%nat ∧
    encode_loop (S (S (S n))) (a :: b :: c :: p) 0 a3 a4 ret =
    encode_loop n p 0 [a; b; c] a4'
      (ret ++ (Rfc4648.char <$> Rfc4648.sextets (Rfc4648.group a b c))).
Proof.
  intros Ha Hb Hc (x & y & z & ->)%arr3 (w0 & w1 & w2 & w3 & ->)%arr4.
  exists (Rfc4648.sextets (Rfc4648.group a b c)). split; [done|].
  trans (a4 ← sextets_012 [a; b; c] [w0; w1; w2; w3];
         a4 ← mem_write a4 3 [u8 (Z.land c 0x3f)];
         s ← emit a4 0 4; encode_loop n p 0 [a; b; c] a4 (ret ++ s)); [reflexivity|].
  rewrite sextets_012_ok, outcome_bind_ok by done.
  destruct (byte_masks c Hc) as (_ & _ & _ & _ & _ & ->).
  replace (u8 (c mod 64)) with (Rfc4648.group a b c mod 64) by (unfold Rfc4648.group; in_words).
  pose proof (emit_ok (Rfc4648.sextets (Rfc4648.group a b c)) 0 4) as He.
  change (take 4 (drop 0 (Rfc4648.sextets (Rfc4648.group a b c))))
    with (Rfc4648.sextets (Rfc4648.group a b c)) in He.
  specialize (He (sextets_range a b c Ha Hb Hc) (le_n 4)).
  trans (s ← emit (Rfc4648.sextets (Rfc4648.group a b c)) 0 4;
         encode_loop n p 0 [a; b; c] (Rfc4648.sextets (Rfc4648.group a b c)) (ret ++ s));
    [reflexivity|].
  by rewrite He.
Qed.

Lemma encode_loop_tail l p a3 a4 ret :
  bytes_ok l → length a3 = 3%nat → length a4 = 4%nat →
  (r ← encode_loop (length l) (l ++ p) 0 a3 a4 ret; encode_tail r) = Ok (ret ++ Rfc4648.encode l).
Proof.
  intros Hl. revert a3 a4 ret Hl.
  induction l as [|a|a b|a b c l IH] using list_ind3; intros a3 a4 ret Hl H3 H4.
  - cbn. by rewrite app_nil_r.
  - apply arr3 in H3 as (x & y & z & ->). apply arr4 in H4 as (w0 & w1 & w2 & w3 & ->).
    inversion Hl as [|? ? Ha _]; subst.
    trans (a4 ← sextets_012 [a; 0; 0] [w0; w1; w2; w3];
           s ← emit a4 0 2; Ok (ret ++ s ++ [61; 61])); [reflexivity|].
    rewrite sextets_012_ok, outcome_bind_ok by done.
    pose proof (sextets_range a 0 0 Ha) as Hr. do 2 (ospecialize (Hr _); [done|]).
    rewrite emit_ok; [done|by apply (Forall_take (λ k, 0 ≤ k < 64) 2) in Hr|cbn; lia].
  - apply arr3 in H3 as (x & y & z & ->). apply arr4 in H4 as (w0 & w1 & w2 & w3 & ->).
    inversion Hl as [|? ? Ha Hl']; subst. inversion Hl' as [|? ? Hb _]; subst.
    trans (a4 ← sextets_012 [a; b; 0] [w0; w1; w2; w3];
           s ← emit a4 0 3; Ok (ret ++ s ++ [61])); [reflexivity|].
    rewrite sextets_012_ok, outcome_bind_ok by done.
    pose proof (sextets_range a b 0 Ha Hb) as Hr. do 1 (ospecialize (Hr _); [done|]).
    rewrite emit_ok; [done|by apply (Forall_take (λ k, 0 ≤ k < 64) 3) in Hr|cbn; lia].
  - inversion Hl as [|? ? Ha Hl1]; subst. inversion Hl1 as [|? ? Hb Hl2]; subst.
    inversion Hl2 as [|? ? Hc Hl3]; subst.
    destruct (encode_loop_group a b c (length l) (l ++ p) a3 a4 ret) as (a4' & H4' & E); try done.
    cbn [length app]. rewrite E. rewrite IH by done. cbn [Rfc4648.encode]. by rewrite <- app_assoc.
Qed.

(** Decoding: the index lookups of a full or partial group. *)
Lemma u8_find c : is_byte c → is_base64 c = true → u8 (find c) = find c.
Proof. intros. apply u8_id. pose proof (find_range c). intuition lia. Qed.

Lemma octets_01_ok w x y z o0 o1 o2 :
  0 ≤ w < 64 → 0 ≤ x < 64 → 0 ≤ y < 64 →
  octets_01 [w; x; y; z] [o0; o1; o2] =
    Ok (take 2 (Rfc4648.octets (Rfc4648.ungroup w x y 0)) ++ [o2]).
Proof.
  intros Hw Hx Hy.
  trans (Ok [u8 (Z.shiftl w 2 + Z.shiftr (Z.land x 0x30) 4);
             u8 (Z.shiftl (Z.land x 0xf) 4 + Z.shiftr (Z.land y 0x3c) 2); o2]); [reflexivity|].
  destruct (sextet_masks w Hw) as (-> & _), (sextet_masks x Hx) as (_ & -> & -> & _),
    (sextet_masks y Hy) as (_ & _ & _ & -> & _).
  unfold Rfc4648.octets, Rfc4648.ungroup. cbn [take app].
  do 2 f_equal; [in_words|]. f_equal; in_words.
Qed.

(** Only the first output octet is used for a group of two: it does not see
    the third sextet, whatever is left in that entry. *)
Lemma octets_01_first w x y z o0 o1 o2 :
  0 ≤ w < 64 → 0 ≤ x < 64 →
  ∃ b1, octets_01 [w; x; y; z] [o0; o1; o2] =
    Ok (take 1 (Rfc4648.octets (Rfc4648.ungroup w x 0 0)) ++ [b1; o2]).
Proof.
  intros Hw Hx.
  exists (u8 (Z.shiftl (Z.land x 0xf) 4 + Z.shiftr (Z.land y 0x3c) 2)).
  trans (Ok [u8 (Z.shiftl w 2 + Z.shiftr (Z.land x 0x30) 4);
             u8 (Z.shiftl (Z.land x 0xf) 4 + Z.shiftr (Z.land y 0x3c) 2); o2]); [reflexivity|].
  destruct (sextet_masks w Hw) as (-> & _), (sextet_masks x Hx) as (_ & -> & _).
  unfold Rfc4648.octets, Rfc4648.ungroup. cbn [take app].
  do 2 f_equal; in_words.
Qed.

Abbreviation b64 := (Forall (λ c, is_byte c ∧ is_base64 c = true)).

Lemma decode_loop_step c s n i a4 a3 ret :
  n ≠ 0 → is_byte c → is_base64 c = true → i ≠ 3 →
  decode_loop (c :: s) n i a4 a3 ret =
    (a4' ← mem_write a4 i [c]; decode_loop s (n - 1) (i + 1) a4' a3 ret).
Proof.
  intros Hn Hc Hb Hi. cbn [decode_loop].
  assert ((c =? 61) = false) as ->.
  { apply Z.eqb_neq. intros ->. discriminate Hb. }
  rewrite Hb, (proj2 (Z.eqb_neq n 0)), (proj2 (Z.eqb_neq (i + 1) 4)) by lia. done.
Qed.

(** The first one, two or three characters of a group. *)
Lemma decode_head1 c0 s n w0 w1 w2 w3 a3 ret :
  is_byte c0 → is_base64 c0 = true → 1 ≤ n →
  decode_loop (c0 :: s) n 0 [w0; w1; w2; w3] a3 ret =
  decode_loop s (n - 1) 1 [c0; w1; w2; w3] a3 ret.
Proof. intros. by rewrite decode_loop_step by (done || lia). Qed.
Lemma decode_head2 c0 c1 s n w0 w1 w2 w3 a3 ret :
  b64 [c0; c1] → 2 ≤ n →
  decode_loop (c0 :: c1 :: s) n 0 [w0; w1; w2; w3] a3 ret =
  decode_loop s (n - 2) 2 [c0; c1; w2; w3] a3 ret.
Proof.
  intros [[? ?] [[? ?] _]%Forall_cons_1]%Forall_cons_1 Hn.
  rewrite decode_head1, decode_loop_step by (done || lia).
  by replace (n - 2) with (n - 1 - 1) by lia.
Qed.
Lemma decode_head3 c0 c1 c2 s n w0 w1 w2 w3 a3 ret :
  b64 [c0; c1; c2] → 3 ≤ n →
  decode_loop (c0 :: c1 :: c2 :: s) n 0 [w0; w1; w2; w3] a3 ret =
  decode_loop s (n - 3) 3 [c0; c1; c2; w3] a3 ret.
Proof.
  intros HF Hn.
  assert (b64 [c0; c1] ∧ is_byte c2 ∧ is_base64 c2 = true) as (? & ? & ?).
  { apply (Forall_app _ [c0; c1] [c2]) in HF as [? [? _]%Forall_cons_1]. done. }
  rewrite decode_head2, decode_loop_step by (done || lia).
  by replace (n - 3) with (n - 2 - 1) by lia.
Qed.

Lemma decode_loop_group c0 c1 c2 c3 s n a4 a3 ret :
  b64 [c0; c1; c2; c3] → 4 ≤ n →
  length a4 = 4%nat → length a3 = 3%nat →
  ∃ a4' a3', length a4' = 4%nat ∧ length a3' = 3%nat ∧
    decode_loop (c0 :: c1 :: c2 :: c3 :: s) n 0 a4 a3 ret =
    decode_loop s (n - 4) 0 a4' a3'
      (ret ++ Rfc4648.octets (Rfc4648.ungroup (find c0) (find c1) (find c2) (find c3))).
Proof.
  intros HF Hn (w0 & w1 & w2 & w3 & ->)%arr4 (x & y & z & ->)%arr3.
  inversion HF as [|? ? [B0 A0] HF0]; subst. inversion HF0 as [|? ? [B1 A1] HF1]; subst.
  inversion HF1 as [|? ? [B2 A2] HF2]; subst. inversion HF2 as [|? ? [B3 A3] _]; subst.
  pose proof (find_range c0 B0 A0) as R0. pose proof (find_range c1 B1 A1) as R1.
  pose proof (find_range c2 B2 A2) as R2. pose proof (find_range c3 B3 A3) as R3.
  set (g := Rfc4648.octets (Rfc4648.ungroup (find c0) (find c1) (find c2) (find c3))).
  exists [find c0; find c1; find c2; find c3], g. do 2 (split; [done|]).
  rewrite decode_head3 by (first [lia | by apply (Forall_app _ [c0; c1; c2] [c3]) in HF as [? _]]).
  cbn [decode_loop].
  assert ((c3 =? 61) = false) as -> by (apply Z.eqb_neq; intros ->; discriminate A3).
  rewrite A3, (proj2 (Z.eqb_neq (n - 3) 0)) by lia. cbn [orb negb].
  trans (a3 ← octets_01 [u8 (find c0); u8 (find c1); u8 (find c2); u8 (find c3)] [x; y; z];
         a3 ← mem_write a3 2 [u8 (Z.shiftl (Z.land (u8 (find c2)) 0x3) 6 + u8 (find c3))];
         out ← mem_read a3 0 3;
         decode_loop s (n - 3 - 1) 0
           [u8 (find c0); u8 (find c1); u8 (find c2); u8 (find c3)] a3 (ret ++ out));
    [reflexivity|].
  rewrite !u8_find by done. rewrite octets_01_ok, outcome_bind_ok by done.
  destruct (sextet_masks (find c2) R2) as (_ & _ & _ & _ & ->).
  replace (n - 3 - 1) with (n - 4) by lia.
  trans (let a3 := take 2 (Rfc4648.octets (Rfc4648.ungroup (find c0) (find c1) (find c2) 0)) ++
                     [u8 (find c2 mod 4 * 64 + find c3)] in
         decode_loop s (n - 4) 0 [find c0; find c1; find c2; find c3] a3 (ret ++ a3));
    [reflexivity|].
  assert (take 2 (Rfc4648.octets (Rfc4648.ungroup (find c0) (find c1) (find c2) 0)) ++
            [u8 (find c2 mod 4 * 64 + find c3)] = g) as ->; [|done].
  unfold g, Rfc4648.octets, Rfc4648.ungroup. cbn [take app].
  f_equal; [in_words|]. f_equal; [in_words|]. f_equal; in_words.
Qed.

(** The loop stops at the first character outside the alphabet. *)
Lemma decode_loop_stop s n i a4 a3 ret :
  (match s with [] => True | c :: _ => is_base64 c = false end) →
  decode_loop s n i a4 a3 ret = Ok (i, a4, a3, ret).
Proof.
  destruct s as [|c s]; [done|]. intros H. cbn [decode_loop]. rewrite H, orb_true_r. done.
Qed.

Lemma decode_loop_tail l p n a4 a3 ret :
  b64 l → (match p with [] => True | c :: _ => is_base64 c = false end) → zlen l ≤ n →
  length a4 = 4%nat → length a3 = 3%nat →
  (r ← decode_loop (l ++ p) n 0 a4 a3 ret; decode_tail r) =
    Ok (ret ++ Rfc4648.decode_sextets (find <$> l)).
Proof.
  intros Hl Hp. revert n a4 a3 ret Hl.
  induction l as [|c0|c0 c1|c0 c1 c2|c0 c1 c2 c3 l IH] using list_ind4;
    intros n a4 a3 ret Hl Hn H4 H3; unfold zlen in Hn; cbn [length] in Hn.
  - cbn [app]. rewrite decode_loop_stop by done. cbn. by rewrite app_nil_r.
  - apply arr3 in H3 as (x & y & z & ->). apply arr4 in H4 as (w0 & w1 & w2 & w3 & ->).
    apply Forall_cons_1 in Hl as [[B0 A0] _]. cbn [app].
    rewrite decode_head1, decode_loop_stop by (done || lia).
    reflexivity.
  - apply arr3 in H3 as (x & y & z & ->). apply arr4 in H4 as (w0 & w1 & w2 & w3 & ->).
    cbn [app]. rewrite decode_head2, decode_loop_stop by (done || lia).
    apply Forall_cons_1 in Hl as [[B0 A0] [[B1 A1] _]%Forall_cons_1].
    trans (a3 ← octets_01 [u8 (find c0); u8 (find c1); w2; w3] [x; y; z];
           out ← mem_read a3 0 1; Ok (ret ++ out)); [reflexivity|].
    rewrite !u8_find by done.
    destruct (octets_01_first (find c0) (find c1) w2 w3 x y z) as (b1 & ->);
      [by apply find_range|by apply find_range|]. done.
  - apply arr3 in H3 as (x & y & z & ->). apply arr4 in H4 as (w0 & w1 & w2 & w3 & ->).
    cbn [app]. rewrite decode_head3, decode_loop_stop by (done || lia).
    apply Forall_cons_1 in Hl as [[B0 A0] [[B1 A1] [[B2 A2] _]%Forall_cons_1]%Forall_cons_1].
    trans (a3 ← octets_01 [u8 (find c0); u8 (find c1); u8 (find c2); w3] [x; y; z];
           out ← mem_read a3 0 2; Ok (ret ++ out)); [reflexivity|].
    rewrite !u8_find by done.
    rewrite octets_01_ok by (by apply find_range). done.
  - do 4 (apply Forall_cons_1 in Hl as [? Hl]).
    destruct (decode_loop_group c0 c1 c2 c3 (l ++ p) n a4 a3 ret) as (a4' & a3' & ? & ? & E);
      [by repeat (apply Forall_cons_2; [done|]); apply Forall_nil_2|lia|done|done|].
    cbn [app]. rewrite E, IH by (done || (unfold zlen; lia)). by rewrite <- app_assoc.
Qed.

Lemma alphabet_prefix_split s :
  bytes_ok s → ∃ p, s = alphabet_prefix s ++ p ∧ b64 (alphabet_prefix s) ∧
    match p with [] => True | c :: _ => is_base64 c = false end.
Proof.
  induction 1 as [|c s Hc _ IH]; [by exists []; repeat constructor|]. cbn.
  destruct (is_base64 c) eqn:E; [|by exists (c :: s); repeat split; [constructor|]].
  destruct IH as (p & Hs & Hp & Hstop). exists p. split; [cbn; congruence|].
  split; [by apply Forall_cons_2|done].
Qed.

(** Decoding the sextets of an encoding. *)
Lemma encode_alphabet l :
  bytes_ok l → ∃ sx eqs, Rfc4648.encode l = (Rfc4648.char <$> sx) ++ replicate eqs 61 ∧
    Forall (λ k, 0 ≤ k < 64) sx ∧ Rfc4648.decode_sextets sx = l ∧
    (3 * (length sx + eqs) ≤ 4 * length l + 8)%nat.
Proof.
  induction l as [|a|a b|a b c l IH] using list_ind3; intros Hl.
  - exists [], 0%nat. split_and!; [done|constructor|done|cbn; lia].
  - inversion Hl as [|? ? Ha _]; subst. unfold is_byte in Ha.
    exists (take 2 (Rfc4648.sextets (Rfc4648.group a 0 0))), 2%nat. split; [done|].
    split; [apply Forall_take, sextets_range; done|].
    cbn. unfold Rfc4648.group, Rfc4648.ungroup. split; [|lia]. f_equal. in_words.
  - inversion Hl as [|? ? Ha Hl1]; subst. inversion Hl1 as [|? ? Hb _]; subst.
    exists (take 3 (Rfc4648.sextets (Rfc4648.group a b 0))), 1%nat. split; [done|].
    split; [apply Forall_take, sextets_range; done|].
    cbn. unfold Rfc4648.group, Rfc4648.ungroup, is_byte in *. split; [|lia].
    f_equal; [in_words|]. f_equal; in_words.
  - do 3 (apply Forall_cons_1 in Hl as [? Hl]).
    destruct (IH Hl) as (sx & eqs & He & Hsx & Hd & Hlen).
    exists (Rfc4648.sextets (Rfc4648.group a b c) ++ sx), eqs. split_and!.
    + cbn [Rfc4648.encode]. by rewrite He, fmap_app, <- app_assoc.
    + apply Forall_app_2; [by apply sextets_range|done].
    + cbn. rewrite Hd. unfold Rfc4648.group, Rfc4648.ungroup, is_byte in *.
      f_equal; [in_words|]. f_equal; [in_words|]. f_equal; in_words.
    + cbn [length app Rfc4648.sextets]. lia.
Qed.

End Base64Facts.

(** ** Properties *)
Section base64_properties.
Context (j3 j4 : bytes) (Hj3 : length j3 = 3%nat) (Hj4 : length j4 = 4%nat).

(** C35: the encoder is RFC 4648. On any input whose length fits the [unsigned
    int] parameter, and for whatever the uninitialised arrays hold, it reads
    only the input, indexes only the alphabet and returns the standard
    encoding with its padding. *)
Theorem base64_encode_rfc4648 (l rest : bytes) :
  bytes_ok l → zlen l < 2 ^ 32 →
  Base64.base64_encode j3 j4 (l ++ rest) (zlen l) = Ok (Rfc4648.encode l).
Proof.
  intros Hl Hn. unfold Base64.base64_encode. rewrite u32_id by solve_zlen.
  unfold zlen. rewrite Nat2Z.id. by apply Base64Facts.encode_loop_tail.
Qed.

(** The decoder, on any string shorter than 2 GiB, returns the octets of
    the sextets up to the first character outside the alphabet, whatever the
    uninitialised arrays hold: it never indexes outside them. *)
Theorem base64_decode_rfc4648 (s : bytes) :
  bytes_ok s → zlen s < 2 ^ 31 →
  Base64.base64_decode j4 j3 s = Ok (Rfc4648.decode s).
Proof.
  intros Hs Hn. destruct (Base64Facts.alphabet_prefix_split s Hs) as (p & E & Hb & Hp).
  unfold Base64.base64_decode, Rfc4648.decode.
  rewrite Base64Facts.values_prefix, i32_id by (done || solve_zlen).
  rewrite E at 1. apply Base64Facts.decode_loop_tail; try done.
  rewrite E at 2. solve_zlen.
Qed.

(** C36: round trip. Decoding the encoding of any byte string (of a size the
    decoder's [int] counter can hold) gives the string back. *)
Theorem base64_roundtrip (l : bytes) :
  bytes_ok l → zlen l < 2 ^ 30 →
  (e ← Base64.base64_encode j3 j4 l (zlen l); Base64.base64_decode j4 j3 e) = Ok l.
Proof.
  intros Hl Hn. rewrite <- (app_nil_r l) at 1.
  unfold Base64.base64_encode. rewrite u32_id by solve_zlen.
  unfold zlen at 1. rewrite Nat2Z.id, Base64Facts.encode_loop_tail, outcome_bind_ok by done.
  cbn [app]. destruct (Base64Facts.encode_alphabet l Hl) as (sx & eqs & -> & Hsx & Hd & Hlen).
  assert (Hz : zlen ((Rfc4648.char <$> sx) ++ replicate eqs 61) < 2 ^ 31).
  { unfold zlen in *. rewrite length_app, length_fmap, length_replicate. lia. }
  unfold Base64.base64_decode. rewrite i32_id by solve_zlen.
  rewrite Base64Facts.decode_loop_tail; [|..]; try done.
  - cbn [app]. rewrite <- list_fmap_compose, (list_fmap_ext _ id), list_fmap_id, Hd; [done|].
    intros i k Hk. apply Base64Facts.find_char. by eapply Forall_lookup_1 in Hsx.
  - apply Forall_fmap. eapply Forall_impl; [|exact Hsx]. intros k Hk.
    by apply Base64Facts.char_facts.
  - by destruct eqs.
  - solve_zlen.
Qed.
End base64_properties.

(** Witnesses: the hypotheses hold of short inputs. *)
Lemma base64_encode_rfc4648_witness :
  Base64.base64_encode [1; 2; 3] [4; 5; 6; 7] (str "fsw!" ++ [9; 9]) 4 = Ok (str "ZnN3IQ==").
Proof.
  etransitivity;
    [apply (base64_encode_rfc4648 [1; 2; 3] [4; 5; 6; 7] eq_refl eq_refl (str "fsw!") [9; 9]);
       [apply bytes_ok_str|reflexivity]|reflexivity].
Defined.

Lemma base64_decode_rfc4648_witness :
  Base64.base64_decode [4; 5; 6; 7] [1; 2; 3] (str "ZnN3IQ==junk") = Ok (str "fsw!").
Proof.
  etransitivity;
    [apply (base64_decode_rfc4648 [1; 2; 3] [4; 5; 6; 7] eq_refl eq_refl);
       [apply bytes_ok_str|reflexivity]|reflexivity].
Defined.

Lemma base64_roundtrip_witness :
  (e ← Base64.base64_encode [1; 2; 3] [4; 5; 6; 7] (str "coroutine") 9;
   Base64.base64_decode [4; 5; 6; 7] [1; 2; 3] e) = Ok (str "coroutine").
Proof.
  apply (base64_roundtrip [1; 2; 3] [4; 5; 6; 7] eq_refl eq_refl (str "coroutine"));
    [apply bytes_ok_str|reflexivity].
Defined.
