(* ===== verification/WebsocketFrame.v ===== *)
(** * WebsocketFrame: the RFC 6455 frame codec
    (include/websocket_frame.h, src/websocket_frame.cc)

    The codec works in place on the bytes of a [Buffer]: [decode] unmasks the
    payload where it lies and returns a frame that points into the buffer, so
    both take and return the buffer's memory. [Rfc6455] is the wire format as
    the RFC states it. *)

From S2P Require Import Prelude Words Buffer.

Definition MASK_LEN : Z := 4.
Definition HEADER_LEN : Z := 2.

(** The bit fields, in declaration order: on this ABI the first declared field
    takes the low bits of its byte. *)
Record FrameHeader := mkHeader {
  opcode : Z; (** : 4 *)
  rsv3 : Z; rsv2 : Z; rsv1 : Z; fin : Z; (** : 1 each *)
  hlength : Z; (** : 7 *)
  hmask : Z    (** : 1 *)
}.

#[global] Instance FrameHeader_eq_dec : EqDecision FrameHeader.
Proof. solve_decision. Defined.

(** [payload] is the offset of the pointer from the start of the message. *)
Record Frame := mkFrame {
  header : FrameHeader;
  mask_key : bytes;
  header_length : Z;
  payload_length : Z;
  payload : Z
}.

#[global] Instance Frame_eq_dec : EqDecision Frame.
Proof. solve_decision. Defined.

Module Frame.

(** The structure read from, and stored to, two bytes. *)
Definition header_of (b0 b1 : Z) : FrameHeader :=
  mkHeader (Z.land b0 0xf)
    (Z.land (Z.shiftr b0 4) 1) (Z.land (Z.shiftr b0 5) 1)
    (Z.land (Z.shiftr b0 6) 1) (Z.land (Z.shiftr b0 7) 1)
    (Z.land b1 0x7f) (Z.land (Z.shiftr b1 7) 1).
Definition header_bytes (h : FrameHeader) : bytes :=
  [opcode h + 16 * rsv3 h + 32 * rsv2 h + 64 * rsv1 h + 128 * fin h;
   hlength h + 128 * hmask h].

Definition ntoh64 (net : Z) : Z :=
  let low := u32 (Z.land net 0xFFFFFFFF) in
  let high := u32 (Z.shiftr net 32) in
  let low := ntohl low in
  let high := ntohl high in
  let ret := low in
  let ret := u64 (Z.shiftl ret 32) in
  Z.lor ret high.

Definition hton64 (host : Z) : Z :=
  let low := u32 (Z.land host 0xFFFFFFFF) in
  let high := u32 (Z.land (Z.shiftr host 32) 0xFFFFFFFF) in
  let low := htonl low in
  let high := htonl high in
  let ret := low in
  let ret := u64 (Z.shiftl ret 32) in
  Z.lor ret high.

(** Word [i] of the data xor-ed with [mask_key64], for [n] words from index [i]. *)
Fixpoint mask_words (mem : bytes) (data : Z) (i : Z) (n : nat) (mask_key64 : Z) : outcome bytes :=
  match n with
  | O => Ok mem
  | S n =>
      w ← mem_read mem (data + 8 * i) 8;
      mem ← mem_write mem (data + 8 * i) (le_store 8 (Z.lxor (le_load w) mask_key64));
      mask_words mem data (i + 1) n mask_key64
  end.

(** [data[i] ^= mask_key[i % MASK_LEN]], for [n] bytes from index [i]. *)
Fixpoint mask_tail (mem : bytes) (data : Z) (i : Z) (n : nat) (key : bytes) : outcome bytes :=
  match n with
  | O => Ok mem
  | S n =>
      b ← mem_get mem (data + i);
      k ← mem_get key (i mod MASK_LEN);
      mem ← mem_write mem (data + i) [Z.lxor b k];
      mask_tail mem data (i + 1) n key
  end.

(** [mask(data, len, mask_key)], on the memory [data] points into. *)
Definition mask (mem : bytes) (data len : Z) (key : bytes) : outcome bytes :=
  let n := len / 8 in
  k ← mem_read key 0 4;
  let mask_key64 := Z.lor (u64 (Z.shiftl (le_load k) 32)) (le_load k) in
  mem ← mask_words mem data 0 (Z.to_nat n) mask_key64;
  mask_tail mem data (n * 8) (Z.to_nat (len - n * 8)) key.

Definition fetch_header (f : Frame) (msg : bytes) : outcome Frame :=
  b ← mem_read msg 0 HEADER_LEN;
  b0 ← mem_get b 0; b1 ← mem_get b 1;
  Ok (mkFrame (header_of b0 b1) (mask_key f) (header_length f) (payload_length f) (payload f)).

Definition set_hlength (h : FrameHeader) (v : Z) : FrameHeader :=
  mkHeader (opcode h) (rsv3 h) (rsv2 h) (rsv1 h) (fin h) v (hmask h).

(** The extended payload length, and the header length after it. *)
Definition fetch_length (msg : bytes) (hlen header_len : Z) : outcome (Z * Z) :=
  if hlen =? 126 then
    w ← mem_read msg HEADER_LEN 2;
    Ok (ntohs (le_load w), u8 (header_len + 2))
  else if hlen =? 127 then
    w ← mem_read msg HEADER_LEN 8;
    Ok (ntoh64 (le_load w), u8 (header_len + 8))
  else Ok (hlen, header_len).

Definition fetch_payload (f : Frame) (msg : bytes) : outcome (Frame * bytes) :=
  let header_len := HEADER_LEN in
  b1 ← mem_get msg 1;
  let h := set_hlength (header f) (Z.land b1 0x7f) in
  '(payload_len, header_len) ← fetch_length msg (hlength h) header_len;
  '(key, header_len, msg) ←
    (if negb (hmask h =? 0) then
       key ← mem_read msg header_len MASK_LEN;
       let header_len := u8 (header_len + MASK_LEN) in
       msg ← (if 0 <? payload_len then mask msg header_len payload_len key else Ok msg);
       Ok (key, header_len, msg)
     else Ok (mask_key f, header_len, msg));
  Ok (mkFrame h key header_len payload_len header_len, msg).

(** [Frame::decode]: the buffer's array is [msg]. *)
Definition decode (f : Frame) (b : buffer) : outcome (Frame * buffer) :=
  f ← fetch_header f (_buffer b);
  '(f, msg) ← fetch_payload f (_buffer b);
  Ok (f, mkBuffer (_size b) (_length b) msg).

(** [Frame::encode]: [junk] is what the 16 bytes of [frame_header] held. *)
Definition encode (junk : bytes) (encode_buffer data : buffer) (op finish : Z) : outcome buffer :=
  let len := _length data in
  let h := mkHeader (op mod 16) 0 0 0 (finish mod 2) 0 0 in
  '(h, ext) ←
    (if len <? 126 then Ok (set_hlength h (len mod 128), [])
     else if len <? 65536 then Ok (set_hlength h 126, le_store 2 (htons (u16 len)))
     else Ok (set_hlength h 127, le_store 8 (hton64 len)));
  frame_header ← mem_write junk 0 (header_bytes h);
  frame_header ← mem_write frame_header 2 ext;
  let pos := 2 + zlen ext in
  eb ← Buffer.append_raw encode_buffer frame_header pos;
  if negb (hmask h =? 0) then
    eb ← Buffer.append_str eb (str "258E");
    if 0 <? len then
      let offset := _length eb in
      eb ← Buffer.append_buf eb data;
      mem ← mask (_buffer eb) offset len (str "258E");
      Ok (mkBuffer (_size eb) (_length eb) mem)
    else Ok eb
  else if 0 <? len then Buffer.append_buf eb data
  else Ok eb.

End Frame.

(** ** The wire format *)
Module Rfc6455.

(** The masking of RFC 6455, section 5.3: octet [k + i] of the payload is
    xor-ed with octet [(k + i) mod 4] of the key. *)
Fixpoint mask_from (key : bytes) (k : nat) (data : bytes) : bytes :=
  match data with
  | [] => []
  | b :: data => Z.lxor b (key !!! (k mod 4)%nat) :: mask_from key (S k) data
  end.
Definition mask (key data : bytes) : bytes := mask_from key 0 data.

(** The length field and its extension. *)
Definition length7 (len : Z) : Z := if len <? 126 then len else if len <? 65536 then 126 else 127.
Definition extended (len : Z) : bytes :=
  if len <? 126 then [] else if len <? 65536 then be_store 2 len else be_store 8 len.

(** The octets before the masking key of a frame that declares [len] octets of
    payload; [b0] is the FIN, RSV and opcode octet. *)
Definition head (b0 : Z) (masked : bool) (len : Z) : bytes :=
  b0 :: ((if masked then 128 else 0) + length7 len) :: extended len.

(** A frame; [key] is the masking key of a client frame. *)
Definition frame (b0 : Z) (key : option bytes) (data : bytes) : bytes :=
  match key with
  | None => head b0 false (zlen data) ++ data
  | Some k => head b0 true (zlen data) ++ k ++ mask k data
  end.

End Rfc6455.

(** ** Byte order of the 64-bit length *)
Module FrameFacts.
Import Frame.

Lemma ntoh64_load l : length l = 8%nat → bytes_ok l → ntoh64 (le_load l) = be_load l.
Proof.
  intros Hl Hb. rewrite <- (take_drop 4 l).
  set (a := take 4 l). set (c := drop 4 l).
  assert (Ha : length a = 4%nat) by (unfold a; rewrite length_take; lia).
  assert (Hc : length c = 4%nat) by (unfold c; rewrite length_drop; lia).
  assert (Hba : bytes_ok a) by by apply Forall_take.
  assert (Hbc : bytes_ok c) by by apply Forall_drop.
  pose proof (le_load_bound a Hba) as Ba. pose proof (le_load_bound c Hbc) as Bc.
  rewrite le_load_app, be_load_app. unfold zlen in *. rewrite Ha, Hc in *.
  change (256 ^ Z.of_nat 4) with (2 ^ 32) in *.
  unfold ntoh64. cbv zeta. change 0xFFFFFFFF with (Z.ones 32).
  rewrite Z.land_ones, Z.shiftr_div_pow2 by lia.
  replace (u32 ((le_load a + 2 ^ 32 * le_load c) mod 2 ^ 32)) with (le_load a) by in_words.
  replace (u32 ((le_load a + 2 ^ 32 * le_load c) / 2 ^ 32)) with (le_load c) by in_words.
  rewrite !ntohl_load by done.
  assert (Hbe : ∀ x, length x = 4%nat → bytes_ok x → 0 ≤ be_load x < 2 ^ 32).
  { intros x Hx Hbx. unfold be_load. pose proof (le_load_bound (reverse x)) as H.
    unfold zlen in H. rewrite length_reverse, Hx in H. by apply H, Forall_reverse. }
  pose proof (Hbe a Ha Hba). pose proof (Hbe c Hc Hbc).
  rewrite u64_id, lor_shiftl_add by (rewrite ?Z.shiftl_mul_pow2; lia). done.
Qed.

Lemma hton64_store x : 0 ≤ x < 2 ^ 64 → le_store 8 (hton64 x) = be_store 8 x.
Proof.
  intros Hx.
  assert (E : hton64 x = ntoh64 (le_load (le_store 8 x))).
  { rewrite le_load_store. change (256 ^ Z.of_nat 8) with (2 ^ 64). rewrite Z.mod_small by done.
    unfold hton64, ntoh64. cbv zeta. change 0xFFFFFFFF with (Z.ones 32).
    rewrite !Z.land_ones, Z.shiftr_div_pow2 by lia.
    by replace (u32 ((x / 2 ^ 32) mod 2 ^ 32)) with (u32 (x / 2 ^ 32)) by in_words. }
  rewrite E, ntoh64_load by auto using length_le_store with fsw.
  apply le_store_be_load; auto using length_le_store with fsw.
Qed.

(** ** Masking *)
Lemma length_mask_from key k d : length (Rfc6455.mask_from key k d) = length d.
Proof. revert k. induction d; intros; cbn; auto. Qed.
Lemma zlen_mask_from key k d : zlen (Rfc6455.mask_from key k d) = zlen d.
Proof. unfold zlen. by rewrite length_mask_from. Qed.

Lemma mask_from_app key k d e :
  Rfc6455.mask_from key k (d ++ e) =
  Rfc6455.mask_from key k d ++ Rfc6455.mask_from key (k + length d) e.
Proof.
  revert k. induction d as [|b d IH]; intros k; cbn.
  - by rewrite Nat.add_0_r.
  - rewrite IH. do 3 f_equal. lia.
Qed.

(** The key repeats every four octets. *)
Lemma mask_from_period key k j d :
  (k mod 4 = j mod 4)%nat → Rfc6455.mask_from key k d = Rfc6455.mask_from key j d.
Proof.
  revert k j. induction d as [|b d IH]; intros k j H; [done|].
  cbn [Rfc6455.mask_from]. rewrite H. f_equal.
  apply IH. apply (f_equal Z.of_nat) in H. apply Nat2Z.inj.
  rewrite !Nat2Z.inj_mod in *. Z.div_mod_to_equations. lia.
Qed.

Lemma mask_from_bytes_ok key k d :
  bytes_ok key → length key = 4%nat → bytes_ok d → bytes_ok (Rfc6455.mask_from key k d).
Proof.
  intros Hk Hl Hd. revert k. induction Hd as [|b d Hb _ IH]; intros k; cbn [Rfc6455.mask_from]; constructor; auto.
  apply lxor_is_byte; [done|].
  destruct (lookup_lt_is_Some_2 key (k mod 4)%nat) as [x Hx].
  { pose proof (Nat.mod_upper_bound k 4). lia. }
  rewrite (list_lookup_total_correct _ _ _ Hx). by eapply Forall_lookup_1.
Qed.

(** Masking twice with one key restores the payload. *)
Lemma mask_from_involutive key k d :
  Rfc6455.mask_from key k (Rfc6455.mask_from key k d) = d.
Proof.
  revert k. induction d as [|b d IH]; intros k; cbn [Rfc6455.mask_from]; [done|].
  by rewrite IH, Z.lxor_assoc, Z.lxor_nilpotent, Z.lxor_0_r.
Qed.

(** Eight octets from a multiple of four are one word xor-ed with the key word. *)
Lemma mask_word key w :
  bytes_ok key → length key = 4%nat → bytes_ok w → length w = 8%nat →
  le_store 8 (Z.lxor (le_load w) (Z.lor (u64 (Z.shiftl (le_load key) 32)) (le_load key)))
    = Rfc6455.mask_from key 0 w.
Proof.
  intros Hk Hlk Hw Hlw. pose proof (le_load_bound key Hk) as B.
  unfold zlen in B. rewrite Hlk in B. change (256 ^ Z.of_nat 4) with (2 ^ 32) in B.
  assert (E : Z.lor (u64 (Z.shiftl (le_load key) 32)) (le_load key) = le_load (key ++ key)).
  { rewrite u64_id by (rewrite Z.shiftl_mul_pow2; lia).
    rewrite lor_shiftl_add, le_load_app by lia. unfold zlen. rewrite Hlk.
    change (256 ^ Z.of_nat 4) with (2 ^ 32). lia. }
  assert (Hkk : length w = length (key ++ key)) by (rewrite length_app; lia).
  rewrite E, le_load_lxor by auto with fsw.
  assert (Hz : length (zip_with Z.lxor w (key ++ key)) = 8%nat).
  { rewrite length_zip_with_l_eq; done. }
  rewrite <- Hz, le_store_load.
  - do 8 (destruct w as [|? w]; [done|]). destruct w; [|done].
    do 4 (destruct key as [|? key]; [done|]). by destruct key.
  - apply (Forall_zip_with_snd _ is_byte); [|by auto with fsw].
    eapply Forall_impl; [|exact Hw]. auto with fsw.
Qed.

Lemma mask_words_ok key pre d post data i n :
  bytes_ok key → length key = 4%nat → bytes_ok d → length d = (8 * n)%nat →
  zlen pre = data + 8 * i →
  mask_words (pre ++ d ++ post) data i n
    (Z.lor (u64 (Z.shiftl (le_load key) 32)) (le_load key)) =
  Ok (pre ++ Rfc6455.mask_from key 0 d ++ post).
Proof.
  intros Hk Hlk. revert pre d i. induction n as [|n IH]; intros pre d i Hd Hl Hpre.
  { destruct d; [done|cbn in Hl; lia]. }
  rewrite <- (take_drop 8 d). set (w := take 8 d). set (d' := drop 8 d).
  assert (Hw : length w = 8%nat) by (unfold w; rewrite length_take; lia).
  cbn [mask_words]. rewrite <- app_assoc, <- Hpre.
  rewrite (mem_read_split pre w) by (unfold zlen; lia). rewrite outcome_bind_ok.
  rewrite (mem_write_split pre w) by (rewrite zlen_le_store; unfold zlen; lia).
  rewrite outcome_bind_ok, mask_word by (done || by apply Forall_take).
  rewrite app_assoc, (IH _ d').
  - rewrite mask_from_app, <- !app_assoc. do 4 f_equal. apply mask_from_period. by rewrite Hw.
  - by apply Forall_drop.
  - unfold d'. rewrite length_drop. lia.
  - rewrite zlen_app, zlen_mask_from. unfold zlen at 2. lia.
Qed.

Lemma mask_tail_ok key pre d post data i n :
  length key = 4%nat → length d = n → zlen pre = data + i → 0 ≤ i →
  mask_tail (pre ++ d ++ post) data i n key =
  Ok (pre ++ Rfc6455.mask_from key (Z.to_nat i) d ++ post).
Proof.
  intros Hlk. revert pre d i. induction n as [|n IH]; intros pre d i Hl Hpre Hi.
  { destruct d; [done|cbn in Hl; lia]. }
  destruct d as [|b d]; [done|]. injection Hl as Hl. cbn [mask_tail app].
  rewrite <- Hpre.
  rewrite (mem_get_split pre b), outcome_bind_ok.
  assert (Hm : Z.to_nat (i mod MASK_LEN) = (Z.to_nat i mod 4)%nat).
  { unfold MASK_LEN. rewrite Z2Nat.inj_mod by lia. done. }
  rewrite (mem_get_ok key _ (key !!! (Z.to_nat i mod 4)%nat)), outcome_bind_ok.
  2: unfold MASK_LEN; Z.div_mod_to_equations; lia.
  2: rewrite Hm; apply list_lookup_lookup_total_lt;
     pose proof (Nat.mod_upper_bound (Z.to_nat i) 4); lia.
  change (pre ++ b :: d ++ post) with (pre ++ [b] ++ d ++ post).
  rewrite mem_write_split, outcome_bind_ok, app_assoc, IH; try done.
  - cbn [Rfc6455.mask_from]. rewrite <- app_assoc. cbn [app].
    by replace (Z.to_nat (i + 1)) with (S (Z.to_nat i)) by lia.
  - rewrite zlen_app. unfold zlen at 2. cbn [length]. lia.
  - lia.
Qed.

(** The word loop and the byte loop together are the RFC's masking. *)
Lemma mask_ok key pre d post :
  bytes_ok key → length key = 4%nat → bytes_ok d →
  mask (pre ++ d ++ post) (zlen pre) (zlen d) key = Ok (pre ++ Rfc6455.mask key d ++ post).
Proof.
  intros Hk Hlk Hd. unfold mask.
  assert (Hr : mem_read key 0 4 = Ok key).
  { rewrite <- (app_nil_r key) at 1. apply (mem_read_split [] key []). unfold zlen. lia. }
  rewrite Hr, outcome_bind_ok. cbv zeta.
  set (n := Z.to_nat (zlen d / 8)).
  assert (Hn : (8 * n ≤ length d)%nat) by (unfold n, zlen; Z.div_mod_to_equations; lia).
  rewrite <- (take_drop (8 * n) d) at 1. rewrite <- app_assoc.
  rewrite mask_words_ok, outcome_bind_ok; [|done|done|by apply Forall_take|rewrite length_take; lia|lia].
  set (d1 := take (8 * n) d). set (d2 := drop (8 * n) d).
  assert (Hd1 : length d1 = (8 * n)%nat) by (unfold d1; rewrite length_take; lia).
  assert (Hd2 : length d2 = (length d - 8 * n)%nat) by (unfold d2; by rewrite length_drop).
  assert (Hsplit : d = d1 ++ d2) by (symmetry; apply take_drop).
  rewrite app_assoc, mask_tail_ok; [|done| | |].
  - rewrite <- app_assoc. do 2 f_equal. unfold Rfc6455.mask.
    rewrite Hsplit at 2. rewrite mask_from_app, <- app_assoc. do 2 f_equal.
    apply mask_from_period. rewrite Hd1.
    replace (Z.to_nat (zlen d / 8 * 8)) with (8 * n)%nat
      by (unfold n, zlen; Z.div_mod_to_equations; lia).
    f_equal.
  - rewrite Hd2. unfold n, zlen in *. Z.div_mod_to_equations; lia.
  - rewrite zlen_app, zlen_mask_from. unfold zlen at 2. rewrite Hd1.
    unfold n, zlen. Z.div_mod_to_equations; lia.
  - unfold zlen. Z.div_mod_to_equations; lia.
Qed.

(** Every outcome of the loops: outside the memory, or done with the region
    inside it. *)
Lemma mask_words_cases mem data i n k :
  mask_words mem data i n k = UB ∨
  ∃ mem', mask_words mem data i n k = Ok mem' ∧ zlen mem' = zlen mem ∧
          (n ≠ 0%nat → data + 8 * (i + Z.of_nat n) ≤ zlen mem).
Proof.
  revert mem i. induction n as [|n IH]; intros mem i; cbn [mask_words].
  { right. by exists mem. }
  destruct (mem_read mem (data + 8 * i) 8) as [w| |] eqn:Er; [|by apply mem_read_exit in Er|by left].
  rewrite outcome_bind_ok. apply mem_read_inv in Er as (? & _ & ? & _).
  destruct (mem_write mem _ _) as [m| |] eqn:Ew; [|by apply mem_write_exit in Ew|by left].
  rewrite outcome_bind_ok. apply mem_write_zlen in Ew.
  destruct (IH m (i + 1)) as [->|(mem' & -> & Hz & Hb)]; [by left|right].
  exists mem'. split; [done|]. split; [lia|]. intros _.
  destruct n; [lia|]. specialize (Hb ltac:(done)). lia.
Qed.

Lemma mask_tail_cases mem data i n key :
  mask_tail mem data i n key = UB ∨
  ∃ mem', mask_tail mem data i n key = Ok mem' ∧
          (n ≠ 0%nat → data + i + Z.of_nat n ≤ zlen mem).
Proof.
  revert mem i. induction n as [|n IH]; intros mem i; cbn [mask_tail].
  { right. by exists mem. }
  destruct (mem_get mem (data + i)) as [b| |] eqn:Eb; [|by apply mem_get_exit in Eb|by left].
  rewrite outcome_bind_ok.
  destruct (mem_get key _) as [k| |] eqn:Ek; [|by apply mem_get_exit in Ek|by left].
  rewrite outcome_bind_ok.
  destruct (mem_write mem _ _) as [m| |] eqn:Ew; [|by apply mem_write_exit in Ew|by left].
  rewrite outcome_bind_ok. pose proof (mem_write_zlen _ _ _ _ Ew).
  apply mem_write_inv in Ew as (? & Hle & _). rewrite zlen_cons, zlen_nil in Hle.
  destruct (IH m (i + 1)) as [->|(mem' & -> & Hb)]; [by left|right].
  exists mem'. split; [done|]. intros _. destruct n; [lia|]. specialize (Hb ltac:(done)). lia.
Qed.

(** Masking a region that leaves the memory is undefined. *)
Lemma mask_overrun mem data len key :
  0 < len → zlen mem < data + len → mask mem data len key = UB.
Proof.
  intros Hl Hm. unfold mask.
  destruct (mem_read key 0 4) as [k| |] eqn:Ek; [|by apply mem_read_exit in Ek|done].
  rewrite outcome_bind_ok. cbv zeta.
  destruct (mask_words_cases mem data 0 (Z.to_nat (len / 8))
    (Z.lor (u64 (Z.shiftl (le_load k) 32)) (le_load k))) as [->|(m & -> & Hz & Hb)]; [done|].
  rewrite outcome_bind_ok.
  destruct (mask_tail_cases m data (len / 8 * 8) (Z.to_nat (len - len / 8 * 8)) key)
    as [->|(m' & -> & Hb')]; [done|exfalso].
  rewrite Hz in Hb'. destruct (decide (len mod 8 = 0)).
  - apply (Z.lt_irrefl (zlen mem)). enough (data + 8 * (0 + Z.of_nat (Z.to_nat (len / 8))) ≤ zlen mem)
      by (Z.div_mod_to_equations; lia).
    apply Hb. Z.div_mod_to_equations; lia.
  - enough (data + len / 8 * 8 + Z.of_nat (Z.to_nat (len - len / 8 * 8)) ≤ zlen mem)
      by (Z.div_mod_to_equations; lia).
    apply Hb'. Z.div_mod_to_equations; lia.
Qed.

(** ** The header *)
Lemma length7_range n : 0 ≤ n → 0 ≤ Rfc6455.length7 n < 128.
Proof. unfold Rfc6455.length7. intros. repeat split_if; lia. Qed.

Lemma zlen_extended n :
  zlen (Rfc6455.extended n) = if n <? 126 then 0 else if n <? 65536 then 2 else 8.
Proof. unfold Rfc6455.extended. repeat split_if; by rewrite ?zlen_be_store. Qed.

Lemma extended_bytes_ok n : bytes_ok (Rfc6455.extended n).
Proof. unfold Rfc6455.extended. repeat split_if; auto with fsw. Qed.

(** The second octet, taken apart. *)
Lemma second_octet l (m : bool) :
  0 ≤ l < 128 →
  Z.land ((if m then 128 else 0) + l) 0x7f = l ∧
  Z.land (Z.shiftr ((if m then 128 else 0) + l) 7) 1 = Z.b2z m.
Proof.
  intros Hl. rewrite <- !Z.eqb_eq, <- andb_true_iff. revert l Hl.
  destruct m;
    [apply (range_brute (λ l, (Z.land (128 + l) 0x7f =? l) && (Z.land (Z.shiftr (128 + l) 7) 1 =? Z.b2z true)))
    |apply (range_brute (λ l, (Z.land (0 + l) 0x7f =? l) && (Z.land (Z.shiftr (0 + l) 7) 1 =? Z.b2z false)))];
    by vm_compute.
Qed.

Lemma fetch_length_ok b0 b1 n post :
  0 ≤ n < 2 ^ 64 →
  fetch_length (b0 :: b1 :: Rfc6455.extended n ++ post) (Rfc6455.length7 n) HEADER_LEN =
    Ok (n, 2 + zlen (Rfc6455.extended n)).
Proof.
  intros Hn. rewrite zlen_extended. unfold fetch_length, Rfc6455.length7, Rfc6455.extended.
  assert (Hrd : ∀ k z, z = Z.of_nat k →
    mem_read (b0 :: b1 :: be_store k n ++ post) HEADER_LEN z = Ok (be_store k n)).
  { intros k z ->. change (b0 :: b1 :: be_store k n ++ post) with ([b0; b1] ++ be_store k n ++ post).
    apply (mem_read_split [b0; b1]). by rewrite zlen_be_store. }
  destruct (Z.ltb_spec n 126); [|destruct (Z.ltb_spec n 65536)].
  - rewrite (proj2 (Z.eqb_neq n 126)), (proj2 (Z.eqb_neq n 127)) by lia. done.
  - change (126 =? 126) with true. cbn match. rewrite (Hrd 2%nat), outcome_bind_ok by done.
    rewrite ntohs_load, be_load_store by auto using length_be_store with fsw.
    rewrite Z.mod_small by (cbn; lia). done.
  - change (127 =? 126) with false. change (127 =? 127) with true. cbn match. rewrite (Hrd 8%nat), outcome_bind_ok by done.
    rewrite ntoh64_load, be_load_store by auto using length_be_store with fsw.
    rewrite Z.mod_small by (cbn; lia). done.
Qed.

(** What decoding a message does, once its header is read: [n] is the declared
    payload length, [off] where the key or the payload starts. *)
Lemma decode_head f b b0 (m : bool) n post :
  0 ≤ n < 2 ^ 64 → _buffer b = Rfc6455.head b0 m n ++ post →
  let h := header_of b0 ((if m then 128 else 0) + Rfc6455.length7 n) in
  let off := 2 + zlen (Rfc6455.extended n) in
  decode f b =
    if m then
      key ← mem_read (_buffer b) off 4;
      mem ← (if 0 <? n then mask (_buffer b) (off + 4) n key else Ok (_buffer b));
      Ok (mkFrame h key (off + 4) n (off + 4), mkBuffer (_size b) (_length b) mem)
    else Ok (mkFrame h (mask_key f) off n off, b).
Proof.
  intros Hn Hb h off. destruct (second_octet (Rfc6455.length7 n) m) as [Hl Hm];
    [apply length7_range; lia|].
  set (b1 := (if m then 128 else 0) + Rfc6455.length7 n) in *.
  assert (Hoff : off = 2 ∨ off = 4 ∨ off = 10).
  { unfold off. rewrite zlen_extended. repeat split_if; lia. }
  unfold decode, fetch_header.
  assert (E : _buffer b = b0 :: b1 :: Rfc6455.extended n ++ post) by done.
  assert (Hh : mem_read (_buffer b) 0 HEADER_LEN = Ok [b0; b1]).
  { rewrite E. by apply (mem_read_split [] [b0; b1]). }
  assert (H1 : mem_get (_buffer b) 1 = Ok b1).
  { rewrite E. by apply (mem_get_split [b0]). }
  rewrite Hh, outcome_bind_ok. change (mem_get [b0; b1] 0) with (Ok b0).
  change (mem_get [b0; b1] 1) with (Ok b1). rewrite !outcome_bind_ok. cbn [header mask_key].
  unfold fetch_payload. rewrite H1, outcome_bind_ok. cbn [header mask_key].
  assert (Hs : set_hlength (header_of b0 b1) (Z.land b1 0x7f) = h) by done.
  rewrite Hs. cbn zeta. change (hlength h) with (Z.land b1 0x7f). rewrite Hl.
  rewrite E, fetch_length_ok, <- E, outcome_bind_ok by done. fold off.
  change (hmask h) with (Z.land (Z.shiftr b1 7) 1). rewrite Hm.
  assert (Hu : u8 (off + MASK_LEN) = off + 4) by (unfold MASK_LEN; in_words).
  rewrite Hu. destruct m; cbn [Z.b2z Z.eqb negb].
  - unfold MASK_LEN. destruct (mem_read (_buffer b) off 4); [|done..].
    rewrite !outcome_bind_ok.
    destruct (if 0 <? n then _ else _); done.
  - rewrite !outcome_bind_ok. by destruct b.
Qed.

(** The octet [encode] assembles from its arguments. *)
Definition first_octet (op finish : Z) : Z := op mod 16 + 128 * (finish mod 2).

Lemma first_octet_byte op finish : is_byte (first_octet op finish).
Proof. unfold first_octet. in_words. Qed.

Lemma head_bytes_ok b0 m n : is_byte b0 → 0 ≤ n → bytes_ok (Rfc6455.head b0 m n).
Proof.
  intros Hb Hn. pose proof (length7_range n Hn). unfold Rfc6455.head.
  repeat apply Forall_cons_2; [done| |apply extended_bytes_ok].
  unfold is_byte. destruct m; lia.
Qed.

Lemma zlen_head b0 m n : zlen (Rfc6455.head b0 m n) = 2 + zlen (Rfc6455.extended n).
Proof. unfold Rfc6455.head. rewrite !zlen_cons. lia. Qed.

Lemma write_header junk x y ext :
  length junk = 16%nat → (length ext ≤ 14)%nat →
  (fh ← mem_write junk 0 [x; y]; mem_write fh 2 ext) =
    Ok (x :: y :: ext ++ drop (2 + length ext) junk).
Proof.
  intros Hj He. destruct junk as [|j0 [|j1 t]]; [done..|]. injection Hj as Ht.
  rewrite (mem_write_split [] [j0; j1] [x; y] t eq_refl
    : mem_write (j0 :: j1 :: t) 0 [x; y] = Ok (x :: y :: t)), outcome_bind_ok.
  rewrite <- (take_drop (length ext) t) at 1.
  apply (mem_write_split [x; y] (take (length ext) t) ext).
  unfold zlen. rewrite length_take. lia.
Qed.

(** The header part of [encode] is the RFC's. *)
Lemma encode_header junk eb data op finish :
  length junk = 16%nat → bytes_ok junk → 0 ≤ _length data < 2 ^ 63 →
  let hd := Rfc6455.head (first_octet op finish) false (_length data) in
  ∃ rest, bytes_ok rest ∧
    encode junk eb data op finish =
      (eb' ← Buffer.append_raw eb (hd ++ rest) (zlen hd);
       if 0 <? _length data then Buffer.append_buf eb' data else Ok eb').
Proof.
  intros Hj Hjb Hlen hd. set (len := _length data) in *.
  exists (drop (2 + length (Rfc6455.extended len)) junk). split; [by apply Forall_drop|].
  assert (He : (length (Rfc6455.extended len) ≤ 14)%nat).
  { pose proof (zlen_extended len) as E. unfold zlen in E.
    destruct (len <? 126), (len <? 65536); lia. }
  assert (Henc : encode junk eb data op finish =
    (fh ← (fh ← mem_write junk 0 [first_octet op finish; Rfc6455.length7 len];
           mem_write fh 2 (Rfc6455.extended len));
     eb' ← Buffer.append_raw eb fh (2 + zlen (Rfc6455.extended len));
     if 0 <? len then Buffer.append_buf eb' data else Ok eb')).
  { assert (Hhb : ∀ v, header_bytes (set_hlength (mkHeader (op mod 16) 0 0 0 (finish mod 2) 0 0) v)
                       = [first_octet op finish; v]).
    { intros v. unfold header_bytes, first_octet. cbn [opcode rsv3 rsv2 rsv1 fin hlength hmask set_hlength].
      f_equal; [lia|]. f_equal; lia. }
    rewrite outcome_bind_assoc. unfold encode. fold len.
    unfold Rfc6455.length7, Rfc6455.extended.
    destruct (Z.ltb_spec len 126); [|destruct (Z.ltb_spec len 65536)]; rewrite outcome_bind_ok.
    - rewrite (Z.mod_small len) by lia. by rewrite Hhb.
    - rewrite u16_id, store_htons by lia. by rewrite Hhb.
    - rewrite hton64_store by lia. by rewrite Hhb. }
  rewrite Henc, write_header, outcome_bind_ok by done.
  unfold hd. rewrite zlen_head. done.
Qed.

Lemma encode_ok junk eb data op finish :
  length junk = 16%nat → bytes_ok junk → Buffer.wf eb → Buffer.wf data →
  _size eb < 2 ^ 62 → _size data < 2 ^ 62 →
  let w := Rfc6455.frame (first_octet op finish) None (Buffer.contents data) in
  if _size eb <? _length eb + zlen w then encode junk eb data op finish = Exit
  else ∃ eb', encode junk eb data op finish = Ok eb' ∧ Buffer.wf eb' ∧ _size eb' = _size eb ∧
              Buffer.contents eb' = Buffer.contents eb ++ w.
Proof.
  intros Hj Hjb Heb Hd Hseb Hsd w.
  pose proof (Buffer.wf_len eb Heb). pose proof (Buffer.wf_len data Hd).
  pose proof (Buffer.zlen_contents data Hd) as Hlc.
  destruct (encode_header junk eb data op finish) as (rest & Hrest & ->); [done|done|lia|].
  set (hd := Rfc6455.head (first_octet op finish) false (_length data)).
  assert (Hhd : 2 ≤ zlen hd ≤ 10).
  { unfold hd. rewrite zlen_head, zlen_extended. repeat split_if; lia. }
  assert (Hw : w = hd ++ Buffer.contents data) by (unfold w, hd; by rewrite <- Hlc).
  assert (Hhb : bytes_ok hd) by (apply head_bytes_ok; [apply first_octet_byte|lia]).
  pose proof (Buffer.append_raw_ok eb (hd ++ rest) (zlen hd) Heb) as Happ.
  rewrite take_zlen_app in Happ.
  ospecialize (Happ _ _ _); [by apply Forall_app_2|solve_zlen|lia|].
  rewrite Hw, zlen_app, Hlc.
  destruct (Z.ltb_spec (_size eb) (_length eb + zlen hd)) as [Hlt|Hge].
  - rewrite Happ. split_if; [done|lia].
  - destruct Happ as (eb1 & -> & Heb1 & Hs1 & Hc1). rewrite outcome_bind_ok.
    assert (Hl1 : _length eb1 = _length eb + zlen hd).
    { rewrite <- !Buffer.zlen_contents by done. rewrite Hc1. by rewrite zlen_app. }
    destruct (Z.ltb_spec 0 (_length data)) as [Hpos|Hz].
    + pose proof (Buffer.append_buf_ok eb1 data Heb1 Hd) as Ha.
      rewrite Hs1, Hl1 in Ha. ospecialize (Ha _); [lia|].
      rewrite <- Z.add_assoc in Ha. split_if; [done|].
      destruct Ha as (eb2 & -> & Heb2 & Hs2 & Hc2). exists eb2. split; [done|].
      split; [done|]. split; [done|]. by rewrite Hc2, Hc1, app_assoc.
    + split_if; [lia|]. exists eb1. split; [done|]. split; [done|]. split; [done|].
      assert (Buffer.contents data = []) as ->.
      { destruct (Buffer.contents data); [done|]. rewrite zlen_cons in Hlc.
        pose proof (zlen_nonneg l). lia. }
      by rewrite app_nil_r.
Qed.

(** Decoding a whole frame that lies at the start of the buffer. *)
Lemma decode_frame_ok f b b0 key data rest :
  bytes_ok data → zlen data < 2 ^ 63 →
  (∀ k, key = Some k → bytes_ok k ∧ length k = 4%nat) →
  _buffer b = Rfc6455.frame b0 key data ++ rest →
  ∃ f' hd, decode f b = Ok (f', mkBuffer (_size b) (_length b) (hd ++ data ++ rest)) ∧
    header f' = header_of b0 ((if key is Some _ then 128 else 0) + Rfc6455.length7 (zlen data)) ∧
    payload_length f' = zlen data ∧ payload f' = zlen hd ∧ header_length f' = zlen hd ∧
    (∀ k, key = Some k → mask_key f' = k) ∧
    hd = Rfc6455.head b0 (if key is Some _ then true else false) (zlen data) ++ default [] key.
Proof.
  intros Hd Hn Hk Hb. pose proof (zlen_nonneg data).
  destruct key as [k|]; unfold Rfc6455.frame in Hb; rewrite <- app_assoc in Hb.
  - destruct (Hk k eq_refl) as [Hkb Hkl].
    rewrite (decode_head f b b0 true (zlen data) _ ltac:(lia) Hb). cbv zeta.
    set (hd := Rfc6455.head b0 true (zlen data)) in *.
    rewrite <- (zlen_head b0 true). fold hd. rewrite Hb, <- app_assoc.
    rewrite (mem_read_split hd k) by (unfold zlen; lia). rewrite outcome_bind_ok.
    assert (Hm : (if 0 <? zlen data
                  then mask (hd ++ k ++ Rfc6455.mask k data ++ rest) (zlen hd + 4) (zlen data) k
                  else Ok (hd ++ k ++ Rfc6455.mask k data ++ rest))
                 = Ok ((hd ++ k) ++ data ++ rest)).
    { replace (zlen hd + 4) with (zlen (hd ++ k)) by (rewrite zlen_app; unfold zlen; lia).
      rewrite app_assoc. split_if.
      - rewrite <- (zlen_mask_from k 0 data) at 1. rewrite mask_ok; [|done|done|by apply mask_from_bytes_ok].
        unfold Rfc6455.mask. by rewrite mask_from_involutive.
      - destruct data; [done|]. rewrite zlen_cons in *. pose proof (zlen_nonneg data). lia. }
    rewrite Hm, outcome_bind_ok. eexists _, (hd ++ k). split; [reflexivity|].
    cbn [header payload_length payload header_length mask_key].
    assert (zlen (hd ++ k) = zlen hd + 4) as -> by (rewrite zlen_app; unfold zlen; lia).
    split_and!; try done. by intros k' [= ->].
  - rewrite (decode_head f b b0 false (zlen data) _ ltac:(lia) Hb). cbv zeta.
    rewrite <- (zlen_head b0 false). eexists _, (Rfc6455.head b0 false (zlen data)).
    split; [rewrite <- Hb; by destruct b|]. rewrite app_nil_r. by split_and!.
Qed.

End FrameFacts.

(** ** Properties *)
Section websocket_properties.
Import FrameFacts.

(** The masking routine, eight octets at a time with a doubled key word
    and a byte loop for the rest, is the RFC's octet-wise masking: it changes
    exactly the region, and a region that leaves the memory is an access
    outside the object. *)
Theorem mask_is_rfc6455 (mem key : bytes) (off len : Z) :
  bytes_ok mem → bytes_ok key → length key = 4%nat → 0 ≤ off → 0 < len →
  Frame.mask mem off len key =
    if off + len <=? zlen mem
    then Ok (take (Z.to_nat off) mem
             ++ Rfc6455.mask key (take (Z.to_nat len) (drop (Z.to_nat off) mem))
             ++ drop (Z.to_nat (off + len)) mem)
    else UB.
Proof.
  intros Hm Hk Hkl Ho Hl. split_if; [|by apply mask_overrun].
  set (d := take (Z.to_nat len) (drop (Z.to_nat off) mem)).
  assert (Hd : zlen d = len) by (apply zlen_take; rewrite zlen_drop; lia).
  assert (E : mem = take (Z.to_nat off) mem ++ d ++ drop (Z.to_nat (off + len)) mem).
  { unfold d. rewrite Z2Nat.inj_add, <- drop_drop by lia. by rewrite !take_drop. }
  pose proof (mask_ok key (take (Z.to_nat off) mem) d (drop (Z.to_nat (off + len)) mem) Hk Hkl) as H.
  rewrite <- E, zlen_take, Hd in H by lia. apply H. by apply Forall_take, Forall_drop.
Qed.

(** The encoder appends the RFC 6455 frame of the data to the buffer: FIN
    and opcode octet (the arguments reduced to one and four bits), the 7-bit,
    16-bit or 64-bit length in network order, no masking key, the payload; when
    the frame does not fit the buffer's capacity the process ends. The result
    does not depend on the uninitialised header array. *)
Theorem encode_is_rfc6455 (junk : bytes) (eb data : buffer) (op finish : Z) :
  length junk = 16%nat → bytes_ok junk → Buffer.wf eb → Buffer.wf data →
  _size eb < 2 ^ 62 → _size data < 2 ^ 62 →
  let w := Rfc6455.frame (op mod 16 + 128 * (finish mod 2)) None (Buffer.contents data) in
  match Frame.encode junk eb data op finish with
  | Ok eb' => Buffer.wf eb' ∧ Buffer.contents eb' = Buffer.contents eb ++ w
              ∧ _length eb + zlen w ≤ _size eb
  | Exit => _size eb < _length eb + zlen w
  | UB => False
  end.
Proof.
  intros Hj Hjb Heb Hd Hse Hsd w.
  pose proof (encode_ok junk eb data op finish Hj Hjb Heb Hd Hse Hsd) as H.
  cbv zeta in H. change (Rfc6455.frame (first_octet op finish) None (Buffer.contents data)) with w in H.
  split_if_in H; [by rewrite H|]. destruct H as (eb' & -> & ? & ? & ?). auto.
Qed.

(** C21: the decoder inverts the wire format: given a buffer that starts with a
    frame, masked with any key or not, it leaves the unmasked payload in place
    and returns a frame whose pointer and length delimit exactly that payload,
    with the header bits of the first octet; what follows the frame is not
    touched. *)
Theorem decode_inverts_rfc6455 (f : Frame) (b : buffer) (b0 : Z) (key : option bytes)
    (data rest : bytes) :
  bytes_ok data → zlen data < 2 ^ 63 →
  (∀ k, key = Some k → bytes_ok k ∧ length k = 4%nat) →
  _buffer b = Rfc6455.frame b0 key data ++ rest →
  ∃ f' b', Frame.decode f b = Ok (f', b') ∧
    mem_read (_buffer b') (payload f') (payload_length f') = Ok data ∧
    payload_length f' = zlen data ∧
    opcode (header f') = Z.land b0 0xf ∧ fin (header f') = Z.land (Z.shiftr b0 7) 1 ∧
    hmask (header f') = (if key is Some _ then 1 else 0) ∧
    drop (Z.to_nat (payload f' + payload_length f')) (_buffer b') = rest.
Proof.
  intros Hd Hn Hk Hb.
  destruct (decode_frame_ok f b b0 key data rest Hd Hn Hk Hb)
    as (f' & hd & Hdec & Hh & Hpl & Hp & _ & _).
  eexists f', _. split; [exact Hdec|]. cbn [_buffer]. rewrite Hp, Hpl, Hh.
  assert (0 ≤ Rfc6455.length7 (zlen data) < 128) by (apply length7_range; solve_zlen).
  destruct (second_octet (Rfc6455.length7 (zlen data)) (if key is Some _ then true else false)) as [_ Hm]; [done|].
  split_and!; try done.
  - by apply mem_read_split.
  - by destruct key.
  - by rewrite <- zlen_app, app_assoc, drop_zlen_app.
Qed.

(** Round trip. A frame the server encodes into an empty buffer large
    enough for it decodes to the same payload, opcode and FIN bit, unmasked. *)
Theorem encode_decode_roundtrip (f : Frame) (junk : bytes) (size : Z) (data : buffer) (op finish : Z) :
  length junk = 16%nat → bytes_ok junk → Buffer.wf data → _size data < 2 ^ 62 →
  _length data + 10 ≤ size < 2 ^ 62 → 0 ≤ op < 16 → 0 ≤ finish < 2 →
  ∃ f' b', (eb ← Frame.encode junk (Buffer.make size) data op finish; Frame.decode f eb) = Ok (f', b') ∧
    mem_read (_buffer b') (payload f') (payload_length f') = Ok (Buffer.contents data) ∧
    opcode (header f') = op ∧ fin (header f') = finish ∧ hmask (header f') = 0.
Proof.
  intros Hj Hjb Hd Hsd Hs Ho Hf. pose proof (Buffer.wf_len data Hd).
  pose proof (Buffer.zlen_contents data Hd) as Hlc.
  destruct (Buffer.make_wf size) as [Hm Hmc]; [in_words|].
  pose proof (encode_ok junk (Buffer.make size) data op finish Hj Hjb Hm Hd) as H'.
  cbv zeta in H'. rewrite Hmc in H'. cbn [Buffer.make _size _length app] in H'.
  do 2 (ospecialize (H' _); [lia|]).
  set (b0 := first_octet op finish) in *.
  assert (Hfl : zlen (Rfc6455.frame b0 None (Buffer.contents data)) ≤ 10 + _length data).
  { unfold Rfc6455.frame. rewrite zlen_app, zlen_head, Hlc, zlen_extended. repeat split_if; lia. }
  split_if_in H'; [lia|]. destruct H' as (eb & -> & Hweb & _ & Hc). rewrite outcome_bind_ok.
  destruct (Buffer.wf_shape eb Hweb) as (tail & _ & Hmem & _). rewrite Hc in Hmem.
  destruct (decode_frame_ok f eb b0 None (Buffer.contents data) (0 :: tail))
    as (f' & hd & Hdec & Hh & Hpl & Hp & _ & _); try done; [|lia|].
  { by apply Buffer.contents_bytes_ok. }
  eexists f', _. split; [exact Hdec|]. cbn [_buffer]. rewrite Hp, Hpl, Hh.
  assert (0 ≤ Rfc6455.length7 (zlen (Buffer.contents data)) < 128) by (apply length7_range; lia).
  destruct (second_octet (Rfc6455.length7 (zlen (Buffer.contents data))) false) as [_ Hmk]; [done|].
  assert (Hbits : Z.land b0 0xf = op ∧ Z.land (Z.shiftr b0 7) 1 = finish).
  { unfold b0, first_octet. change 0xf with (Z.ones 4). change 1 with (Z.ones 1).
    rewrite !Z.land_ones, Z.shiftr_div_pow2 by lia. split; Z.div_mod_to_equations; lia. }
  destruct Hbits. split_and!; try done. by apply mem_read_split.
Qed.

(** C40: the decoder never compares the declared payload length with what was
    received. For a frame header that declares [n] octets in front of [avail]
    bytes of memory: an unmasked frame is returned with length [n] whatever
    [avail] is, and a masked frame whose payload leaves the buffer makes the
    in-place unmasking write outside it. *)
Theorem decode_length_unchecked (f : Frame) (b : buffer) (b0 n : Z) (key avail : bytes) :
  0 < n < 2 ^ 63 → length key = 4%nat →
  (_buffer b = Rfc6455.head b0 false n ++ avail →
     ∃ f', Frame.decode f b = Ok (f', b) ∧ payload_length f' = n) ∧
  (_buffer b = Rfc6455.head b0 true n ++ key ++ avail → zlen avail < n →
     Frame.decode f b = UB).
Proof.
  intros Hn Hk. split; intros Hb.
  - rewrite (decode_head f b b0 false n avail ltac:(lia) Hb). eauto.
  - intros Ha. rewrite (decode_head f b b0 true n _ ltac:(lia) Hb). cbv zeta.
    rewrite <- (zlen_head b0 true), Hb, (mem_read_split _ key), outcome_bind_ok
      by (unfold zlen; lia).
    split_if; [|lia]. rewrite mask_overrun; [done|lia|].
    rewrite !zlen_app. unfold zlen at 2. rewrite Hk. lia.
Qed.
End websocket_properties.

(** Witnesses. *)
Definition frame0 : Frame := mkFrame (mkHeader 0 0 0 0 0 0 0) [0; 0; 0; 0] 0 0 0.
Definition ws_data : buffer := mkBuffer 5 5 (str "hello" ++ [0]).
Definition ws_junk : bytes := replicate 16 170.
Definition ws_key : bytes := [1; 2; 3; 4].

Lemma ws_data_wf : Buffer.wf ws_data.
Proof.
  split; cbn; [lia|unfold SIZE_MAX; lia|done| |done].
  apply (bytes_ok_check (str "hello" ++ [0])). reflexivity.
Qed.

Lemma mask_is_rfc6455_witness :
  Frame.mask (str "0123456789abcdef") 2 11 ws_key =
    Ok (str "01" ++ Rfc6455.mask ws_key (str "23456789abc") ++ str "def").
Proof.
  etransitivity; [apply (mask_is_rfc6455 (str "0123456789abcdef") ws_key 2 11)|reflexivity];
    [apply bytes_ok_str|apply bytes_ok_check; reflexivity|reflexivity|lia|lia].
Defined.

Lemma encode_is_rfc6455_witness :
  match Frame.encode ws_junk (Buffer.make 16) ws_data 1 1 with
  | Ok eb' => Buffer.contents eb' = [129; 5] ++ str "hello"
  | _ => False
  end.
Proof.
  pose proof (encode_is_rfc6455 ws_junk (Buffer.make 16) ws_data 1 1 eq_refl) as H.
  destruct (Buffer.make_wf 16) as [Hm _]; [unfold SIZE_MAX; lia|].
  ospecialize (H _ Hm ws_data_wf _ _); [by apply bytes_ok_check|cbn; lia|cbn; lia|].
  destruct (Frame.encode ws_junk (Buffer.make 16) ws_data 1 1) as [eb'| |] eqn:E.
  - destruct H as (_ & -> & _). reflexivity.
  - discriminate E.
  - done.
Defined.

Lemma decode_inverts_rfc6455_witness :
  ∃ f' b', Frame.decode frame0
      (mkBuffer 32 11 (Rfc6455.frame 129 (Some ws_key) (str "hello") ++ [7; 7])) = Ok (f', b') ∧
    mem_read (_buffer b') (payload f') (payload_length f') = Ok (str "hello").
Proof.
  destruct (decode_inverts_rfc6455 frame0
    (mkBuffer 32 11 (Rfc6455.frame 129 (Some ws_key) (str "hello") ++ [7; 7]))
    129 (Some ws_key) (str "hello") [7; 7]) as (f' & b' & H1 & H2 & _); eauto.
  - apply bytes_ok_str.
  - reflexivity.
  - intros k [= <-]. split; [by apply bytes_ok_check|done].
Defined.

Lemma encode_decode_roundtrip_witness :
  ∃ f' b', (eb ← Frame.encode ws_junk (Buffer.make 16) ws_data 2 1; Frame.decode frame0 eb)
             = Ok (f', b') ∧
    mem_read (_buffer b') (payload f') (payload_length f') = Ok (str "hello").
Proof.
  destruct (encode_decode_roundtrip frame0 ws_junk 16 ws_data 2 1)
    as (f' & b' & H1 & H2 & _); eauto using ws_data_wf; try (cbn; lia).
  by apply bytes_ok_check.
Defined.

Lemma decode_length_unchecked_witness :
  Frame.decode frame0 (mkBuffer 32 0 (Rfc6455.head 129 true 2000 ++ ws_key ++ replicate 25 0)) = UB.
Proof.
  apply (decode_length_unchecked frame0 _ 129 2000 ws_key (replicate 25 0));
    [lia|reflexivity|reflexivity|reflexivity].
Defined.
