(* ===== verification/CoSocket.v ===== *)
(** * CoSocket: sockets (include/socket.h, src/socket.cc,
    include/coroutine_socket.h, src/coroutine/socket.cc)

    [sock] is a descriptor with the script of what the kernel will answer to
    the calls made on it and the record of what was done with it. The
    coroutine's view of [wait_event] is its return value: what happens while
    the coroutine is suspended is the subject of Event. *)

From S2P Require Import Prelude Words Buffer StdMap.
#[local] Open Scope Z_scope.

Definition EAGAIN : Z := 11.
Definition EINPROGRESS : Z := 115.
Definition FSW_SOCK_TCP : Z := 1.
Definition FSW_EVENT_READ : Z := 2 ^ 9.
Definition FSW_EVENT_WRITE : Z := 2 ^ 10.
Definition READ_BUF_MAX_SIZE : Z := 1024.
Definition WRITE_BUF_MAX_SIZE : Z := 1024.

(** ** The kernel's answers *)

(** To [::recv]: bytes it holds (none: end of file), or an error. *)
Inductive rx_answer := RxData (d : bytes) | RxError (errno : Z).
(** To [::send]: it takes at most [n] bytes (none when negative), or an error. *)
Inductive tx_answer := TxAccept (n : Z) | TxError (errno : Z).
(** To [::accept] and [::connect]: the value returned, or an error. *)
Inductive call_answer := CallOk (ret : Z) | CallError (errno : Z).

Record sock := mkSock {
  fd : Z;
  errno : Z;
  rx : list rx_answer;     (** answers to [recv], then end of file *)
  tx : list tx_answer;     (** answers to [send], then everything is taken *)
  calls : list call_answer;  (** answers to [accept] and [connect] *)
  waits : list bool;       (** what [wait_event] returns, then [true] *)
  waited : list Z;         (** ghost: the events waited for *)
  sent : bytes;            (** ghost: the bytes the kernel took *)
  shut : bool              (** ghost: [shutdown] was called *)
}.

Definition set_errno (e : Z) (s : sock) : sock :=
  mkSock (fd s) e (rx s) (tx s) (calls s) (waits s) (waited s) (sent s) (shut s).
Definition set_rx (l : list rx_answer) (s : sock) : sock :=
  mkSock (fd s) (errno s) l (tx s) (calls s) (waits s) (waited s) (sent s) (shut s).
Definition set_tx (l : list tx_answer) (d : bytes) (s : sock) : sock :=
  mkSock (fd s) (errno s) (rx s) l (calls s) (waits s) (waited s) (sent s ++ d) (shut s).
Definition set_calls (l : list call_answer) (s : sock) : sock :=
  mkSock (fd s) (errno s) (rx s) (tx s) l (waits s) (waited s) (sent s) (shut s).
Definition set_waits (l : list bool) (ev : Z) (s : sock) : sock :=
  mkSock (fd s) (errno s) (rx s) (tx s) (calls s) l (waited s ++ [ev]) (sent s) (shut s).
Definition set_shut (s : sock) : sock :=
  mkSock (fd s) (errno s) (rx s) (tx s) (calls s) (waits s) (waited s) (sent s) true.

(** ** [fsw::Socket]: the calls, with the kernel's result *)
Module Socket.

(** [recv(buf + off, len, 0)]: [buf] is the region. *)
Definition recv (s : sock) (buf : bytes) (off len : Z) : outcome (Z * bytes * sock) :=
  match rx s with
  | [] => Ok (0, buf, s)
  | RxError e :: l => Ok (-1, buf, set_errno e (set_rx l s))
  | RxData d :: l =>
      let got := take (Z.to_nat len) d in
      let rest := drop (Z.to_nat len) d in
      buf ← mem_write buf off got;
      Ok (zlen got, buf, set_rx (match rest with [] => l | _ => RxData rest :: l end) s)
  end.

(** [send(buf + off, len, 0)] *)
Definition send (s : sock) (buf : bytes) (off len : Z) : outcome (Z * sock) :=
  match tx s with
  | TxError e :: l => Ok (-1, set_errno e (set_tx l [] s))
  | TxAccept n :: l =>
      data ← mem_read buf off (Z.min (Z.max 0 n) len);
      Ok (zlen data, set_tx l data s)
  | [] => data ← mem_read buf off len; Ok (zlen data, set_tx [] data s)
  end.

(** [accept()] and [::connect(fd, ...)] *)
Definition call (s : sock) : Z * sock :=
  match calls s with
  | [] => (0, s)
  | CallOk r :: l => (r, set_calls l s)
  | CallError e :: l => (-1, set_errno e (set_calls l s))
  end.

(** [r < 0 ? false : true] of [listen], [close], [shutdown], [set_option],
    [get_option], [getname] and [getpeername], for the result [r] of the system
    call. *)
Definition succeeded (r : Z) : bool := if r <? 0 then false else true.
Definition listen := succeeded.
Definition close := succeeded.
Definition shutdown := succeeded.
Definition set_option := succeeded.
Definition get_option := succeeded.
Definition getname := succeeded.
Definition getpeername := succeeded.

(** [bind(type, host, port)]: [aton] is what [inet_aton] returns (0 when the
    address is not valid), [r] what [::bind] returns. *)
Definition bind (type aton r : Z) : bool :=
  if type =? FSW_SOCK_TCP then
    if aton <? 0 then false else if r <? 0 then false else true
  else false.

(** [set_nonblock()]: [get] and [set flags] are what the two [fcntl] calls
    return. *)
Definition O_NONBLOCK : Z := 2048.
Definition set_nonblock (get : Z) (set : Z → Z) : Z :=
  if get <? 0 then -1 else set (Z.lor get O_NONBLOCK).

End Socket.

(** ** [coroutine::Socket] *)
Record cosocket := mkCoSocket {
  sk : sock;
  err_code : Z;
  cread_buf : option buffer;
  cwrite_buf : option buffer
}.

Module CoSocket.

Definition set_sk (s : sock) (c : cosocket) : cosocket := mkCoSocket s (err_code c) (cread_buf c) (cwrite_buf c).
Definition set_read_buf (b : buffer) (c : cosocket) : cosocket := mkCoSocket (sk c) (err_code c) (Some b) (cwrite_buf c).
Definition set_write_buf (b : buffer) (c : cosocket) : cosocket := mkCoSocket (sk c) (err_code c) (cread_buf c) (Some b).

(** [set_err()]; the message is [strerror] of the code. *)
Definition set_err (c : cosocket) : cosocket := mkCoSocket (sk c) (errno (sk c)) (cread_buf c) (cwrite_buf c).

(** [Socket(int fd)] and [Socket(domain, type, protocol)], whose descriptor the
    caller gets from the kernel; [nonblock] is what [set_nonblock] returns. *)
Definition make (s : sock) (nonblock : Z) : cosocket :=
  let c := mkCoSocket s 0 None None in
  if nonblock <? 0 then set_err c else c.

Definition get_read_buf (c : cosocket) : buffer * cosocket :=
  match cread_buf c with
  | Some b => (b, c)
  | None => let b := Buffer.make READ_BUF_MAX_SIZE in (b, set_read_buf b c)
  end.
Definition get_write_buf (c : cosocket) : buffer * cosocket :=
  match cwrite_buf c with
  | Some b => (b, c)
  | None => let b := Buffer.make WRITE_BUF_MAX_SIZE in (b, set_write_buf b c)
  end.

(** [wait_event(event)], as the coroutine sees it. *)
Definition wait_event (ev : Z) (s : sock) : bool * sock :=
  match waits s with
  | [] => (true, set_waits [] ev s)
  | b :: l => (b, set_waits l ev s)
  end.

(** The retry loop of [recv], where the result is stored in an [int] ([w] is
    [i32]), and of [recv_all], where it is not. [None] is fuel exhausted. *)
Fixpoint recv_loop (w : Z → Z) (fuel : nat) (s : sock) (buf : bytes) (off len : Z) : option (outcome (Z * bytes * sock)) :=
  match fuel with
  | O => None
  | S fuel =>
      match Socket.recv s buf off len with
      | Ok (ret, buf, s) =>
          let ret := w ret in
          if (ret <? 0) && (errno s =? EAGAIN) then
            let '(again, s) := wait_event FSW_EVENT_READ s in
            if again then recv_loop w fuel s buf off len else Some (Ok (ret, buf, s))
          else Some (Ok (ret, buf, s))
      | r => Some r
      end
  end.

(** [recv(buf, len)] *)
Definition recv (fuel : nat) (s : sock) (buf : bytes) (len : Z) : option (outcome (Z * bytes * sock)) :=
  recv_loop i32 fuel s buf 0 len.

(** The loop of [recv_all]. *)
Fixpoint recv_all_loop (fuel : nat) (s : sock) (buf : bytes) (total len : Z) : option (outcome (Z * bytes * sock)) :=
  match fuel with
  | O => None
  | S fuel =>
      match recv_loop (λ r, r) fuel s buf total (u64 (len - total)) with
      | Some (Ok (ret, buf, s)) =>
          if ret <=? 0 then Some (Ok (if total =? 0 then ret else total, buf, s))
          else
            let total := total + ret in
            if u64 total =? len then Some (Ok (total, buf, s))
            else recv_all_loop fuel s buf total len
      | r => r
      end
  end.

Definition recv_all (fuel : nat) (s : sock) (buf : bytes) (len : Z) := recv_all_loop fuel s buf 0 len.

(** The retry loop of [send] and [send_all]; they wait for different events. *)
Fixpoint send_loop (w : Z → Z) (fuel : nat) (ev : Z) (s : sock) (buf : bytes) (off len : Z) : option (outcome (Z * sock)) :=
  match fuel with
  | O => None
  | S fuel =>
      match Socket.send s buf off len with
      | Ok (ret, s) =>
          let ret := w ret in
          if (ret <? 0) && (errno s =? EAGAIN) then
            let '(again, s) := wait_event ev s in
            if again then send_loop w fuel ev s buf off len else Some (Ok (ret, s))
          else Some (Ok (ret, s))
      | r => Some r
      end
  end.

Definition send (fuel : nat) (s : sock) (buf : bytes) (len : Z) : option (outcome (Z * sock)) :=
  send_loop i32 fuel FSW_EVENT_WRITE s buf 0 len.

Fixpoint send_all_loop (fuel : nat) (s : sock) (buf : bytes) (total len : Z) : option (outcome (Z * sock)) :=
  match fuel with
  | O => None
  | S fuel =>
      match send_loop (λ r, r) fuel FSW_EVENT_READ s buf total (u64 (len - total)) with
      | Some (Ok (ret, s)) =>
          if ret <=? 0 then Some (Ok (if total =? 0 then ret else total, s))
          else
            let total := total + ret in
            if u64 total =? len then Some (Ok (total, s))
            else send_all_loop fuel s buf total len
      | r => r
      end
  end.

Definition send_all (fuel : nat) (s : sock) (buf : bytes) (len : Z) := send_all_loop fuel s buf 0 len.

(** [accept()]: the descriptor the new socket is made of. *)
Fixpoint accept (fuel : nat) (s : sock) : option (Z * sock) :=
  match fuel with
  | O => None
  | S fuel =>
      let '(connfd, s) := Socket.call s in
      if (connfd <? 0) && (errno s =? EAGAIN) then
        let '(again, s) := wait_event FSW_EVENT_READ s in
        if again then accept fuel s else Some (connfd, s)
      else Some (connfd, s)
  end.

(** [connect(addr, addrlen)]: the loop, then the result. *)
Fixpoint connect_loop (fuel : nat) (s : sock) : option (Z * sock) :=
  match fuel with
  | O => None
  | S fuel =>
      let '(ret, s) := Socket.call s in
      if (ret <? 0) && (errno s =? EINPROGRESS) then
        let '(again, s) := wait_event FSW_EVENT_WRITE s in
        if again then connect_loop fuel s else Some (ret, s)
      else Some (ret, s)
  end.

Definition connect (fuel : nat) (c : cosocket) : option (bool * cosocket) :=
  match connect_loop fuel (sk c) with
  | None => None
  | Some (ret, s) =>
      let c := set_sk s c in
      Some (ret =? 0, if ret <? 0 then set_err c else c)
  end.

(** [connect(host, port, flags)]: [pton] is what [inet_pton] returns. *)
Definition connect_host (fuel : nat) (pton : Z) (c : cosocket) : option (outcome (bool * cosocket)) :=
  if pton =? 0 then Some Exit else Ok <$> connect fuel c.

(** The end of the wrappers, for the result [success] of the wrapped call; the
    arguments of the wrappers are the ones of the calls of [fsw::Socket]. *)
Definition checked (success : bool) (c : cosocket) : bool * cosocket :=
  (success, if success then c else set_err c).

Definition bind (type aton r : Z) (c : cosocket) : bool * cosocket := checked (Socket.bind type aton r) c.
Definition listen (r : Z) (c : cosocket) : bool * cosocket := checked (Socket.listen r) c.
Definition close (r : Z) (c : cosocket) : bool * cosocket := checked (Socket.close r) c.
Definition set_option (r : Z) (c : cosocket) : bool * cosocket := checked (Socket.set_option r) c.
Definition get_option (r : Z) (c : cosocket) : bool * cosocket := checked (Socket.get_option r) c.

(** [shutdown(how)], with the kernel's side of it. *)
Definition shutdown (r : Z) (c : cosocket) : bool * cosocket :=
  checked (Socket.shutdown r) (set_sk (set_shut (sk c)) c).

(** [get_name] and [get_peername]: [success] is what [getname] or
    [getpeername] returns, [addr] the text of the address, [port] the port in
    network byte order. *)
Definition name_info (success : bool) (addr : bytes) (port : Z) : stdmap bytes :=
  if success then StdMap.assign (str "port") (to_string (ntohs port)) (StdMap.assign (str "address") addr [])
  else [].

(** [check_client_close()]: reads until the peer has nothing more. *)
Fixpoint check_client_close (fuel : nat) (s : sock) (buf : bytes) : option (outcome (bytes * sock)) :=
  match fuel with
  | O => None
  | S fuel =>
      match recv fuel s buf READ_BUF_MAX_SIZE with
      | Some (Ok (ret, buf, s)) => if 0 <? ret then check_client_close fuel s buf else Some (Ok (buf, s))
      | Some Exit => Some Exit
      | Some UB => Some UB
      | None => None
      end
  end.

End CoSocket.

(** ** Streams *)
Module CoSocketFacts.
Import CoSocket.

(** Scripts without failures: data or "try again". *)
Definition rx_clean (l : list rx_answer) : Prop :=
  Forall (λ a, match a with RxData d => d ≠ [] | RxError e => e = EAGAIN end) l.
Definition tx_clean (l : list tx_answer) : Prop :=
  Forall (λ a, match a with TxAccept n => 1 ≤ n | TxError e => e = EAGAIN end) l.

(** The bytes the peer sends. *)
Fixpoint stream (l : list rx_answer) : bytes :=
  match l with
  | [] => []
  | RxData d :: l => d ++ stream l
  | RxError _ :: l => stream l
  end.

Lemma zlen_take_le {A} (z : Z) (l : list A) : 0 ≤ z → zlen (take (Z.to_nat z) l) = Z.min z (zlen l).
Proof. intros Hz. unfold zlen. rewrite length_take. lia. Qed.

Lemma take_prefix {A} (n : nat) (a b : list A) :
  ∃ k, take n a = take k (a ++ b) ∧ (k ≤ n)%nat ∧ drop n a ++ b = drop k (a ++ b) ∧ k = length (take n a).
Proof.
  exists (length (take n a)). rewrite length_take. split_and!.
  - rewrite take_app_le by lia. destruct (decide (n ≤ length a)%nat).
    + by rewrite Nat.min_l by lia.
    + rewrite Nat.min_r by lia. rewrite !take_ge by lia. done.
  - lia.
  - rewrite drop_app_le by lia. destruct (decide (n ≤ length a)%nat).
    + by rewrite Nat.min_l by lia.
    + rewrite Nat.min_r by lia. rewrite !drop_ge by lia. done.
  - done.
Qed.

(** One successful [recv]: it reads the bytes [got] of the stream and leaves
    the rest of it. *)
Lemma recv_loop_ok pre u suf (s : sock) (fuel : nat) (len : Z) :
  rx_clean (rx s) → waits s = [] → (length (rx s) < fuel)%nat → 0 < len → zlen u = len →
  ∃ got s', recv_loop (λ r, r) fuel s (pre ++ u ++ suf) (zlen pre) len =
      Some (Ok (zlen got, pre ++ got ++ drop (length got) u ++ suf, s')) ∧
    stream (rx s) = got ++ stream (rx s') ∧ zlen got ≤ len ∧ rx_clean (rx s') ∧ waits s' = [] ∧
    sent s' = sent s ∧ fd s' = fd s ∧
    (length (rx s') ≤ length (rx s))%nat ∧
    (got = [] → stream (rx s) = []) ∧
    (zlen got < len → got ≠ [] → (length (rx s') < length (rx s))%nat).
Proof.
  revert s. induction fuel as [|fuel IH]; intros s Hc Hw Hf Hl Hu; [lia|].
  cbn [recv_loop]. unfold Socket.recv. destruct (rx s) as [|[d|e] l] eqn:Erx.
  - change (0 <? 0) with false. cbn [andb]. exists [], s. rewrite Erx. cbn [stream app length drop].
    change (@zlen Z []) with 0. split_and!; try done; lia.
  - apply Forall_cons_1 in Hc as [Hd Hc].
    set (got := take (Z.to_nat len) d).
    assert (Hgl : zlen got = Z.min len (zlen d)) by (apply zlen_take_le; lia).
    assert (Hlu : (length got ≤ length u)%nat) by (unfold zlen in *; lia).
    assert (Hwr : mem_write (pre ++ u ++ suf) (zlen pre) got = Ok (pre ++ got ++ drop (length got) u ++ suf)).
    { rewrite <- (take_drop (length got) u) at 1. rewrite <- app_assoc.
      apply mem_write_split. unfold zlen. rewrite length_take. lia. }
    rewrite Hwr, outcome_bind_ok. cbv zeta beta iota.
    rewrite (proj2 (Z.ltb_ge (zlen got) 0)) by (pose proof (zlen_nonneg got); lia). cbn [andb].
    assert (Hgne : got ≠ []).
    { intros E. rewrite E, zlen_nil in Hgl. destruct d; [done|]. rewrite zlen_cons in Hgl.
      pose proof (zlen_nonneg d). lia. }
    eexists got, _. split; [reflexivity|]. cbn [rx set_rx waits sent fd].
    destruct (drop (Z.to_nat len) d) as [|y rest] eqn:Er.
    + assert (Hall : got = d).
      { unfold got. rewrite <- (take_drop (Z.to_nat len) d) at 2. by rewrite Er, app_nil_r. }
      rewrite Hall in *. cbn [stream length]. split_and!; try done; lia.
    + cbn [stream length]. split_and!; try done; try lia.
      * rewrite app_assoc. f_equal. unfold got. rewrite <- Er. by rewrite take_drop.
      * apply Forall_cons_2; done.
      * intros Hlt. exfalso. rewrite Hgl in Hlt.
        assert (Hn : (length (drop (Z.to_nat len) d) > 0)%nat) by (rewrite Er; cbn; lia).
        rewrite length_drop in Hn. unfold zlen in *. lia.
  - apply Forall_cons_1 in Hc as [-> Hc]. rewrite outcome_bind_ok || idtac. cbv zeta beta iota.
    cbn [errno set_errno set_rx]. change ((-1 <? 0) && (EAGAIN =? EAGAIN)) with true. cbv iota.
    unfold wait_event. cbn [waits set_errno set_rx]. rewrite Hw. cbv iota beta.
    destruct (IH (set_waits [] FSW_EVENT_READ (set_errno EAGAIN (set_rx l s)))) as
      (got & s' & H1 & H2 & H3 & H4 & H5 & H6 & H7 & H8 & H9 & H10); cbn [rx set_waits set_errno set_rx waits]; try done.
    { cbn [length] in Hf. lia. }
    exists got, s'. cbn [rx set_waits set_errno set_rx sent fd] in *.
    cbn [stream length]. split_and!; try done; [lia|]. intros Ha Hb. specialize (H10 Ha Hb). lia.
Qed.

(** [recv_all] fills the region from the stream. *)
Lemma recv_all_loop_ok (s : sock) (fuel : nat) : ∀ (pre u suf : bytes) (len : Z),
  rx_clean (rx s) → waits s = [] → (S (length (rx s)) < fuel)%nat → 0 < zlen u → zlen pre + zlen u = len →
  len < 2 ^ 63 →
  ∃ got s', recv_all_loop fuel s (pre ++ u ++ suf) (zlen pre) len =
      Some (Ok (zlen pre + zlen got, pre ++ got ++ drop (length got) u ++ suf, s')) ∧
    got = take (length u) (stream (rx s)) ∧ stream (rx s') = drop (length u) (stream (rx s)) ∧
    sent s' = sent s ∧ fd s' = fd s.
Proof.
  revert s. induction fuel as [|fuel IH]; intros s pre u suf len Hc Hw Hf Hu Hlen Hmax; [lia|].
  cbn [recv_all_loop]. pose proof (zlen_nonneg pre) as Hp.
  rewrite u64_id by lia. replace (len - zlen pre) with (zlen u) by lia.
  destruct (recv_loop_ok pre u suf s fuel (zlen u)) as
    (got & s1 & -> & Hst & Hle & Hc1 & Hw1 & Hs1 & Hfd1 & Hlen1 & Hnil & Hdec); [done|done|lia|done|done|].
  assert (Hgu : (length got ≤ length u)%nat) by (unfold zlen in *; lia).
  destruct (decide (got = [])) as [->|Hne].
  - cbn [app length drop]. change (@zlen Z []) with 0. change (0 <=? 0) with true. cbv iota.
    rewrite (Hnil eq_refl) in *. exists [], s1.
    change (@zlen Z []) with 0. rewrite Z.add_0_r. cbn [app length drop] in *. rewrite <- Hst.
    split_and!; try done.
    + destruct (zlen pre =? 0) eqn:E; [|done]. apply Z.eqb_eq in E. by rewrite E.
    + by rewrite take_nil.
    + by rewrite drop_nil.
  - assert (Hg : 0 < zlen got).
    { destruct got; [done|]. rewrite zlen_cons. pose proof (zlen_nonneg got). lia. }
    rewrite (proj2 (Z.leb_gt (zlen got) 0)) by lia. cbv zeta. rewrite u64_id by lia.
    destruct (zlen pre + zlen got =? len) eqn:E; zify_bools.
    + exists got, s1. assert (Hl : length got = length u) by (unfold zlen in *; lia).
      rewrite Hst. split_and!; try done.
      * by rewrite <- Hl, take_app_length.
      * by rewrite <- Hl, drop_app_length.
    + destruct (IH s1 (pre ++ got) (drop (length got) u) suf len) as (got2 & s2 & H1 & H2 & H3 & H4 & H5); try done.
      * assert (length (rx s1) < length (rx s))%nat by (apply Hdec; [lia|done]). lia.
      * unfold zlen. rewrite length_drop. unfold zlen in *. lia.
      * rewrite zlen_app. unfold zlen. rewrite length_drop. unfold zlen in *. lia.
      * rewrite zlen_app, <- !app_assoc in H1. exists (got ++ got2), s2. rewrite H1, zlen_app.
        split_and!; try congruence.
        -- do 2 f_equal. rewrite drop_drop, length_app, <- app_assoc. do 2 f_equal. lia.
        -- rewrite Hst, H2, length_drop. rewrite take_app_ge by lia. done.
        -- rewrite Hst, H3, length_drop. rewrite drop_app_ge by lia. done.
Qed.

(** One [send]: some of the bytes are taken, or all. *)
Lemma send_loop_ok pre u suf (s : sock) (fuel : nat) (ev len : Z) :
  tx_clean (tx s) → waits s = [] → (length (tx s) < fuel)%nat → 0 < len → zlen u = len →
  ∃ got s' n, send_loop (λ r, r) fuel ev s (pre ++ u ++ suf) (zlen pre) len = Some (Ok (zlen got, s')) ∧
    got = take (length got) u ∧ 0 < zlen got ≤ len ∧ sent s' = sent s ++ got ∧ tx_clean (tx s') ∧ waits s' = [] ∧
    waited s' = waited s ++ replicate n ev ∧ (length (tx s') ≤ length (tx s))%nat ∧
    (zlen got < len → (length (tx s') < length (tx s))%nat).
Proof.
  revert s. induction fuel as [|fuel IH]; intros s Hc Hw Hf Hl Hu; [lia|].
  cbn [send_loop]. unfold Socket.send. destruct (tx s) as [|[n|e] l] eqn:Etx.
  - rewrite (mem_read_split pre u suf len) by done. rewrite outcome_bind_ok. cbv beta iota zeta.
    rewrite (proj2 (Z.ltb_ge (zlen u) 0)) by lia. cbn [andb].
    eexists u, _, 0%nat. split; [reflexivity|]. cbn [sent set_tx tx waits waited replicate length].
    rewrite app_nil_r, take_ge by lia. split_and!; try done; lia.
  - apply Forall_cons_1 in Hc as [Hn Hc].
    rewrite (Z.max_r 0 n) by lia. set (k := Z.to_nat (Z.min n len)).
    assert (Hk : zlen (take k u) = Z.min n len) by (unfold k; rewrite zlen_take_le; lia).
    assert (Hr : mem_read (pre ++ u ++ suf) (zlen pre) (Z.min n len) = Ok (take k u)).
    { rewrite <- (take_drop k u) at 1. rewrite <- app_assoc. by apply mem_read_split. }
    rewrite Hr, outcome_bind_ok. cbv beta iota zeta.
    rewrite (proj2 (Z.ltb_ge (zlen (take k u)) 0)) by lia. cbn [andb].
    eexists (take k u), _, 0%nat. split; [reflexivity|]. cbn [sent set_tx tx waits waited replicate length].
    rewrite app_nil_r. split_and!; try done; try lia.
    rewrite length_take. rewrite <- (take_take u k (length u)), firstn_all. f_equal.
  - apply Forall_cons_1 in Hc as [-> Hc]. cbv zeta beta iota.
    cbn [errno set_errno set_tx]. change ((-1 <? 0) && (EAGAIN =? EAGAIN)) with true. cbv iota.
    unfold wait_event. cbn [waits set_errno set_tx]. rewrite Hw. cbv iota beta.
    destruct (IH (set_waits [] ev (set_errno EAGAIN (set_tx l [] s)))) as
      (got & s' & n & H1 & H2 & H3 & H4 & H5 & H6 & H7 & H8 & H9); cbn [tx set_waits set_errno set_tx waits]; try done.
    { cbn [length] in Hf. lia. }
    exists got, s', (S n). cbn [tx set_waits set_errno set_tx sent waited] in *.
    rewrite app_nil_r in H4. cbn [length replicate]. rewrite <- app_assoc in H7.
    split_and!; try done; try lia.
Qed.

Lemma send_all_loop_ok (s : sock) (fuel : nat) : ∀ (pre u suf : bytes) (len : Z),
  tx_clean (tx s) → waits s = [] → (S (length (tx s)) < fuel)%nat → 0 < zlen u → zlen pre + zlen u = len →
  len < 2 ^ 63 →
  ∃ s' n, send_all_loop fuel s (pre ++ u ++ suf) (zlen pre) len = Some (Ok (len, s')) ∧
    sent s' = sent s ++ u ∧ waited s' = waited s ++ replicate n FSW_EVENT_READ ∧ tx_clean (tx s') ∧ waits s' = [].
Proof.
  revert s. induction fuel as [|fuel IH]; intros s pre u suf len Hc Hw Hf Hu Hlen Hmax; [lia|].
  cbn [send_all_loop]. pose proof (zlen_nonneg pre) as Hp.
  rewrite u64_id by lia. replace (len - zlen pre) with (zlen u) by lia.
  destruct (send_loop_ok pre u suf s fuel FSW_EVENT_READ (zlen u)) as
    (got & s1 & n & -> & Hg & [Hg1 Hg2] & Hs & Hc1 & Hw1 & Hwd & Hlen1 & Hdec); [done|done|lia|done|done|].
  rewrite (proj2 (Z.leb_gt (zlen got) 0)) by lia. cbv zeta. rewrite u64_id by lia.
  destruct (zlen pre + zlen got =? len) eqn:E; zify_bools.
  - assert (got = u) as -> by (rewrite Hg; apply take_ge; unfold zlen in *; lia).
    exists s1, n. rewrite E. by split_and!.
  - assert (Hu2 : u = got ++ drop (length got) u) by (rewrite Hg at 1; by rewrite take_drop).
    destruct (IH s1 (pre ++ got) (drop (length got) u) suf len) as (s2 & n2 & H1 & H2 & H3 & H4 & H5); try done.
    + assert (length (tx s1) < length (tx s))%nat by (apply Hdec; lia). lia.
    + unfold zlen. rewrite length_drop. unfold zlen in *. lia.
    + rewrite zlen_app. unfold zlen. rewrite length_drop. unfold zlen in *. lia.
    + rewrite zlen_app in H1. exists s2, (n + n2)%nat. split_and!.
      * rewrite <- H1. f_equal. rewrite <- !app_assoc. f_equal. rewrite (app_assoc got). by rewrite <- Hu2.
      * rewrite H2, Hs, <- app_assoc. by rewrite <- Hu2.
      * by rewrite H3, Hwd, <- app_assoc, <- replicate_add.
      * done.
      * done.
Qed.

Lemma send_loop_rx w fuel ev s mem off len ret s' :
  send_loop w fuel ev s mem off len = Some (Ok (ret, s')) → rx s' = rx s.
Proof.
  revert s. induction fuel as [|fuel IH]; intros s; [done|]. cbn [send_loop].
  destruct (Socket.send s mem off len) as [[r s1]| |] eqn:E; [|done..]. cbv zeta.
  assert (H1 : rx s1 = rx s).
  { unfold Socket.send in E. destruct (tx s) as [|[n|e] l]; [| |by injection E as <- <-];
      apply outcome_bind_inv in E as (d & _ & E); by injection E as <- <-. }
  destruct ((w r <? 0) && (errno s1 =? EAGAIN)).
  - assert (H2 : rx (wait_event ev s1).2 = rx s1).
    { unfold wait_event. by destruct (waits s1). }
    destruct (wait_event ev s1) as [[] s2]; cbn [snd] in H2.
    + intros H. apply IH in H. congruence.
    + intros [= _ <-]. congruence.
  - intros [= _ <-]. done.
Qed.

Lemma send_all_loop_rx fuel s mem total len ret s' :
  send_all_loop fuel s mem total len = Some (Ok (ret, s')) → rx s' = rx s.
Proof.
  revert s total. induction fuel as [|fuel IH]; intros s total; [done|]. cbn [send_all_loop].
  destruct (send_loop _ _ _ _ _ _ _) as [[[r s1]| |]|] eqn:E; [|done..]. apply send_loop_rx in E. cbv zeta.
  repeat case_match; intros Hr; try (injection Hr as _ <-; done). apply IH in Hr. congruence.
Qed.


End CoSocketFacts.

(** ** Properties *)
Section socket_properties.
Import CoSocket CoSocketFacts.

(** C18: [recv_all] reads exactly. However the peer's bytes are split into
    segments and however often the descriptor is not ready, [recv_all] stores
    the first [len] bytes of the stream in the buffer, in order, or all of them
    when the peer sends fewer, returns their number, touches nothing behind
    them and leaves the rest of the stream to later reads. *)
Theorem recv_all_reads_exactly (s : sock) (fuel : nat) (buf : bytes) (len : Z) :
  rx_clean (rx s) → waits s = [] → (S (length (rx s)) < fuel)%nat → 0 < len ≤ zlen buf → len < 2 ^ 63 →
  ∃ s', let got := take (Z.to_nat len) (stream (rx s)) in
    recv_all fuel s buf len = Some (Ok (zlen got, got ++ drop (length got) buf, s')) ∧
    stream (rx s') = drop (Z.to_nat len) (stream (rx s)).
Proof.
  intros Hc Hw Hf [Hl Hb] Hm. set (u := take (Z.to_nat len) buf).
  assert (Hu : zlen u = len) by (unfold u; rewrite zlen_take_le; lia).
  assert (Hul : length u = Z.to_nat len) by (unfold zlen in Hu; lia).
  destruct (recv_all_loop_ok s fuel [] u (drop (Z.to_nat len) buf) len) as (got & s' & H1 & H2 & H3 & _);
    [done..|lia|by rewrite zlen_nil|done|].
  exists s'. cbv zeta. rewrite Hul in H2, H3. rewrite <- H2. split; [|done].
  cbn [app] in H1. unfold u in H1 at 1. rewrite take_drop in H1. unfold recv_all. change (zlen []) with 0 in H1.
  rewrite H1, Z.add_0_l. do 4 f_equal. unfold u.
  rewrite <- (take_drop (Z.to_nat len) buf) at 3. rewrite drop_app_le; [done|].
  rewrite H2, !length_take. unfold zlen in *. lia.
Qed.

(** C19: [send_all] sends everything, in order, through any sequence of
    partial writes and not-ready answers; but each time it has to wait it
    waits for the descriptor to be readable, not writable. *)
Theorem send_all_sends_everything (s : sock) (fuel : nat) (buf : bytes) (len : Z) :
  tx_clean (tx s) → waits s = [] → (S (length (tx s)) < fuel)%nat → 0 < len ≤ zlen buf → len < 2 ^ 63 →
  ∃ s' n, send_all fuel s buf len = Some (Ok (len, s')) ∧
    sent s' = sent s ++ take (Z.to_nat len) buf ∧
    waited s' = waited s ++ replicate n FSW_EVENT_READ.
Proof.
  intros Hc Hw Hf [Hl Hb] Hm. set (u := take (Z.to_nat len) buf).
  assert (Hu : zlen u = len) by (unfold u; rewrite zlen_take_le; lia).
  destruct (send_all_loop_ok s fuel [] u (drop (Z.to_nat len) buf) len) as (s' & n & H1 & H2 & H3 & _ & _);
    [done..|lia|by rewrite zlen_nil|done|].
  exists s', n. split_and!; try done. rewrite <- H1. cbn [app]. unfold u. by rewrite take_drop.
Qed.
End socket_properties.

Definition three_segments : sock :=
  mkSock 5 0 [RxData [1; 2]; RxError EAGAIN; RxData [3; 4; 5]; RxData [6]]
    [TxAccept 2; TxError EAGAIN; TxAccept 1] [] [] [] [] false.

Lemma recv_all_reads_exactly_witness :
  ∃ s', CoSocket.recv_all 6 three_segments (replicate 8 0) 4 = Some (Ok (4, [1; 2; 3; 4; 0; 0; 0; 0], s')) ∧
    CoSocketFacts.stream (rx s') = [5; 6].
Proof.
  apply (recv_all_reads_exactly three_segments 6 (replicate 8 0) 4).
  - repeat apply Forall_cons_2; done.
  - reflexivity.
  - cbn; lia.
  - vm_compute. split; congruence.
  - lia.
Defined.

Lemma send_all_sends_everything_witness :
  ∃ s' n, CoSocket.send_all 5 three_segments [7; 8; 9; 10; 11] 5 = Some (Ok (5, s')) ∧
    sent s' = [7; 8; 9; 10; 11] ∧ waited s' = replicate n FSW_EVENT_READ.
Proof.
  apply (send_all_sends_everything three_segments 5 [7; 8; 9; 10; 11] 5).
  - repeat apply Forall_cons_2; done.
  - reflexivity.
  - cbn; lia.
  - vm_compute. split; congruence.
  - lia.
Defined.

