(* ===== verification/Http.v ===== *)
(** * Http: requests, responses and the WebSocket upgrade
    (include/coroutine_http.h, src/coroutine/http/http.cc)

    The HTTP parser of thirdparty/http is a parameter: a state and the
    callbacks it makes on a region of memory. [SHA1] of OpenSSL is one too. *)

From stdpp Require Import gmap.
From S2P Require Import Prelude Words CString Buffer StdMap Base64 WebsocketFrame CoSocket.
#[local] Open Scope Z_scope.

(** ** The callbacks of the parser

    [at_] is the offset of the pointer [at] in the region being parsed. What a
    callback reads of the parser comes with it. *)
Inductive callback :=
| OnMessageBegin
| OnUrl (at_ length : Z)
| OnStatus (at_ length : Z)
| OnHeaderField (at_ length : Z)
| OnHeaderValue (at_ length : Z)
| OnHeadersComplete (http_major http_minor method : Z) (should_keep_alive : bool)
| OnBody (at_ length : Z)
| OnMessageComplete.

Definition HTTP_GET : Z := 1.
Definition HTTP_POST : Z := 3.

(** ** Data *)

(** [path] and [body] are the arrays the pointers point to, if any. *)
Record Request := mkRequest {
  method : bytes;
  version : Z;
  path : option bytes;
  path_len : Z;
  body : option bytes;
  body_length : Z;
  req_header : stdmap bytes
}.

Record Response := mkResponse {
  _version : Z;
  _status : Z;
  _reason : bytes;
  res_header : stdmap bytes
}.

(** [current_header_name] points into the read buffer: an offset, or whatever
    the uninitialised pointer is. *)
Record Ctx (P : Type) := mkCtx {
  conn : cosocket;
  parser : P;
  request : Request;
  response : Response;
  current_header_name : option Z;
  current_header_name_len : Z;
  keep_alive : bool
}.
Arguments mkCtx {P} _ _ _ _ _ _ _.
Arguments conn {P} _.
Arguments parser {P} _.
Arguments request {P} _.
Arguments response {P} _.
Arguments current_header_name {P} _.
Arguments current_header_name_len {P} _.
Arguments keep_alive {P} _.

Module Request.

(** [Request()]; [v], [pl] and [bl] are what the uninitialised members hold. *)
Definition make (v pl bl : Z) : Request := mkRequest [] v None pl None bl [].

Definition has_header (header_name : bytes) (r : Request) : bool :=
  if StdMap.find header_name (req_header r) is Some _ then true else false.

Definition get_header (header_name : bytes) (r : Request) : bytes :=
  match StdMap.find header_name (req_header r) with None => [] | Some v => v end.

Definition header_contain_value (header_name header_value : bytes) (r : Request) : bool :=
  match StdMap.find header_name (req_header r) with
  | None => false
  | Some v => bool_decide (lowercase v = header_value)
  end.

Definition has_sec_websocket_key (r : Request) : bool := has_header (str "sec-websocket-key") r.

Definition clear_path (r : Request) : Request :=
  mkRequest (method r) (version r) None 0 (body r) (body_length r) (req_header r).
Definition clear_header (r : Request) : Request :=
  mkRequest (method r) (version r) (path r) (path_len r) (body r) (body_length r) [].
Definition clear_body (r : Request) : Request :=
  mkRequest (method r) (version r) (path r) (path_len r) None 0 (req_header r).
Definition clear (r : Request) : Request := clear_body (clear_header (clear_path r)).

Definition set_method (m : bytes) (r : Request) : Request :=
  mkRequest m (version r) (path r) (path_len r) (body r) (body_length r) (req_header r).
Definition set_version (v : Z) (r : Request) : Request :=
  mkRequest (method r) v (path r) (path_len r) (body r) (body_length r) (req_header r).
Definition set_path (p : bytes) (n : Z) (r : Request) : Request :=
  mkRequest (method r) (version r) (Some p) n (body r) (body_length r) (req_header r).
Definition set_body (b : bytes) (n : Z) (r : Request) : Request :=
  mkRequest (method r) (version r) (path r) (path_len r) (Some b) n (req_header r).
Definition set_header (h : stdmap bytes) (r : Request) : Request :=
  mkRequest (method r) (version r) (path r) (path_len r) (body r) (body_length r) h.

End Request.

Module Parse.
Section parse.
Context {P : Type}.
Implicit Types (ctx : Ctx P).

Definition set_conn (c : cosocket) ctx : Ctx P :=
  mkCtx c (parser ctx) (request ctx) (response ctx) (current_header_name ctx)
    (current_header_name_len ctx) (keep_alive ctx).
Definition set_parser (p : P) ctx : Ctx P :=
  mkCtx (conn ctx) p (request ctx) (response ctx) (current_header_name ctx)
    (current_header_name_len ctx) (keep_alive ctx).
Definition set_request (r : Request) ctx : Ctx P :=
  mkCtx (conn ctx) (parser ctx) r (response ctx) (current_header_name ctx)
    (current_header_name_len ctx) (keep_alive ctx).
Definition set_response (r : Response) ctx : Ctx P :=
  mkCtx (conn ctx) (parser ctx) (request ctx) r (current_header_name ctx)
    (current_header_name_len ctx) (keep_alive ctx).

Definition set_http_version (major minor : Z) ctx : Ctx P :=
  set_request (Request.set_version (major * 100 + minor) (request ctx)) ctx.

Definition set_http_method (m : Z) ctx : Ctx P :=
  if m =? HTTP_GET then set_request (Request.set_method (str "GET") (request ctx)) ctx
  else if m =? HTTP_POST then set_request (Request.set_method (str "POST") (request ctx)) ctx
  else ctx.

(** [new char[length + 1]()] filled with [length] characters. *)
Definition copy_string (buf : bytes) (at_ length : Z) : outcome bytes :=
  d ← mem_read buf at_ length; Ok (d ++ [0]).

Definition http_request_on_url (buf : bytes) (at_ length : Z) ctx : outcome (Ctx P) :=
  p ← copy_string buf at_ length;
  Ok (set_request (Request.set_path p (u32 length) (request ctx)) ctx).

Definition http_request_on_header_field (at_ length : Z) ctx : Ctx P :=
  mkCtx (conn ctx) (parser ctx) (request ctx) (response ctx) (Some at_) length (keep_alive ctx).

Definition http_request_on_header_value (buf : bytes) (at_ length : Z) ctx : outcome (Ctx P) :=
  match current_header_name ctx with
  | None => UB
  | Some off =>
      header_name ← mem_read buf off (current_header_name_len ctx);
      header_value ← mem_read buf at_ length;
      Ok (set_request (Request.set_header
            (StdMap.assign (lowercase header_name) header_value (req_header (request ctx))) (request ctx)) ctx)
  end.

Definition http_request_on_headers_complete (major minor m : Z) (should : bool) ctx : Ctx P :=
  let ctx := set_http_method m (set_http_version major minor ctx) in
  mkCtx (conn ctx) (parser ctx) (request ctx) (response ctx) (current_header_name ctx)
    (current_header_name_len ctx) should.

Definition http_request_on_body (buf : bytes) (at_ length : Z) ctx : outcome (Ctx P) :=
  b ← copy_string buf at_ length;
  Ok (set_request (Request.set_body b length (request ctx)) ctx).

(** The callbacks that only trace. *)
Definition http_request_on_message_begin ctx : Ctx P := ctx.
Definition http_request_on_status (at_ length : Z) ctx : Ctx P := ctx.
Definition http_request_on_message_complete ctx : Ctx P := ctx.

(** [parser_settings] *)
Definition run_callback (buf : bytes) (cb : callback) ctx : outcome (Ctx P) :=
  match cb with
  | OnMessageBegin => Ok (http_request_on_message_begin ctx)
  | OnStatus a n => Ok (http_request_on_status a n ctx)
  | OnMessageComplete => Ok (http_request_on_message_complete ctx)
  | OnUrl a n => http_request_on_url buf a n ctx
  | OnHeaderField a n => Ok (http_request_on_header_field a n ctx)
  | OnHeaderValue a n => http_request_on_header_value buf a n ctx
  | OnHeadersComplete ma mi m k => Ok (http_request_on_headers_complete ma mi m k ctx)
  | OnBody a n => http_request_on_body buf a n ctx
  end.

Fixpoint run_callbacks (buf : bytes) (cbs : list callback) ctx : outcome (Ctx P) :=
  match cbs with
  | [] => Ok ctx
  | cb :: cbs => ctx ← run_callback buf cb ctx; run_callbacks buf cbs ctx
  end.

(** What the parser does with the first [len] bytes of a region. *)
Variable http_parser_execute : P → bytes → P * list callback.

(** [Ctx::parse(ssize_t recved)]: the length becomes a [size_t]. *)
Definition parse (recved : Z) ctx : outcome (Ctx P) :=
  let '(b, c) := CoSocket.get_read_buf (conn ctx) in
  data ← mem_read (_buffer b) 0 (u64 recved);
  let '(p, cbs) := http_parser_execute (parser ctx) data in
  run_callbacks (_buffer b) cbs (set_parser p (set_conn c ctx)).

End parse.
End Parse.

(** ** Responses *)
Module Response.

(** [Response()]; [v] is what the uninitialised version holds. *)
Definition make (v : Z) : Response := mkResponse v 200 [] [].

Definition get_status_message (r : Response) : bytes :=
  str match _status r with
  | 100 => "100 Continue"
  | 101 => "101 Switching Protocols"
  | 201 => "201 Created"
  | 202 => "202 Accepted"
  | 203 => "203 Non-Authoritative Information"
  | 204 => "204 No Content"
  | 205 => "205 Reset Content"
  | 206 => "206 Partial Content"
  | 207 => "207 Multi-Status"
  | 208 => "208 Already Reported"
  | 226 => "226 IM Used"
  | 300 => "300 Multiple Choices"
  | 301 => "301 Moved Permanently"
  | 302 => "302 Found"
  | 303 => "303 See Other"
  | 304 => "304 Not Modified"
  | 305 => "305 Use Proxy"
  | 307 => "307 Temporary Redirect"
  | 400 => "400 Bad Request"
  | 401 => "401 Unauthorized"
  | 402 => "402 Payment Required"
  | 403 => "403 Forbidden"
  | 404 => "404 Not Found"
  | 405 => "405 Method Not Allowed"
  | 406 => "406 Not Acceptable"
  | 407 => "407 Proxy Authentication Required"
  | 408 => "408 Request Timeout"
  | 409 => "409 Conflict"
  | 410 => "410 Gone"
  | 411 => "411 Length Required"
  | 412 => "412 Precondition Failed"
  | 413 => "413 Request Entity Too Large"
  | 414 => "414 Request URI Too Long"
  | 415 => "415 Unsupported Media Type"
  | 416 => "416 Requested Range Not Satisfiable"
  | 417 => "417 Expectation Failed"
  | 418 => "418 I'm a teapot"
  | 421 => "421 Misdirected Request"
  | 422 => "422 Unprocessable Entity"
  | 423 => "423 Locked"
  | 424 => "424 Failed Dependency"
  | 426 => "426 Upgrade Required"
  | 428 => "428 Precondition Required"
  | 429 => "429 Too Many Requests"
  | 431 => "431 Request Header Fields Too Large"
  | 500 => "500 Internal Server Error"
  | 501 => "501 Method Not Implemented"
  | 502 => "502 Bad Gateway"
  | 503 => "503 Service Unavailable"
  | 504 => "504 Gateway Timeout"
  | 505 => "505 HTTP Version Not Supported"
  | 506 => "506 Variant Also Negotiates"
  | 507 => "507 Insufficient Storage"
  | 508 => "508 Loop Detected"
  | 510 => "510 Not Extended"
  | 511 => "511 Network Authentication Required"
  | _ => "200 OK"
  end%string.

Definition set_status (s : Z) (r : Response) : Response := mkResponse (_version r) s (_reason r) (res_header r).
Definition set_version (v : Z) (r : Response) : Response := mkResponse v (_status r) (_reason r) (res_header r).
Definition set_header (h : stdmap bytes) (r : Response) : Response := mkResponse (_version r) (_status r) (_reason r) h.
Definition clear_header (r : Response) : Response := set_header [] r.

(** [get_real_version()]: the message of an unknown version is cut to the 512
    characters of [fsw_error], which it never reaches. *)
Definition get_real_version (r : Response) : bytes :=
  if _version r =? 100 then str "1.0"
  else if _version r =? 101 then str "1.1"
  else if _version r =? 200 then str "2.0"
  else str "Unknown version: " ++ to_string (_version r).

Section response.
Context {P : Type}.
Implicit Types (ctx : Ctx P) (b : buffer).

(** The write buffer of the connection. *)
Definition with_write_buf (f : buffer → outcome buffer) ctx : outcome (Ctx P) :=
  let '(b, c) := CoSocket.get_write_buf (conn ctx) in
  b ← f b; Ok (Parse.set_conn (CoSocket.set_write_buf b c) ctx).

Definition clear_write_buf ctx : outcome (Ctx P) := with_write_buf Buffer.clear ctx.

Definition crlf : bytes := [13; 10].

Definition build_http_status_line ctx : outcome (Ctx P) :=
  with_write_buf (λ b,
    b ← Buffer.append_str b (str "HTTP/1.1 ");
    b ← Buffer.append_str b (get_status_message (response ctx));
    Buffer.append_str b crlf) ctx.

(** The loop over the headers. *)
Fixpoint append_headers (h : stdmap bytes) b : outcome buffer :=
  match h with
  | [] => Ok b
  | (name, value) :: h =>
      b ← Buffer.append_str b name;
      b ← Buffer.append_str b (str ": ");
      b ← Buffer.append_str b value;
      b ← Buffer.append_str b crlf;
      append_headers h b
  end.

Definition build_http_header (body_length : Z) ctx : outcome (Ctx P) :=
  with_write_buf (λ b,
    b ← append_headers (res_header (response ctx)) b;
    b ← (if keep_alive ctx then
           b ← Buffer.append_str b (str "Connection: Keep-Alive" ++ crlf);
           b ← Buffer.append_str b (str "Content-Length: ");
           b ← Buffer.append_int b body_length;
           Buffer.append_str b crlf
         else
           b ← Buffer.append_str b (str "Connection: Close" ++ crlf);
           b ← Buffer.append_str b (str "Content-Length: ");
           b ← Buffer.append_int b body_length;
           Buffer.append_str b crlf);
    Buffer.append_str b crlf) ctx.

Definition build_http_body (data : option buffer) ctx : outcome (Ctx P) :=
  with_write_buf (λ b,
    match data with
    | None => Ok b
    | Some d => b ← Buffer.append_buf b d; Buffer.append_str b crlf
    end) ctx.

(** [conn->recv] and [conn->send]: a retry consumes an answer of the script, so
    the fuel is enough (CoSocketFacts). *)
Definition conn_recv (buf : bytes) (len : Z) (c : cosocket) : outcome (Z * bytes * cosocket) :=
  match CoSocket.recv (S (length (rx (sk c)))) (sk c) buf len with
  | Some r => '(ret, buf, s) ← r; Ok (ret, buf, CoSocket.set_sk s c)
  | None => UB
  end.
Definition conn_send (buf : bytes) (len : Z) (c : cosocket) : outcome (Z * cosocket) :=
  match CoSocket.send (S (length (tx (sk c)))) (sk c) buf len with
  | Some r => '(ret, s) ← r; Ok (ret, CoSocket.set_sk s c)
  | None => UB
  end.

(** [send_response()]: the callers drop the result. *)
Definition send_response ctx : outcome (Z * Ctx P) :=
  let '(b, c) := CoSocket.get_write_buf (conn ctx) in
  '(ret, c) ← conn_send (_buffer b) (_length b) c;
  Ok (ret, Parse.set_conn c ctx).

(** [end(Buffer *body, size_t size)]; the length becomes an [int]. *)
Definition end_response (data : option buffer) (size : Z) ctx : outcome (Ctx P) :=
  ctx ← clear_write_buf ctx;
  let body_length := match data with Some d => _length d | None => size end in
  ctx ← build_http_status_line ctx;
  ctx ← build_http_header (i32 body_length) ctx;
  ctx ← build_http_body data ctx;
  '(_, ctx) ← send_response ctx;
  Ok ctx.

Definition with_response (f : Response → Response) ctx : Ctx P := Parse.set_response (f (response ctx)) ctx.

Definition send_not_found_response ctx : outcome (Ctx P) :=
  end_response None 0 (with_response (set_status 404) ctx).

Definition send_bad_request_response (text : bytes) ctx : outcome (Ctx P) :=
  bad_body ← Buffer.append_str (Buffer.make (zlen text)) text;
  end_response (Some bad_body) 0 (with_response (set_status 400) ctx).

(** ** WebSocket *)
Definition WEBSOCKET_GUID : bytes := str "258EAFA5-E914-47DA-95CA-C5AB0DC85B11".
Definition SHA_DIGEST_LENGTH : Z := 20.

Variable SHA1 : bytes → bytes.
(** What the uninitialised arrays of the encoders hold. *)
Variables (j3 j4 junk16 : bytes).

Definition compute_accept_key (sec_websocket_key : bytes) : outcome bytes :=
  let origin := sec_websocket_key ++ WEBSOCKET_GUID in
  let hash := SHA1 origin in
  Base64.base64_encode j3 j4 hash SHA_DIGEST_LENGTH.

Definition bad_handshake : bytes := str "websocket handshake error: ".

Definition check_websocket_upgrade (sec_websocket_key : bytes) ctx : outcome (bool * Ctx P) :=
  let fail (why : string) := ctx ← send_bad_request_response (bad_handshake ++ str why) ctx; Ok (false, ctx) in
  if negb (bool_decide (method (request ctx) = str "GET")) then fail "request method is not GET"
  else if negb (Request.header_contain_value (str "connection") (str "upgrade") (request ctx)) then
    fail "'upgrade' token not found in 'Connection' header"
  else if negb (Request.header_contain_value (str "upgrade") (str "websocket") (request ctx)) then
    fail "'websocket' token not found in 'Upgrade' header"
  else if negb (Request.header_contain_value (str "sec-websocket-version") (str "13") (request ctx)) then
    fail "websocket: unsupported version: 13 not found in 'Sec-Websocket-Version' header"
  else if bool_decide (sec_websocket_key = []) then
    fail "'Sec-WebSocket-Key' header is missing or blank"
  else Ok (true, ctx).

Definition set_response_header (name value : bytes) ctx : Ctx P :=
  with_response (λ r, set_header (StdMap.assign name value (res_header r)) r) ctx.

Definition upgrade ctx : outcome (bool * Ctx P) :=
  let sec_websocket_key := Request.get_header (str "sec-websocket-key") (request ctx) in
  '(ok, ctx) ← check_websocket_upgrade sec_websocket_key ctx;
  if negb ok then Ok (false, ctx)
  else
    let ctx := with_response (set_status 101) ctx in
    let ctx := set_response_header (str "Upgrade") (str "websocket") ctx in
    let ctx := set_response_header (str "Connection") (str "Upgrade") ctx in
    accept_key ← compute_accept_key sec_websocket_key;
    let ctx := set_response_header (str "Sec-WebSocket-Accept") accept_key ctx in
    ctx ← end_response None 0 ctx;
    Ok (true, ctx).

(** [recv_frame(Frame *frame)]: the number received becomes a [size_t]. *)
Definition recv_frame (f : Frame) ctx : outcome (Frame * Ctx P) :=
  let buf := Buffer.make READ_BUF_MAX_SIZE in
  let '(rb, c) := CoSocket.get_read_buf (conn ctx) in
  rb ← Buffer.clear rb;
  '(recved, mem, c) ← conn_recv (_buffer buf) READ_BUF_MAX_SIZE c;
  rb ← Buffer.append_raw rb mem (u64 recved);
  '(f, rb) ← Frame.decode f rb;
  Ok (f, Parse.set_conn (CoSocket.set_read_buf rb c) ctx).

(** [send_frame(Buffer *data, uint8_t opcode, uint8_t finish)] *)
Definition send_frame (data : buffer) (op finish : Z) ctx : outcome (Ctx P) :=
  ctx ← clear_write_buf ctx;
  ctx ← with_write_buf (λ b, Frame.encode junk16 b data op finish) ctx;
  '(_, ctx) ← send_response ctx;
  Ok ctx.

End response.
End Response.

(** ** The context of a connection *)
Module Context.
Section context.
Context {P : Type}.

(** [Ctx::Ctx]; [p0], [name], [n], [k] are what the members hold. *)
Definition make (c : cosocket) (p0 : P) (req : Request) (res : Response) (name : option Z) (n : Z) (k : bool) : Ctx P :=
  mkCtx c p0 req res name n k.

Definition clear (ctx : Ctx P) : Ctx P :=
  Parse.set_response (Response.clear_header (response ctx)) (Parse.set_request (Request.clear (request ctx)) ctx).

(** [~Ctx()]: the write side is shut down, then what the client still sends is
    read into the read buffer. *)
Definition destroy (fuel : nat) (shutdown_result : Z) (ctx : Ctx P) : option (outcome cosocket) :=
  let '(_, c) := CoSocket.shutdown shutdown_result (conn ctx) in
  match cread_buf c with
  | None => Some UB
  | Some b =>
      match CoSocket.check_client_close fuel (sk c) (_buffer b) with
      | Some (Ok (mem, s)) =>
          Some (Ok (CoSocket.set_read_buf (mkBuffer (_size b) (_length b) mem) (CoSocket.set_sk s c)))
      | Some Exit => Some Exit
      | Some UB => Some UB
      | None => None
      end
  end.

End context.
End Context.

(** ** What is sent

    The response the functions above build, as one string. *)
Module HttpSpec.

Definition crlf : bytes := [13; 10].

Fixpoint render_headers (h : stdmap bytes) : bytes :=
  match h with
  | [] => []
  | (name, value) :: h => name ++ str ": " ++ value ++ crlf ++ render_headers h
  end.

Definition render (status : bytes) (h : stdmap bytes) (keep : bool) (n : Z) (body : option bytes) : bytes :=
  str "HTTP/1.1 " ++ status ++ crlf ++
  render_headers h ++
  (if keep then str "Connection: Keep-Alive" else str "Connection: Close") ++ crlf ++
  str "Content-Length: " ++ to_string n ++ crlf ++
  crlf ++
  match body with None => [] | Some d => d ++ crlf end.

(** The answer to a request that is refused with a reason. *)
Definition bad_request (keep : bool) (text : bytes) : bytes :=
  render (str "400 Bad Request") [] keep (zlen text) (Some text).

(** What one [send] takes of [len] bytes: a [send] that would block is tried
    again when the wait for the descriptor ends well, and is given up when it
    does not; any other error is final. Answers that are not there are a kernel
    that takes everything, waits that are not there end well. *)
Fixpoint accepted (l : list tx_answer) (ws : list bool) (len : Z) : Z :=
  match l with
  | [] => len
  | TxAccept n :: _ => Z.min n len
  | TxError e :: l =>
      if e =? EAGAIN then
        match ws with
        | [] => accepted l [] len
        | true :: ws => accepted l ws len
        | false :: _ => 0
        end
      else 0
  end.

(** The part of [d] that reaches the peer of [s]: the answers are sent by one
    [send] each, whose result is dropped. *)
Definition delivered (s : sock) (d : bytes) : bytes :=
  take (Z.to_nat (accepted (tx s) (waits s) (zlen d))) d.

(** The GUID of RFC 6455, section 1.3. *)
Definition guid : bytes := str "258EAFA5-E914-47DA-95CA-C5AB0DC85B11".

(** The answer that opens a WebSocket (RFC 6455, section 4.2.2): [digest] is
    the SHA-1 of the key and the GUID. *)
Definition switching_protocols (keep : bool) (digest : bytes) : bytes :=
  render (str "101 Switching Protocols")
    [(str "Connection", str "Upgrade"); (str "Sec-WebSocket-Accept", Rfc4648.encode digest);
     (str "Upgrade", str "websocket")] keep 0 None.

(** The handshake a client must send, as the code reads it. *)
Definition has_value (r : Request) (name value : string) : Prop :=
  ∃ v, StdMap.find (str name) (req_header r) = Some v ∧ lowercase v = str value.

Definition opening_handshake (r : Request) : Prop :=
  method r = str "GET" ∧ has_value r "connection" "upgrade" ∧ has_value r "upgrade" "websocket" ∧
  has_value r "sec-websocket-version" "13" ∧ Request.get_header (str "sec-websocket-key") r ≠ [].

#[global] Instance has_value_dec r name value : Decision (has_value r name value).
Proof.
  unfold has_value. destruct (StdMap.find (str name) (req_header r)) as [v|].
  - destruct (decide (lowercase v = str value)) as [E|E]; [left; eauto|right; by intros (? & [= <-] & ?)].
  - right. by intros (? & ? & _).
Defined.

(** Why a request is refused: the first of the conditions that fails. *)
Definition refusal (r : Request) : option string :=
  if decide (method r ≠ str "GET") then Some "request method is not GET"%string
  else if decide (¬ has_value r "connection" "upgrade") then
    Some "'upgrade' token not found in 'Connection' header"%string
  else if decide (¬ has_value r "upgrade" "websocket") then
    Some "'websocket' token not found in 'Upgrade' header"%string
  else if decide (¬ has_value r "sec-websocket-version" "13") then
    Some "websocket: unsupported version: 13 not found in 'Sec-Websocket-Version' header"%string
  else if decide (Request.get_header (str "sec-websocket-key") r = []) then
    Some "'Sec-WebSocket-Key' header is missing or blank"%string
  else None.

(** The answer to a handshake that is refused. *)
Definition refused (keep : bool) (why : string) : bytes :=
  bad_request keep (str "websocket handshake error: " ++ str why).

Lemma refusal_none r : refusal r = None ↔ opening_handshake r.
Proof. unfold refusal, opening_handshake. repeat case_decide; intuition congruence. Qed.

Lemma delivered_all s d : tx s = [] → delivered s d = d.
Proof. intros E. unfold delivered. rewrite E. apply take_ge. unfold zlen. cbn [accepted]. lia. Qed.

End HttpSpec.

Module HttpFacts.
Import Response.

(** [f] appends [d] to a buffer, or ends the process when it does not fit. *)
Definition writes (f : buffer → outcome buffer) (d : bytes) : Prop :=
  ∀ b, Buffer.wf b → _size b < 2 ^ 62 → zlen d < 2 ^ 62 →
  if _size b <? _length b + zlen d then f b = Exit
  else ∃ b', f b = Ok b' ∧ Buffer.wf b' ∧ _size b' = _size b ∧
             Buffer.contents b' = Buffer.contents b ++ d.

Lemma writes_str s : bytes_ok s → writes (λ b, Buffer.append_str b s) s.
Proof.
  intros Hs b Hb Hsz Hd. pose proof (Buffer.wf_len b Hb). apply Buffer.append_str_ok; [done|done|lia].
Qed.

Lemma writes_int v : writes (λ b, Buffer.append_int b v) (to_string v).
Proof. apply writes_str. apply bytes_ok_to_string. Qed.

Lemma writes_buf o : Buffer.wf o → writes (λ b, Buffer.append_buf b o) (Buffer.contents o).
Proof.
  intros Ho b Hb Hsz Hd. pose proof (Buffer.wf_len b Hb). rewrite Buffer.zlen_contents in * by done.
  apply Buffer.append_buf_ok; [done|done|lia].
Qed.

Lemma writes_nil : writes (λ b, Ok b) [].
Proof.
  intros b Hb Hsz Hd. pose proof (Buffer.wf_len b Hb). change (@zlen Z []) with 0.
  rewrite (proj2 (Z.ltb_ge _ _)) by lia. exists b. by rewrite app_nil_r.
Qed.

Lemma writes_bind f g d e : writes f d → writes g e → writes (λ b, b ← f b; g b) (d ++ e).
Proof.
  intros Hf Hg b Hb Hsz Hd. rewrite zlen_app in *.
  pose proof (zlen_nonneg d). pose proof (zlen_nonneg e).
  pose proof (Hf b Hb Hsz ltac:(lia)) as H1. split_if.
  - split_if_in H1; [by rewrite H1|]. destruct H1 as (b1 & -> & Hb1 & Hs1 & Hc1).
    rewrite outcome_bind_ok. pose proof (Hg b1 Hb1 ltac:(lia) ltac:(lia)) as H2.
    assert (Hl1 : _length b1 = _length b + zlen d).
    { rewrite <- (Buffer.zlen_contents b1 Hb1), Hc1, zlen_app, Buffer.zlen_contents by done. done. }
    rewrite (proj2 (Z.ltb_lt _ _)) in H2 by lia. done.
  - rewrite (proj2 (Z.ltb_ge _ _)) in H1 by lia. destruct H1 as (b1 & -> & Hb1 & Hs1 & Hc1).
    rewrite outcome_bind_ok. pose proof (Hg b1 Hb1 ltac:(lia) ltac:(lia)) as H2.
    assert (Hl1 : _length b1 = _length b + zlen d).
    { rewrite <- (Buffer.zlen_contents b1 Hb1), Hc1, zlen_app, Buffer.zlen_contents by done. done. }
    rewrite (proj2 (Z.ltb_ge _ _)) in H2 by lia. destruct H2 as (b2 & -> & Hb2 & Hs2 & Hc2).
    exists b2. split_and!; [done|done|congruence|]. by rewrite Hc2, Hc1, app_assoc.
Qed.

Lemma writes_ext f g d e : writes f d → (∀ b, f b = g b) → d = e → writes g e.
Proof. intros Hf E <- b. rewrite <- E. apply Hf. Qed.

Lemma writes_headers h :
  Forall (λ x, bytes_ok x.1 ∧ bytes_ok x.2) h → writes (append_headers h) (HttpSpec.render_headers h).
Proof.
  induction 1 as [|[n v] h [Hn Hv] _ IH]; [apply writes_nil|]. cbn [append_headers HttpSpec.render_headers].
  apply (writes_bind _ _ n); [by apply writes_str|].
  apply (writes_bind _ _ (str ": ")); [apply writes_str, bytes_ok_str|].
  apply (writes_bind _ _ v); [by apply writes_str|].
  apply (writes_bind _ _ crlf); [apply writes_str; by apply bytes_ok_check|exact IH].
Qed.

Section wire.
Context {P : Type}.
Implicit Types (ctx : Ctx P).

(** The write buffer, if it exists, is one the connection made. *)
Definition conn_ok ctx : Prop :=
  ∀ b, cwrite_buf (conn ctx) = Some b → Buffer.wf b ∧ _size b = WRITE_BUF_MAX_SIZE.

Definition pending_output ctx : bytes := Buffer.contents (CoSocket.get_write_buf (conn ctx)).1.

Lemma get_write_buf_ok ctx :
  conn_ok ctx →
  let b := (CoSocket.get_write_buf (conn ctx)).1 in
  Buffer.wf b ∧ _size b = WRITE_BUF_MAX_SIZE ∧ sk (CoSocket.get_write_buf (conn ctx)).2 = sk (conn ctx) ∧
  cread_buf (CoSocket.get_write_buf (conn ctx)).2 = cread_buf (conn ctx).
Proof.
  intros H. unfold CoSocket.get_write_buf. destruct (cwrite_buf (conn ctx)) as [b|] eqn:E; cbn.
  - by destruct (H b E).
  - split_and!; try done. apply Buffer.make_wf. unfold WRITE_BUF_MAX_SIZE, SIZE_MAX. lia.
Qed.

(** Everything but the write buffer and the socket is as before. *)
Definition same_but_output ctx ctx' : Prop :=
  parser ctx' = parser ctx ∧ request ctx' = request ctx ∧ response ctx' = response ctx ∧
  keep_alive ctx' = keep_alive ctx ∧ cread_buf (conn ctx') = cread_buf (conn ctx) ∧ conn_ok ctx'.

Lemma with_write_buf_ok f d ctx :
  writes f d → zlen d < 2 ^ 62 → conn_ok ctx →
  if WRITE_BUF_MAX_SIZE <? zlen (pending_output ctx) + zlen d then with_write_buf f ctx = Exit
  else ∃ ctx', with_write_buf f ctx = Ok ctx' ∧ same_but_output ctx ctx' ∧ sk (conn ctx') = sk (conn ctx) ∧
         pending_output ctx' = pending_output ctx ++ d.
Proof.
  intros Hf Hd Hok. destruct (get_write_buf_ok ctx Hok) as (Hb & Hs & Hsk & Hrd).
  unfold with_write_buf, pending_output. destruct (CoSocket.get_write_buf (conn ctx)) as [b c].
  cbn [fst snd] in *. rewrite Buffer.zlen_contents by done.
  pose proof (Hf b Hb) as H. rewrite Hs in H. unfold WRITE_BUF_MAX_SIZE in *.
  specialize (H ltac:(lia) Hd). split_if; [by rewrite H|].
  destruct H as (b' & -> & Hb' & Hs' & Hc'). rewrite outcome_bind_ok.
  eexists. split; [reflexivity|]. unfold same_but_output. split_and!; try done.
  intros b2 [= <-]. by rewrite Hs'.
Qed.

Lemma clear_write_buf_ok ctx :
  conn_ok ctx → ∃ ctx', clear_write_buf ctx = Ok ctx' ∧ same_but_output ctx ctx' ∧
    sk (conn ctx') = sk (conn ctx) ∧ pending_output ctx' = [].
Proof.
  intros Hok. destruct (get_write_buf_ok ctx Hok) as (Hb & Hs & Hsk & Hrd).
  unfold clear_write_buf, with_write_buf. destruct (CoSocket.get_write_buf (conn ctx)) as [b c].
  cbn [fst snd] in *. destruct (Buffer.clear_ok b Hb) as (b' & -> & Hb' & Hs' & Hc').
  rewrite outcome_bind_ok. eexists. split; [reflexivity|]. unfold same_but_output. split_and!; try done.
  intros b2 [= <-]. by rewrite Hs'.
Qed.

(** What the kernel answers to [send]: it takes a number of bytes or fails. *)
Definition tx_ok (l : list tx_answer) : Prop :=
  Forall (λ a, match a with TxAccept n => 0 ≤ n | TxError _ => True end) l.

(** [send] ends on every script and sends a prefix of the region. *)
Lemma send_loop_any fuel ev (s : sock) (mem : bytes) (len : Z) :
  tx_ok (tx s) → (length (tx s) < fuel)%nat → 0 ≤ len ≤ zlen mem → len < 2 ^ 31 →
  ∃ ret s', CoSocket.send_loop i32 fuel ev s mem 0 len = Some (Ok (ret, s')) ∧ ret ≤ len ∧
    sent s' = sent s ++ take (Z.to_nat ret) mem ∧ rx s' = rx s ∧ fd s' = fd s ∧ tx_ok (tx s') ∧
    (tx s = [] → ret = len) ∧ Z.max 0 ret = HttpSpec.accepted (tx s) (waits s) len.
Proof.
  revert s. induction fuel as [|fuel IH]; intros s Hok Hf Hl Hm; [lia|].
  cbn [CoSocket.send_loop]. unfold Socket.send. destruct (tx s) as [|[n|e] l] eqn:Etx.
  - rewrite mem_read_ok, outcome_bind_ok by lia. cbv zeta beta iota.
    change (drop (Z.to_nat 0) mem) with mem.
    rewrite zlen_take by lia. rewrite i32_id by lia. rewrite (proj2 (Z.ltb_ge _ _)) by lia. cbn [andb].
    eexists _, _. split; [reflexivity|]. split_and!; try done. cbn [HttpSpec.accepted]. lia.
  - apply Forall_cons_1 in Hok as [Hn Hok]. rewrite mem_read_ok, outcome_bind_ok by lia. cbv zeta beta iota.
    change (drop (Z.to_nat 0) mem) with mem.
    rewrite zlen_take by lia. rewrite i32_id by lia. rewrite (proj2 (Z.ltb_ge _ _)) by lia. cbn [andb].
    eexists _, _. split; [reflexivity|]. cbn [HttpSpec.accepted]. split_and!; try done; lia.
  - apply Forall_cons_1 in Hok as [_ Hok]. cbv zeta beta iota. change (i32 (-1)) with (-1).
    change (-1 <? 0) with true. cbn [andb errno set_errno set_tx].
    assert (Hend : ∀ s', sent s' = sent s → sent s' = sent s ++ take (Z.to_nat (-1)) mem)
      by (intros s' ->; by rewrite app_nil_r).
    destruct (e =? EAGAIN) eqn:Ee; [apply Z.eqb_eq in Ee as ->|].
    + unfold CoSocket.wait_event. cbn [waits set_errno set_tx HttpSpec.accepted].
      change (EAGAIN =? EAGAIN) with true. cbv iota.
      assert (Hgo : ∀ ws, ∃ ret s', CoSocket.send_loop i32 fuel ev (set_waits ws ev (set_errno EAGAIN (set_tx l [] s))) mem 0 len
                = Some (Ok (ret, s')) ∧ ret ≤ len ∧
                sent s' = sent s ++ take (Z.to_nat ret) mem ∧ rx s' = rx s ∧ fd s' = fd s ∧ tx_ok (tx s') ∧
                (TxError EAGAIN :: l = [] → ret = len) ∧ Z.max 0 ret = HttpSpec.accepted l ws len).
      { intros ws. destruct (IH (set_waits ws ev (set_errno EAGAIN (set_tx l [] s)))) as
          (ret & s' & H1 & H2 & H3 & H4 & H5 & H6 & _ & H7); cbn [tx waits set_waits set_errno set_tx] in *; try done.
        - cbn [length] in Hf. lia.
        - exists ret, s'. cbn [sent rx fd set_waits set_errno set_tx] in *. rewrite app_nil_r in H3. done. }
      destruct (waits s) as [|[] ws]; [apply Hgo|apply Hgo|].
      eexists _, _. split; [reflexivity|]. split_and!; first [done|lia|apply Hend; cbn; by rewrite app_nil_r].
    + eexists _, _. split; [reflexivity|]. cbn [HttpSpec.accepted]. rewrite Ee.
      split_and!; first [done|lia|apply Hend; cbn; by rewrite app_nil_r].
Qed.

Lemma send_response_ok ctx :
  conn_ok ctx → tx_ok (tx (sk (conn ctx))) →
  ∃ ret ctx', send_response ctx = Ok (ret, ctx') ∧ same_but_output ctx ctx' ∧ ret ≤ zlen (pending_output ctx) ∧
    sent (sk (conn ctx')) = sent (sk (conn ctx)) ++ take (Z.to_nat ret) (pending_output ctx) ∧
    rx (sk (conn ctx')) = rx (sk (conn ctx)) ∧
    (tx (sk (conn ctx)) = [] → ret = zlen (pending_output ctx)) ∧
    take (Z.to_nat ret) (pending_output ctx) = HttpSpec.delivered (sk (conn ctx)) (pending_output ctx).
Proof.
  intros Hok Htx. destruct (get_write_buf_ok ctx Hok) as (Hb & Hs & Hsk & Hrd).
  unfold send_response, pending_output in *. destruct (CoSocket.get_write_buf (conn ctx)) as [b c] eqn:Eg.
  cbn [fst snd] in *. pose proof (Buffer.wf_len b Hb) as Hlen. pose proof (Buffer.wf_mem b Hb) as Hmem.
  rewrite Buffer.zlen_contents by done.
  assert (Hc2 : ∀ b2, cwrite_buf c = Some b2 → Buffer.wf b2 ∧ _size b2 = WRITE_BUF_MAX_SIZE).
  { intros b2 Hb2. unfold CoSocket.get_write_buf in Eg. destruct (cwrite_buf (conn ctx)) as [b0|] eqn:E0;
      injection Eg as <- <-; cbn in Hb2; simplify_eq; done. }
  unfold conn_send, CoSocket.send. rewrite Hsk.
  destruct (send_loop_any (S (length (tx (sk (conn ctx))))) FSW_EVENT_WRITE (sk (conn ctx)) (_buffer b) (_length b))
    as (ret & s' & -> & Hret & Hsent & Hrx & _ & _ & Hall & Hacc);
    [done|lia|lia|unfold WRITE_BUF_MAX_SIZE in *; lia|].
  rewrite outcome_bind_ok. cbv beta iota. rewrite outcome_bind_ok. cbv beta iota.
  eexists ret, _. split; [reflexivity|]. unfold same_but_output. split_and!; try done.
  - unfold Parse.set_conn, CoSocket.set_sk. cbn [conn sk]. rewrite Hsent. f_equal. unfold Buffer.contents.
    rewrite take_take. f_equal. lia.
  - unfold HttpSpec.delivered. rewrite Buffer.zlen_contents, <- Hacc by done. f_equal. lia.
Qed.

Definition headers_ok (r : Response) : Prop := Forall (λ x, bytes_ok x.1 ∧ bytes_ok x.2) (res_header r).

(** [F] puts [d] in the write buffer, or ends the process when it does not
    fit; [d] depends on the response and on whether the connection is kept. *)
Definition puts (F : Ctx P → outcome (Ctx P)) (d : Response → bool → bytes) : Prop :=
  ∀ ctx, conn_ok ctx → headers_ok (response ctx) → zlen (d (response ctx) (keep_alive ctx)) < 2 ^ 62 →
  if WRITE_BUF_MAX_SIZE <? zlen (pending_output ctx) + zlen (d (response ctx) (keep_alive ctx)) then F ctx = Exit
  else ∃ ctx', F ctx = Ok ctx' ∧ same_but_output ctx ctx' ∧ sk (conn ctx') = sk (conn ctx) ∧
         pending_output ctx' = pending_output ctx ++ d (response ctx) (keep_alive ctx).

Lemma same_but_output_trans a b c : same_but_output a b → same_but_output b c → same_but_output a c.
Proof. intros (?&?&?&?&?&_) (?&?&?&?&?&?). unfold same_but_output. split_and!; [congruence..|done]. Qed.

Lemma puts_bind F G d e :
  puts F d → puts G e → puts (λ ctx, ctx ← F ctx; G ctx) (λ r k, d r k ++ e r k).
Proof.
  intros HF HG ctx Hok Hh Hd. rewrite zlen_app in *.
  pose proof (zlen_nonneg (d (response ctx) (keep_alive ctx))).
  pose proof (zlen_nonneg (e (response ctx) (keep_alive ctx))).
  pose proof (HF ctx Hok Hh ltac:(lia)) as H1. split_if_in H1.
  { rewrite H1. rewrite (proj2 (Z.ltb_lt _ _)) by lia. done. }
  destruct H1 as (c1 & -> & S1 & K1 & C1). rewrite outcome_bind_ok.
  pose proof S1 as (_ & _ & Er & Ek & _ & Hok1).
  pose proof (HG c1 Hok1) as H2. rewrite Er, Ek, C1, zlen_app, <- Z.add_assoc in H2.
  specialize (H2 Hh ltac:(lia)). split_if; [done|]. destruct H2 as (c2 & -> & S2 & K2 & C2).
  exists c2. split_and!; [done|by eapply same_but_output_trans|congruence|]. by rewrite C2, <- app_assoc.
Qed.

Lemma puts_with f (d : Response → bool → bytes) :
  (∀ r k, headers_ok r → writes (f r k) (d r k)) → puts (λ ctx, with_write_buf (f (response ctx) (keep_alive ctx)) ctx) d.
Proof. intros Hf ctx Hok Hh Hd. apply with_write_buf_ok; auto. Qed.


Lemma bytes_ok_status r : bytes_ok (get_status_message r).
Proof. apply bytes_ok_str. Qed.

Lemma puts_status_line :
  puts build_http_status_line (λ r _, str "HTTP/1.1 " ++ get_status_message r ++ crlf).
Proof.
  apply (puts_with (λ r _ b, b ← Buffer.append_str b (str "HTTP/1.1 ");
    b ← Buffer.append_str b (get_status_message r); Buffer.append_str b crlf)).
  intros r k _. apply (writes_bind _ _ (str "HTTP/1.1 ")); [apply writes_str, bytes_ok_str|].
  apply (writes_bind _ _ (get_status_message r)); [apply writes_str, bytes_ok_status|].
  apply writes_str. by apply bytes_ok_check.
Qed.


Lemma puts_header n :
  puts (build_http_header n) (λ r k, HttpSpec.render_headers (res_header r) ++
    (((if k then str "Connection: Keep-Alive" else str "Connection: Close") ++ crlf) ++
     str "Content-Length: " ++ to_string n ++ crlf) ++ crlf).
Proof.
  assert (Hcl : ∀ s, bytes_ok s → writes (λ b, b ← Buffer.append_str b s;
      b ← Buffer.append_str b (str "Content-Length: "); b ← Buffer.append_int b n; Buffer.append_str b crlf)
      (s ++ str "Content-Length: " ++ to_string n ++ crlf)).
  { intros s Hs. apply (writes_bind _ _ s); [by apply writes_str|].
    apply (writes_bind _ _ (str "Content-Length: ")); [apply writes_str, bytes_ok_str|].
    apply (writes_bind _ _ (to_string n)); [apply writes_int|]. apply writes_str. by apply bytes_ok_check. }
  apply (puts_with (λ r k b, b ← append_headers (res_header r) b;
    b ← (if k then _ else _); Buffer.append_str b crlf)).
  intros r k Hh. apply (writes_bind _ _ (HttpSpec.render_headers (res_header r))); [by apply writes_headers|].
  apply (writes_bind (λ b, if k then _ else _)); [|apply writes_str; by apply bytes_ok_check].
  destruct k; apply Hcl; by apply bytes_ok_check.
Qed.

Lemma puts_body (o : option buffer) :
  (∀ d, o = Some d → Buffer.wf d) →
  puts (build_http_body o) (λ _ _, match Buffer.contents <$> o with None => [] | Some d => d ++ crlf end).
Proof.
  intros Ho. apply (puts_with (λ _ _ b, match o with None => Ok b | Some d => _ end)).
  intros r k _. destruct o as [d|]; [|apply writes_nil].
  apply (writes_bind _ _ (Buffer.contents d)); [by apply writes_buf, Ho|].
  apply writes_str. by apply bytes_ok_check.
Qed.

(** The length [end] announces. *)
Definition announced (o : option buffer) (size : Z) : Z := i32 (match o with Some d => _length d | None => size end).

Definition wire_image (o : option buffer) (size : Z) (r : Response) (k : bool) : bytes :=
  HttpSpec.render (get_status_message r) (res_header r) k (announced o size) (Buffer.contents <$> o).

Lemma puts_all o size :
  (∀ d, o = Some d → Buffer.wf d) →
  puts (λ ctx, ctx ← build_http_status_line ctx; ctx ← build_http_header (announced o size) ctx;
               build_http_body o ctx) (wire_image o size).
Proof.
  intros Ho ctx Hok Hh Hd.
  pose proof (puts_bind _ _ _ _ puts_status_line (puts_bind _ _ _ _ (puts_header (announced o size)) (puts_body o Ho))
    ctx Hok Hh) as H. cbv beta in H.
  match type of H with _ < _ → if _ <? _ + zlen ?e then _ else _ => assert (E : e = wire_image o size (response ctx) (keep_alive ctx)) end.
  { unfold wire_image, HttpSpec.render. rewrite <- !app_assoc. done. }
  rewrite E in H. exact (H Hd).
Qed.

Lemma end_response_ok o size ctx :
  (∀ d, o = Some d → Buffer.wf d) → conn_ok ctx → headers_ok (response ctx) → tx_ok (tx (sk (conn ctx))) →
  zlen (wire_image o size (response ctx) (keep_alive ctx)) < 2 ^ 62 →
  let img := wire_image o size (response ctx) (keep_alive ctx) in
  if WRITE_BUF_MAX_SIZE <? zlen img then end_response o size ctx = Exit
  else ∃ ctx', end_response o size ctx = Ok ctx' ∧ same_but_output ctx ctx' ∧
         sent (sk (conn ctx')) = sent (sk (conn ctx)) ++ HttpSpec.delivered (sk (conn ctx)) img ∧
         rx (sk (conn ctx')) = rx (sk (conn ctx)).
Proof.
  intros Ho Hok Hh Htx Hd. cbv zeta. unfold end_response. fold (announced o size).
  destruct (clear_write_buf_ok ctx Hok) as (c1 & -> & S1 & K1 & C1). rewrite outcome_bind_ok. cbv zeta.
  pose proof S1 as (_ & _ & Er & Ek & _ & Hok1).
  pose proof (puts_all o size Ho c1 Hok1) as H. rewrite Er, Ek, C1 in H. specialize (H Hh Hd).
  change (@zlen Z []) with 0 in H. rewrite Z.add_0_l, app_nil_l in H.
  change (i32 _) with (announced o size).
  split_if.
  - destruct (build_http_status_line c1) as [a| |]; [|done..]. rewrite outcome_bind_ok in H |- *.
    destruct (build_http_header (announced o size) a) as [b| |]; [|done..]. rewrite outcome_bind_ok in H |- *.
    by rewrite H.
  - destruct H as (c2 & H & S2 & K2 & C2).
    destruct (build_http_status_line c1) as [a| |]; [|done..]. rewrite outcome_bind_ok in H |- *.
    destruct (build_http_header (announced o size) a) as [b| |]; [|done..]. rewrite outcome_bind_ok in H |- *.
    rewrite H, outcome_bind_ok. pose proof S2 as (_ & _ & _ & _ & _ & Hok2).
    destruct (send_response_ok c2 Hok2) as (ret & c3 & -> & S3 & Hret & Hs & Hr & _ & Hdel); [congruence|].
    rewrite outcome_bind_ok. rewrite Hdel, C2, K2, K1 in *.
    exists c3. split_and!; try done. eauto using same_but_output_trans.
Qed.

(** An answer leaves the rest of the connection as it was. *)
Definition keeps_conn ctx ctx' : Prop :=
  conn_ok ctx' ∧ parser ctx' = parser ctx ∧ rx (sk (conn ctx')) = rx (sk (conn ctx)) ∧
  cread_buf (conn ctx') = cread_buf (conn ctx).

Lemma bad_request_ok text ctx :
  conn_ok ctx → res_header (response ctx) = [] → tx_ok (tx (sk (conn ctx))) → bytes_ok text →
  zlen (HttpSpec.bad_request (keep_alive ctx) text) ≤ WRITE_BUF_MAX_SIZE →
  ∃ ctx', send_bad_request_response text ctx = Ok ctx' ∧ keeps_conn ctx ctx' ∧ request ctx' = request ctx ∧
    sent (sk (conn ctx')) = sent (sk (conn ctx)) ++
      HttpSpec.delivered (sk (conn ctx)) (HttpSpec.bad_request (keep_alive ctx) text).
Proof.
  intros Hok Hh Htx Htext Hsz. unfold send_bad_request_response.
  assert (Ht : zlen text ≤ zlen (HttpSpec.bad_request (keep_alive ctx) text)).
  { unfold HttpSpec.bad_request, HttpSpec.render. rewrite !zlen_app.
    repeat match goal with |- context [zlen ?l] => lazymatch l with text => fail | _ => pose proof (zlen_nonneg l); generalize dependent (zlen l); intros end end.
    lia. }
  unfold WRITE_BUF_MAX_SIZE in *. pose proof (zlen_nonneg text) as Ht0.
  assert (Hm : Buffer.wf (Buffer.make (zlen text))) by (apply Buffer.make_wf; unfold SIZE_MAX; lia).
  pose proof (Buffer.append_str_ok (Buffer.make (zlen text)) text Hm Htext) as H.
  change (_length (Buffer.make (zlen text))) with 0 in H.
  change (_size (Buffer.make (zlen text))) with (zlen text) in H. specialize (H ltac:(lia)).
  rewrite (proj2 (Z.ltb_ge _ _)) in H by lia. destruct H as (bd & -> & Hbd & Hbs & Hbc).
  rewrite outcome_bind_ok. change (Buffer.contents (Buffer.make (zlen text))) with (@nil Z) in Hbc. cbn [app] in Hbc.
  assert (Hbl : _length bd = zlen text) by (rewrite <- (Buffer.zlen_contents bd Hbd); congruence).
  assert (E : wire_image (Some bd) 0 (set_status 400 (response ctx)) (keep_alive ctx) =
              HttpSpec.bad_request (keep_alive ctx) text).
  { unfold wire_image, HttpSpec.bad_request, announced. rewrite Hbl, i32_id by lia. cbn [fmap option_fmap option_map].
    rewrite Hbc. cbn [res_header set_status]. by rewrite Hh. }
  set (ctx1 := with_response (set_status 400) ctx).
  assert (Er : response ctx1 = set_status 400 (response ctx)) by reflexivity.
  assert (Ek : keep_alive ctx1 = keep_alive ctx) by reflexivity.
  assert (Ec : conn ctx1 = conn ctx) by reflexivity.
  assert (Eq : request ctx1 = request ctx ∧ parser ctx1 = parser ctx) by done. clearbody ctx1.
  pose proof (end_response_ok (Some bd) 0 ctx1) as H. unfold conn_ok in H at 1.
  rewrite Er, Ek, Ec, E in H. cbv zeta in H.
  assert (Hhd : headers_ok (set_status 400 (response ctx))).
  { unfold headers_ok. cbn [res_header set_status]. rewrite Hh. constructor. }
  assert (Hlt : zlen (HttpSpec.bad_request (keep_alive ctx) text) < 2 ^ 62).
  { eapply Z.le_lt_trans; [exact Hsz|done]. }
  specialize (H ltac:(by intros d [= <-]) Hok Hhd Htx Hlt).
  rewrite (proj2 (Z.ltb_ge _ _)) in H by (unfold WRITE_BUF_MAX_SIZE; lia).
  destruct H as (ctx' & H1 & (S1 & S2 & S3 & S4 & S5 & S6) & H3 & H4).
  destruct Eq. exists ctx'. unfold keeps_conn. rewrite H4, S5, S1. split_and!; try done; congruence.
Qed.

Lemma not_found_fits k : zlen (HttpSpec.render (str "404 Not Found") [] k 0 None) ≤ WRITE_BUF_MAX_SIZE.
Proof. destruct k; by vm_compute. Qed.

Lemma not_found_ok ctx :
  conn_ok ctx → res_header (response ctx) = [] → tx_ok (tx (sk (conn ctx))) →
  ∃ ctx', send_not_found_response ctx = Ok ctx' ∧ keeps_conn ctx ctx' ∧ keep_alive ctx' = keep_alive ctx ∧
    sent (sk (conn ctx')) = sent (sk (conn ctx)) ++
      HttpSpec.delivered (sk (conn ctx)) (HttpSpec.render (str "404 Not Found") [] (keep_alive ctx) 0 None).
Proof.
  intros Hok Hh Htx. unfold send_not_found_response. pose proof (not_found_fits (keep_alive ctx)) as Hfit.
  set (ctx1 := with_response (set_status 404) ctx).
  assert (Er : response ctx1 = set_status 404 (response ctx)) by reflexivity.
  assert (Ek : keep_alive ctx1 = keep_alive ctx) by reflexivity.
  assert (Ec : conn ctx1 = conn ctx) by reflexivity. assert (Ep : parser ctx1 = parser ctx) by reflexivity. clearbody ctx1.
  assert (Ei : wire_image None 0 (response ctx1) (keep_alive ctx1) =
    HttpSpec.render (str "404 Not Found") [] (keep_alive ctx) 0 None).
  { unfold wire_image. rewrite Er, Ek. cbn [res_header set_status]. by rewrite Hh. }
  assert (Hhd : headers_ok (response ctx1)).
  { unfold headers_ok. rewrite Er. cbn [res_header set_status]. rewrite Hh. constructor. }
  pose proof (end_response_ok None 0 ctx1) as H. unfold conn_ok in H at 1. rewrite Ei, Ec in H. cbv zeta in H.
  assert (Hlt : zlen (HttpSpec.render (str "404 Not Found") [] (keep_alive ctx) 0 None) < 2 ^ 62)
    by (eapply Z.le_lt_trans; [exact Hfit|done]).
  specialize (H ltac:(done) Hok Hhd Htx Hlt).
  rewrite (proj2 (Z.ltb_ge _ _)) in H by exact Hfit.
  destruct H as (ctx' & H1 & (S1 & _ & _ & S4 & S5 & S6) & H3 & H4). exists ctx'. unfold keeps_conn.
  rewrite H1, S4, Ek, S1, Ep, H4, S5, Ec. done.
Qed.

End wire.
End HttpFacts.

Module UpgradeFacts.
Import Response HttpFacts.

Lemma header_contain_value_spec r (name value : string) :
  Request.header_contain_value (str name) (str value) r = true ↔ HttpSpec.has_value r name value.
Proof.
  unfold Request.header_contain_value, HttpSpec.has_value.
  destruct (StdMap.find (str name) (req_header r)) as [v|].
  - rewrite bool_decide_eq_true. split; [eauto|by intros (? & [= <-] & ?)].
  - by split; [|intros (? & ? & _)].
Qed.

Lemma encode_length l : length (Rfc4648.encode l) = (4 * ((length l + 2) / 3))%nat.
Proof.
  induction l as [|a|a b|a b c l IH] using list_ind3; try done.
  cbn [Rfc4648.encode]. rewrite length_app, IH. cbn [length fmap list_fmap Rfc4648.sextets].
  replace (S (S (S (length l))) + 2)%nat with ((length l + 2) + 1 * 3)%nat by lia.
  rewrite Nat.div_add by lia. lia.
Qed.

Lemma encode_bytes_ok l : bytes_ok l → bytes_ok (Rfc4648.encode l).
Proof.
  intros Hl. destruct (Base64Facts.encode_alphabet l Hl) as (sx & eqs & -> & Hsx & _).
  apply Forall_app_2.
  - apply Forall_fmap. eapply List.Forall_impl; [|exact Hsx]. intros k Hk. by apply Base64Facts.char_facts.
  - apply Forall_replicate. done.
Qed.

Lemma refusal_fits k r why :
  HttpSpec.refusal r = Some why → zlen (HttpSpec.refused k why) ≤ WRITE_BUF_MAX_SIZE.
Proof.
  unfold HttpSpec.refusal. intros H. repeat case_decide; try done; injection H as <-; destruct k; by vm_compute.
Qed.

Section upgrade.
Context {P : Type} (SHA1 : bytes → bytes) (j3 j4 : bytes).
Context (Hsha : ∀ d, bytes_ok d → bytes_ok (SHA1 d) ∧ length (SHA1 d) = 20%nat).
Context (Hj3 : length j3 = 3%nat) (Hj4 : length j4 = 4%nat).
Implicit Types (ctx : Ctx P).

Lemma compute_accept_key_ok key :
  bytes_ok key →
  compute_accept_key SHA1 j3 j4 key = Ok (Rfc4648.encode (SHA1 (key ++ HttpSpec.guid))).
Proof.
  intros Hk. destruct (Hsha (key ++ HttpSpec.guid)) as [Hb Hn].
  { apply Forall_app_2; [done|apply bytes_ok_str]. }
  unfold compute_accept_key, Base64.base64_encode, SHA_DIGEST_LENGTH.
  change WEBSOCKET_GUID with HttpSpec.guid.
  change (Z.to_nat (u32 20)) with 20%nat. rewrite <- Hn.
  rewrite <- (app_nil_r (SHA1 _)) at 2. by rewrite Base64Facts.encode_loop_tail by done.
Qed.

(** What the check decides, and what it sends when it refuses. *)
Lemma check_websocket_upgrade_cases ctx :
  let key := Request.get_header (str "sec-websocket-key") (request ctx) in
  check_websocket_upgrade key ctx =
    match HttpSpec.refusal (request ctx) with
    | None => Ok (true, ctx)
    | Some why => ctx ← send_bad_request_response (bad_handshake ++ str why) ctx; Ok (false, ctx)
    end.
Proof.
  intros key. unfold check_websocket_upgrade, HttpSpec.refusal. fold key.
  pose proof (header_contain_value_spec (request ctx)) as Hv.
  assert (Hd : ∀ (name value : string) {A} (x y : A),
    (if negb (Request.header_contain_value (str name) (str value) (request ctx)) then x else y) =
    if decide (¬ HttpSpec.has_value (request ctx) name value) then x else y).
  { intros name value A x y. specialize (Hv name value).
    destruct (Request.header_contain_value _ _ _); cbn [negb]; case_decide; intuition congruence. }
  rewrite !Hd. clear Hd Hv.
  assert (Hb : ∀ (Q : Prop) {dec : Decision Q} {A} (x y : A), (if bool_decide Q then x else y) = if decide Q then x else y)
    by (intros; case_decide; [rewrite bool_decide_true by done|rewrite bool_decide_false by done]; reflexivity).
  rewrite <- bool_decide_not, !Hb. repeat case_decide; done.
Qed.

Lemma check_websocket_upgrade_ok ctx :
  let key := Request.get_header (str "sec-websocket-key") (request ctx) in
  conn_ok ctx → res_header (response ctx) = [] → tx_ok (tx (sk (conn ctx))) →
  match HttpSpec.refusal (request ctx) with
  | None => check_websocket_upgrade key ctx = Ok (true, ctx)
  | Some why =>
      ∃ ctx', check_websocket_upgrade key ctx = Ok (false, ctx') ∧ keeps_conn ctx ctx' ∧ request ctx' = request ctx ∧
        sent (sk (conn ctx')) = sent (sk (conn ctx)) ++
          HttpSpec.delivered (sk (conn ctx)) (HttpSpec.refused (keep_alive ctx) why)
  end.
Proof.
  intros key Hok Hh Htx. unfold key. rewrite check_websocket_upgrade_cases.
  destruct (HttpSpec.refusal (request ctx)) as [why|] eqn:E; [|done].
  destruct (bad_request_ok (bad_handshake ++ str why) ctx) as (ctx' & -> & H1 & H2 & H3); try done.
  { apply Forall_app_2; apply bytes_ok_str. }
  { by apply (refusal_fits _ (request ctx)). }
  rewrite outcome_bind_ok. by exists ctx'.
Qed.

(** The answer that opens the WebSocket. *)
Definition upgrading key ctx : outcome (Ctx P) :=
  accept_key ← compute_accept_key SHA1 j3 j4 key;
  end_response None 0 (set_response_header (str "Sec-WebSocket-Accept") accept_key
    (set_response_header (str "Connection") (str "Upgrade")
      (set_response_header (str "Upgrade") (str "websocket") (with_response (set_status 101) ctx)))).

Lemma switching_fits k d : length d = 20%nat → zlen (HttpSpec.switching_protocols k d) ≤ WRITE_BUF_MAX_SIZE.
Proof.
  intros Hd. pose proof (encode_length d) as He. rewrite Hd in He. change (4 * ((20 + 2) / 3))%nat with 28%nat in He.
  unfold HttpSpec.switching_protocols. generalize dependent (Rfc4648.encode d). intros e He.
  do 28 (destruct e as [|? e]; [done|]). destruct e; [|done]. destruct k; by vm_compute.
Qed.

Lemma upgrade_response ctx :
  conn_ok ctx → res_header (response ctx) = [] → tx_ok (tx (sk (conn ctx))) →
  let key := Request.get_header (str "sec-websocket-key") (request ctx) in
  bytes_ok key →
  let answer := HttpSpec.switching_protocols (keep_alive ctx) (SHA1 (key ++ HttpSpec.guid)) in
  ∃ ctx', upgrading key ctx = Ok ctx' ∧ request ctx' = request ctx ∧
    sent (sk (conn ctx')) = sent (sk (conn ctx)) ++ HttpSpec.delivered (sk (conn ctx)) answer ∧ keeps_conn ctx ctx'.
Proof.
  intros Hok Hh Htx key Hkey answer. unfold upgrading. rewrite compute_accept_key_ok, outcome_bind_ok by done.
  destruct (Hsha (key ++ HttpSpec.guid)) as [Hb Hn].
  { apply Forall_app_2; [done|apply bytes_ok_str]. }
  pose proof (switching_fits (keep_alive ctx) _ Hn) as Hfit. fold answer in Hfit.
  set (e := Rfc4648.encode _). set (ctx1 := set_response_header _ e _).
  assert (Er : get_status_message (response ctx1) = str "101 Switching Protocols" ∧
               res_header (response ctx1) = [(str "Connection", str "Upgrade");
                 (str "Sec-WebSocket-Accept", e); (str "Upgrade", str "websocket")]).
  { unfold ctx1, set_response_header, with_response, Parse.set_response.
    cbn [response set_header set_status res_header]. rewrite Hh. done. }
  assert (Ek : keep_alive ctx1 = keep_alive ctx) by reflexivity.
  assert (Ec : conn ctx1 = conn ctx) by reflexivity.
  assert (Eq : request ctx1 = request ctx ∧ parser ctx1 = parser ctx) by done. clearbody ctx1. destruct Er as [Em Eh].
  assert (Ei : wire_image None 0 (response ctx1) (keep_alive ctx1) = answer).
  { unfold wire_image. by rewrite Em, Eh, Ek. }
  assert (Hhd : headers_ok (response ctx1)).
  { unfold headers_ok. rewrite Eh. repeat (apply Forall_cons_2; [split; cbn [fst snd]; (apply bytes_ok_str || by apply encode_bytes_ok)|]).
    constructor. }
  pose proof (end_response_ok None 0 ctx1) as H. unfold conn_ok in H at 1. rewrite Ei, Ec in H. cbv zeta in H.
  assert (Hlt : zlen answer < 2 ^ 62) by (eapply Z.le_lt_trans; [exact Hfit|done]).
  specialize (H ltac:(done) Hok Hhd Htx Hlt).
  rewrite (proj2 (Z.ltb_ge _ _)) in H by exact Hfit.
  destruct H as (ctx' & H1 & (S1 & S2 & _ & _ & S5 & S6) & H3 & H4). destruct Eq as [Eq Ep].
  rewrite Eq in S2. rewrite Ec in S5. rewrite Ep in S1. exists ctx'. unfold keeps_conn. by split_and!.
Qed.

(** The two ways an upgrade ends. *)
Lemma upgrade_ok ctx :
  conn_ok ctx → res_header (response ctx) = [] → tx_ok (tx (sk (conn ctx))) →
  let key := Request.get_header (str "sec-websocket-key") (request ctx) in
  bytes_ok key →
  let yes := HttpSpec.switching_protocols (keep_alive ctx) (SHA1 (key ++ HttpSpec.guid)) in
  match HttpSpec.refusal (request ctx) with
  | None => ∃ ctx', upgrade SHA1 j3 j4 ctx = Ok (true, ctx') ∧ request ctx' = request ctx ∧
      sent (sk (conn ctx')) = sent (sk (conn ctx)) ++ HttpSpec.delivered (sk (conn ctx)) yes ∧ keeps_conn ctx ctx'
  | Some why => ∃ ctx', upgrade SHA1 j3 j4 ctx = Ok (false, ctx') ∧ request ctx' = request ctx ∧
      sent (sk (conn ctx')) = sent (sk (conn ctx)) ++
        HttpSpec.delivered (sk (conn ctx)) (HttpSpec.refused (keep_alive ctx) why) ∧ keeps_conn ctx ctx'
  end.
Proof.
  intros Hok Hh Htx key Hkey yes. unfold upgrade. fold key.
  pose proof (check_websocket_upgrade_ok ctx Hok Hh Htx) as H. fold key in H.
  destruct (HttpSpec.refusal (request ctx)) as [why|].
  - destruct H as (ctx' & H & Hk & Hr & Hs). rewrite H, outcome_bind_ok. by exists ctx'.
  - rewrite H, outcome_bind_ok. cbn [negb].
    destruct (upgrade_response ctx Hok Hh Htx Hkey) as (ctx' & Hup & Hr & Hs & Hrest).
    unfold upgrading in Hup. fold key in Hup. rewrite <- outcome_bind_assoc, Hup, outcome_bind_ok. by exists ctx'.
Qed.

End upgrade.
End UpgradeFacts.

(** ** What the callbacks collect *)
Module CollectFacts.
Import Parse.

Definition in_region (buf : bytes) (a n : Z) : Prop := 0 ≤ a ∧ 0 ≤ n ∧ a + n ≤ zlen buf.
Definition slice (buf : bytes) (a n : Z) : bytes := take (Z.to_nat n) (drop (Z.to_nat a) buf).

Lemma mem_read_slice buf a n : in_region buf a n → mem_read buf a n = Ok (slice buf a n).
Proof. intros (? & ? & ?). by apply mem_read_ok. Qed.

(** A header line: where its name and its value are. *)
Record line := mkLine { name_at : Z; name_len : Z; value_at : Z; value_len : Z }.
Definition line_ok (buf : bytes) (l : line) : Prop :=
  in_region buf (name_at l) (name_len l) ∧ in_region buf (value_at l) (value_len l).
Definition line_callbacks (l : line) : list callback :=
  [OnHeaderField (name_at l) (name_len l); OnHeaderValue (value_at l) (value_len l)].
Definition line_pair (buf : bytes) (l : line) : bytes * bytes :=
  (lowercase (slice buf (name_at l) (name_len l)), slice buf (value_at l) (value_len l)).

Section collect.
Context {P : Type}.
Implicit Types (ctx : Ctx P).

Lemma run_callbacks_app buf l1 l2 ctx :
  run_callbacks buf (l1 ++ l2) ctx = (ctx ← run_callbacks buf l1 ctx; run_callbacks buf l2 ctx).
Proof.
  revert ctx. induction l1 as [|cb l1 IH]; intros ctx; [done|]. cbn [app run_callbacks].
  rewrite outcome_bind_assoc. destruct (run_callback buf cb ctx) as [c| |]; [|done..].
  rewrite !outcome_bind_ok. apply IH.
Qed.

Lemma run_lines buf lines ctx :
  Forall (line_ok buf) lines →
  ∃ ctx', run_callbacks buf (lines ≫= line_callbacks) ctx = Ok ctx' ∧
    request ctx' = Request.set_header (StdMap.assign_all (line_pair buf <$> lines) (req_header (request ctx))) (request ctx) ∧
    conn ctx' = conn ctx ∧ parser ctx' = parser ctx ∧ response ctx' = response ctx.
Proof.
  intros Hl. revert ctx. induction Hl as [|l lines [Hn Hv] _ IH]; intros ctx.
  - exists ctx. split; [reflexivity|]. split_and!; try done. by destruct ctx as [? ? []].
  - change ((l :: lines) ≫= line_callbacks) with (line_callbacks l ++ (lines ≫= line_callbacks)).
    rewrite run_callbacks_app. cbn [line_callbacks run_callbacks run_callback]. rewrite outcome_bind_ok.
    unfold http_request_on_header_value, http_request_on_header_field.
    cbn [current_header_name current_header_name_len request set_request].
    rewrite !mem_read_slice, !outcome_bind_ok by done. 
    match goal with |- context [run_callbacks buf _ ?c] => destruct (IH c) as (ctx' & -> & H1 & H2 & H3 & H4) end.
    exists ctx'. split; [reflexivity|]. split_and!; done.
Qed.

Lemma run_body buf a n ctx :
  in_region buf a n →
  run_callback buf (OnBody a n) ctx = Ok (set_request (Request.set_body (slice buf a n ++ [0]) n (request ctx)) ctx).
Proof. intros Hn. cbn [run_callback]. unfold http_request_on_body, copy_string. by rewrite mem_read_slice. Qed.

Lemma run_bodies buf chunks ctx :
  Forall (λ x, in_region buf x.1 x.2) chunks →
  ∃ ctx', run_callbacks buf ((λ x, OnBody x.1 x.2) <$> chunks) ctx = Ok ctx'.
Proof.
  intros Hl. revert ctx. induction Hl as [|[a n] l Hn _ IH]; intros ctx; [by exists ctx|].
  change ((λ x, OnBody x.1 x.2) <$> (a, n) :: l) with (OnBody a n :: ((λ x, OnBody x.1 x.2) <$> l)).
  cbn [run_callbacks]. rewrite run_body, outcome_bind_ok by done. apply IH.
Qed.

End collect.
End CollectFacts.

(** ** Properties *)
Section http_properties.
Context {P : Type}.
Implicit Types (ctx : Ctx P).

(** C34: [Response::end] sends the status line of the code, the headers, the
    connection and length lines, the blank line and the body, in that order and
    nothing else, when all of it fits the write buffer, and a prefix of it when
    the kernel takes less at the first [send]; when it does not fit, the
    process ends. The rest of the context is untouched. *)
Theorem end_response_sends (data : option buffer) (size : Z) ctx :
  (∀ d, data = Some d → Buffer.wf d) → HttpFacts.conn_ok ctx → HttpFacts.headers_ok (response ctx) →
  HttpFacts.tx_ok (tx (sk (conn ctx))) →
  let length := i32 match data with Some d => _length d | None => size end in
  let text := HttpSpec.render (Response.get_status_message (response ctx)) (res_header (response ctx))
                (keep_alive ctx) length (Buffer.contents <$> data) in
  zlen text < 2 ^ 62 →
  if WRITE_BUF_MAX_SIZE <? zlen text then Response.end_response data size ctx = Exit
  else ∃ n ctx', Response.end_response data size ctx = Ok ctx' ∧
         request ctx' = request ctx ∧ response ctx' = response ctx ∧ HttpFacts.conn_ok ctx' ∧
         sent (sk (conn ctx')) = sent (sk (conn ctx)) ++ take n text ∧
         (tx (sk (conn ctx)) = [] → take n text = text).
Proof.
  intros Hd Hok Hh Htx. cbv zeta. intros Hlt. pose proof (HttpFacts.end_response_ok data size ctx Hd Hok Hh Htx Hlt) as H.
  cbv zeta in H. unfold HttpFacts.wire_image, HttpFacts.announced in H. split_if; [done|].
  destruct H as (ctx' & H & (_ & H1 & H2 & _ & _ & H3) & H4 & _).
  eexists _, ctx'. split_and!; [exact H|exact H1|exact H2|exact H3|exact H4|]. intros E. by apply HttpSpec.delivered_all.
Qed.

(** C22: the WebSocket upgrade, on a response without headers, never ends the
    process. It returns true exactly for an opening handshake (a GET with the
    three headers and a key), and then answers 101 with the accept value of
    RFC 6455, the base64 of the SHA-1 of the key and the GUID; otherwise it
    answers 400 with the reason, the first of the conditions that the request
    fails. The kernel decides how much of the one answer goes out: all of it,
    when it takes what it is given. *)
Theorem upgrade_handshake (SHA1 : bytes → bytes) (j3 j4 : bytes) ctx :
  (∀ d, bytes_ok d → bytes_ok (SHA1 d) ∧ length (SHA1 d) = 20%nat) →
  length j3 = 3%nat → length j4 = 4%nat →
  HttpFacts.conn_ok ctx → res_header (response ctx) = [] → HttpFacts.tx_ok (tx (sk (conn ctx))) →
  let key := Request.get_header (str "sec-websocket-key") (request ctx) in
  bytes_ok key →
  ∃ ok ctx', Response.upgrade SHA1 j3 j4 ctx = Ok (ok, ctx') ∧
    (ok = true ↔ HttpSpec.opening_handshake (request ctx)) ∧
    request ctx' = request ctx ∧
    let answer := match HttpSpec.refusal (request ctx) with
      | None => HttpSpec.switching_protocols (keep_alive ctx) (SHA1 (key ++ HttpSpec.guid))
      | Some why => HttpSpec.refused (keep_alive ctx) why
      end in
    sent (sk (conn ctx')) = sent (sk (conn ctx)) ++ HttpSpec.delivered (sk (conn ctx)) answer ∧
    (tx (sk (conn ctx)) = [] → sent (sk (conn ctx')) = sent (sk (conn ctx)) ++ answer).
Proof.
  intros Hsha Hj3 Hj4 Hok Hh Htx key Hkey. pose proof (HttpSpec.refusal_none (request ctx)) as Hno.
  pose proof (UpgradeFacts.upgrade_ok SHA1 j3 j4 Hsha Hj3 Hj4 ctx Hok Hh Htx Hkey) as H.
  destruct (HttpSpec.refusal (request ctx)) as [why|].
  - destruct H as (ctx' & -> & Hr & Hs & _). exists false, ctx'. split; [done|]. split; [rewrite <- Hno; by split|]. split; [done|].
    split; [done|]. intros E. by rewrite Hs, HttpSpec.delivered_all.
  - destruct H as (ctx' & -> & Hr & Hs & _). exists true, ctx'. split; [done|]. split; [rewrite <- Hno; by split|]. split; [done|].
    split; [done|]. intros E. by rewrite Hs, HttpSpec.delivered_all.
Qed.

(** The header lines of a region, whatever they are, end up in the map of
    the request under their names in lower case: as a finite map it is the
    lines over what was there, the last line of a name first. Looking a name up
    with [get_header] therefore ignores the case the client used, and nothing
    else of the request changes. *)
Theorem header_lines_collected (buf : bytes) (lines : list CollectFacts.line) ctx :
  Forall (CollectFacts.line_ok buf) lines → StdMap.ordered (req_header (request ctx)) →
  ∃ ctx', Parse.run_callbacks buf (lines ≫= CollectFacts.line_callbacks) ctx = Ok ctx' ∧
    StdMap.ordered (req_header (request ctx')) ∧
    StdMap.to_gmap (req_header (request ctx')) =
      list_to_map (reverse (CollectFacts.line_pair buf <$> lines)) ∪ StdMap.to_gmap (req_header (request ctx)) ∧
    (∀ name, Request.get_header name (request ctx') =
      default [] (StdMap.to_gmap (req_header (request ctx')) !! name)) ∧
    path (request ctx') = path (request ctx) ∧ body (request ctx') = body (request ctx) ∧
    method (request ctx') = method (request ctx) ∧ response ctx' = response ctx.
Proof.
  intros Hl Ho. destruct (CollectFacts.run_lines buf lines ctx Hl) as (ctx' & H & Hr & _ & _ & Hp).
  exists ctx'. rewrite Hr. cbn [req_header Request.set_header path body method].
  pose proof (StdMap.assign_all_ordered (CollectFacts.line_pair buf <$> lines) _ Ho) as Ho'.
  split_and!; try done; [by apply StdMap.assign_all_to_gmap|].
  intros name. unfold Request.get_header. cbn [req_header Request.set_header].
  rewrite StdMap.find_to_gmap by done. by destruct (_ !! name).
Qed.

(** A body that the parser delivers in pieces is not joined: what the
    request holds in the end is the last piece, terminated, and its length. *)
Theorem body_is_last_piece (buf : bytes) (chunks : list (Z * Z)) (a n : Z) ctx :
  Forall (λ x, CollectFacts.in_region buf x.1 x.2) (chunks ++ [(a, n)]) →
  ∃ ctx', Parse.run_callbacks buf ((λ x, OnBody x.1 x.2) <$> (chunks ++ [(a, n)])) ctx = Ok ctx' ∧
    body (request ctx') = Some (CollectFacts.slice buf a n ++ [0]) ∧ body_length (request ctx') = n.
Proof.
  intros [Hl Hn]%Forall_app. apply Forall_cons_1 in Hn as [Hn _]. rewrite fmap_app, CollectFacts.run_callbacks_app.
  destruct (CollectFacts.run_bodies buf chunks ctx Hl) as (c1 & ->). rewrite outcome_bind_ok.
  cbn [fmap list_fmap Parse.run_callbacks fst snd] in *. rewrite CollectFacts.run_body, outcome_bind_ok by done.
  eexists. split; [reflexivity|done].
Qed.
End http_properties.

(** ** Witnesses *)
Module HttpExample.

(** A SHA-1 that returns 20 octets. *)
Definition digest (d : bytes) : bytes := replicate 20 7.

(** A connection whose kernel takes everything but asks to try again once. *)
Definition peer : cosocket := CoSocket.make (mkSock 5 0 [] [TxError EAGAIN] [] [] [] [] false) 0.

Definition opening : Request :=
  Request.set_method (str "GET") (Request.set_header
    (StdMap.assign_all [(str "connection", str "Upgrade"); (str "upgrade", str "websocket");
       (str "sec-websocket-version", str "13"); (str "sec-websocket-key", str "dGhlIHNhbXBsZSBub25jZQ==")] [])
    (Request.make 101 0 0)).

Definition start : Ctx unit := Context.make peer tt opening (Response.make 101) None 0 true.

Lemma start_ok : HttpFacts.conn_ok start.
Proof. intros b [=]. Qed.

Lemma opening_ok : HttpSpec.opening_handshake opening.
Proof.
  split; [reflexivity|]. split; [exists (str "Upgrade"); split; vm_compute; reflexivity|].
  split; [exists (str "websocket"); split; vm_compute; reflexivity|].
  split; [exists (str "13"); split; vm_compute; reflexivity|vm_compute; discriminate].
Qed.

Lemma start_tx : HttpFacts.tx_ok (tx (sk (conn start))).
Proof. apply Forall_cons_2; [exact I|constructor]. Qed.

Lemma digest_ok d : bytes_ok d → bytes_ok (digest d) ∧ length (digest d) = 20%nat.
Proof. intros _. split; [by apply bytes_ok_check|reflexivity]. Qed.

End HttpExample.

Lemma end_response_sends_witness :
  ∃ n ctx', Response.end_response None 0 HttpExample.start = Ok ctx' ∧
    sent (sk (conn ctx')) = take n (HttpSpec.render (str "200 OK") [] true 0 None).
Proof.
  assert (Hlt : zlen (HttpSpec.render (str "200 OK") [] true 0 None) < 2 ^ 62) by (by vm_compute).
  pose proof (end_response_sends None 0 HttpExample.start ltac:(done) HttpExample.start_ok ltac:(constructor)
    HttpExample.start_tx Hlt) as H.
  destruct H as (n & ctx' & H1 & _ & _ & _ & H2 & _). exists n, ctx'. split; [exact H1|exact H2].
Defined.

Lemma upgrade_handshake_witness :
  ∃ ctx', Response.upgrade HttpExample.digest [1; 2; 3] [4; 5; 6; 7] HttpExample.start = Ok (true, ctx') ∧
    sent (sk (conn ctx')) = HttpSpec.switching_protocols true (replicate 20 7).
Proof.
  pose proof (upgrade_handshake HttpExample.digest [1; 2; 3] [4; 5; 6; 7] HttpExample.start) as H.
  specialize (H HttpExample.digest_ok eq_refl eq_refl HttpExample.start_ok eq_refl HttpExample.start_tx).
  specialize (H ltac:(by apply bytes_ok_check)).
  destruct H as (ok & ctx' & H1 & H2 & _ & H3 & _).
  assert (ok = true) as -> by exact (proj2 H2 HttpExample.opening_ok).
  exists ctx'. split; [exact H1|]. rewrite H3.
  by rewrite (proj2 (HttpSpec.refusal_none (request HttpExample.start)) HttpExample.opening_ok).
Defined.

(** The same request with another method, and without the version. *)
Example upgrade_refusals :
  HttpSpec.refusal (Request.set_method (str "POST") HttpExample.opening) = Some "request method is not GET"%string ∧
  HttpSpec.refusal (Request.set_header (StdMap.assign (str "sec-websocket-version") (str "8")
    (req_header HttpExample.opening)) HttpExample.opening) =
    Some "websocket: unsupported version: 13 not found in 'Sec-Websocket-Version' header"%string.
Proof. by vm_compute. Qed.

Lemma header_lines_collected_witness :
  ∃ ctx', Parse.run_callbacks (str "Host: a HOST: b")
    ([CollectFacts.mkLine 0 4 6 1; CollectFacts.mkLine 8 4 14 1] ≫= CollectFacts.line_callbacks) HttpExample.start = Ok ctx' ∧
    Request.get_header (str "host") (request ctx') = str "b".
Proof.
  destruct (header_lines_collected (str "Host: a HOST: b")
    [CollectFacts.mkLine 0 4 6 1; CollectFacts.mkLine 8 4 14 1] HttpExample.start) as (ctx' & H & _ & H1 & H2 & _).
  - repeat constructor; vm_compute; congruence.
  - apply StdMap.assign_all_ordered. constructor.
  - exists ctx'. split; [exact H|]. rewrite H2, H1. vm_compute. reflexivity.
Defined.

Lemma body_is_last_piece_witness :
  ∃ ctx', Parse.run_callbacks (str "abcdef") [OnBody 0 3; OnBody 3 3] HttpExample.start = Ok ctx' ∧
    body (request ctx') = Some (str "def" ++ [0]).
Proof.
  destruct (body_is_last_piece (str "abcdef") [(0, 3)] 3 3 HttpExample.start) as (ctx' & H & H1 & _).
  - repeat constructor; vm_compute; congruence.
  - exists ctx'. split; [exact H|exact H1].
Defined.
