(* ===== verification/HttpCalm.v ===== *)
(** * HttpCalm: connections that stay in order
    (include/coroutine_http.h, src/coroutine/http/http.cc)

    A connection whose buffers are the ones it made and whose waits succeed:
    what it receives from a script of answers, and that the answers of the HTTP
    layer leave it as it was, but for what they send. *)

From S2P Require Import Prelude Words CString Buffer StdMap Base64 WebsocketFrame CoSocket Log Http.
#[local] Open Scope Z_scope.

Module CalmFacts.
Import HttpFacts.

(** ** The socket *)
Lemma recv_again fuel buf len : ∀ n (s : sock) l, rx s = replicate n (RxError EAGAIN) ++ l → waits s = [] → (n < fuel)%nat →
  ∃ s', rx s' = l ∧ waits s' = [] ∧ tx s' = tx s ∧ sent s' = sent s ∧
    CoSocket.recv_loop i32 fuel s buf 0 len = CoSocket.recv_loop i32 (fuel - n) s' buf 0 len.
Proof.
  induction fuel as [|fuel IH]; intros n s l Hr Hw Hf; [lia|]. destruct n as [|n].
  { exists s. rewrite Nat.sub_0_r. by split_and!. }
  cbn [replicate app] in Hr. cbn [CoSocket.recv_loop]. unfold Socket.recv. rewrite Hr. cbv zeta beta iota.
  change (i32 (-1)) with (-1). cbn [errno set_errno set_rx]. change ((-1 <? 0) && (EAGAIN =? EAGAIN)) with true. cbv iota.
  unfold CoSocket.wait_event. cbn [waits set_errno set_rx]. rewrite Hw. cbv iota beta.
  destruct (IH n (set_waits [] FSW_EVENT_READ (set_errno EAGAIN (set_rx (replicate n (RxError EAGAIN) ++ l) s))) l)
    as (s' & H1 & H2 & H3 & H4 & H5); [done|done|lia|]. exists s'. by split_and!.
Qed.

Lemma send_loop_calm w fuel ev mem off len : ∀ (s : sock) ret s',
  CoSocket.send_loop w fuel ev s mem off len = Some (Ok (ret, s')) → waits s = [] → tx_ok (tx s) →
  waits s' = [] ∧ tx_ok (tx s') ∧ (tx s = [] → tx s' = []).
Proof.
  induction fuel as [|fuel IH]; intros s ret s'; [done|]. cbn [CoSocket.send_loop].
  unfold Socket.send. destruct (tx s) as [|[n|e] l] eqn:Et; intros H Hw Hok.
  - destruct (mem_read mem off len) as [d| |]; [|done..]. rewrite outcome_bind_ok in H. cbv zeta in H.
    cbn [errno set_tx] in H. unfold CoSocket.wait_event in H. cbn [waits set_tx] in H. rewrite Hw in H. destruct (_ && _).
    + apply IH in H; cbn [waits tx set_waits set_tx] in *; [|done..]. by destruct H as (? & ? & ?); split_and!; auto.
    + injection H as _ <-. by split_and!.
  - apply Forall_cons_1 in Hok as [_ Hok]. destruct (mem_read mem off _) as [d| |]; [|done..]. rewrite outcome_bind_ok in H. cbv zeta in H.
    cbn [errno set_tx] in H. unfold CoSocket.wait_event in H. cbn [waits set_tx] in H. rewrite Hw in H. destruct (_ && _).
    + apply IH in H; cbn [waits tx set_waits set_tx] in *; [|done..]. by destruct H as (? & ? & ?); split_and!.
    + injection H as _ <-. by split_and!.
  - apply Forall_cons_1 in Hok as [_ Hok]. cbv zeta in H. cbn [errno set_errno] in H. unfold CoSocket.wait_event in H.
    cbn [waits set_tx set_errno] in H. rewrite Hw in H. destruct (_ && _).
    + apply IH in H; cbn [waits tx set_waits set_errno set_tx] in *; [|done..]. by destruct H as (? & ? & ?); split_and!.
    + injection H as _ <-. by split_and!.
Qed.

(** ** The connection *)
Lemma get_read_buf_sk (c : cosocket) : sk (CoSocket.get_read_buf c).2 = sk c.
Proof. unfold CoSocket.get_read_buf. by destruct (cread_buf c). Qed.
Lemma get_write_buf_sk (c : cosocket) : sk (CoSocket.get_write_buf c).2 = sk c.
Proof. unfold CoSocket.get_write_buf. by destruct (cwrite_buf c). Qed.

Section connection.
Context {P : Type}.
Implicit Types (ctx : Ctx P).

(** The read buffer, when there is one, is of the size the socket makes it; a
    request may have filled it up. *)
Definition read_ok (c : cosocket) : Prop :=
  ∀ b, cread_buf c = Some b → _size b = READ_BUF_MAX_SIZE ∧ zlen (_buffer b) = READ_BUF_MAX_SIZE + 1 ∧ bytes_ok (_buffer b).

(** A connection whose waits all succeed. *)
Definition talk_ok ctx : Prop :=
  conn_ok ctx ∧ read_ok (conn ctx) ∧ waits (sk (conn ctx)) = [] ∧ tx_ok (tx (sk (conn ctx))).

Lemma get_read_buf_cread (c : cosocket) : read_ok c → read_ok (CoSocket.get_read_buf c).2 ∧
  cread_buf (CoSocket.get_read_buf c).2 = Some (CoSocket.get_read_buf c).1 ∧ sk (CoSocket.get_read_buf c).2 = sk c ∧
  cwrite_buf (CoSocket.get_read_buf c).2 = cwrite_buf c.
Proof.
  unfold CoSocket.get_read_buf. destruct (cread_buf c) as [b|] eqn:E; intros H; [by split_and!|].
  split_and!; try done. intros b [= <-]. destruct (Buffer.make_wf READ_BUF_MAX_SIZE) as [Hm _]; [unfold READ_BUF_MAX_SIZE, SIZE_MAX; lia|].
  split_and!; [done|by apply Buffer.wf_mem in Hm|by apply Buffer.wf_bytes in Hm].
Qed.

Lemma conn_recv_data (c : cosocket) n d l buf len : rx (sk c) = replicate n (RxError EAGAIN) ++ RxData d :: l → waits (sk c) = [] →
  zlen d ≤ len → len ≤ zlen buf → len < 2 ^ 31 →
  ∃ s', Response.conn_recv buf len c = Ok (zlen d, d ++ drop (length d) buf, CoSocket.set_sk s' c) ∧ rx s' = l ∧ waits s' = [] ∧
    tx s' = tx (sk c) ∧ sent s' = sent (sk c).
Proof.
  intros Hr Hw Hd Hl Hlt. pose proof (zlen_nonneg d). unfold Response.conn_recv, CoSocket.recv.
  assert (Hn : length (rx (sk c)) = (n + S (length l))%nat) by (rewrite Hr, length_app, length_replicate; done).
  destruct (recv_again (S (length (rx (sk c)))) buf len n (sk c) _ Hr Hw ltac:(lia)) as (s' & H1 & H2 & H3 & H4 & ->).
  destruct (S (length (rx (sk c))) - n)%nat as [|k] eqn:Ek; [lia|]. cbn [CoSocket.recv_loop].
  unfold Socket.recv. rewrite H1. cbv zeta.
  assert (take (Z.to_nat len) d = d) as -> by (apply take_ge; unfold zlen in *; lia).
  assert (drop (Z.to_nat len) d = []) as -> by (apply drop_ge; unfold zlen in *; lia).
  rewrite mem_write_ok, outcome_bind_ok by lia. cbv zeta. rewrite i32_id by lia. rewrite (proj2 (Z.ltb_ge _ _)) by lia. cbn [andb].
  rewrite outcome_bind_ok. cbn [take app Z.to_nat]. replace (Z.to_nat (0 + zlen d)) with (length d) by (unfold zlen; lia).
  eexists. by split_and!.
Qed.

Lemma conn_recv_end (c : cosocket) n buf len : rx (sk c) = replicate n (RxError EAGAIN) → waits (sk c) = [] →
  ∃ s', Response.conn_recv buf len c = Ok (0, buf, CoSocket.set_sk s' c) ∧ rx s' = [] ∧ waits s' = [] ∧
    tx s' = tx (sk c) ∧ sent s' = sent (sk c).
Proof.
  intros Hr Hw. unfold Response.conn_recv, CoSocket.recv.
  assert (Hn : length (rx (sk c)) = n) by (by rewrite Hr, length_replicate).
  rewrite <- (app_nil_r (replicate _ _)) in Hr.
  destruct (recv_again (S (length (rx (sk c)))) buf len n (sk c) _ Hr Hw ltac:(lia)) as (s' & H1 & H2 & H3 & H4 & ->).
  destruct (S (length (rx (sk c))) - n)%nat as [|k] eqn:Ek; [lia|]. cbn [CoSocket.recv_loop].
  unfold Socket.recv. rewrite H1. cbv zeta. change (i32 0) with 0. change (0 <? 0) with false. cbn [andb].
  rewrite outcome_bind_ok. exists s'. by split_and!.
Qed.

Lemma send_response_calm ctx ret ctx' :
  Response.send_response ctx = Ok (ret, ctx') → waits (sk (conn ctx)) = [] → tx_ok (tx (sk (conn ctx))) →
  waits (sk (conn ctx')) = [] ∧ tx_ok (tx (sk (conn ctx'))) ∧ (tx (sk (conn ctx)) = [] → tx (sk (conn ctx')) = []).
Proof.
  unfold Response.send_response. pose proof (get_write_buf_sk (conn ctx)) as Hsk.
  destruct (CoSocket.get_write_buf (conn ctx)) as [b c]. cbn [snd] in Hsk. unfold Response.conn_send, CoSocket.send.
  rewrite Hsk. destruct (CoSocket.send_loop _ _ _ _ _ _ _) as [[[r s]| |]|] eqn:E; try done.
  rewrite !outcome_bind_ok. intros [= <- <-] Hw Hok. by apply send_loop_calm in E.
Qed.

Lemma status_short (r : Response) : zlen (Response.get_status_message r) ≤ 100.
Proof. unfold Response.get_status_message. repeat case_match; by vm_compute. Qed.

(** *** A connection whose waits all succeed stays one *)
Definition calm ctx : Prop := waits (sk (conn ctx)) = [] ∧ tx_ok (tx (sk (conn ctx))).

Lemma write_buf_calm f ctx ctx' : Response.with_write_buf f ctx = Ok ctx' → calm ctx → calm ctx'.
Proof.
  unfold Response.with_write_buf, calm. pose proof (get_write_buf_sk (conn ctx)) as Hsk.
  destruct (CoSocket.get_write_buf (conn ctx)) as [b c]. cbn [snd] in Hsk. intros H.
  apply outcome_bind_inv in H as (b' & _ & [= <-]). cbn [conn Parse.set_conn CoSocket.set_write_buf sk]. by rewrite Hsk.
Qed.

Lemma end_response_calm o size ctx ctx' : Response.end_response o size ctx = Ok ctx' → calm ctx → calm ctx'.
Proof.
  unfold Response.end_response, Response.clear_write_buf. intros H Hc.
  do 4 (apply outcome_bind_inv in H as (? & Hw & H); apply write_buf_calm in Hw; [|done]; clear Hc; rename Hw into Hc).
  apply outcome_bind_inv in H as ([r c] & Hs & [= <-]). destruct Hc as [Hw Ht].
  destruct (send_response_calm _ _ _ Hs Hw Ht) as (? & ? & _). by split.
Qed.

Lemma bad_request_calm text ctx ctx' : Response.send_bad_request_response text ctx = Ok ctx' → calm ctx → calm ctx'.
Proof. unfold Response.send_bad_request_response. intros (b & _ & H)%outcome_bind_inv Hc. by apply end_response_calm in H. Qed.

Lemma check_calm key ctx ok ctx' :
  Response.check_websocket_upgrade key ctx = Ok (ok, ctx') → calm ctx → calm ctx'.
Proof.
  unfold Response.check_websocket_upgrade.
  repeat match goal with |- context [if ?b then _ else _] => destruct b end; intros H Hc;
    try (apply outcome_bind_inv in H as (c & H & E); injection E as <- <-; by eapply bad_request_calm);
    by injection H as <- <-.
Qed.

Lemma upgrade_calm SHA1 j3 j4 ctx ok ctx' : Response.upgrade SHA1 j3 j4 ctx = Ok (ok, ctx') → calm ctx → calm ctx'.
Proof.
  unfold Response.upgrade. intros H Hc. apply outcome_bind_inv in H as ([ok1 c1] & H1 & H).
  apply check_calm in H1; [|done]. destruct ok1; cbn [negb] in H; [|by injection H as _ <-].
  apply outcome_bind_inv in H as (a & _ & H). apply outcome_bind_inv in H as (c2 & H2 & [= _ <-]).
  by apply end_response_calm in H2.
Qed.

(** An answer of a connection in order leaves it in order. *)
Lemma answer_talk ctx ctx' : talk_ok ctx → keeps_conn ctx ctx' → calm ctx' → talk_ok ctx'.
Proof.
  intros (_ & Hr & _) (Hok & _ & _ & Hb) [Hw Ht]. split; [done|]. split; [|by split].
  unfold read_ok. by rewrite Hb.
Qed.

Lemma talk_calm ctx : talk_ok ctx → calm ctx.
Proof. by intros (_ & _ & ? & ?). Qed.

(** [end] with a short answer. *)
Lemma end_talk o size ctx :
  (∀ d, o = Some d → Buffer.wf d) → talk_ok ctx → headers_ok (response ctx) →
  zlen (wire_image o size (response ctx) (keep_alive ctx)) ≤ WRITE_BUF_MAX_SIZE →
  ∃ ctx', Response.end_response o size ctx = Ok ctx' ∧ keeps_conn ctx ctx' ∧ talk_ok ctx' ∧ keep_alive ctx' = keep_alive ctx.
Proof.
  intros Ho Ht Hh Hfit. pose proof Ht as (Hok & _ & _ & Htx).
  pose proof (end_response_ok o size ctx Ho Hok Hh Htx) as H. unfold WRITE_BUF_MAX_SIZE in *. specialize (H ltac:(lia)).
  cbv zeta in H. rewrite (proj2 (Z.ltb_ge _ _)) in H by done.
  destruct H as (ctx' & H & (S1 & _ & _ & S4 & S5 & S6) & _ & Hr). exists ctx'. split; [done|].
  assert (Hk : keeps_conn ctx ctx') by by split_and!. split; [done|]. split; [|done].
  eapply answer_talk; [done..|]. eapply end_response_calm; [done|by apply talk_calm].
Qed.

(** The head of an answer without headers and body is short, whatever length it
    announces. *)
Lemma to_string_short z : - 2 ^ 31 ≤ z < 2 ^ 31 → zlen (to_string z) ≤ 11.
Proof.
  intros Hz. destruct (Z.le_gt_cases 0 z) as [Hp|Hn].
  - etrans; [apply (LogFacts.to_string_length 10 z); [lia|]|lia]. change (10 ^ Z.of_nat 10) with 10000000000. lia.
  - destruct z as [|p|p]; [lia..|]. change (to_string (Zneg p)) with (45 :: to_string (Zpos p)).
    rewrite zlen_cons. pose proof (LogFacts.to_string_length 10 (Zpos p) ltac:(lia)) as H.
    change (10 ^ Z.of_nat 10) with 10000000000 in H. specialize (H ltac:(lia)). lia.
Qed.

Lemma head_short size ctx :
  res_header (response ctx) = [] → zlen (wire_image None size (response ctx) (keep_alive ctx)) ≤ WRITE_BUF_MAX_SIZE.
Proof.
  intros Hh. unfold wire_image, HttpSpec.render. rewrite Hh, !zlen_app.
  pose proof (status_short (response ctx)). pose proof (to_string_short (announced None size)) as Hn.
  unfold announced in *. pose proof (i32_bound size). specialize (Hn ltac:(lia)).
  generalize dependent (zlen (to_string (i32 size))). generalize dependent (zlen (Response.get_status_message (response ctx))).
  intros a Ha b Hb.
  destruct (keep_alive ctx); repeat match goal with |- context [zlen ?l] => let z := eval vm_compute in (zlen l) in change (zlen l) with z end;
    unfold WRITE_BUF_MAX_SIZE; lia.
Qed.

Lemma end_head_talk size ctx : talk_ok ctx → res_header (response ctx) = [] →
  ∃ ctx', Response.end_response None size ctx = Ok ctx' ∧ keeps_conn ctx ctx' ∧ talk_ok ctx' ∧ keep_alive ctx' = keep_alive ctx.
Proof.
  intros Ht Hh. apply end_talk; [done|done| |by apply head_short]. unfold headers_ok. rewrite Hh. constructor.
Qed.
End connection.
End CalmFacts.

(** ** Complete requests

    What the parser may say of a read for the request in it to be handled: all
    it points at lies in the read, a value comes behind its name, and there is
    a path. *)
Module Orderly.

Definition in_data (n a k : Z) : bool := (0 <=? a) && (0 <=? k) && (a + k <=? n).

Fixpoint well_formed (n : Z) (named : bool) (cbs : list callback) : bool :=
  match cbs with
  | [] => true
  | OnUrl a k :: cbs | OnBody a k :: cbs => in_data n a k && well_formed n named cbs
  | OnHeaderField a k :: cbs => in_data n a k && well_formed n true cbs
  | OnHeaderValue a k :: cbs => named && in_data n a k && well_formed n named cbs
  | _ :: cbs => well_formed n named cbs
  end.

Definition has_url (cbs : list callback) : bool :=
  existsb (λ cb, match cb with OnUrl _ _ => true | _ => false end) cbs.

Definition complete_request (d : bytes) (cbs : list callback) : Prop :=
  well_formed (zlen d) false cbs = true ∧ has_url cbs = true.

(** The values of the headers are bytes. *)
Definition headers_typed (r : Request) : Prop := Forall (λ x, bytes_ok x.2) (req_header r).

Lemma assign_values {V} (Q : V → Prop) k v (m : stdmap V) :
  Q v → Forall (λ x, Q x.2) m → Forall (λ x, Q x.2) (StdMap.assign k v m).
Proof.
  intros Hv. induction 1 as [|[k' v'] m Hx Hm IH]; cbn [StdMap.assign]; [by constructor|].
  repeat case_match; repeat apply Forall_cons_2; done.
Qed.

Lemma get_header_bytes name r : headers_typed r → bytes_ok (Request.get_header name r).
Proof.
  unfold headers_typed, Request.get_header. induction 1 as [|[k v] m Hx Hm IH]; [constructor|].
  cbn [StdMap.find]. repeat case_match; simplify_eq; try done; constructor.
Qed.

Lemma in_data_read buf n a k :
  in_data n a k = true → n ≤ zlen buf → mem_read buf a k = Ok (take (Z.to_nat k) (drop (Z.to_nat a) buf)).
Proof. unfold in_data. intros H Hn. zify_bools. apply mem_read_ok; lia. Qed.

Lemma c_str_some p : ∃ q, c_str (p ++ [0]) = Ok q.
Proof.
  induction p as [|c p [q IH]]; [by exists []|]. cbn [app c_str]. destruct (c =? 0); [by exists []|].
  rewrite IH. by exists (c :: q).
Qed.

Section parse.
Context {P : Type}.
Implicit Types (ctx : Ctx P).

Definition has_path ctx : Prop := ∃ p, path (request ctx) = Some (p ++ [0]).
Definition name_ok (n : Z) (named : bool) ctx : Prop :=
  named = true → ∃ a, current_header_name ctx = Some a ∧ in_data n a (current_header_name_len ctx) = true.

Lemma run_callback_well_formed buf n cb cbs named ctx :
  bytes_ok buf → n ≤ zlen buf → well_formed n named (cb :: cbs) = true → name_ok n named ctx →
  headers_typed (request ctx) →
  ∃ ctx' named', Parse.run_callback buf cb ctx = Ok ctx' ∧ well_formed n named' cbs = true ∧ name_ok n named' ctx' ∧
    headers_typed (request ctx') ∧ conn ctx' = conn ctx ∧ parser ctx' = parser ctx ∧ response ctx' = response ctx ∧
    (has_url [cb] = true ∨ has_path ctx → has_path ctx').
Proof.
  intros Hb Hn Hwf Hname Hh. unfold has_path.
  destruct cb as [|a k|a k|a k|a k|ma mi m kp|a k|]; cbn [well_formed] in Hwf; cbn [Parse.run_callback has_url existsb orb].
  - exists ctx, named. split_and!; try done. by intros [?|?].
  - apply andb_true_iff in Hwf as [Hi Hwf]. unfold Parse.http_request_on_url, Parse.copy_string.
    rewrite (in_data_read buf n) by done. rewrite !outcome_bind_ok. eexists _, named. split; [reflexivity|].
    split_and!; try done. intros _. by eexists.
  - exists ctx, named. split_and!; try done. by intros [?|?].
  - apply andb_true_iff in Hwf as [Hi Hwf]. eexists _, true. split; [reflexivity|].
    split_and!; try done; [intros _; by eexists|by intros [?|?]].
  - apply andb_true_iff in Hwf as [[Hnm Hi]%andb_true_iff Hwf]. unfold Parse.http_request_on_header_value.
    destruct (Hname Hnm) as (o & -> & Ho). rewrite !(in_data_read buf n), !outcome_bind_ok by done.
    eexists _, named. split; [reflexivity|]. split_and!; try done; [|by intros [?|?]].
    apply (assign_values bytes_ok); [|done]. by apply Forall_take, Forall_drop.
  - exists (Parse.http_request_on_headers_complete ma mi m kp ctx), named. split; [done|].
    unfold Parse.http_request_on_headers_complete, Parse.set_http_method, name_ok in *.
    destruct (m =? HTTP_GET), (m =? HTTP_POST); split_and!; try done; by intros [?|?].
  - apply andb_true_iff in Hwf as [Hi Hwf]. unfold Parse.http_request_on_body, Parse.copy_string.
    rewrite (in_data_read buf n) by done. rewrite !outcome_bind_ok. eexists _, named. split; [reflexivity|].
    split_and!; try done. by intros [?|?].
  - exists ctx, named. split_and!; try done. by intros [?|?].
Qed.

Lemma run_well_formed buf n cbs : bytes_ok buf → n ≤ zlen buf → ∀ named ctx,
  well_formed n named cbs = true → name_ok n named ctx → headers_typed (request ctx) →
  ∃ ctx', Parse.run_callbacks buf cbs ctx = Ok ctx' ∧ headers_typed (request ctx') ∧ conn ctx' = conn ctx ∧
    parser ctx' = parser ctx ∧ response ctx' = response ctx ∧ (has_url cbs = true ∨ has_path ctx → has_path ctx').
Proof.
  intros Hb Hn. induction cbs as [|cb cbs IH]; intros named ctx Hwf Hname Hh.
  - exists ctx. split_and!; try done. by intros [?|?].
  - destruct (run_callback_well_formed buf n cb cbs named ctx Hb Hn Hwf Hname Hh)
      as (c1 & named' & Hr & Hwf' & Hname' & Hh' & Hc1 & Hp1 & Hr1 & Hu1).
    destruct (IH named' c1 Hwf' Hname' Hh') as (c2 & Hr2 & Hh2 & Hc2 & Hp2 & Hrs2 & Hu2).
    exists c2. cbn [Parse.run_callbacks]. rewrite Hr, outcome_bind_ok. split_and!; try done; [congruence..|].
    intros H. apply Hu2. destruct H as [H|H]; [|by right; apply Hu1; right].
    cbn [has_url existsb] in H. apply orb_true_iff in H as [H|H]; [right; apply Hu1; left|by left].
    cbn [has_url existsb]. by rewrite H.
Qed.
End parse.
End Orderly.
