(* ===== verification/HttpServer.v ===== *)
(** * HttpServer: the server, its routes and its connection loop
    (include/coroutine_http_server.h, src/coroutine/http/server.cc,
    src/coroutine/server.cc)

    The file system and the HTTP parser are parameters; a handler is a function
    on the context of its connection, as the request and the response it gets
    point into it. *)

From S2P Require Import Prelude Words CString Buffer StdMap Base64 WebsocketFrame CoSocket Http HttpCalm.
From stdpp Require Import gmap sorting.
#[local] Open Scope Z_scope.

(** ** Routes *)

Module Routes.
Section routes.
Context {H : Type}.

(** A handler may be the null pointer. *)
Implicit Types (handlers : stdmap (option H)).

Definition set_handler (pattern : bytes) (fn : option H) handlers : stdmap (option H) :=
  StdMap.assign pattern fn handlers.

(** The condition of the loop of [get_handler]. *)
Definition matches (first pattern : bytes) : bool :=
  (strncasecmp (length first) (first ++ [0]) (pattern ++ [0]) =? 0) && (zlen first =? zlen pattern).

Fixpoint get_handler (pattern : bytes) handlers : option H :=
  match handlers with
  | [] => None
  | (first, fn) :: handlers => if matches first pattern then fn else get_handler pattern handlers
  end.

End routes.
End Routes.

(** ** The server *)
Record server (H : Type) := mkServer {
  settings : stdmap bytes;
  http_handlers : stdmap (option H);
  websocket_handlers : stdmap (option H);
  running : bool
}.
Arguments mkServer {H} _ _ _ _.
Arguments settings {H} _.
Arguments http_handlers {H} _.
Arguments websocket_handlers {H} _.
Arguments running {H} _.

Module Server.

Section ops.
Context {H : Type}.
Implicit Types (s : server H).

Definition set_http_handler (pattern : bytes) (fn : option H) s : server H :=
  mkServer (settings s) (Routes.set_handler pattern fn (http_handlers s)) (websocket_handlers s) (running s).
Definition set_websocket_handler (pattern : bytes) (fn : option H) s : server H :=
  mkServer (settings s) (http_handlers s) (Routes.set_handler pattern fn (websocket_handlers s)) (running s).
Definition get_http_handler (pattern : bytes) s : option H := Routes.get_handler pattern (http_handlers s).
Definition get_websocket_handler (pattern : bytes) s : option H := Routes.get_handler pattern (websocket_handlers s).
Definition shutdown s : bool * server H :=
  (true, mkServer (settings s) (http_handlers s) (websocket_handlers s) false).

(** [stat] of the file system. *)
Variable stat : bytes → Z.

Definition get_document_absolute_path (relative_path : bytes) s : bytes :=
  match StdMap.find (str "document_root") (settings s) with
  | None => []
  | Some root =>
      let absolute_path := root ++ relative_path in
      if stat absolute_path <? 0 then [] else absolute_path
  end.

End ops.

(** The constructor: the results of [set_option], [bind] and [listen]; it
    returns early, without telling the caller. *)
Definition make (reused bound listened : bool) (c : cosocket) : cosocket :=
  let '(_, c) := CoSocket.checked reused c in
  let '(ok, c) := CoSocket.checked bound c in
  if negb ok then c else (CoSocket.checked listened c).2.

(** The loop of [start()]. [runs] is what [running] holds each time it is
    read; the list of the descriptors a handler was created for comes with the
    result, and [None] means that it still serves. *)
Fixpoint start_loop (runs : list bool) (s : sock) : list Z * option bool * sock :=
  match runs with
  | [] => ([], None, s)
  | false :: _ => ([], Some true, s)
  | true :: runs =>
      match CoSocket.accept (S (length (calls s))) s with
      | None => ([], None, s)
      | Some (connfd, s) =>
          let '(fds, r, s) := start_loop runs s in (connfd :: fds, r, s)
      end
  end.

(** [start()] sets [running] before it reads it. *)
Definition start (later : list bool) (s : sock) : list Z * option bool * sock := start_loop (true :: later) s.

(** ** A connection *)
Section connection.
Context {P : Type}.
Implicit Types (ctx : Ctx P).

Definition handler := Ctx P → outcome (Ctx P).
Implicit Types (s : server handler).

Variable http_parser_execute : P → bytes → P * list callback.
Variable SHA1 : bytes → bytes.
Variables (j3 j4 : bytes).

(** [stat] and the contents of the files that can be opened; [junk] is what the
    uninitialised [stat_buf] holds. *)
Variable stat : bytes → Z.
Variable open_file : bytes → option bytes.
Variable junk : Z.

(** [call_http_handler]; the result says whether to go on. *)
Definition call_http_handler (h : handler) ctx : outcome (bool * Ctx P) :=
  if Request.has_sec_websocket_key (request ctx) then
    ctx ← Response.send_bad_request_response (str "no support websocket") ctx; Ok (false, ctx)
  else ctx ← h ctx; Ok (true, ctx).

Definition call_websocket_handler (h : handler) ctx : outcome (bool * Ctx P) :=
  '(ok, ctx) ← Response.upgrade SHA1 j3 j4 ctx;
  if negb ok then Ok (false, ctx) else ctx ← h ctx; Ok (true, ctx).

(** [sendfile] of the kernel: it takes bytes the way [send] does. *)
Definition sendfile (data : bytes) (count : Z) (s : sock) : sock :=
  let data := take (Z.to_nat count) data in
  match tx s with
  | [] => set_tx [] data s
  | TxAccept n :: l => set_tx l (take (Z.to_nat n) data) s
  | TxError e :: l => set_errno e (set_tx l [] s)
  end.

Definition serve_file (static_file : bytes) ctx : outcome (Ctx P) :=
  match open_file static_file with
  | Some data =>
      ctx ← Response.end_response None (zlen data) ctx;
      Ok (Parse.set_conn (CoSocket.set_sk (sendfile data (zlen data) (sk (conn ctx))) (conn ctx)) ctx)
  | None => Response.end_response None junk ctx
  end.

(** The body of the loop after [recv]. [string path(ctx->request->path)] of a
    null pointer is undefined. *)
Definition handle_request s (recved : Z) ctx : outcome (bool * Ctx P) :=
  ctx ← Parse.parse http_parser_execute recved ctx;
  path ← match path (request ctx) with None => UB | Some p => c_str p end;
  let static_file := get_document_absolute_path stat path s in
  '(go, ctx) ←
    (if negb (bool_decide (static_file = [])) then ctx ← serve_file static_file ctx; Ok (true, ctx)
     else match get_http_handler path s with
     | Some h => call_http_handler h ctx
     | None =>
         match get_websocket_handler path s with
         | Some h => call_websocket_handler h ctx
         | None => ctx ← Response.send_not_found_response ctx; Ok (true, ctx)
         end
     end);
  if negb go then Ok (false, ctx)
  else if negb (keep_alive ctx) then Ok (false, ctx)
  else Ok (true, Context.clear ctx).

(** [recved = conn->recv(conn->get_read_buf()->c_buffer(), READ_BUF_MAX_SIZE)] *)
Definition recv_request ctx : outcome (Z * Ctx P) :=
  let '(b, c) := CoSocket.get_read_buf (conn ctx) in
  '(recved, mem, c) ← Response.conn_recv (_buffer b) READ_BUF_MAX_SIZE c;
  Ok (recved, Parse.set_conn (CoSocket.set_read_buf (mkBuffer (_size b) (_length b) mem) c) ctx).

Fixpoint on_accept_loop (fuel : nat) s ctx : option (outcome (Ctx P)) :=
  match fuel with
  | O => None
  | S fuel =>
      match recv_request ctx with
      | Ok (recved, ctx) =>
          if recved =? 0 then Some (Ok ctx)
          else match handle_request s recved ctx with
               | Ok (true, ctx) => on_accept_loop fuel s ctx
               | Ok (false, ctx) => Some (Ok ctx)
               | Exit => Some Exit
               | UB => Some UB
               end
      | Exit => Some Exit
      | UB => Some UB
      end
  end.

(** [on_accept(conn)]: the loop on a fresh context, then, as the deferred task
    of the coroutine, its destructor. *)
Definition on_accept (fuel : nat) (shutdown_result : Z) s (c : cosocket) (p0 : P) (req : Request) (res : Response)
    (name : option Z) (n : Z) (k : bool) : option (outcome cosocket) :=
  match on_accept_loop fuel s (Context.make c p0 req res name n k) with
  | Some (Ok ctx) => Context.destroy fuel shutdown_result ctx
  | Some Exit => Some Exit
  | Some UB => Some UB
  | None => None
  end.

End connection.
End Server.

(** ** The plain server ([fsw::coroutine::Server])

    Its constructor and its loop are those of the HTTP server; it hands each
    connection to its one handler. *)
Record tcp_server (H : Type) := mkTcpServer { tcp_handler : option H; tcp_running : bool }.
Arguments mkTcpServer {H} _ _.
Arguments tcp_handler {H} _.
Arguments tcp_running {H} _.

Module TcpServer.
Section ops.
Context {H : Type}.
Implicit Types (s : tcp_server H).

Definition make := Server.make.
Definition start := Server.start.
Definition shutdown s : bool * tcp_server H := (true, mkTcpServer (tcp_handler s) false).
Definition set_handler (fn : option H) s : tcp_server H := mkTcpServer fn (tcp_running s).
Definition get_handler s : option H := tcp_handler s.

End ops.
End TcpServer.

(** ** Routing ignores the case and nothing else *)
Module RouteFacts.
Import Routes.

Lemma matches_spec f p : 0 ∉ p → matches f p = true ↔ lowercase f = lowercase p.
Proof.
  intros Hp. unfold matches. rewrite andb_true_iff, !Z.eqb_eq. split.
  - intros [H1 H2]. apply CStringFacts.strncasecmp_spec; [unfold zlen in H2; lia|done|done].
  - intros H. assert (Hl : length f = length p).
    { apply (f_equal length) in H. unfold lowercase in H. by rewrite !length_fmap in H. }
    split; [by apply CStringFacts.strncasecmp_spec|]. unfold zlen. lia.
Qed.

Section routes.
Context {H : Type}.
Implicit Types (handlers : stdmap (option H)).

Lemma get_handler_inv p handlers h :
  StdMap.ordered handlers → get_handler p handlers = Some h →
  ∃ k, (k, Some h) ∈ handlers ∧ matches k p = true ∧
       ∀ k' fn, (k', fn) ∈ handlers → matches k' p = true → string_lt k' k = false.
Proof.
  induction 1 as [|[f fn] l Hl IH Hk]; cbn [get_handler]; [done|]. rewrite Forall_forall in Hk.
  destruct (matches f p) eqn:E.
  - intros ->. exists f. split_and!; [by left|done|]. intros k' fn' [[= -> ->]|Hin]%elem_of_cons _.
    + apply StdMap.string_lt_irrefl.
    + apply StdMap.string_lt_asym. exact (Hk _ Hin).
  - intros Hg. destruct (IH Hg) as (k & Hin & Hm & Hmin). exists k. split_and!; [by right|done|].
    intros k' fn' [[= -> ->]|Hin']%elem_of_cons Hm'; [congruence|]. by eapply Hmin.
Qed.

Lemma get_handler_first p handlers k fn :
  StdMap.ordered handlers → (k, fn) ∈ handlers → matches k p = true →
  (∀ k' fn', (k', fn') ∈ handlers → matches k' p = true → string_lt k' k = false) →
  get_handler p handlers = fn.
Proof.
  induction 1 as [|[f fn0] l Hl IH Hk]; intros Hin Hm Hmin; [by apply elem_of_nil in Hin|].
  cbn [get_handler]. rewrite Forall_forall in Hk. apply elem_of_cons in Hin as [[= -> ->]|Hin]; [by rewrite Hm|].
  destruct (matches f p) eqn:E.
  - pose proof (Hmin f fn0 ltac:(by left) E) as H1. pose proof (Hk _ Hin) as H2. unfold StdMap.before in H2.
    cbn in H2. congruence.
  - apply IH; [done|done|]. intros k' fn' Hin' Hm'. apply (Hmin k' fn'); [by right|done].
Qed.

End routes.
End RouteFacts.

(** ** Properties *)
Section route_properties.
Context {H : Type}.
Implicit Types (handlers : stdmap (option H)).

(** Routing. On a path (which holds no terminator), [get_handler] returns
    a handler exactly when one is registered under a pattern that is the path
    up to the case of the letters; of several such patterns the first in the
    order of the map wins. *)
Theorem get_handler_exact (pattern : bytes) handlers (h : H) :
  StdMap.ordered handlers → 0 ∉ pattern →
  Routes.get_handler pattern handlers = Some h ↔
    ∃ k, StdMap.find k handlers = Some (Some h) ∧ lowercase k = lowercase pattern ∧
      ∀ k', string_lt k' k = true → lowercase k' = lowercase pattern → StdMap.find k' handlers = None.
Proof.
  intros Ho Hp. split.
  - intros Hg. destruct (RouteFacts.get_handler_inv _ _ _ Ho Hg) as (k & Hin & Hm & Hmin). exists k.
    split; [by apply StdMap.find_in|]. split; [by apply RouteFacts.matches_spec|]. intros k' Hlt Hk'.
    destruct (StdMap.find k' handlers) as [fn|] eqn:E; [|done]. apply StdMap.find_in in E; [|done].
    rewrite (Hmin k' fn E) in Hlt; [done|]. by apply RouteFacts.matches_spec.
  - intros (k & Hf & Hk & Hmin). apply (RouteFacts.get_handler_first _ _ k).
    + done.
    + by apply StdMap.find_in.
    + by apply RouteFacts.matches_spec.
    + intros k' fn Hin Hm. apply RouteFacts.matches_spec in Hm; [|done].
      destruct (string_lt k' k) eqn:E; [|done]. pose proof (Hmin k' E Hm) as Hn.
      apply StdMap.find_in in Hin; [|done]. congruence.
Qed.

(** Registration. A pattern that no other registered one equals up to the
    case is found under any spelling of it; paths that differ from it by more
    than the case are routed as before. *)
Theorem set_handler_get_handler (pattern path : bytes) (h : H) handlers :
  StdMap.ordered handlers → 0 ∉ path →
  let handlers' := Routes.set_handler pattern (Some h) handlers in
  (lowercase path = lowercase pattern →
   (∀ k fn, StdMap.find k handlers = Some fn → lowercase k = lowercase pattern → k = pattern) →
   Routes.get_handler path handlers' = Some h) ∧
  (lowercase path ≠ lowercase pattern → Routes.get_handler path handlers' = Routes.get_handler path handlers).
Proof.
  intros Ho Hp. cbv zeta. unfold Routes.set_handler.
  pose proof (StdMap.assign_ordered pattern (Some h) handlers Ho) as Ho'. split.
  - intros Heq Huniq. apply (RouteFacts.get_handler_first _ _ pattern); [done| | |].
    + apply StdMap.find_in; [done|]. by apply StdMap.find_assign_eq.
    + by apply RouteFacts.matches_spec.
    + intros k fn Hin Hm. apply RouteFacts.matches_spec in Hm; [|done]. apply StdMap.find_in in Hin; [|done].
      destruct (decide (pattern = k)) as [<-|Hne]; [apply StdMap.string_lt_irrefl|].
      rewrite StdMap.find_assign_ne in Hin by done. destruct Hne. symmetry. eapply Huniq; [done|congruence].
  - intros Hne.
    assert (Hm : Routes.matches pattern path = false).
    { destruct (Routes.matches pattern path) eqn:E; [|done]. apply RouteFacts.matches_spec in E; [congruence|done]. }
    clear Ho Ho'. induction handlers as [|[k fn] l IH]; cbn [StdMap.assign Routes.get_handler]; [by rewrite Hm|].
    destruct (string_lt pattern k) eqn:E1; [|destruct (string_lt k pattern) eqn:E2]; cbn [Routes.get_handler].
    + by rewrite Hm.
    + by rewrite IH.
    + assert (pattern = k) as <- by (by apply StdMap.string_lt_total). by rewrite Hm.
Qed.
End route_properties.

Definition site : stdmap (option Z) :=
  StdMap.assign_all [(str "/Index", Some 1); (str "/about", Some 2)] [].

Lemma get_handler_exact_witness : Routes.get_handler (str "/INDEX") site = Some 1.
Proof.
  apply (get_handler_exact (str "/INDEX") site 1).
  - apply StdMap.assign_all_ordered. constructor.
  - intros Hin. vm_compute in Hin. repeat (apply elem_of_cons in Hin as [Hin|Hin]; [done|]). by apply elem_of_nil in Hin.
  - exists (str "/Index"). split; [vm_compute; reflexivity|]. split; [vm_compute; reflexivity|].
    intros k' Hlt Hk. destruct (StdMap.find k' site) as [fn|] eqn:E; [|reflexivity].
    assert (Ho : StdMap.ordered site) by (apply StdMap.assign_all_ordered; constructor).
    apply StdMap.find_in in E; [|exact Ho].
    apply elem_of_cons in E as [E|E]; [|apply elem_of_cons in E as [E|E]; [|by apply elem_of_nil in E]];
      injection E as -> ->; vm_compute in Hlt, Hk; congruence.
Defined.

Lemma set_handler_get_handler_witness :
  Routes.get_handler (str "/Chat") (Routes.set_handler (str "/chat") (Some 3) site) = Some 3.
Proof.
  assert (Ho : StdMap.ordered site) by (apply StdMap.assign_all_ordered; constructor).
  apply (set_handler_get_handler (str "/chat") (str "/Chat") 3 site Ho).
  - intros Hin. vm_compute in Hin. repeat (apply elem_of_cons in Hin as [Hin|Hin]; [done|]). by apply elem_of_nil in Hin.
  - reflexivity.
  - intros k fn E Hk. apply StdMap.find_in in E; [|exact Ho].
    apply elem_of_cons in E as [E|E]; [|apply elem_of_cons in E as [E|E]; [|by apply elem_of_nil in E]];
      injection E as -> ->; vm_compute in Hk; congruence.
Defined.

(** ** What is left to receive

    Everything the connection loop does takes from the answers of [recv] or
    leaves them as they are. *)
Module ReceiveFacts.
Import CalmFacts.

Fixpoint rx_size (l : list rx_answer) : nat :=
  match l with
  | [] => 0
  | RxData d :: l => S (length d) + rx_size l
  | RxError _ :: l => S (rx_size l)
  end.

Lemma rx_size_length l : (length l ≤ rx_size l)%nat.
Proof. induction l as [|[d|e] l IH]; cbn; lia. Qed.

Lemma recv_loop_size len : 0 < len < 2 ^ 31 → ∀ fuel s buf off,
  (length (rx s) < fuel)%nat →
  match CoSocket.recv_loop i32 fuel s buf off len with
  | None => False
  | Some (Ok (ret, _, s')) => (rx_size (rx s') ≤ rx_size (rx s))%nat ∧ (ret ≠ 0 → (rx_size (rx s') < rx_size (rx s))%nat)
  | Some _ => True
  end.
Proof.
  intros Hlen. induction fuel as [|fuel IH]; intros s buf off Hf; [lia|].
  cbn [CoSocket.recv_loop]. unfold Socket.recv. destruct (rx s) as [|[d|e] l] eqn:Erx.
  - cbv zeta. change (i32 0 <? 0) with false. cbn [andb]. rewrite Erx. split; [lia|done].
  - destruct (mem_write _ _ _) as [m| |] eqn:Ew; [|exact I..]. rewrite outcome_bind_ok. cbv zeta.
    assert (Hg : zlen (take (Z.to_nat len) d) = Z.min len (zlen d)) by (apply CoSocketFacts.zlen_take_le; lia).
    pose proof (zlen_nonneg d). rewrite i32_id by lia. rewrite (proj2 (Z.ltb_ge _ _)) by lia. cbn [andb rx set_rx].
    rewrite Hg. destruct (drop (Z.to_nat len) d) as [|x rest] eqn:Ed; cbn [rx_size].
    + split; [lia|]. intros _. lia.
    + apply (f_equal length) in Ed. rewrite length_drop in Ed. unfold zlen in *. cbn [length] in *. split; lia.
  - cbv zeta. change (i32 (-1)) with (-1). change (-1 <? 0) with true. cbn [andb errno set_errno set_rx].
    destruct (e =? EAGAIN); [|cbn [rx set_errno set_rx rx_size]; split; lia].
    unfold CoSocket.wait_event. cbn [waits set_errno set_rx].
    assert (Hgo : ∀ ws, match CoSocket.recv_loop i32 fuel (set_waits ws FSW_EVENT_READ (set_errno e (set_rx l s))) buf off len with
      | None => False
      | Some (Ok (ret, _, s')) => (rx_size (rx s') ≤ rx_size (RxError e :: l))%nat ∧
          (ret ≠ 0 → (rx_size (rx s') < rx_size (RxError e :: l))%nat)
      | Some _ => True
      end).
    { intros ws. specialize (IH (set_waits ws FSW_EVENT_READ (set_errno e (set_rx l s))) buf off).
      cbn [rx set_waits set_errno set_rx] in IH. cbn [length] in Hf. specialize (IH ltac:(lia)).
      destruct (CoSocket.recv_loop _ _ _ _ _ _) as [[[[ret m] s']| |]|]; try done. cbn [rx_size]. split; [|intros _]; lia. }
    destruct (waits s) as [|[] ws]; [apply Hgo|apply Hgo|]. cbn [rx set_waits set_errno set_rx rx_size]. split; lia.
Qed.

Section context.
Context {P : Type}.
Implicit Types (ctx : Ctx P).

Definition left ctx : nat := rx_size (rx (sk (conn ctx))).

Lemma recv_request_left ctx recved ctx' :
  Server.recv_request ctx = Ok (recved, ctx') →
  (left ctx' ≤ left ctx)%nat ∧ (recved ≠ 0 → (left ctx' < left ctx)%nat) ∧ cread_buf (conn ctx') ≠ None.
Proof.
  unfold Server.recv_request, left. pose proof (get_read_buf_sk (conn ctx)) as Hsk.
  destruct (CoSocket.get_read_buf (conn ctx)) as [b c]. cbn [snd] in Hsk.
  unfold Response.conn_recv, CoSocket.recv. rewrite Hsk.
  pose proof (recv_loop_size READ_BUF_MAX_SIZE ltac:(done) (S (length (rx (sk (conn ctx))))) (sk (conn ctx)) (_buffer b) 0
    ltac:(lia)) as H.
  destruct (CoSocket.recv_loop _ _ _ _ _ _) as [[[[ret m] s']| |]|]; try done.
  rewrite outcome_bind_ok. cbv beta iota. rewrite outcome_bind_ok. intros [= <- <-].
  cbn [conn Parse.set_conn sk CoSocket.set_read_buf CoSocket.set_sk cread_buf]. destruct H. by split_and!.
Qed.

(** The bind of two steps that keep the receive side. *)
Definition keeps (F : Ctx P → outcome (Ctx P)) : Prop :=
  ∀ ctx ctx', F ctx = Ok ctx' → rx (sk (conn ctx')) = rx (sk (conn ctx)) ∧
    (cread_buf (conn ctx) ≠ None → cread_buf (conn ctx') ≠ None).

Lemma keeps_bind F G : keeps F → keeps G → keeps (λ ctx, ctx ← F ctx; G ctx).
Proof.
  intros HF HG ctx ctx' H. apply outcome_bind_inv in H as (c1 & H1 & H2).
  apply HF in H1 as [E1 R1]. apply HG in H2 as [E2 R2]. split; [congruence|auto].
Qed.

Lemma keeps_write f : keeps (Response.with_write_buf f).
Proof.
  intros ctx ctx' H. unfold Response.with_write_buf in H. pose proof (get_write_buf_sk (conn ctx)) as Hsk.
  assert (Hr : cread_buf (CoSocket.get_write_buf (conn ctx)).2 = cread_buf (conn ctx)).
  { unfold CoSocket.get_write_buf. by destruct (cwrite_buf (conn ctx)). }
  destruct (CoSocket.get_write_buf (conn ctx)) as [b c]. cbn [snd] in *.
  apply outcome_bind_inv in H as (b' & _ & H). injection H as <-. cbn. rewrite Hsk, Hr. done.
Qed.

Lemma keeps_send : keeps (λ ctx, '(_, ctx) ← Response.send_response ctx; Ok ctx).
Proof.
  intros ctx ctx' H. apply outcome_bind_inv in H as ([ret c1] & H & E). injection E as <-.
  unfold Response.send_response in H. pose proof (get_write_buf_sk (conn ctx)) as Hsk.
  assert (Hr : cread_buf (CoSocket.get_write_buf (conn ctx)).2 = cread_buf (conn ctx)).
  { unfold CoSocket.get_write_buf. by destruct (cwrite_buf (conn ctx)). }
  destruct (CoSocket.get_write_buf (conn ctx)) as [b c]. cbn [snd] in *.
  apply outcome_bind_inv in H as ([r c2] & H & E). injection E as <- <-.
  unfold Response.conn_send, CoSocket.send in H.
  destruct (CoSocket.send_loop _ _ _ _ _ _ _) as [o|] eqn:Es; [|done].
  apply outcome_bind_inv in H as ([r2 s2] & -> & E). injection E as <- <-.
  apply CoSocketFacts.send_loop_rx in Es. cbn. rewrite Es, Hsk, Hr. done.
Qed.

Lemma keeps_end o size : keeps (Response.end_response o size).
Proof.
  unfold Response.end_response, Response.clear_write_buf, Response.build_http_status_line,
    Response.build_http_header, Response.build_http_body.
  apply keeps_bind; [apply keeps_write|].
  apply (keeps_bind (λ c, Response.with_write_buf _ c)); [intros ctx; apply keeps_write|].
  apply (keeps_bind (λ c, Response.with_write_buf _ c)); [intros ctx; apply keeps_write|].
  apply keeps_bind; [apply keeps_write|apply keeps_send].
Qed.

End context.
End ReceiveFacts.

Module ConnectionFacts.
Import CalmFacts ReceiveFacts Server.
Section connection.
Context {P : Type}.
Implicit Types (ctx : Ctx P).

(** Nothing is left to receive that was not before, and the read buffer stays. *)
Definition shrinks ctx ctx' : Prop :=
  (left ctx' ≤ left ctx)%nat ∧ (cread_buf (conn ctx) ≠ None → cread_buf (conn ctx') ≠ None).

#[local] Instance shrinks_refl : Reflexive shrinks.
Proof. intros ctx. by split. Qed.
#[local] Instance shrinks_trans : Transitive shrinks.
Proof. intros a b c [H1 R1] [H2 R2]. split; [lia|auto]. Qed.

Lemma shrinks_same ctx ctx' : conn ctx' = conn ctx → shrinks ctx ctx'.
Proof. intros E. unfold shrinks, left. by rewrite E. Qed.

Lemma keeps_shrinks F ctx ctx' : keeps F → F ctx = Ok ctx' → shrinks ctx ctx'.
Proof. intros HF H. apply HF in H as [E R]. split; [unfold left; by rewrite E|done]. Qed.

Lemma shrinks_bad_request text ctx ctx' :
  Response.send_bad_request_response text ctx = Ok ctx' → shrinks ctx ctx'.
Proof.
  unfold Response.send_bad_request_response. intros H. apply outcome_bind_inv in H as (b & _ & H).
  apply (keeps_shrinks _ _ _ (keeps_end _ _)) in H. exact H.
Qed.

Lemma shrinks_not_found ctx ctx' : Response.send_not_found_response ctx = Ok ctx' → shrinks ctx ctx'.
Proof. intros H. by apply (keeps_shrinks _ _ _ (keeps_end _ _)) in H. Qed.

Lemma shrinks_check key ctx ok ctx' :
  Response.check_websocket_upgrade key ctx = Ok (ok, ctx') → shrinks ctx ctx'.
Proof.
  unfold Response.check_websocket_upgrade.
  repeat match goal with |- context [if ?b then _ else _] => destruct b end; intros H;
    try (apply outcome_bind_inv in H as (c & H & E); injection E as <- <-; by eapply shrinks_bad_request);
    by injection H as <- <-.
Qed.

Lemma shrinks_upgrade SHA1 j3 j4 ctx ok ctx' :
  Response.upgrade SHA1 j3 j4 ctx = Ok (ok, ctx') → shrinks ctx ctx'.
Proof.
  unfold Response.upgrade. intros H. apply outcome_bind_inv in H as ([ok1 c1] & H1 & H).
  apply shrinks_check in H1. destruct ok1; cbn [negb] in H; [|by injection H as <- <-].
  apply outcome_bind_inv in H as (a & _ & H). apply outcome_bind_inv in H as (c2 & H2 & E). injection E as <- <-.
  apply (keeps_shrinks _ _ _ (keeps_end _ _)) in H2. etrans; [exact H1|exact H2].
Qed.

Lemma run_callback_conn buf cb ctx ctx' : Parse.run_callback buf cb ctx = Ok ctx' → conn ctx' = conn ctx.
Proof.
  destruct cb; cbn [Parse.run_callback].
  - by intros [= <-].
  - intros H. apply outcome_bind_inv in H as (p & _ & H). by injection H as <-.
  - by intros [= <-].
  - by intros [= <-].
  - unfold Parse.http_request_on_header_value. destruct (current_header_name ctx); [|done]. intros H.
    apply outcome_bind_inv in H as (n & _ & H). apply outcome_bind_inv in H as (v & _ & H). by injection H as <-.
  - intros [= <-]. unfold Parse.http_request_on_headers_complete, Parse.set_http_method. cbn [conn].
    by repeat match goal with |- context [if ?b then _ else _] => destruct b end.
  - intros H. apply outcome_bind_inv in H as (p & _ & H). by injection H as <-.
  - by intros [= <-].
Qed.

Lemma run_callbacks_conn buf cbs ctx ctx' : Parse.run_callbacks buf cbs ctx = Ok ctx' → conn ctx' = conn ctx.
Proof.
  revert ctx. induction cbs as [|cb cbs IH]; intros ctx; cbn [Parse.run_callbacks]; [by intros [= <-]|].
  intros H. apply outcome_bind_inv in H as (c & H1 & H2). apply run_callback_conn in H1. apply IH in H2. congruence.
Qed.

Lemma shrinks_parse execute recved ctx ctx' :
  Parse.parse execute recved ctx = Ok ctx' → shrinks ctx ctx' ∧ cread_buf (conn ctx') ≠ None.
Proof.
  unfold Parse.parse. pose proof (get_read_buf_sk (conn ctx)) as Hsk.
  assert (Hr : cread_buf (CoSocket.get_read_buf (conn ctx)).2 ≠ None).
  { unfold CoSocket.get_read_buf. by destruct (cread_buf (conn ctx)) eqn:E; [cbn; rewrite E|]. }
  destruct (CoSocket.get_read_buf (conn ctx)) as [b c]. cbn [snd] in *. intros H.
  apply outcome_bind_inv in H as (d & _ & H). destruct (execute (parser ctx) d) as [p cbs].
  apply run_callbacks_conn in H. cbn in H. unfold shrinks, left. rewrite H, Hsk. done.
Qed.

Section server.
Context (execute : P → bytes → P * list callback) (SHA1 : bytes → bytes) (j3 j4 : bytes).
Context (stat : bytes → Z) (open_file : bytes → option bytes) (junk : Z).
Context (s : server (@handler P)).

(** A handler may read from the connection, but not give anything back to it. *)
Definition handler_ok (h : @handler P) : Prop := ∀ ctx ctx', h ctx = Ok ctx' → shrinks ctx ctx'.
Context (Hhttp : ∀ k h, (k, Some h) ∈ http_handlers s → handler_ok h).
Context (Hws : ∀ k h, (k, Some h) ∈ websocket_handlers s → handler_ok h).

Lemma get_handler_in {H} p (l : stdmap (option H)) h :
  Routes.get_handler p l = Some h → ∃ k, (k, Some h) ∈ l.
Proof.
  induction l as [|[k fn] l IH]; cbn [Routes.get_handler]; [done|]. destruct (Routes.matches k p).
  - intros ->. exists k. by left.
  - intros Hg. destruct (IH Hg) as [k' ?]. exists k'. by right.
Qed.

Lemma serve_file_shrinks f ctx ctx' : serve_file open_file junk f ctx = Ok ctx' → shrinks ctx ctx'.
Proof.
  unfold serve_file. destruct (open_file f) as [data|]; intros H.
  - apply outcome_bind_inv in H as (c & H & E). apply (keeps_shrinks _ _ _ (keeps_end _ _)) in H.
    injection E as <-. etrans; [exact H|]. split; [|done]. unfold left. cbn. unfold sendfile.
    by destruct (tx (sk (conn c))) as [|[]].
  - by apply (keeps_shrinks _ _ _ (keeps_end _ _)) in H.
Qed.

Lemma handle_request_shrinks recved ctx go ctx' :
  handle_request execute SHA1 j3 j4 stat open_file junk s recved ctx = Ok (go, ctx') →
  shrinks ctx ctx' ∧ cread_buf (conn ctx') ≠ None.
Proof.
  unfold handle_request. intros H. apply outcome_bind_inv in H as (c1 & H1 & H).
  apply shrinks_parse in H1 as [H1 R1]. apply outcome_bind_inv in H as (p & _ & H).
  apply outcome_bind_inv in H as ([g c2] & H2 & H).
  assert (H3 : shrinks c1 c2).
  { clear H. destruct (negb _).
    { apply outcome_bind_inv in H2 as (c & H2 & E). injection E as _ <-. by eapply serve_file_shrinks. }
    destruct (get_http_handler p s) as [h|] eqn:Eh.
    { apply get_handler_in in Eh as (k & Hk). unfold call_http_handler in H2. destruct (Request.has_sec_websocket_key _).
      - apply outcome_bind_inv in H2 as (c & H2 & E). injection E as _ <-. by eapply shrinks_bad_request.
      - apply outcome_bind_inv in H2 as (c & H2 & E). injection E as _ <-. by eapply Hhttp. }
    destruct (get_websocket_handler p s) as [h|] eqn:Ew.
    { apply get_handler_in in Ew as (k & Hk). unfold call_websocket_handler in H2.
      apply outcome_bind_inv in H2 as ([ok c] & H2 & E). apply shrinks_upgrade in H2.
      destruct ok; cbn [negb] in E; [|by injection E as _ <-].
      apply outcome_bind_inv in E as (c3 & H3 & E). injection E as _ <-. etrans; [exact H2|by eapply Hws]. }
    apply outcome_bind_inv in H2 as (c & H2 & E). injection E as _ <-. by eapply shrinks_not_found. }
  assert (H4 : shrinks c2 ctx').
  { destruct (negb g); [by injection H as _ <-|].
    destruct (keep_alive c2); cbn [negb] in H; injection H as _ <-; [by apply shrinks_same|done]. }
  split; [etrans; [exact H1|etrans; [exact H3|exact H4]]|]. apply H4, H3, R1.
Qed.

Lemma on_accept_loop_ends fuel ctx :
  (left ctx < fuel)%nat →
  match on_accept_loop execute SHA1 j3 j4 stat open_file junk fuel s ctx with
  | None => False
  | Some (Ok ctx') => (left ctx' ≤ left ctx)%nat ∧ cread_buf (conn ctx') ≠ None
  | Some _ => True
  end.
Proof.
  revert ctx. induction fuel as [|fuel IH]; intros ctx Hf; [lia|]. cbn [on_accept_loop].
  destruct (recv_request ctx) as [[recved c1]| |] eqn:E1; [|done..].
  apply recv_request_left in E1 as (L1 & L2 & R1). destruct (recved =? 0) eqn:E0; [done|]. zify_bools.
  destruct (handle_request _ _ _ _ _ _ _ _ _ _) as [[[] c2]| |] eqn:E2; [| |done..];
    apply handle_request_shrinks in E2 as [[L3 _] R2].
  - specialize (IH c2 ltac:(lia)). destruct (on_accept_loop _ _ _ _ _ _ _ _ _ _) as [[c3| |]|]; try done.
    destruct IH as [? ?]. split; [lia|done].
  - split; [lia|done].
Qed.

Lemma check_client_close_ends fuel sc buf :
  (S (rx_size (rx sc)) < fuel)%nat → CoSocket.check_client_close fuel sc buf ≠ None.
Proof.
  revert sc buf. induction fuel as [|fuel IH]; intros sc buf Hf; [lia|]. cbn [CoSocket.check_client_close].
  unfold CoSocket.recv. pose proof (rx_size_length (rx sc)) as Hl.
  pose proof (recv_loop_size READ_BUF_MAX_SIZE ltac:(done) fuel sc buf 0 ltac:(lia)) as H.
  destruct (CoSocket.recv_loop _ _ _ _ _ _) as [[[[ret m] s']| |]|]; try done.
  destruct (0 <? ret) eqn:E; [|done]. zify_bools. apply IH. destruct H as [_ H]. specialize (H ltac:(lia)). lia.
Qed.

(** What is done with a request for [p] when the document root has no such file. *)
Definition routed (p : bytes) ctx : outcome (bool * Ctx P) :=
  match get_http_handler p s with
  | Some h => call_http_handler h ctx
  | None =>
      match get_websocket_handler p s with
      | Some h => call_websocket_handler SHA1 j3 j4 h ctx
      | None => ctx ← Response.send_not_found_response ctx; Ok (true, ctx)
      end
  end.

Lemma handle_request_routed recved ctx ctx1 (p : bytes) :
  Parse.parse execute recved ctx = Ok ctx1 → path (request ctx1) = Some (p ++ [0]) → 0 ∉ p →
  get_document_absolute_path stat p s = [] →
  handle_request execute SHA1 j3 j4 stat open_file junk s recved ctx =
    '(go, ctx) ← routed p ctx1; Ok (go && keep_alive ctx, if go && keep_alive ctx then Context.clear ctx else ctx).
Proof.
  intros Hparse Hpath Hp Hroot. unfold handle_request.
  rewrite Hparse, outcome_bind_ok, Hpath, CStringFacts.c_str_ok, outcome_bind_ok, Hroot by done. cbv zeta.
  rewrite bool_decide_eq_true_2 by done. cbn [negb]. fold (routed p ctx1).
  destruct (routed p ctx1) as [[[] c]| |]; [|done..].
  rewrite !outcome_bind_ok. cbn [negb andb]. by destruct (keep_alive c).
Qed.

End server.

(** The answers of a fresh response. *)
Lemma no_websocket_fits k : zlen (HttpSpec.bad_request k (str "no support websocket")) ≤ WRITE_BUF_MAX_SIZE.
Proof. destruct k; by vm_compute. Qed.

Lemma refused_ok ctx :
  HttpFacts.conn_ok ctx → res_header (response ctx) = [] → HttpFacts.tx_ok (tx (sk (conn ctx))) →
  ∃ ctx', Response.send_bad_request_response (str "no support websocket") ctx = Ok ctx' ∧ HttpFacts.keeps_conn ctx ctx' ∧
    sent (sk (conn ctx')) = sent (sk (conn ctx)) ++
      HttpSpec.delivered (sk (conn ctx)) (HttpSpec.bad_request (keep_alive ctx) (str "no support websocket")).
Proof.
  intros Hok Hh Htx.
  destruct (HttpFacts.bad_request_ok (str "no support websocket") ctx Hok Hh Htx (bytes_ok_str _)
    (no_websocket_fits _)) as (c & H & Hk & _ & Hs). by exists c.
Qed.

End connection.
End ConnectionFacts.

(** ** Connections in order

    Each read holds a complete request, and the handlers leave the connection as
    they found it, but for what they have sent and received: then no request is
    undefined or ends the process. *)
Module OrderFacts.
Import HttpFacts CalmFacts ReceiveFacts Orderly Server.
Section order.
Context {P : Type}.
Implicit Types (ctx : Ctx P).
Context (execute : P → bytes → P * list callback).
(** The states of the parser between two requests. *)
Context (idle : P → Prop).

(** What [recv] answers: nothing yet, or a complete request. *)
Definition read_fits (a : rx_answer) : Prop :=
  match a with
  | RxData d =>
      0 < zlen d ≤ READ_BUF_MAX_SIZE ∧ bytes_ok d ∧
      ∀ p, idle p → complete_request d (execute p d).2 ∧ idle (execute p d).1
  | RxError e => e = EAGAIN
  end.
Definition script_ok (l : list rx_answer) : Prop := Forall read_fits l.

Lemma recv_loop_script fuel : ∀ (s : sock) (buf : bytes),
  script_ok (rx s) → waits s = [] → READ_BUF_MAX_SIZE ≤ zlen buf →
  match CoSocket.recv_loop i32 fuel s buf 0 READ_BUF_MAX_SIZE with
  | None => True
  | Some (Ok (ret, buf', s')) => waits s' = [] ∧ tx s' = tx s ∧ zlen buf' = zlen buf ∧ script_ok (rx s') ∧
      ((ret = 0 ∧ buf' = buf ∧ rx s' = []) ∨
       ∃ d, read_fits (RxData d) ∧ ret = zlen d ∧ buf' = d ++ drop (length d) buf)
  | _ => False
  end.
Proof.
  induction fuel as [|fuel IH]; intros s buf Hs Hw Hb; [exact I|]. cbn [CoSocket.recv_loop]. unfold Socket.recv.
  destruct (rx s) as [|[d|e] l] eqn:Erx.
  - cbv zeta. change (i32 0) with 0. change (0 <? 0) with false. cbn [andb].
    split_and!; try done; [by rewrite Erx|left; by rewrite Erx].
  - apply Forall_cons_1 in Hs as [Hd Hl]. pose proof Hd as ([Hd0 Hd1] & _). unfold READ_BUF_MAX_SIZE in *.
    assert (take (Z.to_nat 1024) d = d) as -> by (apply take_ge; unfold zlen in *; lia).
    assert (drop (Z.to_nat 1024) d = []) as -> by (apply drop_ge; unfold zlen in *; lia).
    rewrite mem_write_ok, outcome_bind_ok by lia. cbv zeta. rewrite i32_id by lia. rewrite (proj2 (Z.ltb_ge _ _)) by lia. cbn [andb].
    change (take (Z.to_nat 0) buf) with (@nil Z). cbn [app]. replace (Z.to_nat (0 + zlen d)) with (length d) by (unfold zlen; lia).
    cbn [waits set_rx tx rx]. split_and!; try done; [|right; by exists d].
    rewrite zlen_app. unfold zlen in *. rewrite length_drop. lia.
  - apply Forall_cons_1 in Hs as [-> Hl]. cbv zeta. change (i32 (-1)) with (-1). cbn [errno set_errno set_rx].
    change ((-1 <? 0) && (EAGAIN =? EAGAIN)) with true. cbv iota. unfold CoSocket.wait_event. cbn [waits set_errno set_rx].
    rewrite Hw. cbv iota beta.
    exact (IH (set_waits [] FSW_EVENT_READ (set_errno EAGAIN (set_rx l s))) buf Hl eq_refl Hb).
Qed.

(** The end of the connection: what the client still sends is received. *)
Lemma check_client_close_order fuel : ∀ (x : sock) (buf : bytes),
  script_ok (rx x) → waits x = [] → READ_BUF_MAX_SIZE ≤ zlen buf →
  match CoSocket.check_client_close fuel x buf with
  | None => True
  | Some (Ok (_, x')) => rx x' = []
  | _ => False
  end.
Proof.
  induction fuel as [|fuel IH]; intros x buf Hs Hw Hb; [exact I|]. cbn [CoSocket.check_client_close]. unfold CoSocket.recv.
  pose proof (recv_loop_script fuel x buf Hs Hw Hb) as H.
  destruct (CoSocket.recv_loop _ _ _ _ _ _) as [[[[ret m] x']| |]|]; try done.
  destruct H as (H1 & _ & H3 & H4 & [(-> & _ & H5)|(d & (Hd & _) & -> & _)]); [done|].
  rewrite (proj2 (Z.ltb_lt _ _)) by lia. apply IH; [done|done|by rewrite H3].
Qed.

(** Reading a request. *)
Lemma recv_request_ok ctx :
  talk_ok ctx → script_ok (rx (sk (conn ctx))) →
  ∃ recved ctx1, recv_request ctx = Ok (recved, ctx1) ∧ talk_ok ctx1 ∧ script_ok (rx (sk (conn ctx1))) ∧
    request ctx1 = request ctx ∧ response ctx1 = response ctx ∧ parser ctx1 = parser ctx ∧
    (recved = 0 ∨ ∃ d b rest, read_fits (RxData d) ∧ recved = zlen d ∧ cread_buf (conn ctx1) = Some b ∧ _buffer b = d ++ rest).
Proof.
  intros (Hok & Hrd & Hw & Htx) Hs. unfold recv_request.
  destruct (get_read_buf_cread (conn ctx) Hrd) as (Hrd' & Hb & Hsk & Hwb).
  destruct (CoSocket.get_read_buf (conn ctx)) as [b c]. cbn [fst snd] in *.
  destruct (Hrd' b Hb) as (Hbs & Hbm & Hbb). unfold Response.conn_recv, CoSocket.recv. rewrite Hsk.
  pose proof (recv_loop_size READ_BUF_MAX_SIZE ltac:(done) (S (length (rx (sk (conn ctx))))) (sk (conn ctx)) (_buffer b) 0
    ltac:(lia)) as Hsome.
  pose proof (recv_loop_script (S (length (rx (sk (conn ctx))))) (sk (conn ctx)) (_buffer b) Hs Hw ltac:(lia)) as H.
  destruct (CoSocket.recv_loop _ _ _ _ _ _) as [[[[ret m] s']| |]|]; try done. clear Hsome.
  rewrite !outcome_bind_ok. destruct H as (H1 & H2 & H3 & H4 & H5). eexists ret, _. split; [reflexivity|].
  assert (Hm : bytes_ok m).
  { destruct H5 as [(_ & -> & _)|(d & (_ & Hd & _) & _ & ->)]; [done|]. apply Forall_app_2; [done|]. by apply Forall_drop. }
  split; [|split; [done|split; [done|split; [done|split; [done|]]]]].
  - split; [|split; [|split; [done|]]].
    + intros b2 Hb2. apply Hok. by rewrite <- Hwb.
    + intros b2 [= <-]. cbn [_size _buffer]. by split_and!; [|rewrite H3|].
    + cbn [conn Parse.set_conn CoSocket.set_read_buf CoSocket.set_sk sk]. by rewrite H2.
  - destruct H5 as [(-> & _)|(d & Hd & -> & ->)]; [by left|]. right. by eexists d, _, _.
Qed.

(** What is received next is a part of what was. *)
Definition settled ctx ctx' : Prop :=
  talk_ok ctx' ∧ parser ctx' = parser ctx ∧ ∃ pre, rx (sk (conn ctx)) = pre ++ rx (sk (conn ctx')).

Lemma settled_kept ctx ctx' : talk_ok ctx' → keeps_conn ctx ctx' → settled ctx ctx'.
Proof. intros Ht (_ & Hp & Hr & _). split; [done|]. split; [done|]. by exists []. Qed.

(** A handler of requests and one of WebSockets: it returns, and leaves a
    connection in order. *)
Definition http_in_order (h : @handler P) : Prop :=
  ∀ ctx, talk_ok ctx → res_header (response ctx) = [] → ∃ ctx', h ctx = Ok ctx' ∧ settled ctx ctx'.
Definition websocket_in_order (h : @handler P) : Prop :=
  ∀ ctx, talk_ok ctx → ∃ ctx', h ctx = Ok ctx' ∧ settled ctx ctx'.

Context (SHA1 : bytes → bytes) (j3 j4 : bytes).
Context (Hsha : ∀ d, bytes_ok d → bytes_ok (SHA1 d) ∧ length (SHA1 d) = 20%nat).
Context (Hj3 : length j3 = 3%nat) (Hj4 : length j4 = 4%nat).
Context (stat : bytes → Z) (open_file : bytes → option bytes) (junk : Z).
Context (s : server (@handler P)).
Context (Hhttp : ∀ k h, (k, Some h) ∈ http_handlers s → http_in_order h).
Context (Hws : ∀ k h, (k, Some h) ∈ websocket_handlers s → websocket_in_order h).

Lemma settled_trans a b c : settled a b → settled b c → settled a c.
Proof.
  intros (_ & P1 & x & R1) (T2 & P2 & y & R2). split; [done|]. split; [congruence|]. exists (x ++ y).
  by rewrite R1, R2, app_assoc.
Qed.

Lemma refuse_settled ctx : talk_ok ctx → res_header (response ctx) = [] →
  ∃ ctx', Response.send_bad_request_response (str "no support websocket") ctx = Ok ctx' ∧ settled ctx ctx'.
Proof.
  intros Ht Hh. pose proof Ht as (Hok & _ & _ & Htx).
  destruct (ConnectionFacts.refused_ok ctx Hok Hh Htx) as (c & H & Hk & _). exists c. split; [done|].
  apply settled_kept; [|done]. eapply answer_talk; [done..|]. by eapply bad_request_calm, talk_calm.
Qed.

Lemma not_found_settled ctx : talk_ok ctx → res_header (response ctx) = [] →
  ∃ ctx', Response.send_not_found_response ctx = Ok ctx' ∧ settled ctx ctx'.
Proof.
  intros Ht Hh. pose proof Ht as (Hok & _ & _ & Htx).
  destruct (not_found_ok ctx Hok Hh Htx) as (c & H & Hk & _). exists c. split; [done|].
  apply settled_kept; [|done]. eapply answer_talk; [done..|].
  unfold Response.send_not_found_response in H. eapply end_response_calm; [exact H|]. by apply talk_calm.
Qed.

Lemma upgrade_settled ctx : talk_ok ctx → res_header (response ctx) = [] → headers_typed (request ctx) →
  ∃ ok ctx', Response.upgrade SHA1 j3 j4 ctx = Ok (ok, ctx') ∧ settled ctx ctx'.
Proof.
  intros Ht Hh Hty. pose proof Ht as (Hok & _ & _ & Htx).
  pose proof (UpgradeFacts.upgrade_ok SHA1 j3 j4 Hsha Hj3 Hj4 ctx Hok Hh Htx (get_header_bytes _ _ Hty)) as H.
  assert (G : ∃ ok ctx', Response.upgrade SHA1 j3 j4 ctx = Ok (ok, ctx') ∧ keeps_conn ctx ctx').
  { destruct (HttpSpec.refusal (request ctx)); destruct H as (c & H & _ & _ & Hk); by eexists _, c. }
  destruct G as (ok & c & Hup & Hk). exists ok, c. split; [done|]. apply settled_kept; [|done].
  eapply answer_talk; [done..|]. by eapply upgrade_calm, talk_calm.
Qed.

Lemma serve_file_settled f ctx : talk_ok ctx → res_header (response ctx) = [] →
  ∃ ctx', serve_file open_file junk f ctx = Ok ctx' ∧ settled ctx ctx'.
Proof.
  intros Ht Hh. unfold serve_file. destruct (open_file f) as [data|].
  - destruct (end_head_talk (zlen data) ctx Ht Hh) as (c & -> & Hk & Hc & _). rewrite outcome_bind_ok.
    eexists. split; [reflexivity|]. apply (settled_trans ctx c); [by apply settled_kept|].
    destruct Hc as (Hok & Hrd & Hw & Htx). unfold sendfile.
    destruct (tx (sk (conn c))) as [|[n|e] l] eqn:Et; (split; [|split; [done|by exists []]]);
      (split; [done|split; [done|split; [done|]]]); try done; by apply Forall_cons_1 in Htx as [_ Htx].
  - destruct (end_head_talk junk ctx Ht Hh) as (c & -> & Hk & Hc & _). exists c. split; [done|]. by apply settled_kept.
Qed.

(** A request in order is handled. *)
Definition ready ctx : Prop :=
  talk_ok ctx ∧ script_ok (rx (sk (conn ctx))) ∧ res_header (response ctx) = [] ∧
  headers_typed (request ctx) ∧ idle (parser ctx).

Lemma parse_ready ctx d b rest :
  ready ctx → read_fits (RxData d) → cread_buf (conn ctx) = Some b → _buffer b = d ++ rest →
  ∃ ctx1, Parse.parse execute (zlen d) ctx = Ok ctx1 ∧ ready ctx1 ∧ has_path ctx1.
Proof.
  intros (Ht & Hs & Hh & Hty & Hi) (Hd & Hdb & Hex) Hb Hm. pose proof Ht as (_ & Hrd & _).
  destruct (Hrd b Hb) as (_ & Hz & Hbb). unfold Parse.parse, CoSocket.get_read_buf. rewrite Hb.
  rewrite u64_id by (unfold READ_BUF_MAX_SIZE in *; lia).
  assert (Hread : mem_read (_buffer b) 0 (zlen d) = Ok d) by (rewrite Hm; by apply (mem_read_split [] d rest)).
  rewrite Hread, outcome_bind_ok.
  destruct (Hex (parser ctx) Hi) as [[Hwf Hurl] Hidle]. destruct (execute (parser ctx) d) as [p cbs]. cbn [fst snd] in *.
  assert (Hle : zlen d ≤ zlen (_buffer b)) by (rewrite Hm, zlen_app; pose proof (zlen_nonneg rest); lia).
  destruct (run_well_formed (_buffer b) (zlen d) cbs Hbb Hle false (Parse.set_parser p (Parse.set_conn (conn ctx) ctx)))
    as (c & -> & H1 & H2 & H3 & H4 & H5); [done|done|done|].
  exists c. split; [done|]. split; [|by apply H5; left].
  assert (Ec : conn c = conn ctx) by exact H2. split; [unfold talk_ok, conn_ok; rewrite Ec; exact Ht|].
  rewrite Ec, H4, H3. split; [exact Hs|]. split; [exact Hh|]. split; [exact H1|exact Hidle].
Qed.

Lemma handle_request_ok ctx d b rest :
  ready ctx → read_fits (RxData d) → cread_buf (conn ctx) = Some b → _buffer b = d ++ rest →
  ∃ go ctx', handle_request execute SHA1 j3 j4 stat open_file junk s (zlen d) ctx = Ok (go, ctx') ∧
    talk_ok ctx' ∧ script_ok (rx (sk (conn ctx'))) ∧ (go = true → ready ctx').
Proof.
  intros Hr Hd Hb Hm. destruct (parse_ready ctx d b rest Hr Hd Hb Hm) as (c1 & Hp1 & (Ht & Hs & Hh & Hty & Hi) & (p & Hpath)).
  unfold handle_request. rewrite Hp1, outcome_bind_ok, Hpath. destruct (c_str_some p) as (q & ->). rewrite outcome_bind_ok.
  cbv zeta. match goal with |- context [mbind ?f ?r] => set (R := r) end.
  assert (HR : ∃ go c2, R = Ok (go, c2) ∧ settled c1 c2).
  { unfold R. clear R. destruct (negb _).
    { destruct (serve_file_settled (get_document_absolute_path stat q s) c1 Ht Hh) as (c & -> & Hc). by exists true, c. }
    destruct (get_http_handler q s) as [h|] eqn:Eh.
    { apply ConnectionFacts.get_handler_in in Eh as (k & Hk). unfold call_http_handler. destruct (Request.has_sec_websocket_key _).
      - destruct (refuse_settled c1 Ht Hh) as (c & -> & Hc). by exists false, c.
      - destruct (Hhttp k h Hk c1 Ht Hh) as (c & -> & Hc). by exists true, c. }
    destruct (get_websocket_handler q s) as [h|] eqn:Ew.
    { apply ConnectionFacts.get_handler_in in Ew as (k & Hk). unfold call_websocket_handler.
      destruct (upgrade_settled c1 Ht Hh Hty) as (ok & c & -> & Hc). rewrite outcome_bind_ok.
      destruct ok; cbn [negb]; [|by exists false, c].
      destruct (Hws k h Hk c (proj1 Hc)) as (c2 & -> & Hc2). exists true, c2. split; [done|]. by eapply settled_trans. }
    destruct (not_found_settled c1 Ht Hh) as (c & -> & Hc). by exists true, c. }
  destruct HR as (go & c2 & -> & Ht2 & Hp2 & pre & Hrx). rewrite outcome_bind_ok.
  assert (Hs2 : script_ok (rx (sk (conn c2)))) by (unfold script_ok in Hs; rewrite Hrx in Hs; by apply Forall_app in Hs as [_ ?]).
  destruct go; cbn [negb]; [|by exists false, c2]. destruct (keep_alive c2); cbn [negb]; [|by exists false, c2].
  exists true, (Context.clear c2). split; [done|].
  assert (Ht3 : talk_ok (Context.clear c2)) by exact Ht2. split; [done|]. split; [done|]. intros _.
  split; [done|]. split; [done|]. split; [done|]. split; [constructor|].
  change (idle (parser c2)). by rewrite Hp2.
Qed.

Lemma on_accept_loop_order fuel : ∀ ctx, ready ctx →
  match on_accept_loop execute SHA1 j3 j4 stat open_file junk fuel s ctx with
  | None => True
  | Some (Ok ctx') => talk_ok ctx' ∧ script_ok (rx (sk (conn ctx')))
  | _ => False
  end.
Proof.
  induction fuel as [|fuel IH]; intros ctx Hr; [exact I|]. cbn [on_accept_loop]. pose proof Hr as (Ht & Hs & Hh & Hty & Hi).
  destruct (recv_request_ok ctx Ht Hs) as (recved & c1 & -> & Ht1 & Hs1 & Eq & Er & Ep & Hcase).
  destruct (recved =? 0) eqn:E0; [done|]. zify_bools. destruct Hcase as [?|(d & b & rest & Hd & -> & Hb & Hm)]; [done|].
  assert (Hr1 : ready c1) by (unfold ready; rewrite Eq, Er, Ep; by split_and!).
  destruct (handle_request_ok c1 d b rest Hr1 Hd Hb Hm) as (go & c2 & -> & Ht2 & Hs2 & Hgo).
  destruct go; [by apply IH, Hgo|done].
Qed.

End order.
End OrderFacts.

(** ** Properties *)
Section connection_properties.
Context {P : Type}.
Implicit Types (ctx : Ctx P).
Context (execute : P → bytes → P * list callback) (SHA1 : bytes → bytes) (j3 j4 : bytes).
Context (stat : bytes → Z) (open_file : bytes → option bytes) (junk : Z).
Context (s : server (@Server.handler P)).


(** What the loop does when the handler returns: the next request on a clear
    context, or the end. *)
Definition after_handler (h : Server.handler) ctx : outcome (bool * Ctx P) :=
  ctx ← h ctx; Ok (keep_alive ctx, if keep_alive ctx then Context.clear ctx else ctx).

(** C13: every complete request is answered the way its path says, when the
    document root, if one is set, has no such file. Without a handler the answer is a 404 and the loop
    goes on if the connection is kept; a handler of requests runs unless the
    client asked for a WebSocket, which is refused with a 400 and ends the
    connection before the handler is called; a handler of WebSockets runs
    exactly after an opening handshake, on the context whose 101 was sent, and a
    request that is none gets the 400 with its reason. Each answer goes out as
    far as its one [send] gets: whole, when the kernel takes what it is given. *)
Theorem request_answered (recved : Z) ctx ctx1 (p : bytes) :
  (∀ d, bytes_ok d → bytes_ok (SHA1 d) ∧ length (SHA1 d) = 20%nat) → length j3 = 3%nat → length j4 = 4%nat →
  Parse.parse execute recved ctx = Ok ctx1 → path (request ctx1) = Some (p ++ [0]) → 0 ∉ p →
  Server.get_document_absolute_path stat p s = [] →
  HttpFacts.conn_ok ctx1 → res_header (response ctx1) = [] → HttpFacts.tx_ok (tx (sk (conn ctx1))) →
  bytes_ok (Request.get_header (str "sec-websocket-key") (request ctx1)) →
  let r := Server.handle_request execute SHA1 j3 j4 stat open_file junk s recved ctx in
  let sends answer ctx' :=
    sent (sk (conn ctx')) = sent (sk (conn ctx1)) ++ HttpSpec.delivered (sk (conn ctx1)) answer ∧
    (tx (sk (conn ctx1)) = [] → sent (sk (conn ctx')) = sent (sk (conn ctx1)) ++ answer) in
  match Server.get_http_handler p s, Server.get_websocket_handler p s with
  | Some h, _ =>
      if Request.has_sec_websocket_key (request ctx1) then
        ∃ ctx', r = Ok (false, ctx') ∧ sends (HttpSpec.bad_request (keep_alive ctx1) (str "no support websocket")) ctx'
      else r = after_handler h ctx1
  | None, Some h =>
      match HttpSpec.refusal (request ctx1) with
      | None => HttpSpec.opening_handshake (request ctx1) ∧
          ∃ ctx2, r = after_handler h ctx2 ∧ request ctx2 = request ctx1 ∧
            sends (HttpSpec.switching_protocols (keep_alive ctx1)
              (SHA1 (Request.get_header (str "sec-websocket-key") (request ctx1) ++ HttpSpec.guid))) ctx2
      | Some why => ¬ HttpSpec.opening_handshake (request ctx1) ∧
          ∃ ctx', r = Ok (false, ctx') ∧ sends (HttpSpec.refused (keep_alive ctx1) why) ctx'
      end
  | None, None =>
      ∃ ctx', r = Ok (keep_alive ctx1, ctx') ∧
        sends (HttpSpec.render (str "404 Not Found") [] (keep_alive ctx1) 0 None) ctx'
  end.
Proof.
  intros Hsha Hj3 Hj4 Hparse Hpath Hp Hroot Hok Hres Htx Hkey r sends.
  pose proof (ConnectionFacts.handle_request_routed execute SHA1 j3 j4 stat open_file junk s recved ctx ctx1 p
    Hparse Hpath Hp Hroot) as Hr. fold r in Hr. unfold ConnectionFacts.routed in Hr.
  rewrite Hr. clear Hr r.
  assert (Hsends : ∀ answer ctx',
    sent (sk (conn ctx')) = sent (sk (conn ctx1)) ++ HttpSpec.delivered (sk (conn ctx1)) answer → sends answer ctx').
  { intros answer ctx' E. split; [exact E|]. intros E'. by rewrite E, HttpSpec.delivered_all. }
  clearbody sends. destruct (Server.get_http_handler p s) as [h|].
  { unfold Server.call_http_handler. destruct (Request.has_sec_websocket_key (request ctx1)).
    - destruct (ConnectionFacts.refused_ok ctx1 Hok Hres Htx) as (c & -> & _ & Hs).
      rewrite !outcome_bind_ok. eexists. split; [reflexivity|]. by apply Hsends.
    - unfold after_handler. by destruct (h ctx1). }
  destruct (Server.get_websocket_handler p s) as [h|].
  - unfold Server.call_websocket_handler. rewrite outcome_bind_assoc. pose proof (HttpSpec.refusal_none (request ctx1)) as Hno.
    pose proof (UpgradeFacts.upgrade_ok SHA1 j3 j4 Hsha Hj3 Hj4 ctx1 Hok Hres Htx Hkey) as H.
    destruct (HttpSpec.refusal (request ctx1)) as [why|].
    + destruct H as (c & -> & Hq & Hs & _). rewrite !outcome_bind_ok. cbn [negb]. split; [rewrite <- Hno; done|].
      exists c. rewrite outcome_bind_ok. split; [done|by apply Hsends].
    + destruct H as (c & -> & Hq & Hs & _). rewrite !outcome_bind_ok. cbn [negb]. split; [rewrite <- Hno; done|].
      exists c. split; [unfold after_handler; by destruct (h c)|]. split; [done|by apply Hsends].
  - destruct (HttpFacts.not_found_ok ctx1 Hok Hres Htx) as (c & -> & _ & Hk & Hs).
    rewrite !outcome_bind_ok. cbn [andb]. rewrite Hk. eexists. split; [reflexivity|]. apply Hsends.
    by destruct (keep_alive ctx1).
Qed.
End connection_properties.

(** [start] hands every result of [accept] to a handler, the failed ones too,
    and so never returns false. *)
Lemma start_never_fails (later : list bool) (s : sock) : (Server.start later s).1.2 ≠ Some false.
Proof.
  unfold Server.start. generalize (true :: later). clear later. intros runs.
  revert s. induction runs as [|[] runs IH]; intros s; cbn [Server.start_loop]; [done| |done].
  destruct (CoSocket.accept _ _) as [[connfd s']|]; [|done].
  specialize (IH s'). by destruct (Server.start_loop runs s') as [[fds r] s''].
Qed.

Example start_serves_failed_accept (s : sock) :
  calls s = [CallError 24] → (Server.start [false] s).1 = ([-1], Some true).
Proof. intros E. unfold Server.start. cbn [Server.start_loop]. unfold CoSocket.accept, Socket.call. rewrite E. done. Qed.

(** The path of the client is not looked at: it may lead out of the root. *)
Example document_path_unchecked (s : server unit) (stat : bytes → Z) :
  StdMap.find (str "document_root") (settings s) = Some (str "/www") → 0 ≤ stat (str "/www/../etc/passwd") →
  Server.get_document_absolute_path stat (str "/../etc/passwd") s = str "/www/../etc/passwd".
Proof.
  intros E Hs. unfold Server.get_document_absolute_path. rewrite E. cbv zeta.
  change (str "/www" ++ str "/../etc/passwd") with (str "/www/../etc/passwd").
  by rewrite (proj2 (Z.ltb_ge _ _)) by exact Hs.
Qed.

(** A read that does not hold the request line is undefined: the path is still
    null. *)
Lemma incomplete_request_undefined {P} execute SHA1 j3 j4 stat open_file junk (s : server (@Server.handler P)) recved ctx ctx1 :
  Parse.parse execute recved ctx = Ok ctx1 → path (request ctx1) = None →
  Server.handle_request execute SHA1 j3 j4 stat open_file junk s recved ctx = UB.
Proof. intros H Hp. unfold Server.handle_request. by rewrite H, outcome_bind_ok, Hp. Qed.

(** ** Witnesses *)
Module ServerExample.

(** A parser that takes the first four characters for the path and keeps the
    connection. *)
Definition execute (p : unit) (data : bytes) : unit * list callback :=
  (p, [OnUrl 0 4; OnHeadersComplete 1 1 HTTP_GET true]).

Definition stat (path : bytes) : Z := -1.
Definition open_file (path : bytes) : option bytes := None.

Definition hello : server (@Server.handler unit) :=
  Server.set_http_handler (str "/abc") (Some (Response.end_response None 0)) (mkServer [] [] [] true).

(** The peer sends two requests, with a pause. *)
Definition requests : cosocket :=
  CoSocket.make (mkSock 5 0 [RxData (str "/abc"); RxError EAGAIN; RxData (str "/xyz")] [] [] [] [] [] false) 0.

Definition start (c : cosocket) : Ctx unit := Context.make c tt (Request.make 0 0 0) (Response.make 0) None 0 false.

(** The context after the second request. *)
Definition parsed : Ctx unit :=
  match Parse.parse execute 4 (start (CoSocket.set_read_buf (mkBuffer 1024 0 (str "/xyz" ++ replicate 1021 0)) requests)) with
  | Ok ctx => ctx
  | _ => start requests
  end.

End ServerExample.

Lemma end_in_order : OrderFacts.http_in_order (P := unit) (Response.end_response None 0).
Proof.
  intros ctx Ht Hh. destruct (CalmFacts.end_head_talk 0 ctx Ht Hh) as (c & H & Hk & Hc & _).
  exists c. split; [done|]. by apply OrderFacts.settled_kept.
Qed.

Lemma requests_ready : OrderFacts.ready ServerExample.execute (λ _, True) (ServerExample.start ServerExample.requests).
Proof.
  split; [split; [intros b [=]|split; [intros b [=]|by split; [|constructor]]]|]. split; [|by split_and!; [|constructor|]].
  assert (H : ∀ d, zlen d = 4 → bytes_ok d → OrderFacts.read_fits ServerExample.execute (λ _, True) (RxData d)).
  { intros d Hd Hb. split; [rewrite Hd; by vm_compute|]. split; [done|]. intros p _. split; [|done]. split; [|done].
    by rewrite Hd. }
  repeat apply Forall_cons_2; [apply H; [done|by apply bytes_ok_check]|reflexivity|apply H; [done|by apply bytes_ok_check]|constructor].
Qed.


Lemma request_answered_witness :
  ∃ ctx', Server.handle_request ServerExample.execute HttpExample.digest [1; 2; 3] [4; 5; 6; 7] ServerExample.stat
      ServerExample.open_file 0 ServerExample.hello 4
      (ServerExample.start (CoSocket.set_read_buf (mkBuffer 1024 0 (str "/xyz" ++ replicate 1021 0)) ServerExample.requests))
      = Ok (true, ctx') ∧
    sent (sk (conn ctx')) = HttpSpec.render (str "404 Not Found") [] true 0 None.
Proof.
  assert (Hp : Parse.parse ServerExample.execute 4
     (ServerExample.start (CoSocket.set_read_buf (mkBuffer 1024 0 (str "/xyz" ++ replicate 1021 0)) ServerExample.requests))
     = Ok ServerExample.parsed) by (vm_compute; reflexivity).
  assert (Hpath : path (request ServerExample.parsed) = Some (str "/xyz" ++ [0])) by (vm_compute; reflexivity).
  assert (Hz : 0 ∉ str "/xyz").
  { intros Hin. vm_compute in Hin. repeat (apply elem_of_cons in Hin as [Hin|Hin]; [discriminate Hin|]).
    by apply elem_of_nil in Hin. }
  assert (Hok : HttpFacts.conn_ok ServerExample.parsed) by (intros b Hb; vm_compute in Hb; discriminate Hb).
  assert (Htx : HttpFacts.tx_ok (tx (sk (conn ServerExample.parsed)))) by (vm_compute; constructor).
  assert (Hres : res_header (response ServerExample.parsed) = []) by (vm_compute; reflexivity).
  assert (Hkey : bytes_ok (Request.get_header (str "sec-websocket-key") (request ServerExample.parsed)))
    by (vm_compute; constructor).
  assert (Hk : keep_alive ServerExample.parsed = true) by (vm_compute; reflexivity).
  assert (Hs : sent (sk (conn ServerExample.parsed)) = []) by (vm_compute; reflexivity).
  pose proof (request_answered ServerExample.execute HttpExample.digest [1; 2; 3] [4; 5; 6; 7] ServerExample.stat
    ServerExample.open_file 0 ServerExample.hello 4 _ _ _ HttpExample.digest_ok eq_refl eq_refl Hp Hpath Hz eq_refl
    Hok Hres Htx Hkey) as H.
  assert (H1 : Server.get_http_handler (str "/xyz") ServerExample.hello = None) by (vm_compute; reflexivity).
  assert (H2 : Server.get_websocket_handler (str "/xyz") ServerExample.hello = None) by (vm_compute; reflexivity).
  assert (Ht : tx (sk (conn ServerExample.parsed)) = []) by (vm_compute; reflexivity).
  cbv zeta in H. rewrite H1, H2, Hk in H. destruct H as (ctx' & Ha & _ & Hb). specialize (Hb Ht). rewrite Hs in Hb.
  exists ctx'. split; [exact Ha|exact Hb].
Defined.
