(* ===== verification/Http2Frame.v ===== *)
(** * Http2Frame: frame headers and settings of HTTP/2
    (include/coroutine_http2.h, src/coroutine/http2/http2.cc, and the frame
    functions of src/coroutine/http2/client.cc)

    A frame lies in a region of memory: the nine bytes of its header, then its
    payload. [Rfc9113] states the layout of the protocol. *)

From S2P Require Import Prelude Words.
#[local] Open Scope Z_scope.

Definition FSW_HTTP2_DEFAULT_HEADER_TABLE_SIZE : Z := 4096.
Definition FSW_HTTP2_MAX_MAX_CONCURRENT_STREAMS : Z := 128.
Definition FSW_HTTP2_MAX_MAX_FRAME_SIZE : Z := 16384.
Definition FSW_HTTP2_DEFAULT_WINDOW_SIZE : Z := 65535.
Definition FSW_HTTP2_DEFAULT_MAX_HEADER_LIST_SIZE : Z := 4096.
Definition FSW_HTTP2_FRAME_HEADER_SIZE : Z := 9.

(** [enum frame_type], [enum frame_flag], [enum stream_flag], [enum setting_id] *)
Definition FSW_HTTP2_TYPE_DATA : Z := 0.
Definition FSW_HTTP2_TYPE_HEADERS : Z := 1.
Definition FSW_HTTP2_TYPE_RST_STREAM : Z := 3.
Definition FSW_HTTP2_TYPE_SETTINGS : Z := 4.
Definition FSW_HTTP2_TYPE_PUSH_PROMISE : Z := 5.
Definition FSW_HTTP2_TYPE_PING : Z := 6.
Definition FSW_HTTP2_TYPE_GOAWAY : Z := 7.
Definition FSW_HTTP2_TYPE_WINDOW_UPDATE : Z := 8.

Definition FSW_HTTP2_FLAG_ACK : Z := 1.
Definition FSW_HTTP2_FLAG_END_STREAM : Z := 1.
Definition FSW_HTTP2_FLAG_END_HEADERS : Z := 4.

Definition FSW_HTTP2_STREAM_NORMAL : Z := 0.
Definition FSW_HTTP2_STREAM_PIPELINE_REQUEST : Z := 2.
Definition FSW_HTTP2_STREAM_PIPELINE_RESPONSE : Z := 4.

Definition FSW_HTTP2_SETTING_HEADER_TABLE_SIZE : Z := 1.
Definition FSW_HTTP2_SETTINGS_MAX_CONCURRENT_STREAMS : Z := 3.
Definition FSW_HTTP2_SETTINGS_INIT_WINDOW_SIZE : Z := 4.
Definition FSW_HTTP2_SETTINGS_MAX_FRAME_SIZE : Z := 5.
Definition FSW_HTTP2_SETTINGS_MAX_HEADER_LIST_SIZE : Z := 6.

(** ** Data *)

(** [class Frame]; [payload] is the offset of the payload in its region, and
    the stream a frame belongs to is kept by the client. *)
Record frame := mkFrame {
  payload : Z;
  payload_length : Z;
  type : Z;
  flags : Z;
  stream_id : Z
}.

Record settings := mkSettings {
  header_table_size : Z;
  window_size : Z;
  max_concurrent_streams : Z;
  max_frame_size : Z;
  max_header_list_size : Z
}.

Module Settings.
Definition set_header_table_size (v : Z) (s : settings) : settings :=
  mkSettings v (window_size s) (max_concurrent_streams s) (max_frame_size s) (max_header_list_size s).
Definition set_window_size (v : Z) (s : settings) : settings :=
  mkSettings (header_table_size s) v (max_concurrent_streams s) (max_frame_size s) (max_header_list_size s).
Definition set_max_concurrent_streams (v : Z) (s : settings) : settings :=
  mkSettings (header_table_size s) (window_size s) v (max_frame_size s) (max_header_list_size s).
Definition set_max_frame_size (v : Z) (s : settings) : settings :=
  mkSettings (header_table_size s) (window_size s) (max_concurrent_streams s) v (max_header_list_size s).
Definition set_max_header_list_size (v : Z) (s : settings) : settings :=
  mkSettings (header_table_size s) (window_size s) (max_concurrent_streams s) (max_frame_size s) v.

(** [init_settings_local_settings] and [init_settings_remote_settings] *)
Definition init : settings :=
  mkSettings FSW_HTTP2_DEFAULT_HEADER_TABLE_SIZE FSW_HTTP2_DEFAULT_WINDOW_SIZE
    FSW_HTTP2_MAX_MAX_CONCURRENT_STREAMS FSW_HTTP2_MAX_MAX_FRAME_SIZE FSW_HTTP2_DEFAULT_MAX_HEADER_LIST_SIZE.
End Settings.

Module Codec.

(** [set_frame_header(buffer, type, length, flags, stream_id)] *)
Definition set_frame_header (buffer : bytes) (type length flags stream_id : Z) : outcome bytes :=
  buffer ← mem_write buffer 0 [u8 (Z.shiftr length 16); u8 (Z.shiftr length 8); u8 length; u8 type; u8 flags];
  mem_write buffer 5 (le_store 4 (htonl stream_id)).

(** [build_frame_header(frame)], in front of the payload. *)
Definition build_frame_header (mem : bytes) (f : frame) : outcome bytes :=
  let buf := payload f - FSW_HTTP2_FRAME_HEADER_SIZE in
  mem ← mem_write mem buf [u8 (Z.shiftr (payload_length f) 16); u8 (Z.shiftr (payload_length f) 8);
    u8 (payload_length f); type f; flags f];
  mem_write mem (buf + 5) (le_store 4 (htonl (stream_id f))).

(** [get_payload_length(buf)] *)
Definition get_payload_length (buf : bytes) : outcome Z :=
  b0 ← mem_get buf 0; b1 ← mem_get buf 1; b2 ← mem_get buf 2;
  Ok (Z.shiftl b0 16 + Z.shiftl b1 8 + b2).

(** The fields [recv_frame] reads from the region [buf]. *)
Definition fetch_frame (buf : bytes) (payload_length : Z) : outcome frame :=
  type ← mem_get buf 3;
  flags ← mem_get buf 4;
  w ← mem_read buf 5 4;
  let stream_id := Z.land (ntohl (le_load w)) 0x7fffffff in
  Ok (mkFrame FSW_HTTP2_FRAME_HEADER_SIZE payload_length type flags stream_id).

(** One setting stored at [p]. *)
Definition put_setting (mem : bytes) (p id value : Z) : outcome bytes :=
  mem ← mem_write mem p (le_store 2 (htons id));
  mem_write mem (p + 2) (le_store 4 (htonl value)).

(** [build_setting_frame(frame)], in the array of the write buffer. *)
Definition build_setting_frame (local_settings : settings) (mem : bytes) : outcome (frame * bytes) :=
  let f := mkFrame FSW_HTTP2_FRAME_HEADER_SIZE (3 * 6) FSW_HTTP2_TYPE_SETTINGS 0 0 in
  mem ← build_frame_header mem f;
  let p := payload f in
  mem ← put_setting mem p FSW_HTTP2_SETTING_HEADER_TABLE_SIZE (header_table_size local_settings);
  let p := p + 2 + 4 in
  mem ← put_setting mem p FSW_HTTP2_SETTINGS_MAX_CONCURRENT_STREAMS (max_concurrent_streams local_settings);
  let p := p + 2 + 4 in
  mem ← put_setting mem p FSW_HTTP2_SETTINGS_INIT_WINDOW_SIZE (window_size local_settings);
  Ok (f, mem).

Section parsing.
(** The compressor of nghttp2: [nghttp2_hd_deflate_change_table_size]. *)
Context {D : Type}.
Variable change_table_size : D → Z → Z * D.

(** The body of the loop for one setting; the result is [FSW_ERR] when the
    first component is false. *)
Definition set_setting (id value : Z) (d : D) (remote : settings) : bool * D * settings :=
  if id =? FSW_HTTP2_SETTING_HEADER_TABLE_SIZE then
    if negb (value =? header_table_size remote) then
      let remote := Settings.set_header_table_size value remote in
      let '(ret, d) := change_table_size d value in
      (ret =? 0, d, remote)
    else (true, d, remote)
  else if id =? FSW_HTTP2_SETTINGS_MAX_CONCURRENT_STREAMS then
    (true, d, Settings.set_max_concurrent_streams value remote)
  else if id =? FSW_HTTP2_SETTINGS_INIT_WINDOW_SIZE then (true, d, Settings.set_window_size value remote)
  else if id =? FSW_HTTP2_SETTINGS_MAX_FRAME_SIZE then (true, d, Settings.set_max_frame_size value remote)
  else if id =? FSW_HTTP2_SETTINGS_MAX_HEADER_LIST_SIZE then (true, d, Settings.set_max_header_list_size value remote)
  else (true, d, remote).

(** The loop of [parse_setting_frame]; [None] is fuel exhausted. It returns
    the last value and whether it got to the end. *)
Fixpoint parse_settings (fuel : nat) (mem : bytes) (buf payload_length value : Z) (d : D) (remote : settings) :
    option (outcome (Z * bool * D * settings)) :=
  if payload_length <=? 0 then Some (Ok (value, true, d, remote))
  else match fuel with
  | O => None
  | S fuel =>
      match (w ← mem_read mem buf 2; v ← mem_read mem (buf + 2) 4; Ok (ntohs (le_load w), ntohl (le_load v))) with
      | Ok (id, value) =>
          let '(ok, d, remote) := set_setting id value d remote in
          if negb ok then Some (Ok (value, false, d, remote))
          else parse_settings fuel mem (buf + 6) (payload_length - 6) value d remote
      | Exit => Some Exit
      | UB => Some UB
      end
  end.

End parsing.
End Codec.

(** ** The layout of the protocol (RFC 9113, sections 4.1 and 6.5) *)
Module Rfc9113.

(** Length, type, flags and stream of a frame. *)
Definition frame_header (length type flags id : Z) : bytes :=
  be_store 3 length ++ [type; flags] ++ be_store 4 id.

Definition setting (x : Z * Z) : bytes := be_store 2 x.1 ++ be_store 4 x.2.

(** The settings of a peer after one more. *)
Definition update (s : settings) (x : Z * Z) : settings :=
  match x.1 with
  | 1 => Settings.set_header_table_size x.2 s
  | 3 => Settings.set_max_concurrent_streams x.2 s
  | 4 => Settings.set_window_size x.2 s
  | 5 => Settings.set_max_frame_size x.2 s
  | 6 => Settings.set_max_header_list_size x.2 s
  | _ => s
  end.

End Rfc9113.

Module CodecFacts.
Import Codec.

Lemma header_image length type flags id :
  [u8 (Z.shiftr length 16); u8 (Z.shiftr length 8); u8 length; type; flags] ++ le_store 4 (htonl id) =
  Rfc9113.frame_header length type flags id.
Proof.
  unfold Rfc9113.frame_header. rewrite store_htonl. rewrite !Z.shiftr_div_pow2 by lia. unfold u8.
  change (be_store 3 length) with [(length / 256 / 256) mod 256; (length / 256) mod 256; length mod 256].
  rewrite Z.div_div by lia. done.
Qed.

(** Two stores next to each other are one. *)
Lemma mem_write_two a b c x y n k :
  n = zlen a → k = zlen a + zlen x → zlen b = zlen x + zlen y →
  (m ← mem_write (a ++ b ++ c) n x; mem_write m k y) = Ok (a ++ (x ++ y) ++ c).
Proof.
  intros -> -> Hb. pose proof (zlen_nonneg x). pose proof (zlen_nonneg y).
  rewrite <- (take_drop (length x) b), <- app_assoc.
  rewrite mem_write_split by (unfold zlen in *; rewrite length_take; lia). rewrite outcome_bind_ok.
  rewrite app_assoc, <- (zlen_app a x), mem_write_split by (unfold zlen in *; rewrite length_drop; lia).
  by rewrite <- !app_assoc.
Qed.

Lemma zlen_frame_header length type flags id : zlen (Rfc9113.frame_header length type flags id) = 9.
Proof. done. Qed.

Lemma build_frame_header_ok a old c f :
  zlen a = payload f - 9 → zlen old = 9 →
  build_frame_header (a ++ old ++ c) f =
    Ok (a ++ Rfc9113.frame_header (payload_length f) (type f) (flags f) (stream_id f) ++ c).
Proof.
  intros Ha Ho. unfold build_frame_header, FSW_HTTP2_FRAME_HEADER_SIZE. cbv zeta. rewrite <- Ha, <- header_image.
  apply (mem_write_two a old c); [done|done|]. rewrite Ho. done.
Qed.

Lemma set_frame_header_ok old c type length flags id :
  zlen old = 9 → is_byte type → is_byte flags →
  set_frame_header (old ++ c) type length flags id = Ok (Rfc9113.frame_header length type flags id ++ c).
Proof.
  intros Ho Ht Hf. unfold set_frame_header. rewrite (u8_id type), (u8_id flags) by done. rewrite <- header_image.
  apply (mem_write_two [] old c); [done|done|]. rewrite Ho. done.
Qed.

(** Reading a header back. *)
Lemma get_payload_length_ok length type flags id c :
  0 ≤ length < 2 ^ 24 → get_payload_length (Rfc9113.frame_header length type flags id ++ c) = Ok length.
Proof.
  intros Hl. unfold Rfc9113.frame_header.
  change (be_store 3 length) with [(length / 256 / 256) mod 256; (length / 256) mod 256; length mod 256].
  unfold get_payload_length, mem_get. cbn [app lookup list_lookup]. change (0 <=? 0) with true. change (0 <=? 1) with true.
  change (0 <=? 2) with true. cbv iota. change (Z.to_nat 0) with 0%nat. change (Z.to_nat 1) with 1%nat.
  change (Z.to_nat 2) with 2%nat. cbn [lookup list_lookup]. rewrite !outcome_bind_ok. f_equal.
  rewrite !Z.shiftl_mul_pow2 by lia. Z.div_mod_to_equations. lia.
Qed.

Lemma fetch_frame_ok length type flags id c n :
  0 ≤ id < 2 ^ 31 →
  fetch_frame (Rfc9113.frame_header length type flags id ++ c) n = Ok (mkFrame 9 n type flags id).
Proof.
  intros Hid. unfold fetch_frame.
  assert (Hw : mem_read (Rfc9113.frame_header length type flags id ++ c) 5 4 = Ok (be_store 4 id)).
  { unfold Rfc9113.frame_header. rewrite app_assoc, <- app_assoc. by apply (mem_read_split (be_store 3 length ++ [type; flags])). }
  rewrite Hw. unfold Rfc9113.frame_header.
  change (be_store 3 length) with [(length / 256 / 256) mod 256; (length / 256) mod 256; length mod 256].
  unfold mem_get. change (0 <=? 3) with true. change (0 <=? 4) with true. cbv iota.
  change (Z.to_nat 3) with 3%nat. change (Z.to_nat 4) with 4%nat. cbn [app lookup list_lookup].
  rewrite !outcome_bind_ok. cbv zeta. f_equal. f_equal.
  rewrite ntohl_load by (auto using length_be_store with fsw). rewrite be_load_store.
  change (256 ^ Z.of_nat 4) with (2 ^ 32). rewrite Z.mod_small by lia.
  change 0x7fffffff with (Z.ones 31). rewrite Z.land_ones by lia. apply Z.mod_small. lia.
Qed.

(** ** Settings *)
Lemma zlen_setting x : zlen (Rfc9113.setting x) = 6.
Proof. done. Qed.

Lemma put_setting_ok a old c id value :
  zlen old = 6 → put_setting (a ++ old ++ c) (zlen a) id value = Ok (a ++ Rfc9113.setting (id, value) ++ c).
Proof.
  intros Ho. unfold put_setting. rewrite store_htons, store_htonl.
  apply (mem_write_two a old c); [done|done|]. rewrite Ho. done.
Qed.

Definition entry_ok (x : Z * Z) : Prop := 0 ≤ x.1 < 2 ^ 16 ∧ 0 ≤ x.2 < 2 ^ 32.

Lemma read_setting a x c :
  entry_ok x →
  (w ← mem_read (a ++ Rfc9113.setting x ++ c) (zlen a) 2; v ← mem_read (a ++ Rfc9113.setting x ++ c) (zlen a + 2) 4;
   Ok (ntohs (le_load w), ntohl (le_load v))) = Ok x.
Proof.
  intros [H1 H2]. destruct x as [id value]. cbn [fst snd] in *. unfold Rfc9113.setting. cbn [fst snd].
  rewrite <- app_assoc.
  rewrite (mem_read_split a (be_store 2 id)) by done. rewrite outcome_bind_ok.
  replace (zlen a + 2) with (zlen (a ++ be_store 2 id)) by (rewrite zlen_app; done).
  rewrite app_assoc, (mem_read_split (a ++ be_store 2 id) (be_store 4 value)) by done. rewrite outcome_bind_ok.
  rewrite ntohs_load, ntohl_load by (auto using length_be_store with fsw). rewrite !be_load_store.
  change (256 ^ Z.of_nat 2) with (2 ^ 16). change (256 ^ Z.of_nat 4) with (2 ^ 32).
  by rewrite !Z.mod_small by lia.
Qed.

(** The frame the client sends at the start of a connection. *)
Lemma build_setting_frame_ok own old c :
  zlen old = 27 →
  ∃ f, build_setting_frame own (old ++ c) = Ok (f, Rfc9113.frame_header 18 FSW_HTTP2_TYPE_SETTINGS 0 0 ++
      ([(1, header_table_size own); (3, max_concurrent_streams own); (4, window_size own)] ≫= Rfc9113.setting) ++ c) ∧
    f = mkFrame 9 18 FSW_HTTP2_TYPE_SETTINGS 0 0.
Proof.
  intros Ho. eexists. split; [|reflexivity].
  assert (Hs : ∃ o1 o2 o3 o4, old = o1 ++ o2 ++ o3 ++ o4 ∧ zlen o1 = 9 ∧ zlen o2 = 6 ∧ zlen o3 = 6 ∧ zlen o4 = 6).
  { exists (take 9 old), (take 6 (drop 9 old)), (take 6 (drop 15 old)), (drop 21 old).
    split_and!; try (unfold zlen in *; rewrite ?length_take, ?length_drop; lia).
    change 21%nat with (15 + 6)%nat. rewrite <- (drop_drop old 6 15), take_drop.
    change 15%nat with (9 + 6)%nat. by rewrite <- (drop_drop old 6 9), !take_drop. }
  destruct Hs as (o1 & o2 & o3 & o4 & -> & H1 & H2 & H3 & H4). rewrite <- !app_assoc.
  unfold build_setting_frame. cbv zeta. cbn [payload].
  pose proof (build_frame_header_ok [] o1 (o2 ++ o3 ++ o4 ++ c) (mkFrame 9 18 FSW_HTTP2_TYPE_SETTINGS 0 0) eq_refl H1) as Hb.
  cbn [app payload_length type flags stream_id] in Hb. change (3 * 6) with 18. change FSW_HTTP2_FRAME_HEADER_SIZE with 9.
  rewrite Hb, outcome_bind_ok. clear Hb.
  set (h := Rfc9113.frame_header _ _ _ _).
  change 9 with (zlen h). rewrite put_setting_ok, outcome_bind_ok by done.
  set (s1 := Rfc9113.setting _).
  replace (zlen h + 2 + 4) with (zlen (h ++ s1)) by done. rewrite app_assoc, put_setting_ok, outcome_bind_ok by done.
  set (s2 := Rfc9113.setting (FSW_HTTP2_SETTINGS_MAX_CONCURRENT_STREAMS, _)).
  replace (zlen (h ++ s1) + 2 + 4) with (zlen ((h ++ s1) ++ s2)) by done.
  rewrite app_assoc, put_setting_ok, outcome_bind_ok by done. rewrite <- !app_assoc. done.
Qed.

Section parsing.
Context {D : Type} (change_table_size : D → Z → Z * D).
Context (Hok : ∀ d v, (change_table_size d v).1 = 0).

Lemma set_setting_ok id value d remote :
  ∃ d', set_setting change_table_size id value d remote = (true, d', Rfc9113.update remote (id, value)).
Proof.
  unfold set_setting, Rfc9113.update. cbn [fst snd]. unfold FSW_HTTP2_SETTING_HEADER_TABLE_SIZE,
    FSW_HTTP2_SETTINGS_MAX_CONCURRENT_STREAMS, FSW_HTTP2_SETTINGS_INIT_WINDOW_SIZE,
    FSW_HTTP2_SETTINGS_MAX_FRAME_SIZE, FSW_HTTP2_SETTINGS_MAX_HEADER_LIST_SIZE.
  destruct (id =? 1) eqn:E1; zify_bools; [subst id|].
  { destruct (value =? header_table_size remote) eqn:E; zify_bools; cbn [negb].
    - exists d. subst value. by destruct remote.
    - pose proof (Hok d value) as H. destruct (change_table_size d value) as [r d']. cbn [fst] in H. subst r. by exists d'. }
  destruct (id =? 3) eqn:E3; zify_bools; [subst id; by exists d|].
  destruct (id =? 4) eqn:E4; zify_bools; [subst id; by exists d|].
  destruct (id =? 5) eqn:E5; zify_bools; [subst id; by exists d|].
  destruct (id =? 6) eqn:E6; zify_bools; [subst id; by exists d|].
  exists d. destruct id as [|p|]; try done. do 3 (destruct p; try done).
Qed.

Lemma parse_settings_ok es : ∀ fuel a c value d remote,
  Forall entry_ok es → (length es ≤ fuel)%nat →
  ∃ value' d', parse_settings change_table_size fuel (a ++ (es ≫= Rfc9113.setting) ++ c) (zlen a) (6 * zlen es) value d remote =
    Some (Ok (value', true, d', foldl Rfc9113.update remote es)).
Proof.
  induction es as [|x es IH]; intros fuel a c value d remote Hes Hf.
  - exists value, d. by destruct fuel.
  - apply Forall_cons_1 in Hes as [Hx Hes]. cbn [length] in Hf. destruct fuel as [|fuel]; [lia|].
    cbn [parse_settings]. rewrite zlen_cons. pose proof (zlen_nonneg es).
    rewrite (proj2 (Z.leb_gt _ _)) by lia.
    change ((x :: es) ≫= Rfc9113.setting) with (Rfc9113.setting x ++ (es ≫= Rfc9113.setting)). rewrite <- app_assoc.
    rewrite read_setting by done. destruct x as [id v].
    destruct (set_setting_ok id v d remote) as (d1 & ->). cbn [negb].
    replace (zlen a + 6) with (zlen (a ++ Rfc9113.setting (id, v))) by (rewrite zlen_app, zlen_setting; done).
    replace (6 * (zlen es + 1) - 6) with (6 * zlen es) by lia.
    rewrite app_assoc. cbn [foldl]. apply IH; [done|lia].
Qed.

End parsing.
End CodecFacts.

(** ** Properties *)

(** C37: the header the client writes in front of a payload, by either of its
    two writers, is the one of RFC 9113, for every frame whose length fits 24
    bits and whose stream fits 31, and reading it back gives the frame. Bytes
    behind it are untouched. *)
Theorem frame_header_roundtrip (f : frame) (old c : bytes) :
  payload f = FSW_HTTP2_FRAME_HEADER_SIZE → 0 ≤ payload_length f < 2 ^ 24 → is_byte (type f) → is_byte (flags f) →
  0 ≤ stream_id f < 2 ^ 31 → zlen old = 9 →
  ∃ mem, Codec.build_frame_header (old ++ c) f = Ok mem ∧
    Codec.set_frame_header (old ++ c) (type f) (payload_length f) (flags f) (stream_id f) = Ok mem ∧
    mem = Rfc9113.frame_header (payload_length f) (type f) (flags f) (stream_id f) ++ c ∧
    Codec.get_payload_length mem = Ok (payload_length f) ∧ Codec.fetch_frame mem (payload_length f) = Ok f.
Proof.
  intros Hp Hl Ht Hf Hid Ho. eexists. split; [|split; [|split; [reflexivity|split]]].
  - apply (CodecFacts.build_frame_header_ok [] old c f); [rewrite Hp; done|done].
  - by apply CodecFacts.set_frame_header_ok.
  - by apply CodecFacts.get_payload_length_ok.
  - rewrite CodecFacts.fetch_frame_ok by done. destruct f. cbn in *. by rewrite Hp.
Qed.

Section settings_properties.
Context {D : Type} (change_table_size : D → Z → Z * D).

(** Settings. When the compressor accepts the table sizes, the client
    applies every setting of a frame in order, the last value of a setting
    winning and unknown ones ignored, reads nothing but the payload, and
    terminates. In particular, when it reads the settings frame that it sends
    itself, the remote settings take the three local values in it. *)
Theorem settings_applied_in_order (es : list (Z * Z)) (header c : bytes) (value : Z) (d : D) (remote : settings) (fuel : nat) :
  (∀ d v, (change_table_size d v).1 = 0) →
  Forall CodecFacts.entry_ok es → zlen header = FSW_HTTP2_FRAME_HEADER_SIZE → (length es ≤ fuel)%nat →
  let parse mem n := Codec.parse_settings change_table_size fuel mem FSW_HTTP2_FRAME_HEADER_SIZE n value d remote in
  (∃ value' d', parse (header ++ (es ≫= Rfc9113.setting) ++ c) (6 * zlen es) =
     Some (Ok (value', true, d', foldl Rfc9113.update remote es))) ∧
  (∀ own old, CodecFacts.entry_ok (1, header_table_size own) → CodecFacts.entry_ok (3, max_concurrent_streams own) →
     CodecFacts.entry_ok (4, window_size own) → zlen old = 27 → (3 ≤ fuel)%nat →
     ∃ f mem value' d', Codec.build_setting_frame own (old ++ c) = Ok (f, mem) ∧
       Codec.get_payload_length mem = Ok (payload_length f) ∧ Codec.fetch_frame mem (payload_length f) = Ok f ∧
       type f = FSW_HTTP2_TYPE_SETTINGS ∧
       parse mem (payload_length f) = Some (Ok (value', true, d',
         mkSettings (header_table_size own) (window_size own) (max_concurrent_streams own)
           (max_frame_size remote) (max_header_list_size remote)))).
Proof.
  intros Hok Hes Hh Hf parse. split.
  - destruct (CodecFacts.parse_settings_ok change_table_size Hok es fuel header c value d remote Hes Hf)
      as (v' & d' & H). exists v', d'. unfold parse. by rewrite <- Hh.
  - intros own old H1 H3 H4 Ho Hf3. destruct (CodecFacts.build_setting_frame_ok own old c Ho) as (f & -> & Ef).
    set (own_es := [(1, header_table_size own); (3, max_concurrent_streams own); (4, window_size own)]).
    set (h := Rfc9113.frame_header _ _ _ _).
    destruct (CodecFacts.parse_settings_ok change_table_size Hok own_es fuel h c value d remote)
      as (v' & d' & H); [by repeat apply Forall_cons_2|done|].
    exists f, (h ++ (own_es ≫= Rfc9113.setting) ++ c), v', d'. subst f. split_and!; [done| | |done|exact H].
    + by apply CodecFacts.get_payload_length_ok.
    + by apply CodecFacts.fetch_frame_ok.
Qed.
End settings_properties.

Definition data_frame : frame := mkFrame 9 70000 FSW_HTTP2_TYPE_DATA FSW_HTTP2_FLAG_END_STREAM 2147483647.

Lemma frame_header_roundtrip_witness :
  ∃ mem, Codec.build_frame_header (replicate 9 7 ++ [42]) data_frame = Ok mem ∧
    mem = [1; 17; 112; 0; 1; 127; 255; 255; 255; 42] ∧ Codec.fetch_frame mem 70000 = Ok data_frame.
Proof.
  destruct (frame_header_roundtrip data_frame (replicate 9 7) [42]) as (mem & H1 & _ & H2 & _ & H3);
    [reflexivity|cbn; lia|cbn; unfold is_byte, FSW_HTTP2_TYPE_DATA; lia|cbn; unfold is_byte, FSW_HTTP2_FLAG_END_STREAM; lia
    |cbn; lia|reflexivity|].
  exists mem. split; [exact H1|]. split; [|exact H3]. rewrite H2. vm_compute. reflexivity.
Defined.

Lemma settings_applied_in_order_witness :
  ∃ value' d', Codec.parse_settings (λ (d : Z) v, (0, v)) 2 (replicate 9 0 ++ [0; 5; 0; 0; 64; 1; 0; 9; 0; 0; 0; 1])
    9 12 0 4096 Settings.init = Some (Ok (value', true, d', Settings.set_max_frame_size 16385 Settings.init)).
Proof.
  destruct (settings_applied_in_order (λ (d : Z) v, (0, v)) [(5, 16385); (9, 1)] (replicate 9 0) [] 0 4096 Settings.init 2)
    as [(v' & d' & H) _]; [done| |done|done|exists v', d'; exact H].
  repeat apply Forall_cons_2; [split; cbn; lia..|constructor].
Defined.
