(* ===== verification/Http2Client.v ===== *)
(** * Http2Client: the HTTP/2 client
    (include/coroutine_http2.h, include/coroutine_http2_client.h,
    src/coroutine/http2/http2.cc, src/coroutine/http2/client.cc)

    The header compression of nghttp2 is a parameter: [D] and [I] are its
    deflater and inflater. Streams are objects of a heap that the map of the
    client and the frames point to. *)

From S2P Require Import Prelude Words CString Buffer StdMap CoSocket Http2Frame.
From stdpp Require Import gmap.
#[local] Open Scope Z_scope.

Definition FSW_HTTP2_PRI_STRING : bytes :=
  str "PRI * HTTP/2.0" ++ [13; 10; 13; 10] ++ str "SM" ++ [13; 10; 13; 10].
Definition FSW_HTTP2_MAX_STATUS_LINE_NUM : Z := 8.
Definition FSW_STACK_BUFFER_SIZE : Z := 65536.
Definition FSW_OK : Z := 0.
Definition FSW_ERR : Z := -1.

Inductive fswReturn_code := FSW_CONTINUE | FSW_WAIT | FSW_CLOSE | FSW_ERROR | FSW_READY.
#[global] Instance fswReturn_code_eq_dec : EqDecision fswReturn_code.
Proof. solve_decision. Defined.

(** ** Data *)

(** [nghttp2_nv] *)
Record nv := mkNv { nv_name : bytes; nv_value : bytes; nv_flags : Z }.

(** [class Headers]: the array [nvs] of [size] entries, and [index]. *)
Record headers := mkHeaders { nvs : list (option nv); index : Z }.

(** [class Request]; [rq_body] is the array [body] points to, if any. *)
Record request := mkRequest {
  rq_method : bytes;
  rq_path : bytes;
  path_len : Z;
  rq_body : option bytes;
  rq_body_length : Z;
  pipeline : bool;
  rq_header : stdmap bytes
}.

Record response := mkResponse {
  rs_stream_id : Z;
  rs_body : bytes;
  rs_body_length : Z;
  status_code : Z;
  err_code : Z;
  rs_header : stdmap bytes
}.

Record h2stream := mkStream {
  st_id : Z;
  st_flags : Z;
  st_buffer : option buffer;
  st_response : response;
  remote_window_size : Z;
  local_window_size : Z
}.

(** [class Client]. [heap] holds the streams ever made, [None] for a deleted
    one; [buffer_stack] is the array of the global scratch buffer. *)
Record client (D I : Type) := mkClient {
  sock : option cosocket;
  local_settings : settings;
  remote_settings : settings;
  inflater : I;
  deflater : D;
  next_stream_id : Z;      (** [stream_id] *)
  last_stream_id : Z;
  streams : gmap Z nat;
  heap : list (option h2stream);
  buffer_stack : bytes
}.
Arguments mkClient {D I} _ _ _ _ _ _ _ _ _ _.
Arguments sock {D I} _.
Arguments local_settings {D I} _.
Arguments remote_settings {D I} _.
Arguments inflater {D I} _.
Arguments deflater {D I} _.
Arguments next_stream_id {D I} _.
Arguments last_stream_id {D I} _.
Arguments streams {D I} _.
Arguments heap {D I} _.
Arguments buffer_stack {D I} _.

Module Resp.
Definition set_body (b : bytes) (r : response) : response :=
  mkResponse (rs_stream_id r) b (rs_body_length r) (status_code r) (err_code r) (rs_header r).
Definition set_status (z e : Z) (r : response) : response :=
  mkResponse (rs_stream_id r) (rs_body r) (rs_body_length r) z e (rs_header r).
Definition set_header (h : stdmap bytes) (r : response) : response :=
  mkResponse (rs_stream_id r) (rs_body r) (rs_body_length r) (status_code r) (err_code r) h.
End Resp.

Module Stream.
(** [Stream(stream_id, pipeline)]; [r] is what the response holds. *)
Definition make (stream_id : Z) (pipeline : bool) (r : response) : h2stream :=
  mkStream stream_id (if pipeline then FSW_HTTP2_STREAM_PIPELINE_REQUEST else FSW_HTTP2_STREAM_NORMAL)
    None r FSW_HTTP2_DEFAULT_WINDOW_SIZE FSW_HTTP2_DEFAULT_WINDOW_SIZE.

Definition set_flags (z : Z) (s : h2stream) : h2stream :=
  mkStream (st_id s) z (st_buffer s) (st_response s) (remote_window_size s) (local_window_size s).
Definition set_buffer (b : buffer) (s : h2stream) : h2stream :=
  mkStream (st_id s) (st_flags s) (Some b) (st_response s) (remote_window_size s) (local_window_size s).
Definition set_response (r : response) (s : h2stream) : h2stream :=
  mkStream (st_id s) (st_flags s) (st_buffer s) r (remote_window_size s) (local_window_size s).
Definition set_local_window (z : Z) (s : h2stream) : h2stream :=
  mkStream (st_id s) (st_flags s) (st_buffer s) (st_response s) (remote_window_size s) z.
End Stream.

Module Headers.
(** [Headers(size)]: [calloc] leaves null entries. *)
Definition make (size : nat) : headers := mkHeaders (replicate size None) 0.
Definition get (h : headers) : list (option nv) := nvs h.
Definition len (h : headers) : Z := index h.
Definition reserve_one (h : headers) : headers := mkHeaders (nvs h) (index h + 1).

(** [add(index, name, name_len, value, value_len, flags)]: [name] and [value]
    are the regions the pointers point into. *)
Definition add_at (i : Z) (name : bytes) (name_len : Z) (value : bytes) (value_len flags : Z) (h : headers) : outcome headers :=
  if (0 <=? i) && (i <? zlen (nvs h)) then
    n ← mem_read name 0 name_len;
    v ← mem_read value 0 value_len;
    Ok (mkHeaders (<[Z.to_nat i := Some (mkNv n v (Z.lor flags 6))]> (nvs h)) (index h))
  else UB.

Definition add (name : bytes) (name_len : Z) (value : bytes) (value_len : Z) (h : headers) : outcome headers :=
  add_at (index h) name name_len value value_len 0 (mkHeaders (nvs h) (index h + 1)).
End Headers.

(** [FSW_STRL(s)] of a literal, and of a [const char *]: the size of a pointer. *)
Definition strl_literal (s : bytes) : Z := zlen s.
Definition strl_pointer : Z := 8 - 1.

Module Client.
Section client.
Context {D I : Type}.
Implicit Types (c : client D I).

Definition set_sock (s : cosocket) c : client D I :=
  mkClient (Some s) (local_settings c) (remote_settings c) (inflater c) (deflater c) (next_stream_id c)
    (last_stream_id c) (streams c) (heap c) (buffer_stack c).
Definition set_local (s : settings) c : client D I :=
  mkClient (sock c) s (remote_settings c) (inflater c) (deflater c) (next_stream_id c)
    (last_stream_id c) (streams c) (heap c) (buffer_stack c).
Definition set_remote (s : settings) (d : D) c : client D I :=
  mkClient (sock c) (local_settings c) s (inflater c) d (next_stream_id c)
    (last_stream_id c) (streams c) (heap c) (buffer_stack c).
Definition set_inflater (i : I) c : client D I :=
  mkClient (sock c) (local_settings c) (remote_settings c) i (deflater c) (next_stream_id c)
    (last_stream_id c) (streams c) (heap c) (buffer_stack c).
Definition set_deflater (d : D) c : client D I := set_remote (remote_settings c) d c.
Definition set_ids (next last : Z) c : client D I :=
  mkClient (sock c) (local_settings c) (remote_settings c) (inflater c) (deflater c) next last
    (streams c) (heap c) (buffer_stack c).
Definition set_streams (m : gmap Z nat) (h : list (option h2stream)) c : client D I :=
  mkClient (sock c) (local_settings c) (remote_settings c) (inflater c) (deflater c) (next_stream_id c)
    (last_stream_id c) m h (buffer_stack c).
Definition set_stack (b : bytes) c : client D I :=
  mkClient (sock c) (local_settings c) (remote_settings c) (inflater c) (deflater c) (next_stream_id c)
    (last_stream_id c) (streams c) (heap c) b.

(** [Client()], with the coders nghttp2 returned. *)
Definition make (i : I) (d : D) (stack : bytes) : client D I :=
  mkClient None Settings.init Settings.init i d 1 0 ∅ [] stack.

(** ** Streams *)
Definition get_stream (stream_id : Z) c : option nat := streams c !! stream_id.

(** [*p] of a pointer to a stream. *)
Definition deref (p : option nat) c : outcome h2stream :=
  match p ≫= (heap c !!.) with Some (Some st) => Ok st | _ => UB end.

Definition update_stream (p : option nat) (f : h2stream → h2stream) c : client D I :=
  match p with
  | Some p => set_streams (streams c) (alter (fmap f) p (heap c)) c
  | None => c
  end.

(** [new Stream], and [streams.emplace]: it leaves an entry of the key. *)
Definition new_stream (st : h2stream) c : nat * client D I :=
  (length (heap c), set_streams (streams c) (heap c ++ [Some st]) c).
Definition emplace (stream_id : Z) (p : nat) c : client D I :=
  match streams c !! stream_id with
  | Some _ => c
  | None => set_streams (<[stream_id := p]> (streams c)) (heap c) c
  end.

(** [delete_stream(stream_id)] with [destroy_stream]. *)
Definition delete_stream (stream_id : Z) c : bool * client D I :=
  match streams c !! stream_id with
  | None => (false, c)
  | Some p => (true, set_streams (delete stream_id (streams c)) (<[p := None]> (heap c)) c)
  end.

(** ** Sending *)

(** [send(buf, len)]: [buf] is the region; [send_all] consumes an answer of the
    script at each turn, so the fuel is enough. *)
Definition send (buf : bytes) (len : Z) c : outcome (bool * client D I) :=
  match sock c with
  | None => UB
  | Some s =>
      match CoSocket.send_all (S (S (length (tx (sk s))))) (sk s) buf len with
      | Some r => '(ret, k) ← r; Ok (ret =? i64 len, set_sock (CoSocket.set_sk k s) c)
      | None => UB
      end
  end.

(** [send_frame(frame)], whose payload lies in [mem]. *)
Definition send_frame (mem : bytes) (f : frame) c : outcome (bool * client D I) :=
  send (drop (Z.to_nat (payload f - FSW_HTTP2_FRAME_HEADER_SIZE)) mem)
    (FSW_HTTP2_FRAME_HEADER_SIZE + payload_length f) c.

(** [connect(host, port)]: [made] is the new socket and [pton] what
    [inet_pton] returns. *)
Definition connect (made : cosocket) (pton : Z) c : outcome (bool * client D I) :=
  match sock c with
  | Some _ => Ok (true, c)
  | None =>
      match CoSocket.connect_host (S (length (calls (sk made)))) pton made with
      | None => UB
      | Some r =>
          '(ok, s) ← r;
          let c := set_sock s c in
          if negb ok then Ok (false, c)
          else
            '(ok, c) ← send FSW_HTTP2_PRI_STRING (strl_literal FSW_HTTP2_PRI_STRING) c;
            if negb ok then Ok (false, c)
            else match sock c with
            | None => UB
            | Some s =>
                let '(b, s) := CoSocket.get_write_buf s in
                '(f, mem) ← Codec.build_setting_frame (local_settings c) (_buffer b);
                let c := set_sock (CoSocket.set_write_buf (mkBuffer (_size b) (_length b) mem) s) c in
                send_frame mem f c
            end
      end
  end.

(** nghttp2: the bound of an encoding, the encoder (result, bytes written, new
    state), the table size, the decoder (result, header emitted, whether it is
    the last, new state) and its end. *)
Variable deflate_bound : D → list nv → Z.
Variable deflate_hd : D → Z → list nv → Z * bytes * D.
Variable change_table_size : D → Z → Z * D.
Variable inflate_hd : I → bytes → Z * option (bytes * bytes) * bool * I.
Variable inflate_end_headers : I → I.
(** What an uninitialised response and the array of the acknowledgement hold. *)
Variable fresh_response : response.
Variable ack_buf : bytes.

(** The loop of [build_http_header] over the headers of the request. *)
Fixpoint add_request_headers (l : stdmap bytes) (h : headers) : outcome headers :=
  match l with
  | [] => Ok h
  | (first, second) :: l =>
      h ← Headers.add (first ++ [0]) strl_pointer (second ++ [0]) strl_pointer h;
      add_request_headers l h
  end.

(** The header list of a request. *)
Definition request_headers (req : request) : outcome headers :=
  let h := Headers.make (Z.to_nat (FSW_HTTP2_MAX_STATUS_LINE_NUM + zlen (rq_header req))) in
  h ← Headers.add (str ":method") (strl_literal (str ":method")) (rq_method req ++ [0]) (zlen (rq_method req)) h;
  h ← Headers.add (str ":path") (strl_literal (str ":path")) (rq_path req ++ [0]) (zlen (rq_path req)) h;
  h ← Headers.add (str ":scheme") (strl_literal (str ":scheme")) (str "http") (strl_literal (str "http")) h;
  h ← Headers.add (str ":authority") (strl_literal (str ":authority")) (str "127.0.0.1") (strl_literal (str "127.0.0.1")) h;
  add_request_headers (rq_header req) h.

(** The entries nghttp2 is given; a null entry would be dereferenced. *)
Definition entries (h : headers) : outcome (list nv) :=
  match mapM (M:=option) id (take (Z.to_nat (Headers.len h)) (Headers.get h)) with
  | Some l => Ok l
  | None => UB
  end.

(** [build_http_header(frame, req)]: the encoding goes to the payload of the
    scratch buffer. *)
Definition build_http_header (pos : Z) (req : request) c : outcome (Z * client D I) :=
  h ← request_headers req;
  l ← entries h;
  let buflen := deflate_bound (deflater c) l in
  let '(rv, out, d) := deflate_hd (deflater c) buflen l in
  if rv <? 0 then Exit
  else
    mem ← mem_write (buffer_stack c) pos out;
    Ok (rv, set_deflater d (set_stack mem c)).

(** [send_http_header_frame(frame, req)]: the frame, if its stream was set. *)
Definition send_http_header_frame (req : request) c : outcome (bool * option (frame * nat) * client D I) :=
  let '(stream, c) := new_stream (Stream.make (next_stream_id c) (pipeline req) fresh_response) c in
  let pos := FSW_HTTP2_FRAME_HEADER_SIZE in
  '(len, c) ← build_http_header pos req c;
  if len <=? 0 then Ok (false, None, c)
  else
    let st_flags := if pipeline req then FSW_HTTP2_STREAM_PIPELINE_REQUEST else FSW_HTTP2_STREAM_NORMAL in
    let end_stream := (if rq_body req is Some _ then false else true)
                      && (Z.land st_flags FSW_HTTP2_STREAM_PIPELINE_REQUEST =? 0) in
    let flags := if end_stream then Z.lor FSW_HTTP2_FLAG_END_HEADERS FSW_HTTP2_FLAG_END_STREAM
                 else FSW_HTTP2_FLAG_END_HEADERS in
    let f := mkFrame pos len FSW_HTTP2_TYPE_HEADERS flags (next_stream_id c) in
    mem ← Codec.build_frame_header (buffer_stack c) f;
    let c := emplace (next_stream_id c) stream (set_stack mem c) in
    '(ok, c) ← send_frame mem f c;
    Ok (ok, Some (f, stream), c).

(** [send_http_body_frame(frame, req)] *)
Definition send_http_body_frame (f : frame) (stream : nat) (req : request) c : outcome (bool * frame * client D I) :=
  let pos := FSW_HTTP2_FRAME_HEADER_SIZE in
  data ← mem_read (match rq_body req with Some b => b | None => [] end) 0 (rq_body_length req);
  mem ← mem_write (buffer_stack c) pos data;
  let c := set_stack mem c in
  st ← deref (Some stream) c;
  let flags := if Z.land (st_flags st) FSW_HTTP2_STREAM_PIPELINE_REQUEST =? 0 then FSW_HTTP2_FLAG_END_STREAM else 0 in
  let f := mkFrame pos (i64 (rq_body_length req)) FSW_HTTP2_TYPE_DATA flags (stream_id f) in
  mem ← Codec.build_frame_header mem f;
  '(ok, c) ← send_frame mem f (set_stack mem c);
  Ok (ok, f, c).

(** [send_request(req)]: when the header frame was not built, the stream of the
    frame is uninitialised. *)
Definition send_request (req : request) c : outcome (Z * client D I) :=
  '(_, o, c) ← send_http_header_frame req c;
  match o with
  | None => UB
  | Some (f, stream) =>
      '(_, _, c) ← send_http_body_frame f stream req c;
      let c := set_ids (u32 (next_stream_id c + 2)) (last_stream_id c) c in
      st ← deref (Some stream) c;
      Ok (i32 (st_id st), c)
  end.

(** [write_data(stream_id, data, data_len, end_stream)] *)
Definition write_data (id : Z) (data : bytes) (data_len : Z) (end_stream : bool) c : outcome (Z * client D I) :=
  let pos := FSW_HTTP2_FRAME_HEADER_SIZE in
  data ← mem_read data 0 data_len;
  mem ← mem_write (buffer_stack c) pos data;
  let f := mkFrame pos (i64 data_len) FSW_HTTP2_TYPE_DATA (if end_stream then FSW_HTTP2_FLAG_END_STREAM else 0) (u32 id) in
  mem ← Codec.build_frame_header mem f;
  '(_, c) ← send_frame mem f (set_stack mem c);
  Ok (id, c).

(** ** Receiving *)

(** [sock->recv(buf + off, len)] on the array of the read buffer. *)
Definition recv_at (off len : Z) (s : cosocket) : outcome (Z * cosocket) :=
  let '(b, s) := CoSocket.get_read_buf s in
  match CoSocket.recv_loop i32 (S (length (rx (sk s)))) (sk s) (_buffer b) off len with
  | Some r =>
      '(ret, mem, k) ← r;
      Ok (ret, CoSocket.set_read_buf (mkBuffer (_size b) (_length b) mem) (CoSocket.set_sk k s))
  | None => UB
  end.

Definition read_array (s : cosocket) : bytes :=
  match cread_buf s with Some b => _buffer b | None => [] end.

(** [recv_frame(frame)]: the results of the two [recv] are dropped. *)
Definition recv_frame c : outcome (frame * option nat * client D I) :=
  match sock c with
  | None => UB
  | Some s =>
      '(_, s) ← recv_at 0 FSW_HTTP2_FRAME_HEADER_SIZE s;
      payload_length ← Codec.get_payload_length (read_array s);
      '(_, s) ← recv_at FSW_HTTP2_FRAME_HEADER_SIZE payload_length s;
      f ← Codec.fetch_frame (read_array s) payload_length;
      Ok (f, get_stream (stream_id f) c, set_sock s c)
  end.

(** The array the payload of a received frame lies in. *)
Definition frame_memory c : bytes := match sock c with Some s => read_array s | None => [] end.

(** [parse_setting_frame(frame)]; the fuel is the number of bytes. *)
Definition parse_setting_frame (f : frame) c : outcome (Z * client D I) :=
  match Codec.parse_settings change_table_size (S (Z.to_nat (payload_length f))) (frame_memory c)
          (payload f) (payload_length f) 0 (deflater c) (remote_settings c) with
  | None => UB
  | Some r =>
      '(value, ok, d, remote) ← r;
      let c := set_remote remote d c in
      if negb ok then Ok (FSW_ERR, c)
      else
        ack ← Codec.set_frame_header ack_buf FSW_HTTP2_TYPE_SETTINGS 0 FSW_HTTP2_FLAG_ACK (stream_id f);
        '(sent, c) ← send ack FSW_HTTP2_FRAME_HEADER_SIZE c;
        Ok (if negb sent then FSW_ERR else i32 value, c)
  end.

(** The string of an array that nghttp2 terminates. *)
Definition c_string (a : bytes) : bytes := match c_str (a ++ [0]) with Ok s => s | _ => [] end.

(** What a header does to the response. *)
Definition store_header (name value : bytes) (r : response) : response :=
  let status :=
    match name with
    | 58 :: rest => (zlen name - 1 =? 6) && (strncasecmp 6 (rest ++ [0]) (str "status" ++ [0]) =? 0)
    | _ => false
    end in
  if status then Resp.set_status (i32 (atoi (c_string value))) (err_code r) r
  else Resp.set_header (StdMap.assign (c_string name) (c_string value) (rs_header r)) r.

(** [parse_header_stop(inflate_flags, inlen)]: [final] is the flag of the last
    header. *)
Definition parse_header_stop (final : bool) (inlen : Z) (i : I) : bool * I :=
  (final || (inlen =? 0), if final then inflate_end_headers i else i).

(** The loop of [parse_frame_header]; the response is the local
    copy. [None] is fuel exhausted. *)
Fixpoint inflate_loop (fuel : nat) (mem : bytes) (pos inlen : Z) (final : bool) (i : I) (r : response) :
    option (outcome (Z * I * response)) :=
  let '(stop, i) := parse_header_stop final inlen i in
  if stop then Some (Ok (FSW_OK, i, r))
  else match fuel with
  | O => None
  | S fuel =>
      match mem_read mem pos inlen with
      | Ok data =>
          let '(rv, emit, final, i) := inflate_hd i data in
          if rv <? 0 then Some (Ok (FSW_ERR, i, r))
          else inflate_loop fuel mem (pos + rv) (inlen - rv) final i
                 (match emit with Some (name, value) => store_header name value r | None => r end)
      | Exit => Some Exit
      | UB => Some UB
      end
  end.

(** [parse_frame_header(frame)]: [Response response = frame->stream->response]
    is a copy, which the function drops. *)
Definition parse_frame_header (fuel : nat) (f : frame) (p : option nat) c : option (outcome (Z * client D I)) :=
  match deref p c with
  | Ok st =>
      match inflate_loop fuel (frame_memory c) (payload f) (payload_length f) false (inflater c) (st_response st) with
      | Some r => Some ('(ret, i, _) ← r; Ok (ret, set_inflater i c))
      | None => None
      end
  | Exit => Some Exit
  | UB => Some UB
  end.

(** [parse_payload(frame)] *)
Definition parse_payload (f : frame) (p : option nat) c : outcome (client D I) :=
  st ← deref p c;
  let st := if Z.land (flags f) FSW_HTTP2_FLAG_END_STREAM =? 0
            then Stream.set_flags (Z.lor (st_flags st) FSW_HTTP2_STREAM_PIPELINE_RESPONSE) st else st in
  if 0 <? payload_length f then
    let b := match st_buffer st with Some b => b | None => Buffer.make READ_BUF_MAX_SIZE end in
    b ← Buffer.append_raw b (drop (Z.to_nat (payload f)) (frame_memory c)) (payload_length f);
    let c := set_local (Settings.set_window_size (u32 (window_size (local_settings c) - payload_length f)) (local_settings c)) c in
    let st := Stream.set_local_window (u32 (local_window_size st - payload_length f)) (Stream.set_buffer b st) in
    Ok (update_stream p (λ _, st) c)
  else Ok (update_stream p (λ _, st) c).

(** The end of [parse_frame]: the stream is complete. *)
Definition end_of_stream (f : frame) (p : option nat) (value : Z) c : outcome (fswReturn_code * client D I) :=
  st ← deref p c;
  let st := if type f =? FSW_HTTP2_TYPE_RST_STREAM
            then Stream.set_response (Resp.set_status (-3) value (st_response st)) st else st in
  match st_buffer st with
  | Some b =>
      if 0 <? _length b then
        body ← mem_read (_buffer b) 0 (_length b);
        b ← Buffer.clear b;
        Ok (FSW_READY, update_stream p (λ _, Stream.set_buffer b (Stream.set_response (Resp.set_body body (st_response st)) st)) c)
      else Ok (FSW_READY, update_stream p (λ _, st) c)
  | None => Ok (FSW_READY, update_stream p (λ _, st) c)
  end.

(** The types of frame that [parse_frame] leaves alone. *)
Definition ignored (t : Z) : bool :=
  (t =? FSW_HTTP2_TYPE_WINDOW_UPDATE) || (t =? FSW_HTTP2_TYPE_PING) || (t =? FSW_HTTP2_TYPE_GOAWAY) ||
  (t =? FSW_HTTP2_TYPE_RST_STREAM) || (t =? FSW_HTTP2_TYPE_PUSH_PROMISE).

(** [parse_frame(frame)] *)
Definition parse_frame (fuel : nat) (f : frame) (p : option nat) c : option (outcome (fswReturn_code * client D I)) :=
  let c := if last_stream_id c <? next_stream_id c then set_ids (next_stream_id c) (next_stream_id c) c else c in
  if type f =? FSW_HTTP2_TYPE_SETTINGS then Some ('(_, c) ← parse_setting_frame f c; Ok (FSW_CONTINUE, c))
  else if ignored (type f) then Some (Ok (FSW_CONTINUE, c))
  else
    match
      (if type f =? FSW_HTTP2_TYPE_HEADERS then
         match parse_frame_header fuel f p c with Some r => Some (snd <$> r) | None => None end
       else if type f =? FSW_HTTP2_TYPE_DATA then Some (parse_payload f p c)
       else Some (Ok c))
    with
    | None => None
    | Some r =>
        Some (c ← r;
          if negb (Z.land (flags f) FSW_HTTP2_FLAG_END_STREAM =? 0) || (type f =? FSW_HTTP2_TYPE_RST_STREAM)
             || (type f =? FSW_HTTP2_TYPE_GOAWAY)
          then end_of_stream f p 0 c else Ok (FSW_CONTINUE, c))
    end.

(** [recv_reponse()] *)
Fixpoint recv_reponse (fuel : nat) c : option (outcome (response * client D I)) :=
  match fuel with
  | O => None
  | S fuel =>
      match recv_frame c with
      | Ok (f, p, c) =>
          match parse_frame fuel f p c with
          | Some (Ok (ret, c)) =>
              if bool_decide (ret = FSW_READY) then Some (st ← deref p c; Ok (st_response st, c))
              else recv_reponse fuel c
          | Some Exit => Some Exit
          | Some UB => Some UB
          | None => None
          end
      | Exit => Some Exit
      | UB => Some UB
      end
  end.

End client.
End Client.
