(* ===== verification/Http2Session.v ===== *)
(** * Http2Session: what the HTTP/2 client makes of a connection

    [Session] states what the client promises: an abstract view of the
    connection and what each frame of the peer does to it. [SessionFacts] shows
    that the client of Http2Client refines it, one frame at a time, and the
    properties follow by induction on the frames. *)

From S2P Require Import Prelude Words CString Buffer StdMap CoSocket Http2Frame Http2Client.
From stdpp Require Import gmap.
#[local] Open Scope Z_scope.

(** ** The abstract session of one stream *)
Module Session.

(** What the client knows of the peer's settings, the body received so far, the
    two windows, and the bytes sent. *)
Record view := mkView {
  remote : settings;
  body : bytes;
  window : Z;
  stream_window : Z;
  output : bytes
}.

(** The frames of a peer that do not end the stream. *)
Inductive in_frame :=
| InSettings (flags id : Z) (es : list (Z * Z))
| InIgnored (type flags id : Z) (payload : bytes)
| InHeaders (block : bytes)
| InData (d : bytes).

Definition content (f : in_frame) : bytes :=
  match f with
  | InSettings _ _ es => es ≫= Rfc9113.setting
  | InIgnored _ _ _ p => p
  | InHeaders b => b
  | InData d => d
  end.

Definition header_of (stream : Z) (f : in_frame) : Z * Z * Z :=
  match f with
  | InSettings flags id _ => (FSW_HTTP2_TYPE_SETTINGS, flags, id)
  | InIgnored type flags id _ => (type, flags, id)
  | InHeaders _ => (FSW_HTTP2_TYPE_HEADERS, FSW_HTTP2_FLAG_END_HEADERS, stream)
  | InData _ => (FSW_HTTP2_TYPE_DATA, 0, stream)
  end.

(** A frame on the wire. *)
Definition wire_frame (type flags id : Z) (payload : bytes) : bytes :=
  Rfc9113.frame_header (zlen payload) type flags id ++ payload.
Definition wire (stream : Z) (f : in_frame) : bytes :=
  let '(type, flags, id) := header_of stream f in wire_frame type flags id (content f).

(** The frames the client can take: they fit its buffers. *)
Definition acceptable (v : view) (f : in_frame) : Prop :=
  bytes_ok (content f) ∧ 9 + zlen (content f) ≤ READ_BUF_MAX_SIZE + 1 ∧
  match f with
  | InSettings flags id es => is_byte flags ∧ 0 ≤ id < 2 ^ 31 ∧ Forall CodecFacts.entry_ok es
  | InIgnored type flags id _ => is_byte type ∧ Client.ignored type = true ∧ is_byte flags ∧ 0 ≤ id < 2 ^ 31
  | InHeaders _ => True
  | InData d => zlen (body v) + zlen d ≤ READ_BUF_MAX_SIZE
  end.

Definition acknowledgement (id : Z) : bytes := Rfc9113.frame_header 0 FSW_HTTP2_TYPE_SETTINGS FSW_HTTP2_FLAG_ACK id.

(** What a frame does. *)
Definition receive (v : view) (f : in_frame) : view :=
  match f with
  | InSettings _ id es =>
      mkView (foldl Rfc9113.update (remote v) es) (body v) (window v) (stream_window v) (output v ++ acknowledgement id)
  | InData [] => v
  | InData d =>
      mkView (remote v) (body v ++ d) (u32 (window v - zlen d)) (u32 (stream_window v - zlen d)) (output v)
  | _ => v
  end.

Fixpoint all_acceptable (v : view) (fs : list in_frame) : Prop :=
  match fs with
  | [] => True
  | f :: fs => acceptable v f ∧ all_acceptable (receive v f) fs
  end.

(** The end of the stream: the body goes to the response, which is otherwise
    the one the stream was made with. *)
Definition complete (r : response) (b : bytes) : response := match b with [] => r | _ => Resp.set_body b r end.
Definition clear_body (v : view) : view := mkView (remote v) [] (window v) (stream_window v) (output v).

End Session.

Module SessionFacts.
Import Client Session.

(** ** The receiving side of the socket *)

(** The peer's bytes [w] in the answers of the kernel: after some calls that
    find nothing come some of its frames, and so on; what is left comes in one
    piece. (The client takes a part of a header or of a payload for the whole:
    a piece has to end with a frame.) *)
Definition piece (w : bytes) : list rx_answer := match w with [] => [] | _ => [RxData w] end.

Inductive held : bytes → list rx_answer → Prop :=
| held_end w : held w (piece w)
| held_wait w l : held w l → held w (RxError EAGAIN :: l)
| held_frame type flags id p w l :
    zlen p < 2 ^ 24 → held w l → held (wire_frame type flags id p ++ w) (RxData (wire_frame type flags id p) :: l)
| held_more type flags id p x w l :
    zlen p < 2 ^ 24 → x ≠ [] → held (x ++ w) (RxData x :: l) →
    held (wire_frame type flags id p ++ x ++ w) (RxData (wire_frame type flags id p ++ x) :: l).

(** What is left of a piece. *)
Definition remains (y : bytes) (l : list rx_answer) : list rx_answer := match y with [] => l | _ => RxData y :: l end.

Lemma wire_frame_inj type flags id p type' flags' id' p' r r' : zlen p < 2 ^ 24 → zlen p' < 2 ^ 24 →
  wire_frame type flags id p ++ r = wire_frame type' flags' id' p' ++ r' →
  wire_frame type flags id p = wire_frame type' flags' id' p' ∧ r = r'.
Proof.
  intros H H' E. pose proof (zlen_nonneg p). pose proof (zlen_nonneg p').
  assert (Hz : zlen p = zlen p').
  { pose proof (CodecFacts.get_payload_length_ok (zlen p) type flags id (p ++ r) ltac:(lia)) as E1.
    pose proof (CodecFacts.get_payload_length_ok (zlen p') type' flags' id' (p' ++ r') ltac:(lia)) as E2.
    unfold wire_frame in E. rewrite <- !app_assoc in E. rewrite E, E2 in E1. by injection E1. }
  apply app_inj_1 in E as [E1 E2]; [done|]. unfold wire_frame. rewrite !length_app. unfold zlen in Hz. f_equal; lia.
Qed.

Lemma wire_frame_cons type flags id p : ∃ x l, wire_frame type flags id p = x :: l.
Proof. by eexists _, _. Qed.

(** The next frame. *)
Lemma held_open type flags id p rest w l : held w l → w = wire_frame type flags id p ++ rest → zlen p < 2 ^ 24 →
  ∃ j y l', l = replicate j (RxError EAGAIN) ++ RxData (wire_frame type flags id p ++ y) :: l' ∧ held rest (remains y l').
Proof.
  induction 1 as [w|w l _ IH|t f i q w l Hq Hl _|t f i q x w l Hq Hx Hl _]; intros E Hp.
  - subst w. exists 0%nat, rest, []. split; [|destruct rest as [|z r]; [apply (held_end [])|apply (held_end (z :: r))]].
    destruct (wire_frame_cons type flags id p) as (x & m & Ex). by rewrite Ex.
  - destruct (IH E Hp) as (j & y & l' & -> & H). by exists (S j), y, l'.
  - apply wire_frame_inj in E as [-> ->]; [|done..]. exists 0%nat, [], l. by rewrite app_nil_r.
  - apply wire_frame_inj in E as [-> <-]; [|done..]. exists 0%nat, x, l. split; [done|]. by destruct x.
Qed.

(** Nothing is left but bytes behind some calls that find nothing. *)
Lemma held_shape w l : held w l → ∃ j l', l = replicate j (RxError EAGAIN) ++ l' ∧ held w l' ∧
  match l' with [] => True | RxData d :: _ => d ≠ [] | RxError _ :: _ => False end.
Proof.
  induction 1 as [w|w l _ (j & l' & -> & H)|t f i q w l Hq Hl _|t f i q x w l Hq Hx Hl _].
  - exists 0%nat, (piece w). split; [done|]. split; [apply held_end|]. by destruct w.
  - by exists (S j), l'.
  - eexists 0%nat, _. split; [reflexivity|]. split; [by apply held_frame|]. done.
  - eexists 0%nat, _. split; [reflexivity|]. split; [by apply held_more|]. done.
Qed.

(** Calls that find nothing. *)
Lemma recv_later turns buf off len l : ∀ j s, rx s = replicate j (RxError EAGAIN) ++ l → waits s = [] →
  ∃ s', CoSocket.recv_loop i32 (j + turns) s buf off len = CoSocket.recv_loop i32 turns s' buf off len ∧
    rx s' = l ∧ tx s' = tx s ∧ sent s' = sent s ∧ waits s' = [].
Proof.
  induction j as [|j IH]; intros s Hrx Hw; [by exists s|]. cbn [Nat.add CoSocket.recv_loop]. unfold Socket.recv at 1. rewrite Hrx.
  cbn [replicate app]. cbv zeta. change (i32 (-1)) with (-1). change (-1 <? 0) with true. cbn [andb errno set_errno].
  rewrite Z.eqb_refl. unfold CoSocket.wait_event. cbn [waits set_errno set_rx]. rewrite Hw.
  match goal with |- context [CoSocket.recv_loop i32 (j + turns) ?t] => destruct (IH t) as (s' & -> & H1 & H2 & H3 & H4) end; [done..|].
  exists s'. split_and!; done.
Qed.

(** A part of a piece. *)
Lemma recv_part s j x y l' a u b :
  rx s = replicate j (RxError EAGAIN) ++ RxData (x ++ y) :: l' → waits s = [] → x ≠ [] → zlen u = zlen x → zlen x < 2 ^ 31 →
  ∃ s', CoSocket.recv_loop i32 (S (length (rx s))) s (a ++ u ++ b) (zlen a) (zlen x) =
      Some (Ok (zlen x, a ++ x ++ b, s')) ∧
    rx s' = remains y l' ∧ tx s' = tx s ∧ sent s' = sent s ∧ waits s' = [].
Proof.
  intros Hrx Hw Hx0 Hu Hx. pose proof (zlen_nonneg x). rewrite Hrx, length_app, length_replicate, <- Nat.add_succ_r.
  destruct (recv_later (S (length (RxData (x ++ y) :: l'))) (a ++ u ++ b) (zlen a) (zlen x) _ j s Hrx Hw) as (s1 & -> & H1 & <- & <- & H4).
  cbn [CoSocket.recv_loop]. unfold Socket.recv. rewrite H1.
  assert (Hn : Z.to_nat (zlen x) = length x) by (unfold zlen; lia).
  rewrite Hn, take_app_length, drop_app_length. rewrite mem_write_split, outcome_bind_ok by done. cbv zeta.
  rewrite i32_id by lia. rewrite (proj2 (Z.ltb_ge _ _)) by lia. cbn [andb].
  eexists. split; [reflexivity|]. cbn [rx tx sent waits set_rx]. by destruct y.
Qed.

(** Nothing is asked for. *)
Lemma recv_none s w a b : held w (rx s) → waits s = [] →
  ∃ s', CoSocket.recv_loop i32 (S (length (rx s))) s (a ++ b) (zlen a) 0 = Some (Ok (0, a ++ b, s')) ∧
    held w (rx s') ∧ tx s' = tx s ∧ sent s' = sent s ∧ waits s' = [].
Proof.
  intros Hh Hw. destruct (held_shape w (rx s) Hh) as (j & l' & Hrx & Hl & Hshape).
  rewrite Hrx, length_app, length_replicate, <- Nat.add_succ_r.
  destruct (recv_later (S (length l')) (a ++ b) (zlen a) 0 _ j s Hrx Hw) as (s1 & -> & H1 & <- & <- & H4).
  cbn [CoSocket.recv_loop]. unfold Socket.recv. rewrite H1. destruct l' as [|[d|e] l']; [| |done].
  - cbv zeta. change (i32 0) with 0. change (0 <? 0) with false. cbn [andb]. exists s1. split_and!; [done|by rewrite H1|done..].
  - change (Z.to_nat 0) with 0%nat. rewrite take_0, drop_0.
    pose proof (mem_write_split a [] [] b eq_refl) as E. cbn [app] in E. rewrite E, outcome_bind_ok. cbv zeta. change (zlen []) with 0.
    change (i32 0) with 0. change (0 <? 0) with false. cbn [andb].
    eexists. split; [reflexivity|]. cbn [rx tx sent waits set_rx]. split_and!; [|done..]. by destruct d.
Qed.

Definition array_of (s : cosocket) : bytes := _buffer (CoSocket.get_read_buf s).1.

Lemma array_of_set_sk k s : array_of (CoSocket.set_sk k s) = array_of s.
Proof. unfold array_of, CoSocket.get_read_buf. cbn. by destruct (cread_buf s). Qed.

Lemma get_read_buf_keeps (c : cosocket) :
  sk (CoSocket.get_read_buf c).2 = sk c ∧ cwrite_buf (CoSocket.get_read_buf c).2 = cwrite_buf c.
Proof. unfold CoSocket.get_read_buf. by destruct (cread_buf c). Qed.

Lemma recv_at_part s j x y l' a u b :
  rx (sk s) = replicate j (RxError EAGAIN) ++ RxData (x ++ y) :: l' → waits (sk s) = [] → x ≠ [] →
  array_of s = a ++ u ++ b → zlen u = zlen x → zlen x < 2 ^ 31 →
  ∃ s', recv_at (zlen a) (zlen x) s = Ok (zlen x, s') ∧ read_array s' = a ++ x ++ b ∧ array_of s' = a ++ x ++ b ∧
    rx (sk s') = remains y l' ∧ tx (sk s') = tx (sk s) ∧ sent (sk s') = sent (sk s) ∧ waits (sk s') = [].
Proof.
  intros Hrx Hw Hx0 Ha Hu Hx. unfold recv_at, array_of in *. destruct (get_read_buf_keeps s) as [Hsk _].
  destruct (CoSocket.get_read_buf s) as [bf s1]. cbn [fst snd] in *. rewrite Hsk, Ha.
  destruct (recv_part (sk s) j x y l' a u b Hrx Hw Hx0 Hu Hx) as (k & -> & H1 & H2 & H3 & H4).
  rewrite outcome_bind_ok. eexists. split; [reflexivity|]. by cbn.
Qed.

Lemma recv_at_none s w a b : held w (rx (sk s)) → waits (sk s) = [] → array_of s = a ++ b →
  ∃ s', recv_at (zlen a) 0 s = Ok (0, s') ∧ read_array s' = a ++ b ∧ array_of s' = a ++ b ∧
    held w (rx (sk s')) ∧ tx (sk s') = tx (sk s) ∧ sent (sk s') = sent (sk s) ∧ waits (sk s') = [].
Proof.
  intros Hh Hw Ha. unfold recv_at, array_of in *. destruct (get_read_buf_keeps s) as [Hsk _].
  destruct (CoSocket.get_read_buf s) as [bf s1]. cbn [fst snd] in *. rewrite Hsk, Ha.
  destruct (recv_none (sk s) w a b Hh Hw) as (k & -> & H1 & H2 & H3 & H4).
  rewrite outcome_bind_ok. eexists. split; [reflexivity|]. by cbn.
Qed.

Section client.
Context {D I : Type}.
Implicit Types (c : client D I).

(** The socket: [w] is still to come from the peer, [out] was sent to it, and
    otherwise the kernel only asks to try again. *)
Record sock_ok (s : cosocket) (w out : bytes) : Prop := {
  so_array : zlen (array_of s) = READ_BUF_MAX_SIZE + 1;
  so_rx : held w (rx (sk s));
  so_tx : CoSocketFacts.tx_clean (tx (sk s));
  so_waits : waits (sk s) = [];
  so_sent : sent (sk s) = out
}.

(** The payload of a frame, of which the header was the beginning of a piece. *)
Lemma recv_payload s p y l' rest a u b :
  rx (sk s) = remains (p ++ y) l' → waits (sk s) = [] → held rest (remains y l') →
  array_of s = a ++ u ++ b → zlen u = zlen p → zlen p < 2 ^ 31 →
  ∃ s', recv_at (zlen a) (zlen p) s = Ok (zlen p, s') ∧ read_array s' = a ++ p ++ b ∧ array_of s' = a ++ p ++ b ∧
    held rest (rx (sk s')) ∧ tx (sk s') = tx (sk s) ∧ sent (sk s') = sent (sk s) ∧ waits (sk s') = [].
Proof.
  intros Hrx Hw Hh Ha Hu Hp. destruct p as [|z p].
  - destruct u as [|]; [|pose proof (zlen_nonneg u); rewrite zlen_cons in Hu; change (@zlen Z []) with 0 in Hu; lia].
    apply (recv_at_none s rest a b); [by rewrite Hrx|done|done].
  - destruct (recv_at_part s 0 (z :: p) y l' a u b Hrx Hw ltac:(done) Ha Hu Hp) as (s' & H1 & H2 & H3 & H4 & H5).
    destruct H5 as (H5 & H6 & H7). rewrite <- H4 in Hh. exists s'. by split_and!.
Qed.

Lemma recv_frame_ok c s type flags id p rest out :
  sock c = Some s → sock_ok s (wire_frame type flags id p ++ rest) out →
  9 + zlen p ≤ READ_BUF_MAX_SIZE + 1 → 0 ≤ id < 2 ^ 31 →
  ∃ s' tail, recv_frame c = Ok (mkFrame 9 (zlen p) type flags id, get_stream id c, set_sock s' c) ∧
    read_array s' = Rfc9113.frame_header (zlen p) type flags id ++ p ++ tail ∧ sock_ok s' rest out.
Proof.
  intros Hs [Ha Hrx Htx Hw Ho] Hp Hid. unfold recv_frame. rewrite Hs.
  set (h := Rfc9113.frame_header (zlen p) type flags id) in *. pose proof (zlen_nonneg p) as Hp0.
  unfold READ_BUF_MAX_SIZE in *.
  assert (Hold : array_of s = [] ++ take 9 (array_of s) ++ drop 9 (array_of s)) by (by rewrite take_drop).
  assert (Hh : zlen h = 9) by done.
  destruct (held_open type flags id p rest _ _ Hrx eq_refl ltac:(lia)) as (j & y & l' & Hrx' & Hheld).
  unfold wire_frame in Hrx'. fold h in Hrx'. rewrite <- app_assoc in Hrx'.
  destruct (recv_at_part s j h (p ++ y) l' [] _ _ Hrx' Hw ltac:(discriminate) Hold) as (s1 & H1 & R1 & A1 & X1 & T1 & S1 & W1);
    [rewrite Hh; unfold zlen in *; rewrite length_take; lia|rewrite Hh; lia|].
  change (zlen []) with 0 in H1. rewrite Hh in H1. change FSW_HTTP2_FRAME_HEADER_SIZE with 9.
  rewrite H1, outcome_bind_ok, R1. cbn [app]. unfold h at 1.
  rewrite CodecFacts.get_payload_length_ok, outcome_bind_ok by lia.
  set (t := drop 9 (array_of s)) in *. assert (Ht : zlen t = 1016) by (unfold t, zlen in *; rewrite length_drop; lia).
  cbn [app] in A1. rewrite <- (take_drop (length p) t) in A1.
  destruct (recv_payload s1 p y l' rest h _ _ X1 W1 Hheld A1) as (s2 & H2 & R2 & A2 & X2 & T2 & S2 & W2);
    [unfold zlen in *; rewrite length_take; lia|lia|].
  rewrite Hh in H2. rewrite H2, outcome_bind_ok, R2. unfold h at 1.
  rewrite CodecFacts.fetch_frame_ok, outcome_bind_ok by done. cbn [stream_id].
  exists s2, (drop (length p) t). split; [done|]. split; [done|]. split; try congruence.
  rewrite A2, !zlen_app, Hh. unfold zlen in *. rewrite length_drop. unfold READ_BUF_MAX_SIZE. lia.
Qed.

(** Everything is sent, however the kernel takes it. *)
Lemma send_ok c s buf len w out :
  sock c = Some s → sock_ok s w out → 0 < len ≤ zlen buf → len < 2 ^ 31 →
  ∃ s', send buf len c = Ok (true, set_sock s' c) ∧ sock_ok s' w (out ++ take (Z.to_nat len) buf) ∧
    cread_buf s' = cread_buf s ∧ cwrite_buf s' = cwrite_buf s.
Proof.
  intros Hs [Ha Hrx Htx Hw Ho] Hlen Hmax. unfold send. rewrite Hs.
  set (u := take (Z.to_nat len) buf).
  assert (Hu : zlen u = len) by (apply zlen_take; lia).
  destruct (CoSocketFacts.send_all_loop_ok (sk s) (S (S (length (tx (sk s))))) [] u (drop (Z.to_nat len) buf) len)
    as (k & n & H & Hsent & _ & Htx' & Hw'); [done|done|lia|lia|by rewrite zlen_nil|lia|].
  cbn [app] in H. unfold u in H at 1. rewrite take_drop in H. change (zlen []) with 0 in H.
  unfold CoSocket.send_all. pose proof (CoSocketFacts.send_all_loop_rx _ _ _ _ _ _ _ H) as Hrx'.
  rewrite H, outcome_bind_ok. rewrite i64_id, Z.eqb_refl by lia.
  eexists. split; [reflexivity|]. split; [|done]. split; [by rewrite array_of_set_sk|cbn; try done; congruence..].
Qed.

(** The client, on a stream [id] that is the object [p], and the session. *)
Record refines (id : Z) (p : nat) (r0 : response) c (v : view) (w : bytes) : Prop := {
  rf_sock : ∃ s, sock c = Some s ∧ sock_ok s w (output v);
  rf_remote : remote_settings c = remote v;
  rf_window : window_size (local_settings c) = window v;
  rf_map : streams c !! id = Some p;
  rf_stream : ∃ st, heap c !! p = Some (Some st) ∧ st_response st = r0 ∧ local_window_size st = stream_window v ∧
    match st_buffer st with
    | None => body v = []
    | Some b => Buffer.wf b ∧ _size b = READ_BUF_MAX_SIZE ∧ Buffer.contents b = body v
    end
}.

Context (change_table_size : D → Z → Z * D) (inflate_hd : I → bytes → Z * option (bytes * bytes) * bool * I).
Context (inflate_end_headers : I → I) (ack_buf : bytes).

(** nghttp2 accepts the table sizes, and its decoder makes progress: given
    bytes, it consumes some, fails or reports the end of the block. *)
Context (Htable : ∀ d v, (change_table_size d v).1 = 0).
Definition decoder_progress : Prop := ∀ i data rv emit final i',
  inflate_hd i data = (rv, emit, final, i') → data ≠ [] → rv ≤ zlen data ∧ (1 ≤ rv ∨ rv < 0 ∨ final = true).
Context (Hinflate : decoder_progress).
Context (Hack : zlen ack_buf = 17).

Lemma inflate_loop_ends mem : ∀ fuel pos inlen final i r,
  0 ≤ pos → 0 ≤ inlen → pos + inlen ≤ zlen mem → (Z.to_nat inlen ≤ fuel)%nat →
  ∃ ret i' r', inflate_loop inflate_hd inflate_end_headers fuel mem pos inlen final i r = Some (Ok (ret, i', r')).
Proof.
  induction fuel as [|fuel IH]; intros pos inlen final i r Hp Hn Hm Hf; cbn [inflate_loop]; unfold parse_header_stop; cbn match.
  - rewrite (proj2 (Z.eqb_eq inlen 0)), orb_true_r by lia. eauto.
  - destruct final; [cbn [orb]; eauto|]. cbn [orb]. destruct (inlen =? 0) eqn:E; [eauto|]. zify_bools.
    rewrite mem_read_ok by lia. set (data := take _ _).
    assert (Hd : zlen data = inlen).
    { unfold data. rewrite zlen_take by (rewrite ?zlen_drop by lia; lia). lia. }
    destruct (inflate_hd i data) as [[[rv emit] fin] i'] eqn:Ei.
    destruct (Hinflate _ _ _ _ _ _ Ei) as [Hle Hpr].
    { intros E0. rewrite E0 in Hd. change (@zlen Z []) with 0 in Hd. lia. }
    destruct (rv <? 0) eqn:Er; [eauto|]. zify_bools.
    destruct fin.
    + destruct fuel; cbn [inflate_loop orb]; eauto.
    + apply IH; lia || (destruct Hpr as [?|[?|?]]; [lia|lia|done]).
Qed.

(** Frames of other types only touch the last stream id. *)
Definition note_last c : client D I :=
  if last_stream_id c <? next_stream_id c then set_ids (next_stream_id c) (next_stream_id c) c else c.

Lemma refines_note_last id p r0 c v w : refines id p r0 c v w → refines id p r0 (note_last c) v w.
Proof. unfold note_last. intros []. destruct (_ <? _); by split. Qed.

Lemma refines_sock id p r0 c v w w' out s :
  refines id p r0 c v w → sock_ok s w' out →
  refines id p r0 (set_sock s c) (mkView (remote v) (body v) (window v) (stream_window v) out) w'.
Proof. intros [] Hs. split; try done. by exists s. Qed.

Lemma refines_headers id p r0 c v w fuel block tail flags :
  refines id p r0 c v w → (length block ≤ fuel)%nat →
  frame_memory c = Rfc9113.frame_header (zlen block) FSW_HTTP2_TYPE_HEADERS flags id ++ block ++ tail →
  ∃ ret c', parse_frame_header inflate_hd inflate_end_headers fuel
      (mkFrame 9 (zlen block) FSW_HTTP2_TYPE_HEADERS flags id) (Some p) c = Some (Ok (ret, c')) ∧
    refines id p r0 c' v w.
Proof.
  intros Href Hf Hm. destruct (rf_stream _ _ _ _ _ _ Href) as (st & Hp & _). unfold parse_frame_header, deref.
  cbn [mbind option_bind]. rewrite Hp. cbn [payload payload_length].
  pose proof (zlen_nonneg block). pose proof (zlen_nonneg tail).
  destruct (inflate_loop_ends (frame_memory c) fuel 9 (zlen block) false (inflater c) (st_response st))
    as (ret & i' & r' & ->); [lia|done| |unfold zlen; lia|].
  { rewrite Hm, !zlen_app. change (zlen (Rfc9113.frame_header _ _ _ _)) with 9. lia. }
  rewrite outcome_bind_ok. eexists _, _. split; [reflexivity|]. destruct Href. by split.
Qed.

Lemma refines_data id p r0 c v w d tail h flags :
  refines id p r0 c v w → bytes_ok d → zlen h = 9 → frame_memory c = h ++ d ++ tail →
  zlen (body v) + zlen d ≤ READ_BUF_MAX_SIZE →
  ∃ c', parse_payload (mkFrame 9 (zlen d) FSW_HTTP2_TYPE_DATA flags id) (Some p) c = Ok c' ∧
    refines id p r0 c' (receive v (InData d)) w.
Proof.
  intros Href Hd Hh Hm Hfit. destruct (rf_stream _ _ _ _ _ _ Href) as (st & Hp & Hr & Hl & Hb).
  assert (Hpl : (p < length (heap c))%nat) by (eapply lookup_lt_Some; exact Hp).
  unfold parse_payload, deref. cbn [mbind option_bind]. rewrite Hp. cbn [outcome_bind mbind].
  set (st1 := if _ =? 0 then _ else _).
  assert (Hst1 : st_response st1 = st_response st ∧ local_window_size st1 = local_window_size st ∧ st_buffer st1 = st_buffer st)
    by (unfold st1; by destruct (_ =? 0)).
  destruct Hst1 as (E1 & E2 & E3). clearbody st1. pose proof (zlen_nonneg d). pose proof (zlen_nonneg (body v)).
  cbn [payload_length payload].
  destruct d as [|x d'] eqn:Ed.
  - change (@zlen Z []) with 0. change (0 <? 0) with false. eexists. split; [reflexivity|].
    destruct Href as [H1 H2 H3 H4 _]. split; try done. exists st1. cbn [update_stream heap set_streams].
    rewrite list_lookup_alter_eq, Hp. rewrite E1, E2, E3. done.
  - rewrite <- Ed in *. rewrite (proj2 (Z.ltb_lt 0 (zlen d))) by (rewrite Ed, zlen_cons; pose proof (zlen_nonneg d'); lia).
    assert (Hrec : receive v (InData d) = mkView (remote v) (body v ++ d) (u32 (window v - zlen d))
      (u32 (stream_window v - zlen d)) (output v)) by (by rewrite Ed).
    rewrite E3.
    set (b := match st_buffer st with Some b => b | None => _ end).
    assert (Hbuf : Buffer.wf b ∧ _size b = READ_BUF_MAX_SIZE ∧ Buffer.contents b = body v).
    { unfold b. destruct (st_buffer st) as [b0|]; [done|]. rewrite Hb.
      destruct (Buffer.make_wf READ_BUF_MAX_SIZE) as [Hw Hc]; [unfold READ_BUF_MAX_SIZE, SIZE_MAX; lia|]. done. }
    clearbody b. destruct Hbuf as (Hw & Hs & Hc). rewrite Hm. change (Z.to_nat 9) with 9%nat.
    assert (Hdrop : drop 9 (h ++ d ++ tail) = d ++ tail).
    { rewrite drop_app_ge by (unfold zlen in Hh; lia). unfold zlen in Hh.
      replace (9 - length h)%nat with 0%nat by lia. done. }
    assert (Hap : Buffer.append_raw b (d ++ tail) (zlen d) = Buffer.append_raw b d (zlen d)).
    { assert (Hrd : ∀ t, mem_read (d ++ t) 0 (zlen d) = Ok d) by (intros t; by apply (mem_read_split [] d t)).
      pose proof (Hrd []) as Hr0. rewrite app_nil_r in Hr0. unfold Buffer.append_raw. by rewrite Hrd, Hr0. }
    rewrite Hdrop, Hap. pose proof (Buffer.zlen_contents b Hw) as Hlen. rewrite Hc in Hlen.
    pose proof (Buffer.append_raw_ok b d (zlen d) Hw) as H2. unfold READ_BUF_MAX_SIZE in *.
    specialize (H2 Hd ltac:(lia) ltac:(lia)).
    rewrite (proj2 (Z.ltb_ge _ _)) in H2 by lia. destruct H2 as (b' & -> & Hw' & Hs' & Hc').
    rewrite outcome_bind_ok. cbv zeta. eexists. split; [reflexivity|].
    rewrite <- (app_nil_r d) in Hc' at 2. rewrite take_zlen_app, Hc in Hc'.
    destruct Href as [H1 H2 H3 H4 _]. rewrite Hrec. split; cbn.
    + done.
    + done.
    + by rewrite H3.
    + done.
    + eexists. rewrite list_lookup_alter_eq, Hp. split; [reflexivity|]. cbn. rewrite E1, E2, Hl.
      split_and!; try done. rewrite Hs', Hs. done.
Qed.

Lemma zlen_settings es : zlen (es ≫= Rfc9113.setting) = 6 * zlen es.
Proof.
  induction es as [|x es IH]; [done|].
  change ((x :: es) ≫= Rfc9113.setting) with (Rfc9113.setting x ++ (es ≫= Rfc9113.setting)).
  rewrite zlen_app, CodecFacts.zlen_setting, IH, zlen_cons. lia.
Qed.

Lemma refines_settings id p r0 c v w es sid flags tail h :
  refines id p r0 c v w → Forall CodecFacts.entry_ok es → zlen h = 9 →
  frame_memory c = h ++ (es ≫= Rfc9113.setting) ++ tail →
  ∃ ret c', parse_setting_frame change_table_size ack_buf
      (mkFrame 9 (zlen (es ≫= Rfc9113.setting)) FSW_HTTP2_TYPE_SETTINGS flags sid) c = Ok (ret, c') ∧
    refines id p r0 c' (receive v (InSettings flags sid es)) w.
Proof.
  intros Href Hes Hh Hm. unfold parse_setting_frame. cbn [payload payload_length stream_id].
  rewrite Hm, zlen_settings, <- Hh.
  destruct (CodecFacts.parse_settings_ok change_table_size Htable es (S (Z.to_nat (6 * zlen es))) h tail 0
    (deflater c) (remote_settings c) Hes) as (value & d & ->); [unfold zlen; lia|].
  rewrite outcome_bind_ok. cbv beta iota zeta. cbn [negb].
  assert (Ha : ack_buf = take 9 ack_buf ++ drop 9 ack_buf) by (by rewrite take_drop).
  rewrite Ha. rewrite CodecFacts.set_frame_header_ok, outcome_bind_ok;
    [|unfold zlen in *; rewrite length_take; lia|done|done].
  destruct (rf_sock _ _ _ _ _ _ Href) as (s & Hs & Hok).
  match goal with |- context [send ?b ?n ?c0] => destruct (send_ok c0 s b n w (output v)) as (s' & H & Hok' & _) end;
    [done|done| |done|].
  { rewrite zlen_app. unfold FSW_HTTP2_FRAME_HEADER_SIZE. change (zlen (Rfc9113.frame_header _ _ _ _)) with 9.
    pose proof (zlen_nonneg (drop 9 ack_buf)). lia. }
  rewrite H, outcome_bind_ok. eexists _, _. split; [reflexivity|].
  change (Z.to_nat FSW_HTTP2_FRAME_HEADER_SIZE) with (length (acknowledgement sid)) in Hok'.
  rewrite take_app_length in Hok'.
  destruct Href as [H1 H2 H3 H4 H5]. split; cbn; try done; [by exists s'|by rewrite H2].
Qed.

(** One frame. *)
Lemma one_frame id p r0 c v f rest fuel :
  refines id p r0 c v (wire id f ++ rest) → acceptable v f → 0 ≤ id < 2 ^ 31 → (READ_BUF_MAX_SIZE ≤ Z.of_nat fuel) →
  ∃ fr q c1 c2, recv_frame c = Ok (fr, q, c1) ∧
    parse_frame change_table_size inflate_hd inflate_end_headers ack_buf fuel fr q c1 = Some (Ok (FSW_CONTINUE, c2)) ∧
    refines id p r0 c2 (receive v f) rest.
Proof.
  intros Href (Hb & Hfit & Hacc) Hid Hfuel. destruct (rf_sock _ _ _ _ _ _ Href) as (s & Hs & Hok).
  assert (Hf : ∃ type flags sid, header_of id f = (type, flags, sid) ∧ 0 ≤ sid < 2 ^ 31).
  { destruct f; cbn [header_of]; eexists _, _, _; (split; [reflexivity|]); tauto. }
  destruct Hf as (type & flags & sid & Hhd & Hsid). unfold wire in Hok. rewrite Hhd in Hok.
  destruct (recv_frame_ok c s type flags sid (content f) rest (output v) Hs Hok Hfit Hsid) as (s' & tail & Hrecv & Hm & Hok').
  assert (Href1 : refines id p r0 (note_last (set_sock s' c)) v rest).
  { apply refines_note_last. pose proof (refines_sock _ _ _ _ _ _ rest (output v) s' Href Hok') as H.
    by destruct v. }
  assert (Hmem : frame_memory (note_last (set_sock s' c)) =
      Rfc9113.frame_header (zlen (content f)) type flags sid ++ content f ++ tail).
  { rewrite <- Hm. unfold note_last. by destruct (_ <? _). }
  enough (Hgo : ∃ c2, parse_frame change_table_size inflate_hd inflate_end_headers ack_buf fuel
      (mkFrame 9 (zlen (content f)) type flags sid) (get_stream sid c) (set_sock s' c) = Some (Ok (FSW_CONTINUE, c2)) ∧
      refines id p r0 c2 (receive v f) rest).
  { destruct Hgo as (c2 & H1 & H2). eexists _, _, _, c2. split; [exact Hrecv|done]. }
  unfold parse_frame. fold (note_last (set_sock s' c)). cbn [Http2Frame.type Http2Frame.flags].
  pose proof (rf_map _ _ _ _ _ _ Href) as Hmap. unfold get_stream.
  destruct f as [fl i es|t fl i pl|block|d]; cbn [header_of content] in *; injection Hhd as <- <- <-.
  - destruct Hacc as (_ & _ & Hes).
    destruct (refines_settings id p r0 _ v rest es i fl tail (Rfc9113.frame_header _ _ _ _) Href1 Hes eq_refl Hmem) as (ret & c2 & H & Hr).
    change (FSW_HTTP2_TYPE_SETTINGS =? FSW_HTTP2_TYPE_SETTINGS) with true. cbv iota.
    rewrite H, outcome_bind_ok. by exists c2.
  - destruct Hacc as (_ & Hig & _). rewrite Hig.
    destruct (t =? FSW_HTTP2_TYPE_SETTINGS) eqn:E; [zify_bools; subst t; discriminate Hig|]. by eexists.
  - rewrite Hmap.
    destruct (refines_headers id p r0 _ v rest fuel block tail FSW_HTTP2_FLAG_END_HEADERS Href1) as (ret & c2 & H & Hr);
      [unfold READ_BUF_MAX_SIZE, zlen in *; lia|done|].
    change (FSW_HTTP2_TYPE_HEADERS =? FSW_HTTP2_TYPE_SETTINGS) with false. change (ignored FSW_HTTP2_TYPE_HEADERS) with false.
    change (FSW_HTTP2_TYPE_HEADERS =? FSW_HTTP2_TYPE_HEADERS) with true. cbv iota. rewrite H. by exists c2.
  - rewrite Hmap.
    destruct (refines_data id p r0 _ v rest d tail (Rfc9113.frame_header _ _ _ _) 0 Href1 Hb eq_refl Hmem Hacc) as (c2 & H & Hr).
    change (FSW_HTTP2_TYPE_DATA =? FSW_HTTP2_TYPE_SETTINGS) with false. change (ignored FSW_HTTP2_TYPE_DATA) with false.
    change (FSW_HTTP2_TYPE_DATA =? FSW_HTTP2_TYPE_HEADERS) with false.
    change (FSW_HTTP2_TYPE_DATA =? FSW_HTTP2_TYPE_DATA) with true. cbv iota. rewrite H. by exists c2.
Qed.

(** The frame that ends the stream. *)
Lemma end_of_stream_ok id p r0 c v w f value :
  refines id p r0 c v w → type f = FSW_HTTP2_TYPE_DATA →
  ∃ c2, end_of_stream f (Some p) value c = Ok (FSW_READY, c2) ∧
    refines id p (complete r0 (body v)) c2 (clear_body v) w.
Proof.
  intros Href Ht. destruct (rf_stream _ _ _ _ _ _ Href) as (st & Hp & Hr & Hl & Hb). unfold end_of_stream, deref.
  cbn [mbind option_bind]. rewrite Hp. cbn [outcome_bind mbind]. rewrite Ht.
  change (FSW_HTTP2_TYPE_DATA =? FSW_HTTP2_TYPE_RST_STREAM) with false. cbv iota.
  destruct Href as [H1 H2 H3 H4 _].
  assert (Hup : ∀ st', st_response st' = complete r0 (body v) → local_window_size st' = stream_window v →
    match st_buffer st' with None => True | Some b => Buffer.wf b ∧ _size b = READ_BUF_MAX_SIZE ∧ Buffer.contents b = [] end →
    refines id p (complete r0 (body v)) (update_stream (Some p) (λ _, st') c) (clear_body v) w).
  { intros st' E1 E2 E3. split; try done. exists st'. cbn [update_stream heap set_streams clear_body stream_window body].
    rewrite list_lookup_alter_eq, Hp. by destruct (st_buffer st'). }
  destruct (st_buffer st) as [b|] eqn:Eb.
  - destruct Hb as (Hw & Hs & Hc). pose proof (Buffer.zlen_contents b Hw) as Hlen. rewrite Hc in Hlen.
    pose proof (Buffer.wf_len b Hw) as Hwl. pose proof (Buffer.wf_mem b Hw) as Hwm.
    destruct (0 <? _length b) eqn:E; zify_bools.
    + rewrite mem_read_ok, outcome_bind_ok by lia. change (drop (Z.to_nat 0) (_buffer b)) with (_buffer b).
      fold (Buffer.contents b). rewrite Hc. destruct (Buffer.clear_ok b Hw) as (b' & -> & Hw' & Hs' & Hc').
      rewrite outcome_bind_ok. eexists. split; [reflexivity|]. apply Hup; cbn.
      * rewrite Hr. destruct (body v); [change (@zlen Z []) with 0 in Hlen; lia|done].
      * done.
      * split_and!; [done|by rewrite Hs', Hs|done].
    + assert (Hnil : body v = []).
      { destruct (body v) as [|x l]; [done|]. rewrite zlen_cons in Hlen. pose proof (zlen_nonneg l). lia. }
      eexists. split; [reflexivity|]. apply Hup; [by rewrite Hnil|done|]. rewrite Eb. split_and!; [done..|congruence].
  - eexists. split; [reflexivity|]. apply Hup; [by rewrite Hb|done|by rewrite Eb].
Qed.

Lemma last_frame id p r0 c v d rest fuel :
  refines id p r0 c v (wire_frame FSW_HTTP2_TYPE_DATA FSW_HTTP2_FLAG_END_STREAM id d ++ rest) →
  acceptable v (InData d) → 0 ≤ id < 2 ^ 31 →
  let v' := receive v (InData d) in
  ∃ fr q c1 c2, recv_frame c = Ok (fr, q, c1) ∧ q = Some p ∧
    parse_frame change_table_size inflate_hd inflate_end_headers ack_buf fuel fr q c1 = Some (Ok (FSW_READY, c2)) ∧
    refines id p (complete r0 (body v')) c2 (clear_body v') rest.
Proof.
  intros Href (Hb & Hfit & Hacc) Hid v'. cbn [content] in *. destruct (rf_sock _ _ _ _ _ _ Href) as (s & Hs & Hok).
  destruct (recv_frame_ok c s FSW_HTTP2_TYPE_DATA FSW_HTTP2_FLAG_END_STREAM id d rest (output v) Hs Hok Hfit Hid)
    as (s' & tail & Hrecv & Hm & Hok').
  assert (Href1 : refines id p r0 (note_last (set_sock s' c)) v rest).
  { apply refines_note_last. pose proof (refines_sock _ _ _ _ _ _ rest (output v) s' Href Hok') as H. by destruct v. }
  assert (Hmem : frame_memory (note_last (set_sock s' c)) =
      Rfc9113.frame_header (zlen d) FSW_HTTP2_TYPE_DATA FSW_HTTP2_FLAG_END_STREAM id ++ d ++ tail).
  { rewrite <- Hm. unfold note_last. by destruct (_ <? _). }
  destruct (refines_data id p r0 _ v rest d tail (Rfc9113.frame_header _ _ _ _) FSW_HTTP2_FLAG_END_STREAM Href1 Hb eq_refl
    Hmem Hacc) as (c2 & H & Hr). fold v' in Hr.
  destruct (end_of_stream_ok id p r0 c2 v' rest (mkFrame 9 (zlen d) FSW_HTTP2_TYPE_DATA FSW_HTTP2_FLAG_END_STREAM id) 0 Hr eq_refl)
    as (c3 & He & Hr3).
  eexists _, _, _, c3. split; [exact Hrecv|]. unfold get_stream. rewrite (rf_map _ _ _ _ _ _ Href). split; [done|].
  split; [|exact Hr3]. unfold parse_frame. fold (note_last (set_sock s' c)). cbn [Http2Frame.type Http2Frame.flags].
  change (FSW_HTTP2_TYPE_DATA =? FSW_HTTP2_TYPE_SETTINGS) with false. change (ignored FSW_HTTP2_TYPE_DATA) with false.
  change (FSW_HTTP2_TYPE_DATA =? FSW_HTTP2_TYPE_HEADERS) with false.
  change (FSW_HTTP2_TYPE_DATA =? FSW_HTTP2_TYPE_DATA) with true. cbv iota. rewrite H, outcome_bind_ok.
  change (negb (Z.land FSW_HTTP2_FLAG_END_STREAM FSW_HTTP2_FLAG_END_STREAM =? 0)) with true. cbn [orb]. by rewrite He.
Qed.

(** All of them. *)
Lemma recv_reponse_ok id p r0 d rest fs : ∀ c v fuel,
  let v' := foldl receive v fs in
  refines id p r0 c v ((fs ≫= wire id) ++ wire_frame FSW_HTTP2_TYPE_DATA FSW_HTTP2_FLAG_END_STREAM id d ++ rest) →
  all_acceptable v fs → acceptable v' (InData d) → 0 ≤ id < 2 ^ 31 →
  (Z.to_nat READ_BUF_MAX_SIZE + length fs < fuel)%nat →
  let v2 := receive v' (InData d) in
  ∃ c', recv_reponse change_table_size inflate_hd inflate_end_headers ack_buf fuel c =
      Some (Ok (complete r0 (body v2), c')) ∧
    refines id p (complete r0 (body v2)) c' (clear_body v2) rest.
Proof.
  induction fs as [|f fs IH]; intros c v fuel v' Href Hall Hlast Hid Hf v2; (destruct fuel as [|fuel]; [lia|]); cbn [recv_reponse].
  - destruct (last_frame id p r0 c v d rest fuel Href Hlast Hid) as (fr & q & c1 & c2 & -> & -> & -> & Hr).
    rewrite bool_decide_eq_true_2 by done. destruct (rf_stream _ _ _ _ _ _ Hr) as (st & Hp & Hrs & _).
    exists c2. split; [|exact Hr]. unfold deref. cbn [mbind option_bind]. rewrite Hp. cbn [outcome_bind mbind].
    by rewrite Hrs.
  - destruct Hall as [Hacc Hall]. change ((f :: fs) ≫= wire id) with (wire id f ++ (fs ≫= wire id)) in Href.
    rewrite <- app_assoc in Href. cbn [length] in Hf.
    destruct (one_frame id p r0 c v f _ fuel Href Hacc Hid) as (fr & q & c1 & c2 & -> & -> & Hr); [lia|].
    rewrite bool_decide_eq_false_2 by done. apply (IH c2 (receive v f) fuel Hr Hall Hlast Hid). lia.
Qed.

End client.

End SessionFacts.

(** ** Sending a request *)
Module RequestFacts.
Import Client Session SessionFacts.

(** An array of headers with the entries [l] and [k] free places. *)
Definition filled (l : list nv) (k : nat) : headers := mkHeaders ((Some <$> l) ++ replicate k None) (zlen l).

Lemma headers_add_ok l k name value n m :
  0 ≤ n ≤ zlen name → 0 ≤ m ≤ zlen value →
  Headers.add name n value m (filled l (S k)) =
    Ok (filled (l ++ [mkNv (take (Z.to_nat n) name) (take (Z.to_nat m) value) 6]) k).
Proof.
  intros Hn Hm. unfold Headers.add, Headers.add_at, filled. cbn [index nvs]. pose proof (zlen_nonneg l).
  rewrite (proj2 (Z.leb_le 0 (zlen l))) by lia. rewrite (proj2 (Z.ltb_lt _ _)).
  2:{ rewrite zlen_app, zlen_replicate. unfold zlen. rewrite length_fmap. lia. }
  cbn [andb]. rewrite !mem_read_ok, !outcome_bind_ok by lia. cbn [nvs index].
  change (drop (Z.to_nat 0) name) with name. change (drop (Z.to_nat 0) value) with value.
  f_equal. f_equal; [|by rewrite zlen_app].
  rewrite fmap_app, <- app_assoc. cbn [replicate fmap list_fmap app].
  replace (Z.to_nat (zlen l)) with (length (Some <$> l) + 0)%nat by (unfold zlen; rewrite length_fmap; lia).
  by rewrite insert_app_r.
Qed.

(** A header of the request, as the code passes it: seven bytes of each part. *)
Definition cut (x : bytes * bytes) : nv := mkNv (take 7 (x.1 ++ [0])) (take 7 (x.2 ++ [0])) 6.

Definition request_nvs (req : request) : list nv :=
  [mkNv (str ":method") (rq_method req) 6; mkNv (str ":path") (rq_path req) 6; mkNv (str ":scheme") (str "http") 6;
   mkNv (str ":authority") (str "127.0.0.1") 6] ++ (cut <$> rq_header req).

Definition headers_fit (req : request) : Prop := Forall (λ x, 6 ≤ zlen x.1 ∧ 6 ≤ zlen x.2) (rq_header req).

Lemma add_request_headers_ok hs : ∀ l k,
  Forall (λ x : bytes * bytes, 6 ≤ zlen x.1 ∧ 6 ≤ zlen x.2) hs →
  add_request_headers hs (filled l (length hs + k)) = Ok (filled (l ++ (cut <$> hs)) k).
Proof.
  induction hs as [|[a b] hs IH]; intros l k Hs; [cbn; by rewrite app_nil_r|].
  apply Forall_cons in Hs as [[Ha Hb] Hs]. cbn [fst snd] in *. cbn [add_request_headers length Nat.add].
  change strl_pointer with 7. rewrite headers_add_ok, outcome_bind_ok by (rewrite zlen_app; change (zlen [0]) with 1; lia).
  rewrite IH by done. f_equal. f_equal. by rewrite <- app_assoc.
Qed.

Lemma entries_ok l k : entries (filled l k) = Ok l.
Proof.
  unfold entries, filled, Headers.len, Headers.get. cbn [nvs index].
  replace (Z.to_nat (zlen l)) with (length (Some <$> l)) by (unfold zlen; rewrite length_fmap; lia).
  rewrite take_app_length.
  assert (H : mapM id (Some <$> l) = Some l); [|by rewrite H].
  induction l as [|x l IH]; [done|]. cbn. cbn in IH. by rewrite IH.
Qed.

Lemma take_str_nul (s : bytes) : take (Z.to_nat (zlen s)) (s ++ [0]) = s.
Proof. unfold zlen. by rewrite Nat2Z.id, take_app_length. Qed.

Lemma request_headers_ok req : headers_fit req → request_headers req = Ok (filled (request_nvs req) 4).
Proof.
  intros Hfit. unfold request_headers. cbv zeta.
  assert (E : Headers.make (Z.to_nat (FSW_HTTP2_MAX_STATUS_LINE_NUM + zlen (rq_header req))) =
    filled [] (S (S (S (S (length (rq_header req) + 4)))))).
  { unfold Headers.make, filled, FSW_HTTP2_MAX_STATUS_LINE_NUM. cbn [fmap list_fmap app]. f_equal. f_equal.
    unfold zlen. lia. }
  rewrite E. pose proof (zlen_nonneg (rq_method req)). pose proof (zlen_nonneg (rq_path req)).
  rewrite headers_add_ok, outcome_bind_ok by (unfold strl_literal; rewrite ?zlen_app; change (zlen [0]) with 1; split; try lia; apply zlen_nonneg).
  rewrite headers_add_ok, outcome_bind_ok by (unfold strl_literal; rewrite ?zlen_app; change (zlen [0]) with 1; split; try lia; apply zlen_nonneg).
  rewrite headers_add_ok, outcome_bind_ok by (unfold strl_literal; split; try lia; apply zlen_nonneg).
  rewrite headers_add_ok, outcome_bind_ok by (unfold strl_literal; split; try lia; apply zlen_nonneg).
  rewrite !take_str_nul. by apply add_request_headers_ok.
Qed.

(** A payload in the scratch buffer, and its frame. *)
Lemma put_payload stack x :
  zlen stack = FSW_STACK_BUFFER_SIZE + 1 → 9 + zlen x ≤ FSW_STACK_BUFFER_SIZE + 1 →
  ∃ h t, mem_write stack 9 x = Ok (h ++ x ++ t) ∧ zlen h = 9 ∧ zlen (h ++ x ++ t) = FSW_STACK_BUFFER_SIZE + 1.
Proof.
  intros Hs Hx. pose proof (zlen_nonneg x). exists (take 9 stack), (drop (length x) (drop 9 stack)).
  assert (Hh : zlen (take 9 stack) = 9) by (unfold FSW_STACK_BUFFER_SIZE, zlen in *; rewrite length_take; lia).
  assert (Hd : zlen (drop 9 stack) = FSW_STACK_BUFFER_SIZE + 1 - 9) by (unfold FSW_STACK_BUFFER_SIZE, zlen in *; rewrite length_drop; lia).
  split; [|split; [done|]].
  - rewrite <- (take_drop 9 stack) at 1. rewrite <- (take_drop (length x) (drop 9 stack)) at 1. rewrite <- Hh at 1.
    apply mem_write_split. unfold zlen in *. rewrite length_take. lia.
  - rewrite !zlen_app, Hh. unfold zlen in *. rewrite length_drop. lia.
Qed.

Section client.
Context {D I : Type}.
Implicit Types (c : client D I).

Lemma send_frame_ok c s x t type flags id w out :
  sock c = Some s → sock_ok s w out → 9 + zlen x < 2 ^ 31 →
  ∃ s', send_frame (wire_frame type flags id x ++ t) (mkFrame 9 (zlen x) type flags id) c = Ok (true, set_sock s' c) ∧
    sock_ok s' w (out ++ wire_frame type flags id x).
Proof.
  intros Hs Hok Hx. pose proof (zlen_nonneg x). pose proof (zlen_nonneg t). unfold send_frame. cbn [payload payload_length].
  change (drop (Z.to_nat (9 - FSW_HTTP2_FRAME_HEADER_SIZE)) ?l) with l.
  assert (Hw : zlen (wire_frame type flags id x) = FSW_HTTP2_FRAME_HEADER_SIZE + zlen x).
  { unfold wire_frame. by rewrite zlen_app. }
  destruct (send_ok c s (wire_frame type flags id x ++ t) (FSW_HTTP2_FRAME_HEADER_SIZE + zlen x) w out Hs Hok)
    as (s' & H1 & H2 & _); [rewrite zlen_app, Hw; unfold FSW_HTTP2_FRAME_HEADER_SIZE; lia
    |unfold FSW_HTTP2_FRAME_HEADER_SIZE; lia|].
  exists s'. split; [done|]. rewrite <- Hw, take_zlen_app in H2. done.
Qed.

Context (deflate_bound : D → list nv → Z) (deflate_hd : D → Z → list nv → Z * bytes * D).
Context (fresh_response : response).

(** The flags of the two frames. *)
Definition header_flags (req : request) : Z :=
  if (if rq_body req is Some _ then false else true) && negb (pipeline req)
  then Z.lor FSW_HTTP2_FLAG_END_HEADERS FSW_HTTP2_FLAG_END_STREAM else FSW_HTTP2_FLAG_END_HEADERS.
Definition body_flags (req : request) : Z := if pipeline req then 0 else FSW_HTTP2_FLAG_END_STREAM.

Lemma send_header_ok c s req w out block d' :
  sock c = Some s → sock_ok s w out → zlen (buffer_stack c) = FSW_STACK_BUFFER_SIZE + 1 → headers_fit req →
  deflate_hd (deflater c) (deflate_bound (deflater c) (request_nvs req)) (request_nvs req) = (zlen block, block, d') →
  0 < zlen block ≤ FSW_STACK_BUFFER_SIZE - 8 → streams c !! next_stream_id c = None →
  let st := Stream.make (next_stream_id c) (pipeline req) fresh_response in
  let fr := mkFrame 9 (zlen block) FSW_HTTP2_TYPE_HEADERS (header_flags req) (next_stream_id c) in
  ∃ s' stack', send_http_header_frame deflate_bound deflate_hd fresh_response req c =
      Ok (true, Some (fr, length (heap c)),
        mkClient (Some s') (local_settings c) (remote_settings c) (inflater c) d' (next_stream_id c) (last_stream_id c)
          (<[next_stream_id c := length (heap c)]> (streams c)) (heap c ++ [Some st]) stack') ∧
    zlen stack' = FSW_STACK_BUFFER_SIZE + 1 ∧
    sock_ok s' w (out ++ wire_frame FSW_HTTP2_TYPE_HEADERS (header_flags req) (next_stream_id c) block).
Proof.
  intros Hs Hok Hstack Hfit Hdef Hb Hfresh st fr. unfold send_http_header_frame. cbn [new_stream].
  unfold build_http_header. rewrite request_headers_ok, outcome_bind_ok, entries_ok, outcome_bind_ok by done.
  cbn [deflater set_streams]. cbv zeta. rewrite Hdef. rewrite (proj2 (Z.ltb_ge _ _)) by lia.
  destruct (put_payload (buffer_stack c) block Hstack) as (h & t & Hw & Hh & Hz); [unfold FSW_STACK_BUFFER_SIZE in *; lia|].
  change FSW_HTTP2_FRAME_HEADER_SIZE with 9 in *. cbn [buffer_stack set_streams]. rewrite Hw, !outcome_bind_ok.
  rewrite (proj2 (Z.leb_gt _ _)) by lia. cbn [buffer_stack set_deflater set_stack set_remote next_stream_id set_streams].
  assert (Hfl : (Z.land (if pipeline req then FSW_HTTP2_STREAM_PIPELINE_REQUEST else FSW_HTTP2_STREAM_NORMAL)
      FSW_HTTP2_STREAM_PIPELINE_REQUEST =? 0) = negb (pipeline req)) by (by destruct (pipeline req)).
  rewrite Hfl. fold (header_flags req). fold fr.
  pose proof (CodecFacts.build_frame_header_ok [] h (block ++ t) fr eq_refl Hh) as Hbuild. cbn [app] in Hbuild.
  rewrite Hbuild, outcome_bind_ok. cbn [payload_length type flags stream_id fr].
  unfold emplace. cbn [streams set_stack set_deflater set_remote set_streams new_stream snd]. rewrite Hfresh.
  match goal with |- context [send_frame ?m fr ?c1] => destruct (send_frame_ok c1 s block t FSW_HTTP2_TYPE_HEADERS
    (header_flags req) (next_stream_id c) w out) as (s' & Hsend & Hok') end;
    [done|done|unfold FSW_STACK_BUFFER_SIZE in *; lia|].
  unfold wire_frame in Hsend at 1. rewrite <- app_assoc in Hsend. fold fr in Hsend. rewrite Hsend, outcome_bind_ok.
  eexists s', _. split; [reflexivity|]. split; [|exact Hok'].
  change (zlen (Rfc9113.frame_header (zlen block) FSW_HTTP2_TYPE_HEADERS (header_flags req) (next_stream_id c) ++
    block ++ t) = FSW_STACK_BUFFER_SIZE + 1).
  rewrite (zlen_app h) in Hz. rewrite (zlen_app (Rfc9113.frame_header _ _ _ _)).
  change (zlen (Rfc9113.frame_header _ _ _ _)) with 9. lia.
Qed.

Lemma send_body_ok c s req p st fr w out data :
  sock c = Some s → sock_ok s w out → zlen (buffer_stack c) = FSW_STACK_BUFFER_SIZE + 1 →
  heap c !! p = Some (Some st) → st_flags st = st_flags (Stream.make 0 (pipeline req) fresh_response) →
  mem_read (match rq_body req with Some b => b | None => [] end) 0 (rq_body_length req) = Ok data →
  zlen data = rq_body_length req → zlen data ≤ FSW_STACK_BUFFER_SIZE - 8 →
  let fb := mkFrame 9 (zlen data) FSW_HTTP2_TYPE_DATA (body_flags req) (stream_id fr) in
  ∃ s' stack', send_http_body_frame fr p req c = Ok (true, fb, set_sock s' (set_stack stack' c)) ∧
    zlen stack' = FSW_STACK_BUFFER_SIZE + 1 ∧
    sock_ok s' w (out ++ wire_frame FSW_HTTP2_TYPE_DATA (body_flags req) (stream_id fr) data).
Proof.
  intros Hs Hok Hstack Hp Hfl Hdata Hlen Hmax fb. unfold send_http_body_frame. cbv zeta. rewrite Hdata, outcome_bind_ok.
  destruct (put_payload (buffer_stack c) data Hstack) as (h & t & Hw & Hh & Hz); [unfold FSW_STACK_BUFFER_SIZE in *; lia|].
  change FSW_HTTP2_FRAME_HEADER_SIZE with 9. rewrite Hw, outcome_bind_ok.
  unfold deref. cbn [mbind option_bind heap set_stack]. rewrite Hp, outcome_bind_ok.
  assert (Hb : (if Z.land (st_flags st) FSW_HTTP2_STREAM_PIPELINE_REQUEST =? 0 then FSW_HTTP2_FLAG_END_STREAM else 0) =
    body_flags req) by (rewrite Hfl; unfold body_flags; by destruct (pipeline req)).
  pose proof (zlen_nonneg data).
  assert (Hi : i64 (rq_body_length req) = zlen data) by (rewrite <- Hlen; apply i64_id; unfold FSW_STACK_BUFFER_SIZE in *; lia).
  cbv beta. rewrite Hb, Hi. fold fb.
  pose proof (CodecFacts.build_frame_header_ok [] h (data ++ t) fb eq_refl Hh) as Hbuild. cbn [app] in Hbuild.
  rewrite Hbuild, outcome_bind_ok. cbn [payload_length type flags stream_id fb].
  match goal with |- context [send_frame ?m fb ?c1] => destruct (send_frame_ok c1 s data t FSW_HTTP2_TYPE_DATA
    (body_flags req) (stream_id fr) w out) as (s' & Hsend & Hok') end;
    [done|done|unfold FSW_STACK_BUFFER_SIZE in *; lia|].
  unfold wire_frame in Hsend at 1. rewrite <- app_assoc in Hsend. fold fb in Hsend. rewrite Hsend, outcome_bind_ok.
  eexists s', _. split; [reflexivity|]. split; [|exact Hok'].
  rewrite (zlen_app h) in Hz. rewrite (zlen_app (Rfc9113.frame_header _ _ _ _)).
  change (zlen (Rfc9113.frame_header _ _ _ _)) with 9. lia.
Qed.

End client.
End RequestFacts.

(** ** Connecting *)
Module GreetFacts.
Import Client Session SessionFacts RequestFacts.
Section greet.
Context {D I : Type}.
Implicit Types (c : client D I).

(** What a client sends first: the preface and its settings. *)
Definition greeting (own : settings) : bytes :=
  FSW_HTTP2_PRI_STRING ++ wire_frame FSW_HTTP2_TYPE_SETTINGS 0 0
    ([(FSW_HTTP2_SETTING_HEADER_TABLE_SIZE, header_table_size own); (FSW_HTTP2_SETTINGS_MAX_CONCURRENT_STREAMS, max_concurrent_streams own);
      (FSW_HTTP2_SETTINGS_INIT_WINDOW_SIZE, window_size own)] ≫= Rfc9113.setting).

Lemma sock_ok_as s s' w out : sock_ok s w out → array_of s' = array_of s → rx (sk s') = rx (sk s) → tx (sk s') = tx (sk s) →
  waits (sk s') = waits (sk s) → sent (sk s') = sent (sk s) → sock_ok s' w out.
Proof. intros [H1 H2 H3 H4 H5] E1 E2 E3 E4 E5. split; congruence. Qed.

Lemma connect_loop_pending n more : ∀ s turns, calls s = replicate n (CallError EINPROGRESS) ++ CallOk 0 :: more → waits s = [] → (n < turns)%nat →
  ∃ s', CoSocket.connect_loop turns s = Some (0, s') ∧ rx s' = rx s ∧ tx s' = tx s ∧ waits s' = [] ∧ sent s' = sent s.
Proof.
  induction n as [|n IH]; intros s [|turns] Hc Hw Hn; [lia| |lia|]; cbn [CoSocket.connect_loop]; unfold Socket.call; rewrite Hc; cbn [replicate app].
  - cbn [Z.ltb andb]. eexists. by split_and!.
  - cbn. unfold CoSocket.wait_event. cbn. rewrite Hw. edestruct IH as (s' & H & H1 & H2 & H3 & H4); [| | |exists s'; split; [exact H|]]; [done..|lia|].
    cbn in *. by split_and!.
Qed.

(** A connection that the kernel grants, at once or later, begins with the
    greeting. *)
Lemma connect_sends c made pton n more w out :
  sock c = None → pton ≠ 0 → cwrite_buf made = None → sock_ok made w out → calls (sk made) = replicate n (CallError EINPROGRESS) ++ CallOk 0 :: more →
  ∃ s, connect made pton c = Ok (true, set_sock s c) ∧ sock_ok s w (out ++ greeting (local_settings c)).
Proof.
  intros Hc Hp Hb Hok Hcalls. unfold connect, CoSocket.connect_host, CoSocket.connect. rewrite Hc, (proj2 (Z.eqb_neq pton 0)) by done.
  destruct (connect_loop_pending n more (sk made) (S (length (calls (sk made)))) Hcalls (so_waits _ _ _ Hok)) as (s1 & -> & H1 & H2 & H3 & H4).
  { rewrite Hcalls, length_app, length_replicate. cbn. lia. }
  cbn [fmap option_fmap option_map]. rewrite outcome_bind_ok. cbv beta iota zeta. change (0 =? 0) with true. change (0 <? 0) with false. cbn [negb].
  set (s2 := CoSocket.set_sk s1 made).
  assert (Hok2 : sock_ok s2 w out) by (eapply sock_ok_as; [exact Hok|by apply array_of_set_sk|done..| |done]; by rewrite (so_waits _ _ _ Hok)).
  destruct (send_ok (set_sock s2 c) s2 FSW_HTTP2_PRI_STRING (strl_literal FSW_HTTP2_PRI_STRING) w out) as (s3 & -> & Hok3 & _ & Hw3);
    [done|done|split; by vm_compute|by vm_compute|].
  rewrite outcome_bind_ok. cbv beta iota zeta. cbn [negb sock set_sock local_settings].
  unfold CoSocket.get_write_buf. rewrite Hw3. cbn [cwrite_buf s2 CoSocket.set_sk]. rewrite Hb.
  set (old := _buffer (Buffer.make WRITE_BUF_MAX_SIZE)).
  destruct (CodecFacts.build_setting_frame_ok (local_settings c) (take 27 old) (drop 27 old)) as (f & H & ->); [by vm_compute|].
  rewrite take_drop in H. rewrite H, outcome_bind_ok. rewrite app_assoc.
  match goal with |- context [send_frame ((?h ++ ?x) ++ ?t) ?fr ?c1] =>
    change (h ++ x) with (wire_frame FSW_HTTP2_TYPE_SETTINGS 0 0 x); set (c2 := c1);
    destruct (send_frame_ok c2 (CoSocket.set_write_buf (mkBuffer WRITE_BUF_MAX_SIZE 0 (wire_frame FSW_HTTP2_TYPE_SETTINGS 0 0 x ++ t)) s3) x t
      FSW_HTTP2_TYPE_SETTINGS 0 0 w (out ++ FSW_HTTP2_PRI_STRING)) as (s4 & H4' & Hok4)
  end; [done| |by vm_compute| ].
  - change (take _ _) with FSW_HTTP2_PRI_STRING in Hok3.
    eapply sock_ok_as; [exact Hok3|unfold array_of, CoSocket.get_read_buf; cbn; by destruct (cread_buf s3)|done..].
  - exists s4. split; [exact H4'|]. unfold greeting. rewrite app_assoc. exact Hok4.
Qed.
End greet.
End GreetFacts.

(** ** Where frames go wrong *)
Module StreamFacts.
Import Client.

Lemma Ok_inj {A} (x y : A) : Ok x = Ok y → x = y.
Proof. by intros [= ->]. Qed.

Section client.
Context {D I : Type}.
Implicit Types (c : client D I).

Definition is_u32 (z : Z) : Prop := 0 ≤ z < 2 ^ 32.
Definition settings_typed (s : settings) : Prop :=
  is_u32 (header_table_size s) ∧ is_u32 (window_size s) ∧ is_u32 (max_concurrent_streams s) ∧
  is_u32 (max_frame_size s) ∧ is_u32 (max_header_list_size s).

(** A body buffer: its array has room for the capacity. *)
Definition buffer_typed (b : buffer) : Prop :=
  _size b = READ_BUF_MAX_SIZE ∧ zlen (_buffer b) = READ_BUF_MAX_SIZE + 1 ∧ 0 ≤ _length b ≤ READ_BUF_MAX_SIZE.
Definition stream_typed (st : h2stream) : Prop :=
  is_u32 (st_id st) ∧ is_u32 (remote_window_size st) ∧ is_u32 (local_window_size st) ∧
  match st_buffer st with None => True | Some b => buffer_typed b end.

(** Every entry of the map is a live stream of that id, and different entries
    are different objects; the integers fit their types. *)
Record client_typed c : Prop := {
  ct_local : settings_typed (local_settings c);
  ct_remote : settings_typed (remote_settings c);
  ct_next : is_u32 (next_stream_id c);
  ct_last : is_u32 (last_stream_id c);
  ct_heap : ∀ p st, heap c !! p = Some (Some st) → stream_typed st;
  ct_map : ∀ id p, streams c !! id = Some p → ∃ st, heap c !! p = Some (Some st) ∧ st_id st = id
}.

Lemma u32_typed z : is_u32 (u32 z).
Proof. apply u32_bound. Qed.

Lemma ntohl_typed z : is_u32 (ntohl z).
Proof.
  unfold ntohl, be_load. pose proof (le_load_bound (reverse (le_store 4 z))) as H.
  unfold zlen in H. rewrite length_reverse, length_le_store in H. apply H. apply Forall_reverse, le_store_bytes_ok.
Qed.

(** The parts of the client an operation does not touch. *)
Lemma typed_sock c s : client_typed c → client_typed (set_sock s c).
Proof. intros []. by split. Qed.
Lemma typed_stack c b : client_typed c → client_typed (set_stack b c).
Proof. intros []. by split. Qed.
Lemma typed_inflater c i : client_typed c → client_typed (set_inflater i c).
Proof. intros []. by split. Qed.
Lemma typed_remote c s d : settings_typed s → client_typed c → client_typed (set_remote s d c).
Proof. intros ? []. by split. Qed.
Lemma typed_local c s : settings_typed s → client_typed c → client_typed (set_local s c).
Proof. intros ? []. by split. Qed.
Lemma typed_ids c n l : is_u32 n → is_u32 l → client_typed c → client_typed (set_ids n l c).
Proof. intros ?? []. by split. Qed.

Lemma typed_send buf len c ok c' : client_typed c → send buf len c = Ok (ok, c') → client_typed c'.
Proof.
  intros Hc H. unfold send in H. destruct (sock c) as [s|]; [|done]. destruct (CoSocket.send_all _ _ _ _); [|done].
  apply outcome_bind_inv in H as ([r k] & _ & H). injection H as _ <-. by apply typed_sock.
Qed.

Lemma typed_new_stream st c : stream_typed st → client_typed c → client_typed (new_stream st c).2.
Proof.
  intros Hst [H1 H2 H3 H4 H5 H6]. split; try done; cbn [new_stream snd heap set_streams streams].
  - intros p st' Hp. apply lookup_app_Some in Hp as [Hp|[_ Hp]]; [by eapply H5|].
    apply list_lookup_singleton_Some in Hp as [_ Hp]. by injection Hp as <-.
  - intros id p Hp. destruct (H6 id p Hp) as (st' & Hl & Hid). exists st'. split; [|done].
    by apply lookup_app_l_Some.
Qed.

Lemma typed_emplace id p st c :
  heap c !! p = Some (Some st) → st_id st = id → client_typed c → client_typed (emplace id p c).
Proof.
  intros Hp Hid Hc. unfold emplace. destruct (streams c !! id); [done|]. destruct Hc as [H1 H2 H3 H4 H5 H6].
  split; try done. cbn [streams set_streams heap]. intros id2 p2 Hl.
  apply lookup_insert_Some in Hl as [[<- <-]|[_ Hl]]; [by exists st|by apply H6].
Qed.

Lemma typed_update p st0 st c :
  heap c !! p = Some (Some st0) → st_id st = st_id st0 → stream_typed st → client_typed c →
  client_typed (update_stream (Some p) (λ _, st) c).
Proof.
  intros Hp Hid Hst [H1 H2 H3 H4 H5 H6]. split; try done; cbn [update_stream heap set_streams streams].
  - intros p' st' Hl. destruct (decide (p = p')) as [<-|Hne].
    + rewrite list_lookup_alter_eq, Hp in Hl. by injection Hl as <-.
    + rewrite list_lookup_alter_ne in Hl by done. by eapply H5.
  - intros id p' Hl. destruct (H6 id p' Hl) as (st' & Hl' & Hid'). destruct (decide (p = p')) as [<-|Hne].
    + exists st. rewrite list_lookup_alter_eq, Hp. split; [done|]. rewrite Hp in Hl'. injection Hl' as <-. congruence.
    + exists st'. by rewrite list_lookup_alter_ne.
Qed.

Lemma typed_delete id c :
  (∀ k1 k2 p, streams c !! k1 = Some p → streams c !! k2 = Some p → k1 = k2) →
  client_typed c → client_typed (delete_stream id c).2.
Proof.
  intros Hinj Hc. unfold delete_stream. destruct (streams c !! id) as [p|] eqn:E; [|done].
  destruct Hc as [H1 H2 H3 H4 H5 H6]. split; try done; cbn [snd heap set_streams streams].
  - intros p' st Hl. destruct (decide (p = p')) as [<-|Hne].
    + apply list_lookup_insert_Some in Hl as [(_ & Hl & _)|[? _]]; done.
    + rewrite list_lookup_insert_ne in Hl by done. by eapply H5.
  - intros k p' Hl. apply lookup_delete_Some in Hl as [Hk Hl]. destruct (H6 k p' Hl) as (st & Hp & Hid). exists st.
    rewrite list_lookup_insert_ne; [done|]. intros <-. by apply Hk, (Hinj id k p).
Qed.

(** A dereferenced pointer. *)
Lemma deref_inv p c st : deref p c = Ok st → ∃ q, p = Some q ∧ heap c !! q = Some (Some st).
Proof.
  unfold deref. destruct p as [q|]; [|done]. cbn [mbind option_bind].
  destruct (heap c !! q) as [[st'|]|] eqn:E; [|done..]. intros [= <-]. by exists q.
Qed.

Lemma append_typed b mem n b' : buffer_typed b → Buffer.append_raw b mem n = Ok b' → buffer_typed b'.
Proof.
  unfold buffer_typed, READ_BUF_MAX_SIZE. intros (Hs & Hm & Hl) H. unfold Buffer.append_raw in H. rewrite Hs in H.
  destruct (1024 <? u64 (_length b + n)) eqn:E; [done|]. zify_bools.
  outcome_inv. cbn [_size _length _buffer]. pose proof (u64_bound (_length b + n)).
  match goal with H1 : mem_write (_buffer b) _ _ = Ok ?x, H2 : mem_write ?x _ _ = Ok _ |- _ =>
    apply mem_write_zlen in H1; apply mem_write_zlen in H2 end. split_and!; lia.
Qed.

Lemma clear_typed b b' : buffer_typed b → Buffer.clear b = Ok b' → buffer_typed b'.
Proof.
  intros (Hs & Hm & Hl) H. unfold Buffer.clear in H. apply outcome_bind_inv in H as (m & Hw & H). injection H as <-.
  apply mem_write_zlen in Hw. unfold buffer_typed. cbn. unfold READ_BUF_MAX_SIZE in *. split_and!; lia || congruence.
Qed.

Lemma make_typed : buffer_typed (Buffer.make READ_BUF_MAX_SIZE).
Proof. unfold buffer_typed, READ_BUF_MAX_SIZE. by vm_compute. Qed.

(** What a body buffer does when it is full, and when it is not. *)
Lemma append_typed_ok b mem n :
  buffer_typed b → 0 < n ≤ zlen mem → n < 2 ^ 24 →
  if READ_BUF_MAX_SIZE <? _length b + n then Buffer.append_raw b mem n = Exit
  else ∃ b', Buffer.append_raw b mem n = Ok b' ∧ buffer_typed b' ∧
         Buffer.contents b' = Buffer.contents b ++ take (Z.to_nat n) mem.
Proof.
  intros Hb Hn Hmax. pose proof Hb as (Hs & Hm & Hl). pose proof (append_typed b mem n) as Ht. revert Ht.
  unfold Buffer.append_raw. rewrite Hs. unfold READ_BUF_MAX_SIZE in *. rewrite u64_id by lia. split_if; [done|].
  rewrite mem_read_ok, outcome_bind_ok by lia. change (drop (Z.to_nat 0) mem) with mem.
  set (d := take (Z.to_nat n) mem). assert (Hd : zlen d = n) by (unfold d; rewrite zlen_take; lia).
  rewrite mem_write_ok, outcome_bind_ok by lia. set (m := _ ++ d ++ _).
  assert (Hml : zlen m = 1025).
  { unfold m. rewrite !zlen_app, zlen_take, zlen_drop by lia. lia. }
  rewrite mem_write_ok by (change (zlen [0]) with 1; lia). rewrite outcome_bind_ok. intros Ht.
  eexists. split; [reflexivity|]. split; [by apply Ht|]. unfold Buffer.contents. cbn [_length _buffer].
  rewrite take_app_le by (apply Nat2Z.inj_le; fold (zlen (take (Z.to_nat (_length b + n)) m)); rewrite zlen_take; lia).
  rewrite take_take, Nat.min_id. unfold m. rewrite app_assoc.
  rewrite take_app_le by (rewrite length_app, length_take; unfold zlen in *; lia).
  apply take_ge. rewrite length_app, length_take. unfold zlen in *. lia.
Qed.

Lemma clear_typed_ok b :
  buffer_typed b → ∃ b', Buffer.clear b = Ok b' ∧ Buffer.contents b' = [].
Proof.
  intros (Hs & Hm & Hl). unfold Buffer.clear, READ_BUF_MAX_SIZE in *.
  rewrite mem_write_ok by (change (zlen [0]) with 1; lia). rewrite outcome_bind_ok. by eexists.
Qed.

(** The bytes of a body received so far. *)
Definition body_so_far (st : h2stream) : bytes :=
  match st_buffer st with Some b => Buffer.contents b | None => [] end.

(** The stream [p] of [c] becomes [st], and no other stream changes. *)
Definition becomes (p : nat) (st : h2stream) c c' : Prop :=
  deref (Some p) c' = Ok st ∧ ∀ q, q ≠ p → deref (Some q) c' = deref (Some q) c.

Lemma update_becomes p st0 st c c1 :
  heap c !! p = Some (Some st0) → heap c1 = heap c → becomes p st c (update_stream (Some p) (λ _, st) c1).
Proof.
  intros Hp Hh. unfold becomes, deref, update_stream. cbn [mbind option_bind heap set_streams]. rewrite Hh. split.
  - by rewrite list_lookup_alter_eq, Hp.
  - intros q Hq. by rewrite list_lookup_alter_ne by done.
Qed.

Lemma parse_payload_ok f p st c :
  stream_typed st → heap c !! p = Some (Some st) → payload f = 9 → 0 ≤ payload_length f →
  9 + payload_length f ≤ zlen (frame_memory c) → payload_length f < 2 ^ 24 →
  if (READ_BUF_MAX_SIZE <? zlen (body_so_far st) + payload_length f) && (0 <? payload_length f)
  then parse_payload f (Some p) c = Exit
  else ∃ st' c', parse_payload f (Some p) c = Ok c' ∧ becomes p st' c c' ∧ heap c' !! p = Some (Some st') ∧
    stream_typed st' ∧ st_response st' = st_response st ∧
    body_so_far st' = body_so_far st ++ take (Z.to_nat (payload_length f)) (drop 9 (frame_memory c)).
Proof.
  intros Hst Hp Hpl Hn Hfit Hmax. unfold parse_payload.
  assert (Hd : deref (Some p) c = Ok st) by (unfold deref; cbn [mbind option_bind]; by rewrite Hp).
  rewrite Hd, outcome_bind_ok. cbv zeta. set (st1 := if _ =? 0 then _ else _).
  assert (H1 : st_buffer st1 = st_buffer st ∧ st_response st1 = st_response st ∧ stream_typed st1)
    by (unfold st1; by destruct (_ =? 0)).
  clearbody st1. destruct H1 as (Eb & Er & Hst1).
  assert (Hup : ∀ x c1, heap c1 = heap c → heap (update_stream (Some p) (λ _, x) c1) !! p = Some (Some x)).
  { intros x c1 E. cbn [update_stream heap set_streams]. by rewrite E, list_lookup_alter_eq, Hp. }
  destruct (0 <? payload_length f) eqn:E0.
  2:{ rewrite andb_false_r. eexists _, _. split; [reflexivity|]. split; [by eapply update_becomes|].
      split; [by apply Hup|]. split; [done|]. split; [done|]. zify_bools.
      replace (payload_length f) with 0 by lia. change (take (Z.to_nat 0) ?l) with (@nil Z).
      unfold body_so_far. by rewrite Eb, app_nil_r. }
  rewrite andb_true_r. zify_bools. rewrite Eb.
  set (b := match st_buffer st with Some b => b | None => _ end).
  assert (Hb : buffer_typed b ∧ Buffer.contents b = body_so_far st).
  { unfold b, body_so_far. destruct Hst as (_ & _ & _ & Hb0). destruct (st_buffer st); [done|].
    split; [apply make_typed|reflexivity]. }
  clearbody b. destruct Hb as [Hb Hbc]. rewrite Hpl. change (Z.to_nat 9) with 9%nat.
  assert (Hbl : zlen (body_so_far st) = _length b).
  { rewrite <- Hbc. destruct Hb as (_ & Hm & Hl). unfold Buffer.contents. rewrite zlen_take; [done|].
    unfold READ_BUF_MAX_SIZE in *. lia. }
  pose proof (append_typed_ok b (drop 9 (frame_memory c)) (payload_length f) Hb) as H. rewrite Hbl, <- Hbc.
  assert (Hz : zlen (drop 9 (frame_memory c)) = zlen (frame_memory c) - 9) by (apply (zlen_drop 9); lia).
  specialize (H ltac:(lia) Hmax). split_if; [by rewrite H|]. destruct H as (b' & -> & Hb' & Hc').
  rewrite outcome_bind_ok. eexists _, _. split; [reflexivity|].
  split; [by eapply update_becomes|]. split; [by apply Hup|]. split.
  - destruct Hst1 as (? & ? & ? & _). split_and!; cbn; try done. apply u32_typed.
  - split; [exact Er|exact Hc'].
Qed.

(** The end of the stream of a data frame. *)
Lemma data_end_ok f p st c :
  type f = FSW_HTTP2_TYPE_DATA → stream_typed st → heap c !! p = Some (Some st) →
  ∃ st' c', end_of_stream f (Some p) 0 c = Ok (FSW_READY, c') ∧ becomes p st' c c' ∧ body_so_far st' = [] ∧
    st_response st' = if decide (body_so_far st = []) then st_response st
                      else Resp.set_body (body_so_far st) (st_response st).
Proof.
  intros Ht Hst Hp. unfold end_of_stream.
  assert (Hd : deref (Some p) c = Ok st) by (unfold deref; cbn [mbind option_bind]; by rewrite Hp).
  rewrite Hd, outcome_bind_ok, Ht. change (FSW_HTTP2_TYPE_DATA =? FSW_HTTP2_TYPE_RST_STREAM) with false. cbv iota zeta.
  unfold body_so_far. destruct Hst as (_ & _ & _ & Hb). destruct (st_buffer st) as [b|] eqn:Eb.
  2:{ eexists st, _. split; [reflexivity|]. split; [by eapply update_becomes|]. rewrite Eb. by split. }
  pose proof Hb as (Hs & Hm & Hl). unfold READ_BUF_MAX_SIZE in *.
  assert (Hz : zlen (Buffer.contents b) = _length b) by (unfold Buffer.contents; rewrite zlen_take; lia).
  destruct (0 <? _length b) eqn:E; zify_bools.
  - rewrite mem_read_ok, outcome_bind_ok by lia. destruct (clear_typed_ok b Hb) as (b' & -> & Hc').
    rewrite outcome_bind_ok. eexists _, _. split; [reflexivity|]. split; [by eapply update_becomes|].
    split; [exact Hc'|]. rewrite decide_False; [done|]. intros E'. rewrite E' in Hz. change (zlen []) with 0 in Hz. lia.
  - assert (E0 : Buffer.contents b = []) by (destruct (Buffer.contents b) as [|? l]; [done|rewrite zlen_cons in Hz; pose proof (zlen_nonneg l); lia]).
    eexists st, _. split; [reflexivity|]. split; [by eapply update_becomes|]. rewrite Eb, E0. by split.
Qed.

(** ** Every operation keeps the client well typed *)
Context (change_table_size : D → Z → Z * D) (inflate_hd : I → bytes → Z * option (bytes * bytes) * bool * I).
Context (inflate_end_headers : I → I) (ack_buf : bytes).
Context (deflate_bound : D → list nv → Z) (deflate_hd : D → Z → list nv → Z * bytes * D) (fresh_response : response).

Lemma set_setting_typed id value d s ok d' s' :
  is_u32 value → settings_typed s → Codec.set_setting change_table_size id value d s = (ok, d', s') → settings_typed s'.
Proof.
  unfold Codec.set_setting, settings_typed. intros Hv Hs.
  repeat match goal with |- context [if ?b then _ else _] => destruct b end; intros H;
    try (injection H as _ _ <-; cbn; tauto).
  destruct (change_table_size d value) as [r d2]. injection H as _ _ <-. cbn. tauto.
Qed.

Lemma parse_settings_typed fuel : ∀ mem pos n value d s r ok d' s',
  settings_typed s → Codec.parse_settings change_table_size fuel mem pos n value d s = Some (Ok (r, ok, d', s')) →
  settings_typed s'.
Proof.
  induction fuel as [|fuel IH]; intros mem pos n value d s r ok d' s' Hs H; cbn [Codec.parse_settings] in H.
  - destruct (n <=? 0); [by injection H as _ _ _ <-|done].
  - destruct (n <=? 0); [by injection H as _ _ _ <-|].
    destruct (mbind _ (mem_read mem pos 2)) as [[id v]| |] eqn:E; [|done..].
    apply outcome_bind_inv in E as (w & _ & E). apply outcome_bind_inv in E as (w2 & _ & E). injection E as <- <-.
    destruct (Codec.set_setting _ _ _ _ _) as [[k d1] s1] eqn:E1.
    apply set_setting_typed in E1; [|apply ntohl_typed|done]. destruct k; cbn [negb] in H; [by eapply IH|].
    by injection H as _ _ _ <-.
Qed.

Lemma typed_settings f c r c' :
  client_typed c → parse_setting_frame change_table_size ack_buf f c = Ok (r, c') → client_typed c'.
Proof.
  intros Hc H. unfold parse_setting_frame in H. destruct (Codec.parse_settings _ _ _ _ _ _ _ _) as [o|] eqn:E; [|done].
  apply outcome_bind_inv in H as ([[[v ok] d] s] & -> & H). apply parse_settings_typed in E; [|by apply ct_remote].
  pose proof (typed_remote c s d E Hc) as Hc1. destruct ok; cbn [negb] in H; [|by injection H as _ <-].
  apply outcome_bind_inv in H as (a & _ & H). apply outcome_bind_inv in H as ([k c2] & H2 & H). injection H as _ <-.
  by eapply typed_send.
Qed.

Lemma typed_headers fuel f p c r c' :
  client_typed c → parse_frame_header inflate_hd inflate_end_headers fuel f p c = Some (Ok (r, c')) → client_typed c'.
Proof.
  intros Hc H. unfold parse_frame_header in H. destruct (deref p c) as [st| |]; [|done..].
  destruct (inflate_loop _ _ _ _ _ _ _ _ _) as [o|]; [|done]. injection H as H.
  apply outcome_bind_inv in H as ([[ret i] rs] & _ & H). injection H as _ <-. by apply typed_inflater.
Qed.

Lemma typed_payload f p c c' : client_typed c → parse_payload f p c = Ok c' → client_typed c'.
Proof.
  intros Hc H. unfold parse_payload in H. apply outcome_bind_inv in H as (st & Hd & H).
  apply deref_inv in Hd as (q & -> & Hq). pose proof (ct_heap c Hc q st Hq) as Hst.
  set (st1 := if _ =? 0 then _ else _) in H.
  assert (H1 : st_id st1 = st_id st ∧ st_buffer st1 = st_buffer st ∧ stream_typed st1)
    by (unfold st1; by destruct (_ =? 0)).
  destruct H1 as (Ei & Eb & Hst1). clearbody st1. destruct (0 <? payload_length f).
  - apply outcome_bind_inv in H as (b & Hb & H). apply Ok_inj in H. subst c'.
    assert (Hbt : buffer_typed b).
    { eapply append_typed; [|exact Hb]. destruct Hst1 as (_ & _ & _ & Hb1). destruct (st_buffer st1); [done|apply make_typed]. }
    apply (typed_update q st); [exact Hq|done| |].
    + destruct Hst1 as (? & ? & ? & _). split_and!; cbn; try done. apply u32_typed.
    + apply typed_local; [|done]. destruct (ct_local c Hc) as (? & ? & ? & ? & ?). split_and!; cbn; try done. apply u32_typed.
  - injection H as <-. by eapply typed_update.
Qed.

Lemma typed_end f p value c r c' : client_typed c → end_of_stream f p value c = Ok (r, c') → client_typed c'.
Proof.
  intros Hc H. unfold end_of_stream in H. apply outcome_bind_inv in H as (st & Hd & H).
  apply deref_inv in Hd as (q & -> & Hq). pose proof (ct_heap c Hc q st Hq) as Hst.
  set (st1 := if type f =? _ then _ else _) in H.
  assert (H1 : st_id st1 = st_id st ∧ stream_typed st1) by (unfold st1; by destruct (type f =? _)).
  destruct H1 as (Ei & Hst1). clearbody st1. destruct (st_buffer st1) as [b|] eqn:Eb.
  - destruct (0 <? _length b).
    + apply outcome_bind_inv in H as (body & _ & H). apply outcome_bind_inv in H as (b' & Hb & H). injection H as _ <-.
      eapply typed_update; [exact Hq|done| |done]. destruct Hst1 as (? & ? & ? & Hb1). rewrite Eb in Hb1.
      split_and!; cbn; try done. by eapply clear_typed.
    + injection H as _ <-. by eapply typed_update.
  - injection H as _ <-. by eapply typed_update.
Qed.

Lemma typed_frame fuel f p c r c' :
  client_typed c → parse_frame change_table_size inflate_hd inflate_end_headers ack_buf fuel f p c = Some (Ok (r, c')) →
  client_typed c'.
Proof.
  intros Hc H. unfold parse_frame in H. set (c1 := if last_stream_id c <? _ then _ else _) in H.
  assert (Hc1 : client_typed c1).
  { unfold c1. destruct (_ <? _); [|done]. by apply typed_ids; [apply ct_next..|]. }
  clearbody c1. destruct (type f =? FSW_HTTP2_TYPE_SETTINGS).
  { injection H as H. apply outcome_bind_inv in H as ([v c2] & H2 & H). injection H as _ <-. by eapply typed_settings. }
  destruct (ignored (type f)); [by injection H as _ <-|].
  match type of H with match ?m with _ => _ end = _ => destruct m as [o|] eqn:E; [|done] end. injection H as H.
  apply outcome_bind_inv in H as (c2 & -> & H).
  assert (Hc2 : client_typed c2).
  { destruct (type f =? FSW_HTTP2_TYPE_HEADERS).
    - destruct (parse_frame_header _ _ _ _ _ _) as [o|] eqn:Eh; [|done]. injection E as E.
      apply outcome_fmap_inv in E as ([v c3] & -> & ->). by eapply typed_headers.
    - destruct (type f =? FSW_HTTP2_TYPE_DATA); [|by injection E as <-]. injection E as E. by eapply typed_payload. }
  destruct (_ || _); [by eapply typed_end|by injection H as _ <-].
Qed.

Lemma typed_receive fuel : ∀ c r c',
  client_typed c → recv_reponse change_table_size inflate_hd inflate_end_headers ack_buf fuel c = Some (Ok (r, c')) →
  client_typed c'.
Proof.
  induction fuel as [|fuel IH]; intros c r c' Hc H; [done|]. cbn [recv_reponse] in H.
  destruct (recv_frame c) as [[[f p] c1]| |] eqn:E; [|done..].
  assert (Hc1 : client_typed c1).
  { unfold recv_frame in E. destruct (sock c) as [s|]; [|done]. apply outcome_bind_inv in E as ([n1 s1] & _ & E).
    apply outcome_bind_inv in E as (len & _ & E). apply outcome_bind_inv in E as ([n2 s2] & _ & E).
    apply outcome_bind_inv in E as (fr & _ & E). injection E as _ _ <-. by apply typed_sock. }
  destruct (parse_frame _ _ _ _ _ _ _ _) as [[[ret c2]| |]|] eqn:E2; [|done..].
  apply typed_frame in E2; [|done]. case_bool_decide; [|by apply (IH c2 r)].
  injection H as H. apply outcome_bind_inv in H as (st & _ & H). by injection H as _ <-.
Qed.

Lemma typed_build_header pos req c r c' :
  client_typed c → build_http_header deflate_bound deflate_hd pos req c = Ok (r, c') →
  client_typed c' ∧ heap c' = heap c ∧ next_stream_id c' = next_stream_id c.
Proof.
  intros Hc H. unfold build_http_header in H. apply outcome_bind_inv in H as (h & _ & H).
  apply outcome_bind_inv in H as (l & _ & H). cbv zeta in H. destruct (deflate_hd _ _ _) as [[rv out] d].
  destruct (rv <? 0); [done|]. apply outcome_bind_inv in H as (m & _ & H). injection H as _ <-.
  split; [|done]. apply typed_remote; [by apply ct_remote, typed_stack|by apply typed_stack].
Qed.

Lemma typed_request req c r c' :
  client_typed c → send_request deflate_bound deflate_hd fresh_response req c = Ok (r, c') → client_typed c'.
Proof.
  intros Hc H. unfold send_request in H. apply outcome_bind_inv in H as ([[ok o] c1] & H1 & H).
  destruct o as [[f p]|]; [|done]. apply outcome_bind_inv in H as ([[ok2 f2] c2] & H2 & H).
  apply outcome_bind_inv in H as (st & _ & H). injection H as _ <-.
  assert (Hc1 : client_typed c1).
  { unfold send_http_header_frame in H1. cbn [new_stream] in H1.
    set (st0 := Stream.make _ _ _) in H1. set (c0 := set_streams _ _ c) in H1.
    assert (Hc0 : client_typed c0).
    { apply (typed_new_stream st0 c); [|done]. split_and!; cbn; [by apply ct_next|..]; done. }
    assert (Hp0 : heap c0 !! length (heap c) = Some (Some st0)) by (unfold c0; cbn; by apply list_lookup_middle).
    apply outcome_bind_inv in H1 as ([n c3] & H3 & H1). apply typed_build_header in H3 as (Hc3 & Eh & En); [|done].
    destruct (n <=? 0); [by injection H1 as _ _ <-|]. apply outcome_bind_inv in H1 as (m & _ & H1).
    apply outcome_bind_inv in H1 as ([k c4] & H4 & H1). injection H1 as _ _ <- <-. eapply typed_send; [|exact H4].
    eapply typed_emplace; [cbn; rewrite Eh; exact Hp0|cbn; by rewrite En|by apply typed_stack]. }
  assert (Hc2 : client_typed c2).
  { unfold send_http_body_frame in H2. apply outcome_bind_inv in H2 as (d & _ & H2).
    apply outcome_bind_inv in H2 as (m & _ & H2). apply outcome_bind_inv in H2 as (st1 & _ & H2).
    apply outcome_bind_inv in H2 as (m2 & _ & H2). apply outcome_bind_inv in H2 as ([k c4] & H4 & H2).
    injection H2 as _ _ <-. eapply typed_send; [|exact H4]. by apply typed_stack, typed_stack. }
  apply typed_ids; [apply u32_typed|by apply ct_last|done].
Qed.

Lemma typed_write id data n e c r c' : client_typed c → write_data id data n e c = Ok (r, c') → client_typed c'.
Proof.
  intros Hc H. unfold write_data in H. apply outcome_bind_inv in H as (d & _ & H).
  apply outcome_bind_inv in H as (m & _ & H). apply outcome_bind_inv in H as (m2 & _ & H).
  apply outcome_bind_inv in H as ([k c4] & H4 & H). injection H as _ <-. eapply typed_send; [|exact H4].
  by apply typed_stack.
Qed.

Lemma typed_connect made pton c r c' : client_typed c → connect made pton c = Ok (r, c') → client_typed c'.
Proof.
  intros Hc H. unfold connect in H. destruct (sock c) as [s|]; [by injection H as _ <-|].
  destruct (CoSocket.connect_host _ _ _) as [o|]; [|done]. apply outcome_bind_inv in H as ([ok s] & _ & H).
  pose proof (typed_sock c s Hc) as Hc1. destruct ok; cbn [negb] in H; [|by injection H as _ <-].
  apply outcome_bind_inv in H as ([k c2] & H2 & H). apply typed_send in H2; [|done].
  destruct k; cbn [negb] in H; [|by injection H as _ <-]. destruct (sock c2) as [s2|]; [|done].
  destruct (CoSocket.get_write_buf s2) as [b s3]. apply outcome_bind_inv in H as ([f m] & _ & H).
  eapply typed_send; [|exact H]. by apply typed_sock.
Qed.

End client.
End StreamFacts.

(** ** Properties *)
Section session_properties.
Import Client Session SessionFacts.
Context {D I : Type}.
Implicit Types (c : client D I).
Context (change_table_size : D → Z → Z * D) (inflate_hd : I → bytes → Z * option (bytes * bytes) * bool * I).
Context (inflate_end_headers : I → I) (ack_buf : bytes).

Definition data_of (f : in_frame) : bytes := match f with InData d => d | _ => [] end.
Definition settings_of (f : in_frame) : list (Z * Z) := match f with InSettings _ _ es => es | _ => [] end.
Definition ack_of (f : in_frame) : bytes := match f with InSettings _ id _ => acknowledgement id | _ => [] end.

Lemma receive_one v f :
  body (receive v f) = body v ++ data_of f ∧ output (receive v f) = output v ++ ack_of f ∧
  remote (receive v f) = foldl Rfc9113.update (remote v) (settings_of f).
Proof. destruct f as [? ? ?|? ? ? ?|?|[|x d]]; cbn; by rewrite ?app_nil_r. Qed.

Lemma receive_all fs : ∀ v,
  body (foldl receive v fs) = body v ++ (fs ≫= data_of) ∧ output (foldl receive v fs) = output v ++ (fs ≫= ack_of) ∧
  remote (foldl receive v fs) = foldl Rfc9113.update (remote v) (fs ≫= settings_of).
Proof.
  induction fs as [|f fs IH]; intros v; [cbn; by rewrite !app_nil_r|].
  destruct (receive_one v f) as (H1 & H2 & H3). destruct (IH (receive v f)) as (I1 & I2 & I3). cbn [foldl].
  rewrite I1, I2, I3, H1, H2, H3, <- !app_assoc. split_and!; [done|done|].
  change ((f :: fs) ≫= settings_of) with (settings_of f ++ (fs ≫= settings_of)). by rewrite foldl_app.
Qed.

(** C8: the client refines the abstract session. When the kernel holds, in any
    order and number, settings, frames the client ignores, header blocks and
    data of the stream, then the data frame that ends it, and the frames fit
    its buffers, [recv_reponse] terminates. The frames come when they do, one or
    more at a time, and the client waits for them. (Each must come as a whole:
    the client does not notice a short read.) It returns the response of the
    stream with exactly the concatenated data as its body, after sending one
    acknowledgement for each settings frame and applying the settings in order,
    and leaves the bytes behind the last frame unread. The header blocks leave
    no trace: status and headers of the response stay the uninitialised ones,
    as [parse_frame_header] works on a copy. *)
Theorem client_refines_session (id : Z) (p : nat) (r0 : response) (fs : list in_frame) (d rest : bytes) c (v : view) (fuel : nat) :
  (∀ d v, (change_table_size d v).1 = 0) → decoder_progress inflate_hd → zlen ack_buf = 17 →
  refines id p r0 c v ((fs ≫= wire id) ++ wire_frame FSW_HTTP2_TYPE_DATA FSW_HTTP2_FLAG_END_STREAM id d ++ rest) →
  all_acceptable v fs → acceptable (foldl receive v fs) (InData d) → 0 ≤ id < 2 ^ 31 →
  (Z.to_nat READ_BUF_MAX_SIZE + length fs < fuel)%nat →
  ∃ c' v', recv_reponse change_table_size inflate_hd inflate_end_headers ack_buf fuel c =
      Some (Ok (complete r0 (body v ++ (fs ≫= data_of) ++ d), c')) ∧
    refines id p (complete r0 (body v ++ (fs ≫= data_of) ++ d)) c' v' rest ∧ body v' = [] ∧
    output v' = output v ++ (fs ≫= ack_of) ∧ remote v' = foldl Rfc9113.update (remote v) (fs ≫= settings_of).
Proof.
  intros Ht Hi Ha Href Hall Hlast Hid Hf.
  destruct (recv_reponse_ok change_table_size inflate_hd inflate_end_headers ack_buf Ht Hi Ha id p r0 d rest fs c v fuel
    Href Hall Hlast Hid Hf) as (c' & H & Hr).
  destruct (receive_one (foldl receive v fs) (InData d)) as (B1 & O1 & R1).
  destruct (receive_all fs v) as (B2 & O2 & R2). cbn [data_of ack_of settings_of foldl] in B1, O1, R1.
  rewrite B1, B2, <- app_assoc in H, Hr. exists c', (clear_body (receive (foldl receive v fs) (InData d))).
  split; [done|]. split; [done|]. split; [done|]. cbn [clear_body output remote].
  rewrite O1, O2, R1, R2, app_nil_r. done.
Qed.

(** The read buffer holds a frame that the client leaves alone. *)
Definition stale c : Prop :=
  ∃ s n t fl id payload tail, sock c = Some s ∧ rx (sk s) = [] ∧
    array_of s = Rfc9113.frame_header n t fl id ++ payload ++ tail ∧ 0 ≤ n < 2 ^ 24 ∧ 0 ≤ id < 2 ^ 31 ∧
    zlen payload = n ∧ ignored t = true.

Lemma recv_at_eof s off n :
  rx (sk s) = [] → ∃ s', recv_at off n s = Ok (0, s') ∧ read_array s' = array_of s ∧ array_of s' = array_of s ∧ rx (sk s') = [].
Proof.
  intros Hrx. unfold recv_at, array_of. destruct (get_read_buf_keeps s) as [Hsk _].
  destruct (CoSocket.get_read_buf s) as [b s1]. cbn [fst snd] in *. rewrite Hsk, Hrx.
  cbn [length CoSocket.recv_loop]. unfold Socket.recv. rewrite Hrx. cbv zeta. change (i32 0) with 0.
  change (0 <? 0) with false. cbn [andb]. rewrite outcome_bind_ok. eexists. split; [reflexivity|]. by cbn.
Qed.

(** C39: a peer that closes the connection is not noticed. When the last frame
    received was one the client ignores (a ping, a window update, a stream
    reset, a goodbye) and the stream is at its end, [recv_reponse] reads the
    same stale frame for ever: no amount of fuel makes it return. *)
Theorem closed_connection_never_returns (fuel : nat) c :
  stale c → recv_reponse change_table_size inflate_hd inflate_end_headers ack_buf fuel c = None.
Proof.
  revert c. induction fuel as [|fuel IH]; intros c (s & n & t & fl & id & pl & tail & Hs & Hrx & Ha & Hn & Hid & Hpl & Hig);
    [done|]. cbn [recv_reponse]. unfold recv_frame. rewrite Hs.
  destruct (recv_at_eof s 0 FSW_HTTP2_FRAME_HEADER_SIZE Hrx) as (s1 & -> & R1 & A1 & X1). rewrite outcome_bind_ok, R1, Ha.
  rewrite CodecFacts.get_payload_length_ok, outcome_bind_ok by done.
  destruct (recv_at_eof s1 FSW_HTTP2_FRAME_HEADER_SIZE n X1) as (s2 & -> & R2 & A2 & X2).
  rewrite outcome_bind_ok, R2, A1, Ha. rewrite CodecFacts.fetch_frame_ok, !outcome_bind_ok by done. unfold parse_frame.
  cbn [type]. rewrite Hig. destruct (t =? FSW_HTTP2_TYPE_SETTINGS) eqn:E; [zify_bools; subst t; discriminate Hig|].
  rewrite bool_decide_eq_false_2 by done. apply IH.
  exists s2, n, t, fl, id, pl, tail. rewrite A2, A1, Ha. split_and!; try done; by destruct (_ <? _) || lia.
Qed.

(** C38: the errors of a data frame, whatever its flags. For a client whose
    socket holds the payload, a frame of a stream that the client does not know
    is undefined (a null pointer is dereferenced), one that exceeds the 1024
    bytes of the stream's buffer ends the process, and every other one is taken:
    exactly the bytes of the payload come behind those the stream has got so
    far. With END_STREAM they become the body of the response, which is ready,
    and the buffer is empty again; without, the client goes on reading and the
    buffer keeps them. No other stream changes. *)
Theorem data_frame_errors (fuel : nat) (f : frame) c :
  StreamFacts.client_typed c → type f = FSW_HTTP2_TYPE_DATA → payload f = 9 →
  0 ≤ payload_length f → 9 + payload_length f ≤ zlen (frame_memory c) → payload_length f < 2 ^ 24 →
  let r := parse_frame change_table_size inflate_hd inflate_end_headers ack_buf fuel f (get_stream (stream_id f) c) c in
  match get_stream (stream_id f) c with
  | None => r = Some UB
  | Some p =>
      ∃ st, deref (Some p) c = Ok st ∧
      let got := StreamFacts.body_so_far st ++ take (Z.to_nat (payload_length f)) (drop 9 (frame_memory c)) in
      if (READ_BUF_MAX_SIZE <? zlen (StreamFacts.body_so_far st) + payload_length f) && (0 <? payload_length f)
      then r = Some Exit
      else ∃ c' st', StreamFacts.becomes p st' c c' ∧
        if Z.land (flags f) FSW_HTTP2_FLAG_END_STREAM =? 0 then
          r = Some (Ok (FSW_CONTINUE, c')) ∧ StreamFacts.body_so_far st' = got ∧ st_response st' = st_response st
        else
          r = Some (Ok (FSW_READY, c')) ∧ StreamFacts.body_so_far st' = [] ∧
          st_response st' = if decide (got = []) then st_response st else Resp.set_body got (st_response st)
  end.
Proof.
  intros Hc Ht Hp Hn Hfit Hmax. cbv zeta. unfold parse_frame. fold (note_last c). rewrite Ht.
  change (FSW_HTTP2_TYPE_DATA =? FSW_HTTP2_TYPE_SETTINGS) with false. change (ignored FSW_HTTP2_TYPE_DATA) with false.
  change (FSW_HTTP2_TYPE_DATA =? FSW_HTTP2_TYPE_HEADERS) with false.
  change (FSW_HTTP2_TYPE_DATA =? FSW_HTTP2_TYPE_DATA) with true. cbv iota.
  change (FSW_HTTP2_TYPE_DATA =? FSW_HTTP2_TYPE_RST_STREAM) with false.
  change (FSW_HTTP2_TYPE_DATA =? FSW_HTTP2_TYPE_GOAWAY) with false. rewrite !orb_false_r.
  assert (Hd : ∀ p, deref p (note_last c) = deref p c) by (intros p; unfold note_last; by destruct (_ <? _)).
  assert (Hh : heap (note_last c) = heap c) by (unfold note_last; by destruct (_ <? _)).
  assert (Hm : frame_memory (note_last c) = frame_memory c) by (unfold note_last; by destruct (_ <? _)).
  destruct (get_stream (stream_id f) c) as [p|] eqn:Eg; [|by unfold parse_payload; rewrite Hd].
  destruct (StreamFacts.ct_map c Hc _ _ Eg) as (st & Hst & _).
  exists st. split; [unfold deref; cbn [mbind option_bind]; by rewrite Hst|].
  pose proof (StreamFacts.parse_payload_ok f p st (note_last c) (StreamFacts.ct_heap c Hc p st Hst)) as H.
  rewrite Hh, Hm in H. specialize (H Hst Hp Hn Hfit Hmax). split_if; [by rewrite H|].
  destruct H as (st1 & c1 & -> & [H1 H1'] & Hl1 & Hty & Hr1 & <-). rewrite outcome_bind_ok.
  destruct (_ =? 0); cbn [negb].
  { exists c1, st1. split; [split; [done|]|done]. intros q Hq. by rewrite H1', Hd by done. }
  destruct (StreamFacts.data_end_ok f p st1 c1 Ht Hty Hl1) as (st2 & c2 & -> & [H2 H2'] & Hb2 & Hr2).
  exists c2, st2. split; [split; [done|]|].
  - intros q Hq. by rewrite H2', H1', Hd by done.
  - split; [done|]. split; [done|]. rewrite Hr2. case_decide; by rewrite Hr1.
Qed.
End session_properties.

(** ** Requests and sequences of operations *)
Section client_properties.
Import Client Session SessionFacts RequestFacts StreamFacts.
Context {D I : Type}.
Implicit Types (c : client D I).
Context (deflate_bound : D → list nv → Z) (deflate_hd : D → Z → list nv → Z * bytes * D).
Context (change_table_size : D → Z → Z * D) (inflate_hd : I → bytes → Z * option (bytes * bytes) * bool * I).
Context (inflate_end_headers : I → I) (ack_buf : bytes) (fresh_response : response).

(** The body of a request, as its length says. *)
Definition body_bytes (req : request) : bytes :=
  take (Z.to_nat (rq_body_length req)) (match rq_body req with Some b => b | None => [] end).
Definition body_fits (req : request) : Prop :=
  0 ≤ rq_body_length req ≤ FSW_STACK_BUFFER_SIZE - 8 ∧
  rq_body_length req ≤ zlen (match rq_body req with Some b => b | None => [] end).

Lemma body_read req : body_fits req →
  mem_read (match rq_body req with Some b => b | None => [] end) 0 (rq_body_length req) = Ok (body_bytes req) ∧
  zlen (body_bytes req) = rq_body_length req.
Proof.
  intros [H1 H2]. unfold body_bytes. set (b := match rq_body req with Some b => b | None => [] end) in *.
  rewrite mem_read_ok by lia. split; [done|]. by rewrite zlen_take by lia.
Qed.

(** A request is exactly two frames. On a fresh stream id, with headers
    and a body that fit the scratch buffer, [send_request] puts on the wire one
    HEADERS frame with the block that nghttp2 makes of the request and one DATA
    frame with its body, both of the client's next id, whatever parts the
    kernel takes them in. It returns that id, registers the stream under it and
    moves the next id two further. The names and values of the user's headers
    are cut to seven bytes ([cut]), and the DATA frame follows even when the
    HEADERS frame ended the stream. *)
Lemma request_sent c s (req : request) (w out block : bytes) (d' : D) :
  sock c = Some s → sock_ok s w out → zlen (buffer_stack c) = FSW_STACK_BUFFER_SIZE + 1 → headers_fit req →
  deflate_hd (deflater c) (deflate_bound (deflater c) (request_nvs req)) (request_nvs req) = (zlen block, block, d') →
  0 < zlen block ≤ FSW_STACK_BUFFER_SIZE - 8 → streams c !! next_stream_id c = None → body_fits req →
  let id := next_stream_id c in
  ∃ s' c', send_request deflate_bound deflate_hd fresh_response req c = Ok (i32 id, c') ∧ sock c' = Some s' ∧
    sock_ok s' w (out ++ wire_frame FSW_HTTP2_TYPE_HEADERS (header_flags req) id block
                      ++ wire_frame FSW_HTTP2_TYPE_DATA (body_flags req) id (body_bytes req)) ∧
    next_stream_id c' = u32 (id + 2) ∧ last_stream_id c' = last_stream_id c ∧ deflater c' = d' ∧ inflater c' = inflater c ∧
    local_settings c' = local_settings c ∧ remote_settings c' = remote_settings c ∧
    zlen (buffer_stack c') = FSW_STACK_BUFFER_SIZE + 1 ∧
    heap c' = heap c ++ [Some (Stream.make id (pipeline req) fresh_response)] ∧
    streams c' = <[id := length (heap c)]> (streams c).
Proof.
  intros Hs Hok Hstack Hfit Hdef Hb Hfresh Hbody id.
  destruct (send_header_ok deflate_bound deflate_hd fresh_response c s req w out block d' Hs Hok Hstack Hfit Hdef Hb Hfresh)
    as (s1 & st1 & H1 & Hst1 & Hok1). destruct (body_read req Hbody) as [Hr Hl].
  unfold send_request. rewrite H1, outcome_bind_ok.
  match goal with |- context [send_http_body_frame ?f ?p req ?c1] =>
    destruct (send_body_ok fresh_response c1 s1 req p (Stream.make id (pipeline req) fresh_response) f w _ (body_bytes req)
      eq_refl Hok1 Hst1) as (s2 & st2 & H2 & Hst2 & Hok2) end;
    [cbn [heap]; by apply list_lookup_middle|done|done|done|unfold body_fits in Hbody; lia|].
  rewrite H2, outcome_bind_ok.
  assert (Hde : ∀ n l, deref (Some (length (heap c))) (set_ids n l (set_sock s2 (set_stack st2
      (mkClient (Some s1) (local_settings c) (remote_settings c) (inflater c) d' id (last_stream_id c)
         (<[id := length (heap c)]> (streams c)) (heap c ++ [Some (Stream.make id (pipeline req) fresh_response)]) st1)))) =
    Ok (Stream.make id (pipeline req) fresh_response)).
  { intros n l. unfold deref. cbn [mbind option_bind heap set_ids set_sock set_stack]. by rewrite list_lookup_middle. }
  rewrite Hde, outcome_bind_ok. exists s2. eexists. split; [reflexivity|].
  cbn [stream_id] in Hok2. rewrite <- app_assoc in Hok2. by split_and!.
Qed.

(** A request and its response. When the peer answers a request with any
    settings, ignored frames, header blocks and data of the new stream, the last
    data frame ending it, then [send_request] followed by [recv_reponse] gives a
    response with exactly the concatenated data as its body. What the client
    has put on the wire is the two frames of the request and then one
    acknowledgement for each settings frame, and what the peer sent behind the
    answer is still to be read. *)
Theorem request_response_exchange c s (req : request) (out block : bytes) (d' : D) (fs : list in_frame) (d rest : bytes) (fuel : nat) :
  let id := next_stream_id c in
  let v := mkView (remote_settings c) [] (window_size (local_settings c)) FSW_HTTP2_DEFAULT_WINDOW_SIZE
             (out ++ wire_frame FSW_HTTP2_TYPE_HEADERS (header_flags req) id block
                  ++ wire_frame FSW_HTTP2_TYPE_DATA (body_flags req) id (body_bytes req)) in
  (∀ d v, (change_table_size d v).1 = 0) → decoder_progress inflate_hd → zlen ack_buf = 17 →
  sock c = Some s →
  sock_ok s ((fs ≫= wire id) ++ wire_frame FSW_HTTP2_TYPE_DATA FSW_HTTP2_FLAG_END_STREAM id d ++ rest) out →
  zlen (buffer_stack c) = FSW_STACK_BUFFER_SIZE + 1 → headers_fit req → body_fits req →
  deflate_hd (deflater c) (deflate_bound (deflater c) (request_nvs req)) (request_nvs req) = (zlen block, block, d') →
  0 < zlen block ≤ FSW_STACK_BUFFER_SIZE - 8 → streams c !! id = None → 0 ≤ id < 2 ^ 31 →
  all_acceptable v fs → acceptable (foldl receive v fs) (InData d) → (Z.to_nat READ_BUF_MAX_SIZE + length fs < fuel)%nat →
  ∃ c1 c2 s2, send_request deflate_bound deflate_hd fresh_response req c = Ok (i32 id, c1) ∧
    recv_reponse change_table_size inflate_hd inflate_end_headers ack_buf fuel c1 =
      Some (Ok (complete fresh_response ((fs ≫= data_of) ++ d), c2)) ∧
    sock c2 = Some s2 ∧ sock_ok s2 rest (output v ++ (fs ≫= ack_of)) ∧
    remote_settings c2 = foldl Rfc9113.update (remote_settings c) (fs ≫= settings_of).
Proof.
  intros id v Ht Hi Ha Hs Hok Hstack Hfit Hbody Hdef Hb Hfresh Hid Hall Hlast Hf.
  destruct (request_sent c s req _ out block d' Hs Hok Hstack Hfit Hdef Hb Hfresh Hbody)
    as (s1 & c1 & H1 & Hs1 & Hok1 & _ & _ & _ & _ & Hl & Hr & _ & Hh & Hm).
  assert (Href : refines id (length (heap c)) fresh_response c1 v
    ((fs ≫= wire id) ++ wire_frame FSW_HTTP2_TYPE_DATA FSW_HTTP2_FLAG_END_STREAM id d ++ rest)).
  { split; [by exists s1|by rewrite Hr|by rewrite Hl|by rewrite Hm; apply lookup_insert_eq|].
    eexists. split; [rewrite Hh; by apply list_lookup_middle|]. by split_and!. }
  destruct (recv_reponse_ok change_table_size inflate_hd inflate_end_headers ack_buf Ht Hi Ha _ _ _ d rest fs c1 v fuel
    Href Hall Hlast Hid Hf) as (c2 & H2 & Hr2).
  destruct (receive_one (foldl receive v fs) (InData d)) as (B1 & O1 & R1).
  destruct (receive_all fs v) as (B2 & O2 & R2). cbn [data_of ack_of settings_of foldl] in B1, O1, R1.
  rewrite B1, B2 in H2. destruct Hr2 as [(s2 & Hs2 & Hok2) Hrem _ _ _]. exists c1, c2, s2.
  cbn [clear_body output remote] in Hok2, Hrem. rewrite O1, O2, app_nil_r in Hok2. rewrite R1, R2 in Hrem. by split_and!.
Qed.

(** One call of the client's interface. *)
Inductive operation :=
  | OpConnect (made : cosocket) (pton : Z)
  | OpRequest (req : request)
  | OpWrite (id : Z) (data : bytes) (len : Z) (end_stream : bool)
  | OpReceive (fuel : nat).

(** [Some] of the client after it, when the call returns. *)
Definition perform (o : operation) c : option (client D I) :=
  match o with
  | OpConnect made pton => match connect made pton c with Ok (_, c) => Some c | _ => None end
  | OpRequest req => match send_request deflate_bound deflate_hd fresh_response req c with Ok (_, c) => Some c | _ => None end
  | OpWrite id data len e => match write_data id data len e c with Ok (_, c) => Some c | _ => None end
  | OpReceive fuel =>
      match recv_reponse change_table_size inflate_hd inflate_end_headers ack_buf fuel c with Some (Ok (_, c)) => Some c | _ => None end
  end.

Fixpoint performs (os : list operation) c : option (client D I) :=
  match os with [] => Some c | o :: os => perform o c ≫= performs os end.

Lemma typed_performs os : ∀ c c', client_typed c → performs os c = Some c' → client_typed c'.
Proof.
  induction os as [|o os IH]; intros c c' Hc H; [by injection H as <-|]. cbn [performs] in H.
  apply bind_Some in H as (c1 & H1 & H). apply (IH c1); [|done]. destruct o; cbn [perform] in H1.
  - destruct (connect _ _ _) as [[? ?]| |] eqn:E; [|done..]. injection H1 as <-. by eapply typed_connect.
  - destruct (send_request _ _ _ _ _) as [[? ?]| |] eqn:E; [|done..]. injection H1 as <-. by eapply typed_request.
  - destruct (write_data _ _ _ _ _) as [[? ?]| |] eqn:E; [|done..]. injection H1 as <-. by eapply typed_write.
  - destruct (recv_reponse _ _ _ _ _ _) as [[[? ?]| |]|] eqn:E; [|done..]. injection H1 as <-. by eapply typed_receive.
Qed.

Lemma typed_make (i : I) (d : D) stack : client_typed (Client.make i d stack).
Proof.
  split; try done.
Qed.

(** C28: a client stays well formed, whatever it does and whatever the peer
    sends. After any sequence of connections, requests, writes and receptions
    that return, all settings, windows and stream ids are 32-bit values, every
    entry of the stream map points to a live stream of that id, and every body
    buffer has its 1024 bytes and a length within them. *)
Theorem client_operations_typed (os : list operation) (i : I) (d : D) (stack : bytes) c :
  performs os (Client.make i d stack) = Some c → client_typed c.
Proof. apply typed_performs, typed_make. Qed.
End client_properties.

(** ** Examples *)
Section examples.
Import Client Session SessionFacts RequestFacts StreamFacts.

(** A compression that keeps the names and values, and a decoder that takes a
    block at once. *)
Definition plain_bound (d : unit) (l : list nv) : Z := 100.
Definition plain_encode (d : unit) (n : Z) (l : list nv) : Z * bytes * unit :=
  let block := l ≫= (λ x, nv_name x ++ nv_value x) in (zlen block, block, tt).
Definition plain_decode (i : unit) (data : bytes) : Z * option (bytes * bytes) * bool * unit := (zlen data, None, true, tt).
Definition keep_table (d : unit) (v : Z) : Z * unit := (0, tt).
Definition keep (i : unit) : unit := i.
Definition blank : response := mkResponse 0 [] 0 0 0 [].

Definition online (l : list rx_answer) : cosocket :=
  CoSocket.make (mkSock 5 0 l [TxAccept 3; TxError EAGAIN] [] [] [] [] false) 0.
Definition client_on (l : list rx_answer) : client unit unit :=
  mkClient (Some (online l)) Settings.init Settings.init tt tt 3 1 {[1 := 0%nat]}
    [Some (Stream.make 1 false blank)] (replicate (Z.to_nat (FSW_STACK_BUFFER_SIZE + 1)) 0).

Definition answer : list in_frame :=
  [InSettings 0 0 [(3, 100)]; InIgnored FSW_HTTP2_TYPE_PING 0 0 (replicate 8 0); InHeaders [130]; InData (str "hel")].
Definition answer_wire : bytes :=
  (answer ≫= wire 1) ++ wire_frame FSW_HTTP2_TYPE_DATA FSW_HTTP2_FLAG_END_STREAM 1 (str "lo") ++ [].

Lemma answer_ok : all_acceptable (mkView Settings.init [] 65535 65535 []) answer ∧
  acceptable (foldl receive (mkView Settings.init [] 65535 65535 []) answer) (InData (str "lo")).
Proof.
  unfold answer. cbn [all_acceptable]. unfold acceptable.
  split_and!; lazymatch goal with
  | |- True => exact Logic.I
  | |- bytes_ok _ => apply bytes_ok_check; vm_compute; reflexivity
  | |- Forall CodecFacts.entry_ok _ => apply Forall_singleton; unfold CodecFacts.entry_ok
  | |- _ => idtac
  end; apply (bool_decide_unpack _); vm_compute; exact Logic.I.
Qed.

Lemma online_ok w l : held w l → sock_ok (online l) w [].
Proof. intros H. split; [by vm_compute|exact H|by repeat constructor|done|done]. Qed.

(** A frame, after a pause, and after another one the rest. *)
Definition arriving (first rest : bytes) : list rx_answer := RxError EAGAIN :: RxData first :: RxError EAGAIN :: piece rest.

Lemma arriving_held type flags id p rest : zlen p < 2 ^ 24 →
  held (wire_frame type flags id p ++ rest) (arriving (wire_frame type flags id p) rest).
Proof. intros H. apply held_wait, held_frame; [exact H|]. apply held_wait, held_end. Qed.

Definition answer_rx : list rx_answer := arriving (wire_frame FSW_HTTP2_TYPE_SETTINGS 0 0 [0; 3; 0; 0; 0; 100]) (drop 15 answer_wire).
Lemma answer_held : held answer_wire answer_rx.
Proof.
  assert (answer_wire = wire_frame FSW_HTTP2_TYPE_SETTINGS 0 0 [0; 3; 0; 0; 0; 100] ++ drop 15 answer_wire) as -> by (vm_compute; reflexivity).
  apply arriving_held. by vm_compute.
Qed.

Lemma client_refines_session_witness :
  ∃ c', recv_reponse keep_table plain_decode keep (replicate 17 0) 1100 (client_on answer_rx) =
    Some (Ok (Resp.set_body (str "hello") blank, c')).
Proof.
  assert (H : refines 1 0 blank (client_on answer_rx) (mkView Settings.init [] 65535 65535 []) answer_wire).
  { split; [exists (online answer_rx); split; [reflexivity|apply online_ok, answer_held]|reflexivity..|].
    eexists. split; [reflexivity|]. split_and!; reflexivity. }
  destruct (client_refines_session keep_table plain_decode keep (replicate 17 0) 1 0 blank answer (str "lo") []
    (client_on answer_rx) (mkView Settings.init [] 65535 65535 []) 1100) as (c' & v' & Hc & _); [..|exists c'; exact Hc].
  - intros d v. reflexivity.
  - intros i data rv emit final i' E _. injection E as <- _ <- _. split; [lia|tauto].
  - reflexivity.
  - exact H.
  - apply answer_ok.
  - apply answer_ok.
  - lia.
  - vm_compute. lia.
Defined.

(** A socket at its end, whose buffer still holds a ping. *)
Definition ended : cosocket :=
  mkCoSocket (mkSock 5 0 [] [] [] [] [] [] false) 0
    (Some (mkBuffer READ_BUF_MAX_SIZE 0 (wire_frame FSW_HTTP2_TYPE_PING 0 0 (replicate 8 0) ++ replicate 1008 0))) None.
Definition ended_client : client unit unit :=
  mkClient (Some ended) Settings.init Settings.init tt tt 3 1 {[1 := 0%nat]} [Some (Stream.make 1 false blank)]
    (replicate (Z.to_nat (FSW_STACK_BUFFER_SIZE + 1)) 0).

Lemma closed_connection_never_returns_witness :
  recv_reponse keep_table plain_decode keep (replicate 17 0) 1000 ended_client = None.
Proof.
  apply (closed_connection_never_returns keep_table plain_decode keep (replicate 17 0) 1000 ended_client).
  exists ended, 8, FSW_HTTP2_TYPE_PING, 0, 0, (replicate 8 0), (replicate 1008 0).
  split_and!; try reflexivity; lia.
Defined.

Lemma ended_client_typed : client_typed ended_client.
Proof.
  split.
  - split_and!; by vm_compute.
  - split_and!; by vm_compute.
  - split; by vm_compute.
  - split; by vm_compute.
  - intros p st Hp. apply list_lookup_singleton_Some in Hp as [_ [= <-]]. split_and!; by vm_compute.
  - intros id p Hp. change (({[1 := 0%nat]} : gmap Z nat) !! id = Some p) in Hp.
    apply lookup_singleton_Some in Hp as [<- <-]. eexists. split; reflexivity.
Qed.

Lemma data_frame_errors_witness :
  parse_frame keep_table plain_decode keep [] 5 (mkFrame 9 4 FSW_HTTP2_TYPE_DATA 0 7) None ended_client = Some UB ∧
  ∃ c' st', parse_frame keep_table plain_decode keep [] 5 (mkFrame 9 4 FSW_HTTP2_TYPE_DATA 0 1) (Some 0%nat) ended_client =
    Some (Ok (FSW_CONTINUE, c')) ∧ deref (Some 0%nat) c' = Ok st' ∧ body_so_far st' = replicate 4 0.
Proof.
  split.
  - apply (data_frame_errors keep_table plain_decode keep [] 5 (mkFrame 9 4 FSW_HTTP2_TYPE_DATA 0 7) ended_client);
      [exact ended_client_typed|by vm_compute..].
  - destruct (data_frame_errors keep_table plain_decode keep [] 5 (mkFrame 9 4 FSW_HTTP2_TYPE_DATA 0 1) ended_client)
      as (st & E & H); [exact ended_client_typed|by vm_compute..|]. injection E as <-. cbv zeta in H.
    match type of H with if ?b then _ else _ => change b with false in H end. destruct H as (c' & st' & [H1 _] & H2 & H3 & _).
    exists c', st'. split; [exact H2|]. split; [exact H1|]. rewrite H3. reflexivity.
Defined.

Definition post : request := mkRequest (str "POST") (str "/form") 5 (Some (str "hello")) 5 false
  (StdMap.assign (str "user-agent") (str "fsw/1.0.0") []).

Definition reply : list in_frame := [InSettings 0 0 [(4, 5000)]; InHeaders [136]; InData (str "hel")].
Definition reply_wire : bytes :=
  (reply ≫= wire 3) ++ wire_frame FSW_HTTP2_TYPE_DATA FSW_HTTP2_FLAG_END_STREAM 3 (str "lo") ++ [].

Lemma post_sent_ok : ∃ s' c', send_request plain_bound plain_encode blank post (client_on []) = Ok (3, c') ∧ sock c' = Some s' ∧
  next_stream_id c' = 5 ∧
  sock_ok s' [] (wire_frame FSW_HTTP2_TYPE_HEADERS 4 3
                   (str ":methodPOST:path/form:schemehttp:authority127.0.0.1user-agfsw/1.0") ++
                 wire_frame FSW_HTTP2_TYPE_DATA 1 3 (str "hello")).
Proof.
  destruct (request_sent plain_bound plain_encode blank (client_on []) (online []) post [] []
    (str ":methodPOST:path/form:schemehttp:authority127.0.0.1user-agfsw/1.0") tt)
    as (s' & c' & H & Hs & Hok & Hn & _); [..|exists s', c'; split; [exact H|split; [exact Hs|split; [exact Hn|exact Hok]]]].
  - reflexivity.
  - apply online_ok, held_end.
  - cbn [buffer_stack client_on]. rewrite zlen_replicate, Z2Nat.id by (by vm_compute). reflexivity.
  - apply Forall_singleton. split; by vm_compute.
  - reflexivity.
  - split; by vm_compute.
  - reflexivity.
  - split; [split|]; by vm_compute.
Qed.

Lemma reply_ok v : body v = [] → all_acceptable v reply ∧ acceptable (foldl receive v reply) (InData (str "lo")).
Proof.
  intros Hv. unfold reply. cbn [all_acceptable foldl]. unfold acceptable. cbn [receive body str]. rewrite Hv.
  split_and!; lazymatch goal with
  | |- True => exact Logic.I
  | |- bytes_ok _ => apply bytes_ok_check; vm_compute; reflexivity
  | |- Forall CodecFacts.entry_ok _ => apply Forall_singleton; unfold CodecFacts.entry_ok
  | |- _ => idtac
  end; apply (bool_decide_unpack _); vm_compute; exact Logic.I.
Qed.

Definition reply_rx : list rx_answer := arriving (wire_frame FSW_HTTP2_TYPE_SETTINGS 0 0 [0; 4; 0; 0; 19; 136]) (drop 15 reply_wire).
Lemma reply_held : held reply_wire reply_rx.
Proof.
  assert (reply_wire = wire_frame FSW_HTTP2_TYPE_SETTINGS 0 0 [0; 4; 0; 0; 19; 136] ++ drop 15 reply_wire) as -> by (vm_compute; reflexivity).
  apply arriving_held. by vm_compute.
Qed.

Lemma request_response_exchange_witness :
  ∃ c1 c2, send_request plain_bound plain_encode blank post (client_on reply_rx) = Ok (3, c1) ∧
    recv_reponse keep_table plain_decode keep (replicate 17 0) 1100 c1 = Some (Ok (Resp.set_body (str "hello") blank, c2)) ∧
    window_size (remote_settings c2) = 5000.
Proof.
  destruct (request_response_exchange plain_bound plain_encode keep_table plain_decode keep (replicate 17 0) blank
    (client_on reply_rx) (online reply_rx) post [] (str ":methodPOST:path/form:schemehttp:authority127.0.0.1user-agfsw/1.0") tt
    reply (str "lo") [] 1100) as (c1 & c2 & s2 & H1 & H2 & _ & _ & Hr);
    [..|exists c1, c2; split; [exact H1|split; [exact H2|rewrite Hr; reflexivity]]].
  - intros d v. reflexivity.
  - intros i data rv emit final i' E _. injection E as <- _ <- _. split; [lia|tauto].
  - reflexivity.
  - reflexivity.
  - apply online_ok, reply_held.
  - cbn [buffer_stack client_on]. rewrite zlen_replicate, Z2Nat.id by (by vm_compute). reflexivity.
  - apply Forall_singleton. split; by vm_compute.
  - split; [split|]; by vm_compute.
  - reflexivity.
  - split; by vm_compute.
  - reflexivity.
  - split; by vm_compute.
  - apply reply_ok. reflexivity.
  - apply reply_ok. reflexivity.
  - vm_compute. lia.
Defined.

Definition session_operations : list operation :=
  [OpConnect (online [RxData (wire_frame FSW_HTTP2_TYPE_DATA FSW_HTTP2_FLAG_END_STREAM 1 (str "ok"))]) 1; OpRequest post;
   OpWrite 1 (str "more") 4 true; OpReceive 5].

Lemma client_operations_typed_witness :
  ∃ c, performs plain_bound plain_encode keep_table plain_decode keep (replicate 17 0) blank session_operations
         (Client.make tt tt (replicate 200 0)) = Some c ∧ client_typed c.
Proof.
  destruct (performs plain_bound plain_encode keep_table plain_decode keep (replicate 17 0) blank session_operations
    (Client.make tt tt (replicate 200 0))) as [c|] eqn:E.
  - exists c. split; [reflexivity|].
    apply (client_operations_typed plain_bound plain_encode keep_table plain_decode keep (replicate 17 0) blank
      session_operations tt tt (replicate 200 0) c E).
  - exfalso. vm_compute in E. discriminate E.
Defined.
End examples.
