(* ===== verification/Timer.v ===== *)
(** * Timer: the timer manager (include/timer.h, src/timer.cc)

    [PQueue] is what the C++ standard promises of the [std::priority_queue]
    the manager keeps its timers in: the manager's theorems are proved against
    this interface, for every implementation of it. [sorted_pqueue] is one. *)

From S2P Require Import Prelude Words.
From stdpp Require Import sorting.
#[local] Open Scope Z_scope.

(** ** The queue interface

    [top] is an element that no other element precedes; which of several equal
    ones is not specified. [pq_elems] is the ghost multiset of the elements. *)
Class PQueue (T : Type) (comp : T → T → bool) (Q : Type) := {
  pq_empty : Q;
  pq_push : T → Q → Q;
  pq_top : Q → option T;
  pq_pop : Q → Q;
  pq_elems : Q → list T;
  pq_elems_empty : pq_elems pq_empty = [];
  pq_elems_push t q : pq_elems (pq_push t q) ≡ₚ t :: pq_elems q;
  pq_top_none q : pq_top q = None ↔ pq_elems q = [];
  pq_top_first q t u : pq_top q = Some t → u ∈ pq_elems q → comp t u = false;
  pq_top_pop q t : pq_top q = Some t → pq_elems q ≡ₚ t :: pq_elems (pq_pop q)
}.

(** ** Timers

    [F] is the type of the callbacks, [D] of their [private_data]; the back
    pointer to the manager is never read and is left out. *)
Record Timer (F D : Type) := mkTimer {
  timeout : Z;       (** uint64_t *)
  exec_msec : Z;     (** uint64_t *)
  callback : F;
  private_data : D
}.
Arguments mkTimer {F D} _ _ _ _.
Arguments timeout {F D} _.
Arguments exec_msec {F D} _.
Arguments callback {F D} _.
Arguments private_data {F D} _.

(** [CompareTimerPointer::operator ()]: the queue keeps a greatest element in
    front, so the comparison is reversed. *)
Definition CompareTimerPointer {F D} (timer1 timer2 : Timer F D) : bool :=
  exec_msec timer2 <? exec_msec timer1.

(** [Timer::get_current_ms], from the seconds and microseconds of the clock. *)
Definition get_current_ms (tv_sec tv_usec : Z) : Z :=
  u64 (i64 (tv_sec * 1000 + Z.quot tv_usec 1000)).

Definition MILLI_SECOND : Z := 1.
Definition SECOND : Z := 1000.

(** [Timer::Timer]: [now] is what [get_current_ms()] returns. *)
Definition make_timer {F D} (now _timeout : Z) (_callback : F) (_private_data : D) : Timer F D :=
  mkTimer _timeout (u64 (now + _timeout)) _callback _private_data.

Module TimerManager.
Section manager.
Context {F D Q : Type} `{PQ : !PQueue (Timer F D) CompareTimerPointer Q}.

(** [add_timer(int64_t _timeout, ...)]: the timeout becomes a [uint64_t]. *)
Definition add_timer (now _timeout : Z) (f : F) (d : D) (timers : Q) : Q :=
  pq_push (make_timer now (u64 _timeout) f d) timers.

Definition get_next_timeout (now : Z) (timers : Q) : Z :=
  match pq_top timers with
  | None => -1
  | Some t =>
      let diff := i64 (u64 (exec_msec t - now)) in
      if diff <? 0 then 0 else diff
  end.

(** The loop of [run_timers] for the time [now]. A callback is arbitrary code:
    [fire t timers w] runs it, on the queue and the rest of the state [w]. The
    timers fired are returned, in order, as ghost output; [None] is fuel
    exhausted. *)
Context {W : Type} (fire : Timer F D → Q → W → outcome (Q * W)).

Fixpoint run_loop (fuel : nat) (now : Z) (timers : Q) (w : W)
    : option (outcome (list (Timer F D) * Q * W)) :=
  match fuel with
  | O => None
  | S fuel =>
      match pq_top timers with
      | None => Some (Ok ([], timers, w))
      | Some t =>
          if now <? exec_msec t then Some (Ok ([], timers, w))
          else
            match fire t (pq_pop timers) w with
            | Ok (timers', w') =>
                match run_loop fuel now timers' w' with
                | Some (Ok (fired, q, w'')) => Some (Ok (t :: fired, q, w''))
                | r => r
                end
            | Exit => Some Exit
            | UB => Some UB
            end
      end
  end.

Definition due (now : Z) (t : Timer F D) : bool := exec_msec t <=? now.

(** [run_timers()], for the time [now] its first statement reads. *)
Definition run_timers (fuel : nat) (now : Z) (timers : Q) (w : W) := run_loop fuel now timers w.

End manager.
End TimerManager.

(** ** A queue: the list sorted by deadline *)
Section sorted_queue.
Context {F D : Type}.
Implicit Types (t u : Timer F D) (l : list (Timer F D)).

Fixpoint insert_timer t l : list (Timer F D) :=
  match l with
  | [] => [t]
  | u :: l' => if exec_msec t <? exec_msec u then t :: l else u :: insert_timer t l'
  end.

Definition before t u : Prop := exec_msec t ≤ exec_msec u.

Lemma insert_timer_perm t l : insert_timer t l ≡ₚ t :: l.
Proof.
  induction l as [|u l IH]; [done|]. cbn. split_if; [done|].
  rewrite IH. apply Permutation_swap.
Qed.

Lemma insert_timer_sorted t l : StronglySorted before l → StronglySorted before (insert_timer t l).
Proof.
  induction 1 as [|u l Hl IH Hu]; [by repeat constructor|]. cbn. split_if.
  - constructor; [by constructor|]. constructor; [unfold before; lia|].
    eapply Forall_impl; [exact Hu|]. unfold before. intros ? ?; lia.
  - constructor; [done|]. rewrite insert_timer_perm. constructor; [unfold before; lia|done].
Qed.

#[local] Obligation Tactic := idtac.

(** A list together with its order. *)
Record sorted_timers := { st_list : list (Timer F D); st_sorted : StronglySorted before st_list }.

#[global] Program Instance sorted_pqueue : PQueue (Timer F D) CompareTimerPointer sorted_timers := {|
  pq_empty := {| st_list := [] |};
  pq_push t q := {| st_list := insert_timer t (st_list q) |};
  pq_top q := head (st_list q);
  pq_pop q := {| st_list := tail (st_list q) |};
  pq_elems q := st_list q
|}.
Next Obligation. constructor. Defined.
Next Obligation. intros t q. apply insert_timer_sorted, st_sorted. Defined.
Next Obligation. intros [[|] H]; [constructor|]. by inversion H. Defined.
Next Obligation. done. Qed.
Next Obligation. intros t q. apply insert_timer_perm. Qed.
Next Obligation. by intros [[|] ?]. Qed.
Next Obligation.
  intros [[|x l] Hs] t u; [done|]. cbn. intros [= ->] [->|Hu]%elem_of_cons.
  - apply Z.ltb_irrefl.
  - inversion Hs as [|? ? _ Hf]; subst. rewrite Forall_forall in Hf.
    specialize (Hf u Hu). unfold before, CompareTimerPointer in *. apply Z.ltb_ge. lia.
Qed.
Next Obligation. by intros [[|x l] Hs] t [= ->]. Qed.
End sorted_queue.
Arguments sorted_timers : clear implicits.

(** ** Facts about the run loop *)
Module TimerFacts.
Import TimerManager.
Section facts.
Context {F D Q W : Type} `{PQ : !PQueue (Timer F D) CompareTimerPointer Q}.
Implicit Types (q : Q) (t u : Timer F D) (fire : Timer F D → Q → W → outcome (Q * W)).

(** The number of elements that are due. *)
Definition n_due (now : Z) q : nat := length (filter (λ t, due now t = true) (pq_elems q)).

Lemma top_min q t u : pq_top q = Some t → u ∈ pq_elems q → exec_msec t ≤ exec_msec u.
Proof.
  intros Ht Hu. pose proof (pq_top_first q t u Ht Hu) as H.
  unfold CompareTimerPointer in H. zify_bools. lia.
Qed.

Lemma top_elem q t : pq_top q = Some t → t ∈ pq_elems q.
Proof. intros Ht. rewrite (pq_top_pop q t Ht). by left. Qed.

Lemma n_due_pop q t now :
  pq_top q = Some t → due now t = true → n_due now q = S (n_due now (pq_pop q)).
Proof.
  intros Ht Hd. unfold n_due. rewrite (pq_top_pop q t Ht), filter_cons_True by done. done.
Qed.

Lemma n_due_perm now (l k : list (Timer F D)) :
  l ≡ₚ k → length (filter (λ t, due now t = true) l) = length (filter (λ t, due now t = true) k).
Proof. by intros ->. Qed.

(** Callbacks that schedule nothing that is already due: a timeout of at least
    one millisecond on a clock that does not go back. *)
Definition schedules_later fire (now : Z) : Prop :=
  ∀ t q w q' w', fire t q w = Ok (q', w') →
    ∃ added, pq_elems q' ≡ₚ added ++ pq_elems q ∧ Forall (λ u, now < exec_msec u) added.

Lemma filter_later now (l : list (Timer F D)) :
  Forall (λ u, now < exec_msec u) l → filter (λ t, due now t = true) l = [].
Proof.
  induction 1 as [|u l Hu _ IH]; [done|]. rewrite filter_cons_False; [done|].
  unfold due. rewrite Z.leb_le. lia.
Qed.

(** Whatever the callbacks do, the loop stops only at a queue with nothing due. *)
Lemma run_loop_nothing_due fire fuel now q w fired q' w' :
  run_loop fire fuel now q w = Some (Ok (fired, q', w')) →
  Forall (λ u, now < exec_msec u) (pq_elems q').
Proof.
  revert q w fired. induction fuel as [|fuel IH]; intros q w fired H; [done|].
  cbn [run_loop] in H. destruct (pq_top q) as [t|] eqn:Ht.
  - split_if_in H.
    + injection H as <- <- <-. apply Forall_forall. intros u Hu.
      pose proof (top_min q t u Ht Hu). lia.
    + destruct (fire t (pq_pop q) w) as [[q1 w1]| |]; [|done..].
      destruct (run_loop fire fuel now q1 w1) as [[[[f2 q2] w2]| |]|] eqn:Hr; try done.
      injection H as <- <- <-. by eapply IH.
  - injection H as <- <- <-. apply pq_top_none in Ht. rewrite Ht. constructor.
Qed.

(** With such callbacks the loop fires exactly the due timers, in the order of
    their deadlines, and one unit of fuel per due timer and one more suffice. *)
Lemma run_loop_fires fire now fuel q w :
  schedules_later fire now → (n_due now q < fuel)%nat →
  (∀ t q w, ∃ r, fire t q w = Ok r) →
  ∃ fired q' w', run_loop fire fuel now q w = Some (Ok (fired, q', w')) ∧
    fired ≡ₚ filter (λ t, due now t = true) (pq_elems q) ∧
    StronglySorted (λ t u, exec_msec t ≤ exec_msec u) fired.
Proof.
  intros Hlater Hfuel Hok. revert q w Hfuel.
  induction fuel as [|fuel IH]; intros q w Hfuel; [lia|]. cbn [run_loop].
  destruct (pq_top q) as [t|] eqn:Ht.
  - destruct (Z.ltb_spec now (exec_msec t)) as [Hlt|Hge].
    + exists [], q, w. split; [done|]. rewrite filter_later; [by repeat constructor|].
      apply Forall_forall. intros u Hu. pose proof (top_min q t u Ht Hu). lia.
    + assert (Hd : due now t = true) by (apply Z.leb_le; lia).
      destruct (Hok t (pq_pop q) w) as [[q1 w1] Hf]. rewrite Hf.
      destruct (Hlater _ _ _ _ _ Hf) as (added & Hperm & Hadd).
      assert (Hfl : filter (λ t, due now t = true) (pq_elems q1)
                    ≡ₚ filter (λ t, due now t = true) (pq_elems (pq_pop q))).
      { rewrite Hperm, filter_app, (filter_later now added) by done. done. }
      destruct (IH q1 w1) as (fired & q2 & w2 & -> & Hp & Hs).
      { rewrite (n_due_pop q t now Ht Hd) in Hfuel. unfold n_due in *. rewrite Hfl. lia. }
      exists (t :: fired), q2, w2. split; [done|]. split.
      * rewrite (pq_top_pop q t Ht), filter_cons_True, Hp, Hfl by done. done.
      * constructor; [done|]. apply Forall_forall. intros u Hu.
        rewrite Hp, Hfl in Hu. apply list_elem_of_filter in Hu as [_ Hu].
        apply (top_min q t u Ht). rewrite (pq_top_pop q t Ht). by right.
  - exists [], q, w. split; [done|]. apply pq_top_none in Ht. rewrite Ht. by repeat constructor.
Qed.

End facts.
End TimerFacts.

(** ** Properties *)
Section timer_properties.
Import TimerManager.
Context {F D Q W : Type} `{PQ : !PQueue (Timer F D) CompareTimerPointer Q}.

(** Whatever the callbacks do to the queue (a resumed coroutine may add
    timers), when a run of the timers returns nothing that is left is due. *)
Theorem run_timers_leaves_nothing_due (fire : Timer F D → Q → W → outcome (Q * W))
    (fuel : nat) (now : Z) (timers : Q) (w : W) :
  match run_timers fire fuel now timers w with
  | Some (Ok (_, timers', _)) => Forall (λ t, now < exec_msec t) (pq_elems timers')
  | _ => True
  end.
Proof.
  unfold run_timers. destruct (run_loop fire fuel now timers w) as [[[[f q] w']| |]|] eqn:E; try done.
  by eapply TimerFacts.run_loop_nothing_due.
Qed.

(** C27: termination and order. When no callback schedules a timer that is
    already due, a run returns (one unit of fuel more than there are due timers
    is enough), having fired exactly the due timers, each once, by
    non-decreasing deadline. *)
Theorem run_timers_fires_due_in_order (fire : Timer F D → Q → W → outcome (Q * W))
    (now : Z) (timers : Q) (w : W) :
  TimerFacts.schedules_later fire now → (∀ t q w, ∃ r, fire t q w = Ok r) →
  ∃ fired timers' w',
    run_timers fire (S (length (filter (λ t, due now t = true) (pq_elems timers)))) now timers w
      = Some (Ok (fired, timers', w')) ∧
    fired ≡ₚ filter (λ t, due now t = true) (pq_elems timers) ∧
    StronglySorted (λ t u, exec_msec t ≤ exec_msec u) fired.
Proof. intros Hl Hok. apply TimerFacts.run_loop_fires; [done|unfold TimerFacts.n_due; lia|done]. Qed.

(** The wait computed for the event loop is exact: it is -1 when there is
    no timer, and otherwise a time [d] after which, and not before, some timer
    is due, so waiting [d] milliseconds makes the next run fire. *)
Theorem next_timeout_exact (now : Z) (timers : Q) :
  0 ≤ now < 2 ^ 62 → Forall (λ t, 0 ≤ exec_msec t < 2 ^ 62) (pq_elems timers) →
  let d := get_next_timeout now timers in
  (d = -1 ↔ pq_elems timers = []) ∧
  (pq_elems timers ≠ [] → 0 ≤ d ∧
     Exists (λ t, due (now + d) t = true) (pq_elems timers) ∧
     (∀ now', now ≤ now' < now + d → Forall (λ t, due now' t = false) (pq_elems timers))).
Proof.
  intros Hnow Hr d. unfold d, get_next_timeout.
  destruct (pq_top timers) as [t|] eqn:Ht.
  - pose proof (TimerFacts.top_elem timers t Ht) as Hin.
    assert (Hne : pq_elems timers ≠ []) by (intros E; rewrite E in Hin; by apply elem_of_nil in Hin).
    rewrite Forall_forall in Hr. pose proof (Hr t Hin) as Hrt. cbv beta in Hrt.
    assert (Ed : i64 (u64 (exec_msec t - now)) = exec_msec t - now).
    { destruct (Z.le_ge_cases now (exec_msec t)).
      - rewrite u64_id, i64_id by lia. done.
      - in_words. }
    rewrite Ed. split.
    + split; [|done]. split_if; lia.
    + intros _. split; [split_if; lia|]. split.
      * apply Exists_exists. exists t. split; [done|]. apply Z.leb_le. split_if; lia.
      * intros now' Hn. apply Forall_forall. intros u Hu.
        pose proof (TimerFacts.top_min timers t u Ht Hu).
        apply Z.leb_gt. split_if_in Hn; lia.
  - apply pq_top_none in Ht. rewrite Ht. by split.
Qed.

(** A timer never fires early. A timer added at time [now] for a
    non-negative timeout is not due before [now + timeout], is due from then
    on, and is in the queue with everything that was there; a negative timeout
    is due at once. *)
Theorem add_timer_deadline (now _timeout now' : Z) (f : F) (d : D) (timers : Q) :
  0 ≤ now < 2 ^ 62 → - 2 ^ 62 < _timeout < 2 ^ 62 → 0 ≤ now + _timeout →
  ∃ t, pq_elems (add_timer now _timeout f d timers) ≡ₚ t :: pq_elems timers ∧
    callback t = f ∧ private_data t = d ∧ due now' t = (now + _timeout <=? now').
Proof.
  intros Hn Ht Hs. exists (make_timer now (u64 _timeout) f d). split_and!; try done.
  - apply pq_elems_push.
  - unfold due. cbn [make_timer exec_msec].
    replace (u64 (now + u64 _timeout)) with (now + _timeout) by in_words. done.
Qed.
End timer_properties.

(** Witnesses: the sorted list as the queue, callbacks that record their data. *)
Section timer_examples.
Import TimerManager.

Definition record_fire (t : Timer unit Z) (q : sorted_timers unit Z) (w : list Z)
    : outcome (sorted_timers unit Z * list Z) := Ok (q, w ++ [private_data t]).

Definition three_timers : sorted_timers unit Z :=
  add_timer 100 30 tt 3 (add_timer 100 10 tt 1 (add_timer 100 20 tt 2 pq_empty)).

Lemma record_fire_later now : TimerFacts.schedules_later record_fire now.
Proof.
  intros t q w q' w' H. injection H as <- <-. exists []. split; [done|constructor].
Qed.

End timer_examples.

Lemma run_timers_fires_due_in_order_witness :
  ∃ fired timers' w',
    TimerManager.run_timers record_fire 3 120 three_timers [] = Some (Ok (fired, timers', w')) ∧
    private_data <$> fired = [1; 2] ∧
    StronglySorted (λ t u, exec_msec t ≤ exec_msec u) fired.
Proof.
  destruct (run_timers_fires_due_in_order record_fire 120 three_timers [])
    as (fired & q & w & H1 & _ & H3); [apply record_fire_later|by eexists|].
  exists fired, q, w. split; [exact H1|]. split; [|exact H3].
  injection H1 as <- _ _. reflexivity.
Defined.

Lemma next_timeout_exact_witness :
  TimerManager.get_next_timeout 105 three_timers = 5 ∧
  Exists (λ t, TimerManager.due 110 t = true) (pq_elems three_timers).
Proof.
  split; [reflexivity|].
  destruct (next_timeout_exact 105 three_timers) as [_ H]; [lia|apply (bool_decide_eq_true_1 _); reflexivity|].
  destruct H as (_ & H & _); [discriminate|exact H].
Defined.

Lemma add_timer_deadline_witness :
  ∃ t, pq_elems (TimerManager.add_timer 100 5 tt 9 three_timers) ≡ₚ t :: pq_elems three_timers ∧
    TimerManager.due 104 t = false.
Proof.
  destruct (add_timer_deadline 100 5 104 tt 9 three_timers) as (t & H1 & _ & _ & H4); [lia..|].
  exists t. split; [exact H1|exact H4].
Defined.
