(* ===== verification/Coroutine.v ===== *)
(** * Coroutine: the scheduler (include/coroutine.h, include/context.h,
    src/coroutine/coroutine.cc, src/coroutine/context.cc)

    Stackful coroutines are control: [prog] is the code a native stack still
    has to execute, as a tree of the scheduler's calls and of steps on the rest
    of the process state [U]. The machine has one CPU; [jump_fcontext], the
    assembly under thirdparty/boost, saves what the CPU executes in one slot
    and takes what another slot holds, which is how [swap_in] and [swap_out]
    use it. A slot is emptied when it is jumped to: what it then holds in C++
    is a stack position that no longer exists. *)

From S2P Require Import Prelude Words.
From stdpp Require Import gmap.
#[local] Open Scope Z_scope.

(** The address of a [Coroutine] object. Addresses are not reused: an access
    to a deleted object is a lookup that fails. *)
Abbreviation ptr := positive.

(** ** Code *)
Inductive prog (U : Type) : Type :=
| Ret                                          (** the function on this stack returns *)
| Act (f : U → outcome (U * prog U))           (** code that only touches the rest of the state *)
| Create (fn : prog U) (k : Z → prog U)        (** [Coroutine::create(fn)], the cid to the rest *)
| Resume (co : option ptr) (k : prog U)        (** [Coroutine::resume(Coroutine* )] *)
| ResumeCid (cid : Z) (k : prog U)             (** [Coroutine::resume(long)] *)
| Yield (k : prog U)                           (** [Coroutine::yield()] *)
| GetCurrent (k : option ptr → prog U)         (** [Coroutine::get_current()] *)
| GetCid (co : option ptr) (k : Z → prog U)    (** [co->get_cid()] *)
| Defer (fn : prog U) (k : prog U).            (** [Coroutine::defer] *)
Arguments Ret {U}.
Arguments Act {U} f.
Arguments Create {U} fn k.
Arguments Resume {U} co k.
Arguments ResumeCid {U} cid k.
Arguments Yield {U} k.
Arguments GetCurrent {U} k.
Arguments GetCid {U} co k.
Arguments Defer {U} fn k.

(** What a context can hold: code, or the code at the return of [swap_in] in
    [Coroutine::run] and in [Coroutine::_resume] for the object [this]. *)
Inductive code (U : Type) : Type :=
| Prog (p : prog U)
| AfterRun (this : ptr) (cid : Z) (k : Z → prog U)
| AfterResume (this : ptr) (k : prog U).
Arguments Prog {U} p.
Arguments AfterRun {U} this cid k.
Arguments AfterResume {U} this k.

(** A saved context: the code and the stack it is on ([None]: the main one). *)
Definition saved (U : Type) : Type := code U * option ptr.

(** ** Objects *)
Record Context (U : Type) := mkContext {
  ctx_ : option (saved U);        (** the suspended coroutine *)
  swap_ctx_ : option (saved U);   (** whoever swapped it in *)
  defer_tasks : option (list (prog U));  (** the stack of tasks, top first *)
  end_ : bool
}.
Arguments mkContext {U} _ _ _ _.
Arguments ctx_ {U} _.
Arguments swap_ctx_ {U} _.
Arguments defer_tasks {U} _.
Arguments end_ {U} _.

Record Coroutine (U : Type) := mkCoroutine {
  origin : option ptr;
  ctx : Context U;
  cid : Z
}.
Arguments mkCoroutine {U} _ _ _.
Arguments origin {U} _.
Arguments ctx {U} _.
Arguments cid {U} _.

(** The class's static members, the objects, the CPU and the rest. [stack] is
    the native stack the CPU is on. *)
Record machine (U : Type) := mkMachine {
  cpu : code U;
  stack : option ptr;
  current : option ptr;
  last_cid : Z;
  coroutines : gmap Z ptr;
  objects : gmap ptr (Coroutine U);
  next_ptr : ptr;
  globals : U
}.
Arguments mkMachine {U} _ _ _ _ _ _ _ _.
Arguments cpu {U} _.
Arguments stack {U} _.
Arguments current {U} _.
Arguments last_cid {U} _.
Arguments coroutines {U} _.
Arguments objects {U} _.
Arguments next_ptr {U} _.
Arguments globals {U} _.

Module Sched.
Section sched.
Context {U : Type}.
Implicit Types (m : machine U) (c : Coroutine U) (p : prog U).

Definition set_cpu (k : code U) m : machine U :=
  mkMachine k (stack m) (current m) (last_cid m) (coroutines m) (objects m) (next_ptr m) (globals m).
Definition set_current (o : option ptr) m : machine U :=
  mkMachine (cpu m) (stack m) o (last_cid m) (coroutines m) (objects m) (next_ptr m) (globals m).
Definition set_object (co : ptr) c m : machine U :=
  mkMachine (cpu m) (stack m) (current m) (last_cid m) (coroutines m) (<[co := c]> (objects m))
    (next_ptr m) (globals m).
Definition set_globals (u : U) m : machine U :=
  mkMachine (cpu m) (stack m) (current m) (last_cid m) (coroutines m) (objects m) (next_ptr m) u.
(** The CPU takes a saved context. *)
Definition jump (s : saved U) m : machine U :=
  mkMachine s.1 s.2 (current m) (last_cid m) (coroutines m) (objects m) (next_ptr m) (globals m).

Definition set_ctx (x : Context U) c : Coroutine U := mkCoroutine (origin c) x (cid c).
Definition set_origin (o : option ptr) c : Coroutine U := mkCoroutine o (ctx c) (cid c).

(** Dereference of a [Coroutine *]. *)
Definition deref (co : option ptr) m : outcome (ptr * Coroutine U) :=
  match co with
  | None => UB
  | Some a => match objects m !! a with Some c => Ok (a, c) | None => UB end
  end.

(** [Context::swap_in]: what the CPU executes next is saved in [swap_ctx_], the
    CPU takes [ctx_]. *)
Definition swap_in (co : ptr) (rest : code U) m : outcome (machine U) :=
  '(_, c) ← deref (Some co) m;
  match ctx_ (ctx c) with
  | None => UB
  | Some s =>
      Ok (jump s (set_object co
        (set_ctx (mkContext None (Some (rest, stack m)) (defer_tasks (ctx c)) (end_ (ctx c))) c) m))
  end.

(** [Context::swap_out]: the converse. *)
Definition swap_out (co : ptr) (rest : code U) m : outcome (machine U) :=
  '(_, c) ← deref (Some co) m;
  match swap_ctx_ (ctx c) with
  | None => UB
  | Some s =>
      Ok (jump s (set_object co
        (set_ctx (mkContext (Some (rest, stack m)) None (defer_tasks (ctx c)) (end_ (ctx c))) c) m))
  end.

(** [new Coroutine(fn)]: the context is ready to enter [fn] on its own stack,
    the object is registered under a fresh id. *)
Definition new_coroutine (fn : prog U) m : ptr * machine U :=
  let this := next_ptr m in
  let id := last_cid m + 1 in
  (this,
   mkMachine (cpu m) (stack m) (current m) id (<[id := this]> (coroutines m))
     (<[this := mkCoroutine None (mkContext (Some (Prog fn, Some this)) None None false) id]> (objects m))
     (Pos.succ this) (globals m)).

(** [Coroutine::run] up to the return of [swap_in]. *)
Definition run (this : ptr) (k : Z → prog U) m : outcome (machine U) :=
  '(_, c) ← deref (Some this) m;
  let m := set_object this (set_origin (current m) c) m in
  let m := set_current (Some this) m in
  swap_in this (AfterRun this (cid c) k) m.

(** [Coroutine::_resume] up to the return of [swap_in]. *)
Definition _resume (this : ptr) (k : prog U) m : outcome (machine U) :=
  if bool_decide (current m = Some this) then Exit (* assert(current != this) *)
  else
    '(_, c) ← deref (Some this) m;
    let m := set_object this (set_origin (current m) c) m in
    let m := set_current (Some this) m in
    swap_in this (AfterResume this k) m.

(** The end of both: [if (ctx.is_end()) { current = origin;
    coroutines.erase(cid); delete this; }]. *)
Definition after_swap (this : ptr) (rest : prog U) m : outcome (machine U) :=
  '(_, c) ← deref (Some this) m;
  if end_ (ctx c) then
    Ok (mkMachine (Prog rest) (stack m) (origin c) (last_cid m) (delete (cid c) (coroutines m))
          (delete this (objects m)) (next_ptr m) (globals m))
  else Ok (set_cpu (Prog rest) m).

(** [Coroutine::create] *)
Definition create (fn : prog U) (k : Z → prog U) m : outcome (machine U) :=
  let '(this, m) := new_coroutine fn m in run this k m.

(** [Coroutine::get_by_cid] *)
Definition get_by_cid (id : Z) m : option ptr := coroutines m !! id.

(** [Coroutine::resume(Coroutine* )] and [Coroutine::resume(long)] *)
Definition resume (co : option ptr) (k : prog U) m : outcome (machine U) :=
  '(this, _) ← deref co m; _resume this k m.
Definition resume_cid (id : Z) (k : prog U) m : outcome (machine U) :=
  resume (get_by_cid id m) k m.

(** [Coroutine::yield]: [_yield] on the current object, whose assertion
    compares [current] with itself. *)
Definition yield (k : prog U) m : outcome (machine U) :=
  '(this, c) ← deref (current m) m;
  swap_out this (Prog k) (set_current (origin c) m).

(** [Coroutine::defer]: pushes on the stack of tasks, made on first use. *)
Definition defer (fn k : prog U) m : outcome (machine U) :=
  '(this, c) ← deref (current m) m;
  let ts := match defer_tasks (ctx c) with Some ts => ts | None => [] end in
  Ok (set_cpu (Prog k) (set_object this
    (set_ctx (mkContext (ctx_ (ctx c)) (swap_ctx_ (ctx c)) (Some (fn :: ts)) (end_ (ctx c))) c) m)).

(** The rest of [Context::context_func] once [fn_()], or a deferred task, has
    returned on the stack of [co]: the next task, or the end. *)
Definition context_func (co : ptr) m : outcome (machine U) :=
  '(_, c) ← deref (Some co) m;
  match defer_tasks (ctx c) with
  | Some (t :: ts) =>
      Ok (set_cpu (Prog t) (set_object co
        (set_ctx (mkContext (ctx_ (ctx c)) (swap_ctx_ (ctx c)) (Some ts) (end_ (ctx c))) c) m))
  | _ =>
      swap_out co (Prog Ret) (set_object co
        (set_ctx (mkContext (ctx_ (ctx c)) (swap_ctx_ (ctx c)) None true) c) m)
  end.

(** [Coroutine::get_cid] *)
Definition get_cid (co : option ptr) (k : Z → prog U) m : outcome (machine U) :=
  '(_, c) ← deref co m; Ok (set_cpu (Prog (k (cid c))) m).

(** One step of the CPU; [None] when the main function has returned. *)
Definition step m : outcome (option (machine U)) :=
  match cpu m with
  | AfterRun this id k => Some <$> after_swap this (k id) m
  | AfterResume this k => Some <$> after_swap this k m
  | Prog Ret =>
      match stack m with
      | None => Ok None
      | Some co => Some <$> context_func co m
      end
  | Prog (Act f) => '(u, p) ← f (globals m); Ok (Some (set_cpu (Prog p) (set_globals u m)))
  | Prog (Create fn k) => Some <$> create fn k m
  | Prog (Resume co k) => Some <$> resume co k m
  | Prog (ResumeCid id k) => Some <$> resume_cid id k m
  | Prog (Yield k) => Some <$> yield k m
  | Prog (GetCurrent k) => Ok (Some (set_cpu (Prog (k (current m))) m))
  | Prog (GetCid co k) => Some <$> get_cid co k m
  | Prog (Defer fn k) => Some <$> defer fn k m
  end.

(** A program of the main stack, at the start of the process. *)
Definition boot p (u : U) : machine U := mkMachine (Prog p) None None 0 ∅ ∅ 1%positive u.

(** At most [n] steps; stops where the main function returns. *)
Fixpoint steps (n : nat) m : outcome (machine U) :=
  match n with
  | O => Ok m
  | S n => r ← step m; match r with None => Ok m | Some m => steps n m end
  end.

(** The states of all executions. *)
Inductive reachable (m0 : machine U) : machine U → Prop :=
| reach_start : reachable m0 m0
| reach_step m m' : reachable m0 m → step m = Ok (Some m') → reachable m0 m'.

End sched.
End Sched.

(** ** Well-formed states

    [current] and the [origin] fields form the list of the active coroutines,
    innermost first; everything else is suspended. *)
Module SchedInv.
Import Sched.
Section sched_inv.
Context {U : Type}.
Implicit Types (m : machine U) (c : Coroutine U) (p : prog U) (ch : list ptr).
Abbreviation heap := (gmap ptr (Coroutine U)).
Implicit Types (obs : heap).

(** The code at the return of the [swap_in] on object [a]. *)
Definition returns (s : code U) (a : ptr) (id : Z) : Prop :=
  (∃ f, s = AfterRun a id f) ∨ (∃ k, s = AfterResume a k).

Definition active (a : ptr) c : Prop :=
  ctx_ (ctx c) = None ∧ end_ (ctx c) = false ∧
  ∃ s, swap_ctx_ (ctx c) = Some (s, origin c) ∧ returns s a (cid c).

Definition suspended (a : ptr) c : Prop :=
  end_ (ctx c) = false ∧ swap_ctx_ (ctx c) = None ∧ ∃ p, ctx_ (ctx c) = Some (Prog p, Some a).

(** The chain of active coroutines that starts at [o]. *)
Fixpoint chain obs (o : option ptr) ch : Prop :=
  match ch with
  | [] => o = None
  | a :: ch' => o = Some a ∧ ∃ c, obs !! a = Some c ∧ active a c ∧ chain obs (origin c) ch'
  end.

Definition scheduled obs (o : option ptr) ch : Prop :=
  chain obs o ch ∧ NoDup ch ∧
  ∀ a c, obs !! a = Some c → a ∉ ch → suspended a c.

(** The table of ids is exact, ids and addresses are fresh. *)
Definition registry (cs : gmap Z ptr) obs (last : Z) (next : ptr) : Prop :=
  (∀ i a, cs !! i = Some a ↔ ∃ c, obs !! a = Some c ∧ cid c = i) ∧
  (∀ a c, obs !! a = Some c → 1 ≤ cid c ≤ last ∧ (a < next)%positive).

Definition wf m : Prop :=
  stack m = current m ∧ (∃ ch, scheduled (objects m) (current m) ch) ∧
  0 ≤ last_cid m ∧ registry (coroutines m) (objects m) (last_cid m) (next_ptr m).

(** [a] is not swapped in any more. *)
Definition left_behind (a : ptr) m : Prop :=
  ∃ c, objects m !! a = Some c ∧ swap_ctx_ (ctx c) = None.

(** Between a [swap_out] and the end of [run] or [_resume], the state is the
    one whose continuation is well formed. *)
Definition wf_step m : Prop :=
  match cpu m with
  | Prog _ => wf m
  | AfterRun a id k => left_behind a m ∧ ∃ m', after_swap a (k id) m = Ok m' ∧ wf m'
  | AfterResume a k => left_behind a m ∧ ∃ m', after_swap a k m = Ok m' ∧ wf m'
  end.

Lemma chain_insert obs o ch a c :
  a ∉ ch → chain obs o ch → chain (<[a := c]> obs) o ch.
Proof.
  revert o. induction ch as [|b ch IH]; intros o Ha H; [exact H|].
  destruct H as (-> & d & Hd & Hact & H). apply not_elem_of_cons in Ha as [Hab Ha].
  split; [done|]. exists d. rewrite lookup_insert_ne by done. auto.
Qed.

Lemma chain_delete obs o ch a : a ∉ ch → chain obs o ch → chain (delete a obs) o ch.
Proof.
  revert o. induction ch as [|b ch IH]; intros o Ha H; [exact H|].
  destruct H as (-> & d & Hd & Hact & H). apply not_elem_of_cons in Ha as [Hab Ha].
  split; [done|]. exists d. rewrite lookup_delete_ne by done. auto.
Qed.

Lemma chain_lookup obs o ch a :
  chain obs o ch → a ∈ ch → ∃ c, obs !! a = Some c ∧ active a c.
Proof.
  revert o. induction ch as [|b ch IH]; intros o H Ha; [by apply elem_of_nil in Ha|].
  destruct H as (-> & d & Hd & Hact & H). apply elem_of_cons in Ha as [->|Ha]; eauto.
Qed.

Lemma chain_head obs o ch a : chain obs o ch → o = Some a → ∃ ch', ch = a :: ch'.
Proof. destruct ch as [|b ch]; cbn; [congruence|]. intros (-> & _) [= ->]. eauto. Qed.

Lemma chain_unique obs o ch ch' : chain obs o ch → chain obs o ch' → ch = ch'.
Proof.
  revert o ch'. induction ch as [|a ch IH]; intros o [|b ch']; cbn; try done.
  - intros -> [? _]; congruence.
  - intros [? _] ->; congruence.
  - intros (-> & c & Hc & _ & H) ([= ->] & d & Hd & _ & H').
    rewrite Hc in Hd. injection Hd as <-. f_equal. eauto.
Qed.

Lemma registry_update cs obs last next a c c' :
  registry cs obs last next → obs !! a = Some c → cid c' = cid c →
  registry cs (<[a := c']> obs) last next.
Proof.
  intros [H1 H2] Ha Hc. split.
  - intros i b. rewrite H1. destruct (decide (a = b)) as [->|Hab].
    + rewrite lookup_insert_eq. naive_solver.
    + by rewrite lookup_insert_ne.
  - intros b d. destruct (decide (a = b)) as [->|Hab].
    + rewrite lookup_insert_eq. intros [= <-]. rewrite Hc. eauto.
    + rewrite lookup_insert_ne by done. eauto.
Qed.

Lemma registry_new cs obs last next c :
  0 ≤ last → registry cs obs last next → cid c = last + 1 →
  registry (<[last + 1 := next]> cs) (<[next := c]> obs) (last + 1) (Pos.succ next).
Proof.
  intros H0 [H1 H2] Hc.
  assert (Hf : obs !! next = None).
  { destruct (obs !! next) as [d|] eqn:E; [|done]. apply H2 in E. lia. }
  split.
  - intros i b. destruct (decide (i = last + 1)) as [->|Hi].
    + rewrite lookup_insert_eq. split.
      * intros [= <-]. exists c. by rewrite lookup_insert_eq.
      * intros (d & Hd & Ed). destruct (decide (next = b)) as [->|Hb]; [done|].
        rewrite lookup_insert_ne in Hd by done. apply H2 in Hd. lia.
    + rewrite lookup_insert_ne by congruence. rewrite H1.
      split; intros (d & Hd & Ed); exists d; (split; [|done]).
      * rewrite lookup_insert_ne; [done|congruence].
      * destruct (decide (next = b)) as [->|Hb]; [|by rewrite lookup_insert_ne in Hd].
        rewrite lookup_insert_eq in Hd. congruence.
  - intros b d. destruct (decide (next = b)) as [->|Hb].
    + rewrite lookup_insert_eq. intros [= <-]. lia.
    + rewrite lookup_insert_ne by done. intros Hd. apply H2 in Hd. lia.
Qed.

Lemma registry_delete cs obs last next a c :
  registry cs obs last next → obs !! a = Some c →
  registry (delete (cid c) cs) (delete a obs) last next.
Proof.
  intros [H1 H2] Ha. split.
  - intros i b. destruct (decide (i = cid c)) as [->|Hi].
    + rewrite lookup_delete_eq. split; [done|]. intros (d & Hd & Ed).
      apply lookup_delete_Some in Hd as [Hab Hd].
      assert (cs !! cid c = Some a) by (apply H1; eauto).
      assert (cs !! cid c = Some b) by (apply H1; eauto). congruence.
    + rewrite lookup_delete_ne by done. rewrite H1.
      split; intros (d & Hd & Ed); exists d; (split; [|done]).
      * rewrite lookup_delete_ne; [done|]. intros ->. congruence.
      * by apply lookup_delete_Some in Hd as [_ Hd].
  - intros b d [_ Hd]%lookup_delete_Some. eauto.
Qed.

Lemma scheduled_push obs o ch a c s ts :
  scheduled obs o ch → obs !! a = Some c → a ∉ ch → returns s a (cid c) →
  scheduled (<[a := mkCoroutine o (mkContext None (Some (s, o)) ts false) (cid c)]> obs)
    (Some a) (a :: ch).
Proof.
  intros (H1 & H2 & H3) Ha Hn Hs. split_and!.
  - split; [done|]. eexists. split; [apply lookup_insert_eq|].
    split; [by split_and!; eauto|]. by apply chain_insert.
  - by apply NoDup_cons.
  - intros b d Hd [Hb Hb']%not_elem_of_cons. rewrite lookup_insert_ne in Hd by done. eauto.
Qed.

Lemma scheduled_pop obs a ch :
  scheduled obs (Some a) (a :: ch) →
  ∃ c, obs !! a = Some c ∧ active a c ∧ a ∉ ch ∧
    (∀ p ts, scheduled
       (<[a := mkCoroutine (origin c) (mkContext (Some (Prog p, Some a)) None ts false) (cid c)]> obs)
       (origin c) ch) ∧
    scheduled (delete a obs) (origin c) ch.
Proof.
  intros ((_ & c & Hc & Hact & H1) & [Hn H2]%NoDup_cons & H3).
  exists c. split_and!; try done.
  - intros p ts. split_and!; [by apply chain_insert|done|].
    intros b d Hd Hb. destruct (decide (a = b)) as [->|Hab].
    + rewrite lookup_insert_eq in Hd. injection Hd as <-. split; [done|split; [done|by eexists]].
    + rewrite lookup_insert_ne in Hd by done. apply H3; [done|]. by apply not_elem_of_cons.
  - split_and!; [by apply chain_delete|done|].
    intros b d [Hab Hd]%lookup_delete_Some Hb. apply H3; [done|]. by apply not_elem_of_cons.
Qed.

(** Pushing or taking deferred tasks changes nothing else. *)
Definition with_tasks (ts : option (list (prog U))) c : Coroutine U :=
  set_ctx (mkContext (ctx_ (ctx c)) (swap_ctx_ (ctx c)) ts (end_ (ctx c))) c.

Lemma chain_tasks obs o ch a c ts :
  obs !! a = Some c → chain obs o ch → chain (<[a := with_tasks ts c]> obs) o ch.
Proof.
  intros Ha. revert o. induction ch as [|b ch IH]; intros o H; [exact H|].
  destruct H as (-> & d & Hd & Hact & H). split; [done|].
  destruct (decide (a = b)) as [->|Hab].
  - exists (with_tasks ts c). rewrite lookup_insert_eq. rewrite Ha in Hd. injection Hd as <-. auto.
  - exists d. rewrite lookup_insert_ne by done. auto.
Qed.

Lemma scheduled_tasks obs o ch a c ts :
  obs !! a = Some c → scheduled obs o ch → scheduled (<[a := with_tasks ts c]> obs) o ch.
Proof.
  intros Ha (H1 & H2 & H3). split_and!; [by apply chain_tasks|done|].
  intros b d Hd Hb. destruct (decide (a = b)) as [->|Hab].
  - rewrite lookup_insert_eq in Hd. injection Hd as <-. by apply (H3 b c).
  - rewrite lookup_insert_ne in Hd by done. eauto.
Qed.

(** A well-formed state with its chain. *)
Lemma wf_current m :
  wf m →
  (stack m = None ∧ current m = None ∧ scheduled (objects m) None [] ∧
     ∀ a c, objects m !! a = Some c → suspended a c) ∨
  (∃ a c ch, stack m = Some a ∧ current m = Some a ∧ objects m !! a = Some c ∧ active a c ∧
     scheduled (objects m) (Some a) (a :: ch)).
Proof.
  intros (Hs & (ch & H) & _). rewrite Hs. destruct ch as [|a ch].
  - left. pose proof H as (H1 & _ & H3). cbn in H1. rewrite H1 in H. split_and!; try done.
    intros a c Ha. apply H3; [done|]. apply not_elem_of_nil.
  - right. pose proof H as ((Hc & c & Ha & Hact & _) & _). rewrite Hc in H.
    exists a, c, ch. by split_and!.
Qed.

(** ** The transfers of control *)

(** The machine on the stack of [a], entered from [m]; [s] is what the CPU
    does when [a] is left. *)
Definition entered m a c p (s : code U) : machine U :=
  mkMachine (Prog p) (Some a) (Some a) (last_cid m) (coroutines m)
    (<[a := mkCoroutine (current m)
              (mkContext None (Some (s, stack m)) (defer_tasks (ctx c)) (end_ (ctx c))) (cid c)]> (objects m))
    (next_ptr m) (globals m).

(** The machine back on the stack of whoever entered [a], and [c'] is what
    becomes of [a]. *)
Definition left m a c c' (s : code U) (cur : option ptr) : machine U :=
  mkMachine s (origin c) cur (last_cid m) (coroutines m) (<[a := c']> (objects m))
    (next_ptr m) (globals m).

(** The program that goes on when [a], left with code [s], returns. *)
Definition resumption (s : code U) : prog U :=
  match s with Prog p => p | AfterRun _ id k => k id | AfterResume _ k => k end.

Lemma run_enter m a c p k :
  objects m !! a = Some c → ctx_ (ctx c) = Some (Prog p, Some a) →
  run a k m = Ok (entered m a c p (AfterRun a (cid c) k)).
Proof.
  intros Ha Hp. unfold run, swap_in, deref. rewrite Ha. cbn.
  rewrite lookup_insert_eq. cbn. rewrite Hp. unfold jump, set_object, entered. cbn.
  by rewrite insert_insert_eq.
Qed.

Lemma resume_enter m a c p k :
  current m ≠ Some a → objects m !! a = Some c → ctx_ (ctx c) = Some (Prog p, Some a) →
  _resume a k m = Ok (entered m a c p (AfterResume a k)).
Proof.
  intros Hn Ha Hp. unfold _resume, swap_in, deref.
  rewrite bool_decide_eq_false_2 by done. rewrite Ha. cbn.
  rewrite lookup_insert_eq. cbn. rewrite Hp. unfold jump, set_object, entered. cbn.
  by rewrite insert_insert_eq.
Qed.

Lemma entered_wf m a c p s ch :
  wf m → scheduled (objects m) (current m) ch → objects m !! a = Some c → a ∉ ch →
  suspended a c → returns s a (cid c) → wf (entered m a c p s).
Proof.
  intros (Hs & _ & Hl & Hr) Hch Ha Hn [He _] Hret. unfold wf, entered. cbn. split_and!; try done.
  - exists (a :: ch). rewrite He, Hs. by apply scheduled_push.
  - by eapply registry_update.
Qed.

(** [yield] on [a]: two steps later the resumer goes on. *)
Definition yielded m a c p (s : code U) : machine U :=
  left m a c (mkCoroutine (origin c)
    (mkContext (Some (Prog p, Some a)) None (defer_tasks (ctx c)) (end_ (ctx c))) (cid c))
    s (origin c).

Lemma yield_left m a c p s :
  current m = Some a → stack m = Some a → objects m !! a = Some c →
  swap_ctx_ (ctx c) = Some (s, origin c) →
  yield p m = Ok (yielded m a c p s).
Proof.
  intros Hc Hs Ha Hsw. unfold yield, swap_out, deref. rewrite Hc, Ha. cbn. rewrite Ha. cbn.
  rewrite Hsw. unfold jump, set_object, yielded, left. cbn. by rewrite Hs.
Qed.

Lemma yielded_after_swap m a c p s rest :
  end_ (ctx c) = false →
  after_swap a rest (yielded m a c p s) =
  Ok (set_cpu (Prog rest) (yielded m a c p s)).
Proof.
  intros He. unfold after_swap, deref, yielded, left. cbn. rewrite lookup_insert_eq. cbn.
  by rewrite He.
Qed.

Lemma yielded_wf m a c ch p s :
  wf m → objects m !! a = Some c → end_ (ctx c) = false →
  scheduled (objects m) (Some a) (a :: ch) → wf (yielded m a c p s).
Proof.
  intros (_ & _ & Hl & Hr) Ha He Hch. destruct (scheduled_pop _ _ _ Hch) as (d & Hd & _ & _ & H & _).
  rewrite Ha in Hd. injection Hd as <-. unfold wf, yielded, left. cbn. split_and!; try done.
  - exists ch. rewrite He. apply H.
  - by eapply registry_update.
Qed.

(** The end of [context_func] on [a]. *)
Lemma context_func_end m a c s :
  stack m = Some a → objects m !! a = Some c → swap_ctx_ (ctx c) = Some (s, origin c) →
  (defer_tasks (ctx c) = None ∨ defer_tasks (ctx c) = Some []) →
  context_func a m =
  Ok (left m a c (mkCoroutine (origin c)
        (mkContext (Some (Prog Ret, Some a)) None None true) (cid c)) s (current m)).
Proof.
  intros Hs Ha Hsw Hd. unfold context_func, swap_out, deref. rewrite Ha.
  destruct Hd as [Hd|Hd]; cbn; rewrite Hd; cbn; rewrite lookup_insert_eq; cbn; rewrite Hsw;
    unfold jump, set_object, left; cbn; by rewrite insert_insert_eq, Hs.
Qed.

(** The state after the end of [a]: the object is gone. *)
Definition deleted m a c (rest : prog U) : machine U :=
  mkMachine (Prog rest) (origin c) (origin c) (last_cid m) (delete (cid c) (coroutines m))
    (delete a (objects m)) (next_ptr m) (globals m).

Lemma left_after_swap m a c s cur rest ts x :
  after_swap a rest (left m a c (mkCoroutine (origin c) (mkContext x None ts true) (cid c)) s cur) =
  Ok (deleted m a c rest).
Proof.
  unfold after_swap, deref, left. cbn. rewrite lookup_insert_eq. cbn.
  unfold deleted. by rewrite delete_insert_eq.
Qed.

Lemma deleted_wf m a c ch rest :
  wf m → objects m !! a = Some c → scheduled (objects m) (Some a) (a :: ch) →
  wf (deleted m a c rest).
Proof.
  intros (_ & _ & Hl & Hr) Ha Hch. destruct (scheduled_pop _ _ _ Hch) as (d & Hd & _ & _ & _ & H).
  rewrite Ha in Hd. injection Hd as <-. unfold wf, deleted. cbn. split_and!; try done.
  - by exists ch.
  - by eapply registry_delete.
Qed.

(** ** Every step preserves the invariant *)

Lemma wf_step_return s m a id :
  cpu m = s → returns s a id → left_behind a m →
  (∀ rest, ∃ m', after_swap a rest m = Ok m' ∧ wf m') → wf_step m.
Proof. unfold wf_step. intros -> [[k ->]|[k ->]] Hl H; (split; [exact Hl|apply H]). Qed.

Lemma wf_prog p m : cpu m = Prog p → wf m → wf_step m.
Proof. unfold wf_step. by intros ->. Qed.

Lemma wf_set_cpu s m : wf m → wf (set_cpu s m).
Proof. done. Qed.

Lemma new_coroutine_wf fn m :
  wf m →
  let '(a, m') := new_coroutine fn m in
  wf m' ∧ ∃ c, objects m' !! a = Some c ∧ suspended a c ∧ cid c = last_cid m + 1 ∧
    ctx_ (ctx c) = Some (Prog fn, Some a) ∧ defer_tasks (ctx c) = None ∧ current m' = current m ∧
    objects m !! a = None.
Proof.
  intros (Hs & (ch & H1 & H2 & H3) & Hl & Hr). unfold new_coroutine.
  assert (Hf : objects m !! next_ptr m = None).
  { destruct (objects m !! next_ptr m) as [d|] eqn:E; [|done]. apply Hr in E. lia. }
  assert (Hn : next_ptr m ∉ ch).
  { intros Hin. destruct (chain_lookup _ _ _ _ H1 Hin) as (c & E & _). congruence. }
  split.
  - unfold wf. cbn. split_and!; [done| |lia|by apply registry_new].
    exists ch. split_and!; [by apply chain_insert|done|].
    intros b d Hd Hb. destruct (decide (next_ptr m = b)) as [<-|Hab].
    + rewrite lookup_insert_eq in Hd. injection Hd as <-. split; [done|split; [done|by eexists]].
    + rewrite lookup_insert_ne in Hd by done. eauto.
  - eexists. cbn. rewrite lookup_insert_eq. split_and!; try done. split; [done|split; [done|by eexists]].
Qed.

(** A coroutine that is not on the chain is suspended. *)
Lemma off_chain_suspended m ch a c :
  wf m → chain (objects m) (current m) ch → objects m !! a = Some c → a ∉ ch → suspended a c.
Proof.
  intros (_ & (ch' & H1 & _ & H3) & _) Hch Ha Hn. rewrite (chain_unique _ _ _ _ Hch H1) in Hn. eauto.
Qed.

Lemma create_wf fn k m : wf m → ∃ m', create fn k m = Ok m' ∧ wf m' ∧ ∃ p, cpu m' = Prog p.
Proof.
  intros H. pose proof (new_coroutine_wf fn m H) as Hnew. unfold create.
  destruct (new_coroutine fn m) as [a m'].
  destruct Hnew as (Hwf & c & Hc & Hsus & _ & Hx & _ & Hcur & Hfresh).
  rewrite (run_enter _ _ _ _ _ Hc Hx). eexists. split; [done|]. split; [|by eexists].
  pose proof Hwf as (_ & (ch & Hch) & _).
  eapply entered_wf; try done; [|left; eauto].
  intros Hin. destruct (chain_lookup _ _ _ _ (proj1 Hch) Hin) as (d & Hd & Hact & _).
  rewrite Hc in Hd. injection Hd as <-. congruence.
Qed.

(** [resume] in a well-formed state: entered exactly when the coroutine is
    alive and not active, stopped by the assertion when it is [current]. *)
Lemma resume_spec m a k :
  wf m → ∃ ch, scheduled (objects m) (current m) ch ∧
  match objects m !! a with
  | None => resume (Some a) k m = UB
  | Some c =>
      if bool_decide (current m = Some a) then resume (Some a) k m = Exit
      else if bool_decide (a ∈ ch) then resume (Some a) k m = UB
      else ∃ p, ctx_ (ctx c) = Some (Prog p, Some a) ∧
             resume (Some a) k m = Ok (entered m a c p (AfterResume a k)) ∧
             wf (entered m a c p (AfterResume a k))
  end.
Proof.
  intros Hwf. pose proof Hwf as (_ & (ch & Hch) & _). exists ch. split; [done|].
  unfold resume, deref. destruct (objects m !! a) as [c|] eqn:Ha; [|done]. cbn.
  case_bool_decide as Hcur; [unfold _resume; by rewrite bool_decide_eq_true_2|].
  case_bool_decide as Hin.
  - destruct (chain_lookup _ _ _ _ (proj1 Hch) Hin) as (d & Hd & Hx & _).
    rewrite Ha in Hd. injection Hd as <-.
    unfold _resume, swap_in, deref. rewrite bool_decide_eq_false_2 by done. rewrite Ha. cbn.
    rewrite lookup_insert_eq. cbn. by rewrite Hx.
  - destruct (off_chain_suspended m ch a c Hwf (proj1 Hch) Ha Hin) as (He & Hsw & p & Hp).
    exists p. split; [done|]. split; [by apply resume_enter|].
    eapply entered_wf; try done; [split; eauto|right; eauto].
Qed.

Lemma context_func_wf m a c ch :
  wf m → stack m = Some a → current m = Some a → objects m !! a = Some c → active a c →
  scheduled (objects m) (Some a) (a :: ch) →
  ∃ m', context_func a m = Ok m' ∧ wf_step m'.
Proof.
  intros Hwf Hs Hcur Ha (Hx & He & s & Hsw & Hret) Hch.
  assert (Hend : defer_tasks (ctx c) = None ∨ defer_tasks (ctx c) = Some [] →
                 ∃ m', context_func a m = Ok m' ∧ wf_step m').
  { intros Hd. rewrite (context_func_end m a c s) by done. eexists. split; [done|].
    eapply (wf_step_return s); [done|done| |].
    { eexists. split; [apply lookup_insert_eq|done]. }
    intros rest. rewrite left_after_swap. eexists. split; [done|]. by eapply deleted_wf. }
  destruct (defer_tasks (ctx c)) as [[|t ts]|] eqn:Hd; [by auto| |by auto].
  unfold context_func, deref. rewrite Ha. cbn. rewrite Hd. eexists. split; [done|].
  pose proof Hwf as (_ & _ & Hl & Hr).
  eapply wf_prog; [done|]. unfold wf. cbn. split_and!; try done.
  - by rewrite Hs.
  - exists (a :: ch). rewrite Hcur. by apply (scheduled_tasks _ _ _ _ c (Some ts)).
  - by apply (registry_update _ _ _ _ a c (with_tasks (Some ts) c)).
Qed.

Lemma yield_wf m a c ch p :
  wf m → stack m = Some a → current m = Some a → objects m !! a = Some c → active a c →
  scheduled (objects m) (Some a) (a :: ch) →
  ∃ s, swap_ctx_ (ctx c) = Some (s, origin c) ∧ yield p m = Ok (yielded m a c p s) ∧
    wf_step (yielded m a c p s).
Proof.
  intros Hwf Hs Hcur Ha (Hx & He & s & Hsw & Hret) Hch. exists s. split_and!; [done|by apply yield_left|].
  eapply (wf_step_return s); [done|done|by eexists; split; [apply lookup_insert_eq|]|].
  intros rest. rewrite yielded_after_swap by done.
  eexists. split; [done|]. apply wf_set_cpu. by eapply yielded_wf.
Qed.

Lemma defer_wf m a c ch fn k :
  wf m → stack m = Some a → current m = Some a → objects m !! a = Some c →
  scheduled (objects m) (Some a) (a :: ch) →
  defer fn k m = Ok (set_cpu (Prog k) (set_object a
    (with_tasks (Some (fn :: default [] (defer_tasks (ctx c)))) c) m)) ∧
  wf (set_object a (with_tasks (Some (fn :: default [] (defer_tasks (ctx c)))) c) m).
Proof.
  intros (_ & _ & Hl & Hr) Hs Hcur Ha Hch. split.
  - unfold defer, deref. rewrite Hcur, Ha. cbn. by destruct (defer_tasks (ctx c)).
  - unfold wf. cbn. split_and!; try done; [by rewrite Hs| |].
    + exists (a :: ch). rewrite Hcur. by apply scheduled_tasks.
    + by eapply registry_update.
Qed.

Lemma resume_inv m co k m' :
  wf m → resume co k m = Ok m' → wf m' ∧ ∃ p, cpu m' = Prog p.
Proof.
  intros Hwf H. destruct co as [a|]; [|discriminate H].
  destruct (resume_spec m a k Hwf) as (ch & _ & Hsp).
  destruct (objects m !! a) as [c|]; [|congruence].
  do 2 (case_bool_decide; [congruence|]).
  destruct Hsp as (p & _ & Hsp & Hw). rewrite Hsp in H. injection H as <-. split; [done|by eexists].
Qed.

Lemma get_cid_inv m co k m' :
  get_cid co k m = Ok m' → ∃ c, deref co m = Ok (default xH co, c) ∧ m' = set_cpu (Prog (k (cid c))) m.
Proof.
  unfold get_cid, deref. destruct co as [a|]; [|done]. destruct (objects m !! a) as [c|]; [|done].
  intros [= <-]. by exists c.
Qed.

Lemma step_wf m m' : wf_step m → step m = Ok (Some m') → wf_step m'.
Proof.
  intros Hwf H. unfold wf_step in Hwf. unfold step in H.
  assert (Hcall : ∀ r : outcome (machine U), Some <$> r = Ok (Some m') → r = Ok m').
  { intros [x| |] E; [by injection E as ->|discriminate E..]. }
  destruct (cpu m) as [p|a id k|a k]; cycle 1.
  1,2: apply Hcall in H; destruct Hwf as (_ & m2 & H2 & Hw);
    unfold after_swap in H, H2; destruct (deref (Some a) m) as [[? d]| |]; try discriminate H;
    cbn in H, H2; destruct (end_ (ctx d)); simplify_eq; by eapply wf_prog.
  destruct (wf_current m Hwf) as [(Hs & Hc & _)|(a & c & ch & Hs & Hc & Ha & Hact & Hch)].
  - destruct p as [|f|fn k|co k|id k|k|k|co k|fn k]; try rewrite Hs in H;
      try (unfold yield, defer, deref in H; rewrite Hc in H); try discriminate H.
    + destruct (f (globals m)) as [[u q]| |]; try discriminate H.
      injection H as <-. by eapply wf_prog.
    + apply Hcall in H. destruct (create_wf fn k m Hwf) as (x & Hx & Hw & q & Hq).
      rewrite Hx in H. injection H as ->. by eapply wf_prog.
    + apply Hcall in H. destruct (resume_inv m co k m' Hwf H) as [Hw [q Hq]]. by eapply wf_prog.
    + apply Hcall in H. destruct (resume_inv _ _ _ _ Hwf H) as [Hw [q Hq]]. by eapply wf_prog.
    + injection H as <-. by eapply wf_prog.
    + apply Hcall in H. destruct (get_cid_inv m co k m' H) as (c' & _ & ->). by eapply wf_prog.
  - destruct p as [|f|fn k|co k|id k|k|k|co k|fn k].
    + rewrite Hs in H. apply Hcall in H.
      destruct (context_func_wf m a c ch Hwf Hs Hc Ha Hact Hch) as (x & Hx & Hw).
      rewrite Hx in H. by injection H as ->.
    + destruct (f (globals m)) as [[u q]| |]; try discriminate H.
      injection H as <-. by eapply wf_prog.
    + apply Hcall in H. destruct (create_wf fn k m Hwf) as (x & Hx & Hw & q & Hq).
      rewrite Hx in H. injection H as ->. by eapply wf_prog.
    + apply Hcall in H. destruct (resume_inv m co k m' Hwf H) as [Hw [q Hq]]. by eapply wf_prog.
    + apply Hcall in H. destruct (resume_inv _ _ _ _ Hwf H) as [Hw [q Hq]]. by eapply wf_prog.
    + apply Hcall in H. destruct (yield_wf m a c ch k Hwf Hs Hc Ha Hact Hch) as (s & _ & Hy & Hw).
      rewrite Hy in H. by injection H as <-.
    + injection H as <-. by eapply wf_prog.
    + apply Hcall in H. destruct (get_cid_inv m co k m' H) as (c' & _ & ->). by eapply wf_prog.
    + apply Hcall in H. destruct (defer_wf m a c ch fn k Hwf Hs Hc Ha Hch) as [Hd Hw].
      rewrite Hd in H. injection H as <-. by eapply wf_prog.
Qed.

Lemma boot_wf p (u : U) : wf_step (boot p u).
Proof.
  unfold wf_step, boot, wf. cbn. split_and!; try done.
  - exists []. split_and!; [done|constructor|]. intros a c. by rewrite lookup_empty.
  - split; [intros i a; rewrite lookup_empty; split; [done|intros (c & Hc & _)]|intros a c Hc];
      by rewrite lookup_empty in Hc.
Qed.

Lemma reachable_wf m0 m : wf_step m0 → reachable m0 m → wf_step m.
Proof. intros H0 Hr. induction Hr; [done|by eapply step_wf]. Qed.
End sched_inv.
End SchedInv.

(** ** Active coroutines and errors of the program *)
Section sched_theory.
Import Sched SchedInv.
Context {U : Type}.
Implicit Types (m : machine U) (c : Coroutine U) (p : prog U) (ch : list ptr).

(** The coroutines on the way back to the main stack: [current], and the
    origin of an active coroutine. *)
Inductive is_active m : ptr → Prop :=
| active_current a : current m = Some a → is_active m a
| active_origin a b c :
    is_active m b → objects m !! b = Some c → origin c = Some a → is_active m a.

(** What a program must not do: resume a coroutine that does not exist, or an
    active one other than [current]; ask a dead one for its id; yield or defer
    outside a coroutine; or
    perform an undefined step of its own. *)
Definition bad_resume m (co : option ptr) : Prop :=
  match co with
  | None => True
  | Some a => objects m !! a = None ∨ (is_active m a ∧ current m ≠ Some a)
  end.

Definition misuse m : Prop :=
  match cpu m with
  | Prog (Act f) => f (globals m) = UB
  | Prog (Resume co _) => bad_resume m co
  | Prog (ResumeCid id _) => bad_resume m (get_by_cid id m)
  | Prog (GetCid co _) => co ≫= (λ a, objects m !! a) = None
  | Prog (Yield _) | Prog (Defer _ _) => current m = None
  | _ => False
  end.

(** What ends the process: the assertion of [_resume], or a step's own exit. *)
Definition stops m : Prop :=
  match cpu m with
  | Prog (Act f) => f (globals m) = Exit
  | Prog (Resume co _) => co ≠ None ∧ co = current m
  | Prog (ResumeCid id _) => get_by_cid id m ≠ None ∧ get_by_cid id m = current m
  | _ => False
  end.

Lemma active_chain m ch : chain (objects m) (current m) ch → ∀ a, is_active m a ↔ a ∈ ch.
Proof.
  intros H a. split.
  - intros Ha. induction Ha as [a Hc|a b c Hb IH Hbc Ho].
    + destruct (chain_head _ _ _ _ H Hc) as [ch' ->]. left.
    + clear Hb. revert H IH. generalize (current m). induction ch as [|d ch IHch]; intros o H Hin;
        [by apply elem_of_nil in Hin|].
      destruct H as (_ & d' & Hd & _ & H). right. apply elem_of_cons in Hin as [->|Hin].
      * rewrite Hbc in Hd. injection Hd as <-. destruct (chain_head _ _ _ _ H Ho) as [ch' ->]. left.
      * by eapply IHch.
  - assert (G : ∀ ch o, chain (objects m) o ch → (∀ b, o = Some b → is_active m b) →
                ∀ b, b ∈ ch → is_active m b).
    { clear. intros ch. induction ch as [|d ch IH]; intros o H Ho b Hb; [by apply elem_of_nil in Hb|].
      destruct H as (-> & d' & Hd & _ & H). apply elem_of_cons in Hb as [->|Hb]; [by apply Ho|].
      apply (IH (origin d')); [done| |done]. intros e He. eapply active_origin; eauto. }
    intros Ha. apply (G ch (current m)); [done| |done]. intros b Hb. by apply active_current.
Qed.

Lemma bind_ub_iff {A B} (r : outcome A) (g : A → B) : g <$> r = UB ↔ r = UB.
Proof. by destruct r. Qed.
Lemma bind_exit_iff {A B} (r : outcome A) (g : A → B) : g <$> r = Exit ↔ r = Exit.
Proof. by destruct r. Qed.

Lemma resume_outcome m co k :
  wf m → (resume co k m = UB ↔ bad_resume m co) ∧ (resume co k m = Exit ↔ co ≠ None ∧ co = current m).
Proof.
  intros Hwf. destruct co as [a|]; [|by unfold bad_resume; cbn; naive_solver].
  destruct (resume_spec m a k Hwf) as (ch & Hch & H). unfold bad_resume.
  rewrite (active_chain m ch (proj1 Hch)). destruct (objects m !! a) as [c|] eqn:Ha.
  - case_bool_decide as Hcur; [rewrite H; naive_solver|].
    case_bool_decide as Hin; [rewrite H; split; [tauto|naive_solver]|].
    destruct H as (q & _ & H & _). rewrite H. naive_solver.
  - rewrite H. split; [tauto|]. split; [done|]. intros [_ Hc].
    destruct (wf_current m Hwf) as [(_ & Hn & _)|(b & c & ch' & _ & Hb & Hbc & _)]; congruence.
Qed.

Lemma step_outcome m : wf_step m → (step m = UB ↔ misuse m) ∧ (step m = Exit ↔ stops m).
Proof.
  intros Hwf. unfold wf_step, misuse, stops, step in *.
  destruct (cpu m) as [p|a id k|a k]; cycle 1.
  1,2: destruct Hwf as (_ & m' & -> & _); by cbn.
  destruct p as [|f|fn k|co k|id k|k|k|co k|fn k].
  - destruct (wf_current m Hwf) as [(Hs & _)|(a & c & ch & Hs & Hc & Ha & Hact & Hch)]; rewrite Hs; [done|].
    destruct (context_func_wf m a c ch Hwf Hs Hc Ha Hact Hch) as (x & -> & _). by cbn.
  - by destruct (f (globals m)) as [[? ?]| |].
  - destruct (create_wf fn k m Hwf) as (x & -> & _). by cbn.
  - rewrite bind_ub_iff, bind_exit_iff. by apply resume_outcome.
  - rewrite bind_ub_iff, bind_exit_iff. by apply resume_outcome.
  - destruct (wf_current m Hwf) as [(_ & Hc & _)|(a & c & ch & Hs & Hc & Ha & Hact & Hch)].
    + unfold yield, deref. by rewrite Hc.
    + destruct (yield_wf m a c ch k Hwf Hs Hc Ha Hact Hch) as (s & _ & -> & _). cbn. naive_solver.
  - done.
  - unfold get_cid, deref. destruct co as [a|]; [|by cbn]. cbn.
    destruct (objects m !! a) as [c|]; by cbn.
  - destruct (wf_current m Hwf) as [(_ & Hc & _)|(a & c & ch & Hs & Hc & Ha & Hact & Hch)].
    + unfold defer, deref. by rewrite Hc.
    + destruct (defer_wf m a c ch fn k Hwf Hs Hc Ha Hch) as [-> _]. cbn. naive_solver.
Qed.

(** ** Frames: what a step does to a coroutine that is swapped in *)

(** [a] waits, with its whole frame: the continuation of whoever entered it. *)
Definition frame m (a : ptr) (s : code U) (o : option ptr) : Prop :=
  ∃ c, objects m !! a = Some c ∧ swap_ctx_ (ctx c) = Some (s, o) ∧ origin c = o.

Definition swapped_in m (a : ptr) : Prop :=
  ∃ c s, objects m !! a = Some c ∧ swap_ctx_ (ctx c) = Some s.

(** The state after a return to [s] on the stack [o]. *)
Definition returned m (s : code U) (o : option ptr) : Prop :=
  cpu m = s ∧ stack m = o ∧
  ∃ m', step m = Ok (Some m') ∧ cpu m' = Prog (resumption s) ∧ stack m' = o ∧ current m' = o.

Lemma frame_insert m a b c d s o :
  frame m a s o → objects m !! b = Some c →
  (a = b → swap_ctx_ (ctx d) = swap_ctx_ (ctx c) ∧ origin d = origin c) →
  ∀ m', objects m' = <[b := d]> (objects m) → frame m' a s o.
Proof.
  intros (x & Hx & Hs & Ho) Hb Hd m' E. unfold frame. rewrite E.
  destruct (decide (a = b)) as [<-|Hab].
  - rewrite lookup_insert_eq. destruct (Hd eq_refl) as [H1 H2]. simplify_eq. exists d.
    split; [done|]. by rewrite H1, H2.
  - rewrite lookup_insert_ne by done. eauto.
Qed.

Lemma frame_swapped_out m a s o c :
  frame m a s o → objects m !! a = Some c → swap_ctx_ (ctx c) = None → False.
Proof. intros (d & Hd & Hs & _) Hc Hn. congruence. Qed.

Lemma frame_enter m a b s o c p r :
  frame m a s o → objects m !! b = Some c → swap_ctx_ (ctx c) = None →
  frame (entered m b c p r) a s o.
Proof.
  intros Hf Hb Hn. eapply frame_insert; [done|exact Hb| |reflexivity].
  intros ->. by destruct (frame_swapped_out m b s o c Hf Hb).
Qed.

Lemma frame_create m m' fn k a s o :
  wf m → frame m a s o → create fn k m = Ok m' → frame m' a s o.
Proof.
  intros Hwf Hf. pose proof (new_coroutine_wf fn m Hwf) as Hnew. unfold create.
  destruct (new_coroutine fn m) as [b m1] eqn:E.
  destruct Hnew as (_ & c & Hc & (_ & Hn & _) & _ & Hx & _ & _ & Hfresh).
  rewrite (run_enter _ _ _ _ _ Hc Hx). intros [= <-].
  apply frame_enter; [|done|done]. injection E as <- <-.
  destruct Hf as (d & Hd & Hf). exists d. cbn. rewrite lookup_insert_ne; [done|]. intros E. rewrite E in Hfresh. congruence.
Qed.

Lemma frame_resume m m' co k a s o :
  wf m → frame m a s o → resume co k m = Ok m' → frame m' a s o.
Proof.
  intros Hwf Hf H. destruct co as [b|]; [|discriminate H].
  destruct (resume_spec m b k Hwf) as (ch & Hch & Hsp).
  destruct (objects m !! b) as [c|] eqn:Hb; [|congruence].
  case_bool_decide; [congruence|]. case_bool_decide as Hin; [congruence|].
  destruct Hsp as (p & _ & Hsp & _). rewrite Hsp in H. injection H as <-.
  apply frame_enter; [done|done|]. by destruct (off_chain_suspended m ch b c Hwf (proj1 Hch) Hb Hin) as (_ & ? & _).
Qed.

Lemma after_swap_frame m m' b rest a s o :
  left_behind b m → frame m a s o → after_swap b rest m = Ok m' → frame m' a s o.
Proof.
  intros (c & Hc & Hn) Hf. unfold after_swap, deref. rewrite Hc. cbn.
  destruct (end_ (ctx c)); intros [= <-]; [|exact Hf].
  destruct Hf as (d & Hd & Hs & Ho). exists d. cbn. rewrite lookup_delete_ne; [done|].
  intros ->. congruence.
Qed.

(** Leaving [a] returns to its frame, whether it ended or not. *)
Lemma left_returned m a c s x ts e :
  returns s a (cid c) →
  returned (left m a c (mkCoroutine (origin c) (mkContext x None ts e) (cid c)) s
    (if e then current m else origin c)) s (origin c).
Proof.
  intros Hret. split; [done|split; [done|]].
  assert (G : ∀ rest, ∃ m', after_swap a rest (left m a c
     (mkCoroutine (origin c) (mkContext x None ts e) (cid c)) s (if e then current m else origin c)) = Ok m' ∧
     cpu m' = Prog rest ∧ stack m' = origin c ∧ current m' = origin c).
  { intros rest. destruct e.
    - rewrite left_after_swap. by eexists.
    - unfold after_swap, deref, left. cbn. rewrite lookup_insert_eq. by eexists. }
  destruct (G (resumption s)) as (m' & H & Hm'). exists m'. split; [|done].
  destruct Hret as [[k ->]|[k ->]]; unfold step; cbn [cpu left]; cbn [resumption] in H; by rewrite H.
Qed.

Lemma frame_step m m' a s o :
  wf_step m → frame m a s o → step m = Ok (Some m') → frame m' a s o ∨ (returned m' s o ∧ left_behind a m').
Proof.
  intros Hwf Hf H. unfold wf_step in Hwf. unfold step in H.
  assert (Hcall : ∀ r : outcome (machine U), Some <$> r = Ok (Some m') → r = Ok m').
  { intros [x| |] E; [by injection E as ->|discriminate E..]. }
  destruct (cpu m) as [p|b id k|b k]; cycle 1.
  1,2: apply Hcall in H; left; eapply after_swap_frame; [apply Hwf|exact Hf|exact H].
  destruct p as [|f|fn k|co k|id k|k|k|co k|fn k].
  - destruct (wf_current m Hwf) as [(Hs & _)|(b & c & ch & Hs & Hc & Hb & Hact & Hch)];
      rewrite Hs in H; [done|]. apply Hcall in H.
    destruct Hact as (_ & _ & s' & Hsw & Hret).
    assert (Hend : defer_tasks (ctx c) = None ∨ defer_tasks (ctx c) = Some [] →
                   frame m' a s o ∨ (returned m' s o ∧ left_behind a m')).
    { intros Hd. rewrite (context_func_end m b c s') in H by done. injection H as <-.
      destruct (decide (a = b)) as [->|Hab].
      - right. destruct Hf as (d & Hd' & Hsd & Ho). simplify_eq.
        split; [by apply (left_returned m b d _ _ None true)|].
        eexists; split; [apply lookup_insert_eq|done].
      - left. eapply frame_insert; [done|exact Hb| |reflexivity]; intros ?; congruence. }
    destruct (defer_tasks (ctx c)) as [[|t ts]|] eqn:Hd; [by auto| |by auto].
    unfold context_func, deref in H. rewrite Hb in H. cbn in H. rewrite Hd in H. injection H as <-.
    left. eapply frame_insert; [done|exact Hb| |reflexivity]. by cbn.
  - destruct (f (globals m)) as [[u q]| |]; try discriminate H. injection H as <-. by left.
  - apply Hcall in H. left. by eapply frame_create.
  - apply Hcall in H. left. by eapply frame_resume.
  - apply Hcall in H. left. by eapply frame_resume.
  - apply Hcall in H. destruct (wf_current m Hwf) as [(_ & Hn & _)|(b & c & ch & Hs & Hc & Hb & Hact & Hch)].
    { unfold yield, deref in H. by rewrite Hn in H. }
    destruct (yield_wf m b c ch k Hwf Hs Hc Hb Hact Hch) as (s' & Hsw & Hy & _).
    rewrite Hy in H. injection H as <-. destruct Hact as (_ & He & s'' & Hs'' & Hret).
    destruct (decide (a = b)) as [->|Hab].
    + right. destruct Hf as (d & Hd' & Hsd & Ho). simplify_eq.
      unfold yielded. rewrite He. split; [by apply (left_returned m b d _ _ _ false)|].
      eexists; split; [apply lookup_insert_eq|done].
    + left. eapply frame_insert; [done|exact Hb| |reflexivity]; intros ?; congruence.
  - injection H as <-. by left.
  - apply Hcall in H. destruct (get_cid_inv m co k m' H) as (c & _ & ->). by left.
  - apply Hcall in H. destruct (wf_current m Hwf) as [(_ & Hn & _)|(b & c & ch & Hs & Hc & Hb & Hact & Hch)].
    { unfold defer, deref in H. by rewrite Hn in H. }
    destruct (defer_wf m b c ch fn k Hwf Hs Hc Hb Hch) as [Hd _]. rewrite Hd in H. injection H as <-.
    left. eapply frame_insert; [done|exact Hb| |reflexivity]; by cbn.
Qed.

End sched_theory.

(** ** Deferred tasks *)
Section sched_defers.
Import Sched SchedInv.
Context {U : Type}.
Implicit Types (m : machine U) (c : Coroutine U) (fs : list (U → U)).

(** A task, or the body of a function, that changes the rest of the state. *)
Definition effect (f : U → U) : prog U := Act (λ u, Ok (f u, Ret)).

(** A function that defers the tasks [fs], in this order, and goes on as [p]. *)
Fixpoint deferring fs (p : prog U) : prog U :=
  match fs with [] => p | f :: fs => Defer (effect f) (deferring fs p) end.

Lemma steps_app n n' m : steps (n + n') m = (m' ← steps n m; steps n' m').
Proof.
  revert m. induction n as [|n IH]; intros m; [done|]. cbn [Nat.add steps].
  destruct (step m) as [[m'|]| |] eqn:E; [by apply IH| |done..].
  cbn. destruct n' as [|n']; cbn; [done|]. by rewrite E.
Qed.

Lemma steps_cons n m m' : step m = Ok (Some m') → steps (S n) m = steps n m'.
Proof. cbn. by intros ->. Qed.

(** The machine inside a coroutine [a] that a call created on [m]. *)
Definition inside m (k : Z → prog U) (ts : option (list (prog U))) (p : prog U) (u : U) : machine U :=
  let a := next_ptr m in
  let id := last_cid m + 1 in
  mkMachine (Prog p) (Some a) (Some a) id (<[id := a]> (coroutines m))
    (<[a := mkCoroutine (current m)
       (mkContext None (Some (AfterRun a id k, stack m)) ts false) id]> (objects m))
    (Pos.succ a) u.

Lemma create_inside m fn k :
  cpu m = Prog (Create fn k) → step m = Ok (Some (inside m k None fn (globals m))).
Proof.
  intros Hc. unfold step. rewrite Hc. unfold create, new_coroutine, run, deref. cbn.
  rewrite lookup_insert_eq. unfold swap_in, deref. cbn. rewrite lookup_insert_eq. cbn.
  unfold jump, set_object, inside. cbn. by rewrite !insert_insert_eq.
Qed.

Lemma inside_defer m k ts f p u :
  step (inside m k ts (Defer f p) u) = Ok (Some (inside m k (Some (f :: default [] ts)) p u)).
Proof.
  unfold step, inside. cbn. unfold defer, deref. cbn. rewrite lookup_insert_eq. cbn.
  unfold set_cpu, set_object, set_ctx. cbn. rewrite insert_insert_eq. by destruct ts.
Qed.

Lemma inside_deferring m k fs p u : ∀ ts,
  steps (length fs) (inside m k (Some ts) (deferring fs p) u) =
  Ok (inside m k (Some ((effect <$> reverse fs) ++ ts)) p u).
Proof.
  induction fs as [|f fs IH]; intros ts; [done|]. cbn [length deferring].
  rewrite (steps_cons _ _ _ (inside_defer _ _ _ _ _ _)). cbn [default]. rewrite IH.
  by rewrite reverse_cons, fmap_app, <- app_assoc.
Qed.

Lemma inside_effect m k ts f u :
  step (inside m k ts (effect f) u) = Ok (Some (inside m k ts Ret (f u))).
Proof. done. Qed.

Lemma inside_task m k t ts u :
  step (inside m k (Some (t :: ts)) Ret u) = Ok (Some (inside m k (Some ts) t u)).
Proof.
  unfold step, inside. cbn. unfold context_func, deref. cbn. rewrite lookup_insert_eq. cbn.
  unfold set_cpu, set_object, set_ctx. cbn. by rewrite insert_insert_eq.
Qed.

Lemma inside_tasks m k gs : ∀ u,
  steps (2 * length gs) (inside m k (Some (effect <$> gs)) Ret u) =
  Ok (inside m k (Some []) Ret (foldl (λ u g, g u) u gs)).
Proof.
  induction gs as [|g gs IH]; intros u; [done|]. cbn [length fmap list_fmap foldl].
  replace (2 * S (length gs))%nat with (S (S (2 * length gs))) by lia.
  rewrite (steps_cons _ _ _ (inside_task _ _ _ _ _)), (steps_cons _ _ _ (inside_effect _ _ _ _ _)).
  apply IH.
Qed.

(** The end of the coroutine: everything but the counters is as before. *)
Lemma inside_end m k ts u :
  wf m → ts = None ∨ ts = Some [] →
  steps 2 (inside m k ts Ret u) =
  Ok (mkMachine (Prog (k (last_cid m + 1))) (stack m) (current m) (last_cid m + 1)
        (coroutines m) (objects m) (Pos.succ (next_ptr m)) u).
Proof.
  intros (Hs & _ & _ & Hr1 & Hr2) Ht.
  assert (Ho : objects m !! next_ptr m = None).
  { destruct (objects m !! next_ptr m) as [d|] eqn:E; [|done]. apply Hr2 in E. lia. }
  assert (Hi : coroutines m !! (last_cid m + 1) = None).
  { destruct (coroutines m !! (last_cid m + 1)) as [a|] eqn:E; [|done].
    apply Hr1 in E as (d & Hd & Ed). apply Hr2 in Hd. lia. }
  set (c := mkCoroutine (current m) (mkContext None
     (Some (AfterRun (next_ptr m) (last_cid m + 1) k, stack m)) ts false) (last_cid m + 1)).
  assert (H : step (inside m k ts Ret u) = Ok (Some (left (inside m k ts Ret u) (next_ptr m) c
     (mkCoroutine (current m) (mkContext (Some (Prog Ret, Some (next_ptr m))) None None true)
        (last_cid m + 1)) (AfterRun (next_ptr m) (last_cid m + 1) k) (Some (next_ptr m))))).
  { unfold step, inside. cbn [cpu stack]. rewrite (context_func_end _ _ c (AfterRun (next_ptr m) (last_cid m + 1) k)); [done|done| | |done].
    - cbn. apply lookup_insert_eq.
    - cbn. by rewrite Hs. }
  rewrite (steps_cons _ _ _ H). unfold left, inside. cbn -[after_swap].
  unfold after_swap, deref. cbn. rewrite lookup_insert_eq. cbn.
  by rewrite insert_insert_eq, !delete_insert_id, Hs by done.
Qed.
End sched_defers.

(** ** Properties *)
Section sched_properties.
Import Sched SchedInv.
Context {U : Type}.
Implicit Types (m : machine U) (c : Coroutine U).

(** The executions during which the coroutine [a] stays swapped in. *)
Inductive while_in (a : ptr) m : machine U → Prop :=
| while_start : swapped_in m a → while_in a m m
| while_step m1 m2 :
    while_in a m m1 → step m1 = Ok (Some m2) → swapped_in m2 a → while_in a m m2.

(** The calls that enter the coroutine [a], with the program that follows. *)
Definition enters m (a : ptr) (rest : prog U) : Prop :=
  cpu m = Prog (Resume (Some a) rest) ∨
  ∃ fn k, cpu m = Prog (Create fn k) ∧ a = next_ptr m ∧ rest = k (last_cid m + 1).

Lemma enters_frame m a rest m1 :
  wf m → enters m a rest → step m = Ok (Some m1) →
  ∃ s, frame m1 a s (current m) ∧ resumption s = rest.
Proof.
  intros Hwf He H. pose proof Hwf as (Hs & _).
  destruct He as [Hc|(fn & k & Hc & -> & ->)].
  - unfold step in H. rewrite Hc in H. destruct (resume_spec m a rest Hwf) as (ch & _ & Hsp).
    destruct (objects m !! a) as [c|] eqn:Ha; [|by rewrite Hsp in H].
    case_bool_decide; [by rewrite Hsp in H|]. case_bool_decide; [by rewrite Hsp in H|].
    destruct Hsp as (p & _ & Hsp & _). rewrite Hsp in H. injection H as <-.
    exists (AfterResume a rest). split; [|reflexivity]. eexists. cbn. rewrite lookup_insert_eq. by rewrite Hs.
  - rewrite (create_inside m fn k Hc) in H. injection H as <-.
    eexists (AfterRun _ _ k). split; [|reflexivity]. eexists. cbn. rewrite lookup_insert_eq. by rewrite Hs.
Qed.

Lemma while_frame a s o m1 m2 :
  wf_step m1 → frame m1 a s o → while_in a m1 m2 → wf_step m2 ∧ frame m2 a s o.
Proof.
  intros Hwf Hf H. induction H as [_|m2 m3 _ IH Hst (c & s' & Hc & Hs)]; [done|].
  destruct IH as [Hw2 Hf2]. split; [by eapply step_wf|].
  destruct (frame_step m2 m3 a s o Hw2 Hf2 Hst) as [G|[_ (d & Hd & Hn)]]; [done|congruence].
Qed.

(** C1: at every point of every execution the scheduler's data are coherent:
    the CPU is on the stack of [current]; an active coroutine is swapped in
    and knows whom to return to, any other is suspended in its own code and on
    its own stack; every active coroutine is alive; and the table of ids holds
    exactly the live coroutines. *)
Theorem scheduler_invariant (p q : prog U) (u : U) m :
  reachable (boot p u) m → cpu m = Prog q →
  stack m = current m ∧
  (∀ a, is_active m a → ∃ c, objects m !! a = Some c ∧ active a c) ∧
  (∀ a c, objects m !! a = Some c → ¬ is_active m a → suspended a c) ∧
  (∀ id a, get_by_cid id m = Some a ↔ ∃ c, objects m !! a = Some c ∧ cid c = id).
Proof.
  intros Hr Hc. pose proof (reachable_wf _ _ (boot_wf p u) Hr) as Hwf.
  unfold wf_step in Hwf. rewrite Hc in Hwf. destruct Hwf as (Hs & (ch & H1 & _ & H3) & _ & H4 & _).
  split_and!; [done| | |exact H4].
  - intros a. rewrite (active_chain m ch H1). by apply (chain_lookup _ (current m)).
  - intros a c Ha. rewrite (active_chain m ch H1). by apply H3.
Qed.

(** C20: the scheduler never goes wrong by itself. A step is undefined exactly
    when the program resumes a coroutine that has ended or never existed, or an
    active one other than the current one, asks a dead one for its id, yields or
    defers outside a coroutine, or does something undefined of its own; the assertion of
    [_resume] stops exactly the programs that resume the current coroutine. *)
Theorem scheduler_step_outcome (p : prog U) (u : U) m :
  reachable (boot p u) m → (step m = UB ↔ misuse m) ∧ (step m = Exit ↔ stops m).
Proof. intros Hr. apply step_outcome. by eapply reachable_wf; [apply boot_wf|]. Qed.

(** [create] and [resume] return. Whatever happens while the coroutine
    [a] is swapped in, nested creations, resumptions and yields of other
    coroutines included, the step that leaves it, by [yield] or by its end,
    lands on the caller's stack, and the next one is at the caller's
    continuation with the caller's [current]. *)
Theorem call_returns_to_caller (p rest : prog U) (u : U) m m1 m2 m3 (a : ptr) :
  reachable (boot p u) m → enters m a rest → step m = Ok (Some m1) →
  while_in a m1 m2 → step m2 = Ok (Some m3) → ¬ swapped_in m3 a →
  stack m3 = stack m ∧
  ∃ m4, step m3 = Ok (Some m4) ∧ cpu m4 = Prog rest ∧ stack m4 = stack m ∧ current m4 = current m.
Proof.
  intros Hr He H1 Hin H3 Hout. pose proof (reachable_wf _ _ (boot_wf p u) Hr) as Hws.
  assert (Hwf : wf m).
  { unfold wf_step in Hws. by destruct He as [Hc|(fn & k & Hc & _)]; rewrite Hc in Hws. }
  pose proof Hwf as (Hs & _).
  destruct (enters_frame m a rest m1 Hwf He H1) as (s & Hf & <-).
  destruct (while_frame a s (current m) m1 m2) as [Hw2 Hf2]; [by eapply step_wf|done..|].
  destruct (frame_step m2 m3 a s (current m) Hw2 Hf2 H3) as [(c & Hc & Hx & _)|[(_ & Hst & m4 & H4 & Hr4) _]].
  - destruct Hout. by exists c, (s, current m).
  - rewrite Hs. split; [done|]. by exists m4.
Qed.

(** C33: a coroutine created with a body that defers some tasks runs its body,
    then every task exactly once, last deferred first, and then no trace of it
    is left: objects, table of ids, stack and [current] are as before, and the
    creator goes on with a fresh id. The number of steps is explicit. *)
Theorem create_runs_defers_lifo (p : prog U) (u : U) m (fs : list (U → U)) (g : U → U) k :
  reachable (boot p u) m → cpu m = Prog (Create (deferring fs (effect g)) k) →
  steps (3 * length fs + 4) m =
  Ok (mkMachine (Prog (k (last_cid m + 1))) (stack m) (current m) (last_cid m + 1)
        (coroutines m) (objects m) (Pos.succ (next_ptr m))
        (foldl (λ u f, f u) (g (globals m)) (reverse fs))).
Proof.
  intros Hr Hc. pose proof (reachable_wf _ _ (boot_wf p u) Hr) as Hwf.
  unfold wf_step in Hwf. rewrite Hc in Hwf.
  replace (3 * length fs + 4)%nat with (S (length fs + (S (2 * length fs + 2)))) by lia.
  rewrite (steps_cons _ _ _ (create_inside m _ k Hc)).
  destruct fs as [|f fs].
  - cbn [length Nat.add Nat.mul deferring].
    rewrite (steps_cons _ _ _ (inside_effect _ _ _ _ _)). rewrite inside_end by auto. done.
  - cbn [length deferring]. cbn [Nat.add].
    rewrite (steps_cons _ _ _ (inside_defer _ _ _ _ _ _)). cbn [default].
    rewrite steps_app, inside_deferring, outcome_bind_ok.
    rewrite (steps_cons _ _ _ (inside_effect _ _ _ _ _)).
    replace ((effect <$> reverse fs) ++ [effect f]) with (effect <$> reverse (f :: fs))
      by (by rewrite reverse_cons, fmap_app).
    rewrite <- (length_reverse (f :: fs)) at 1.
    replace (2 * S (length fs) + 2)%nat with (2 * length (reverse (f :: fs)) + 2)%nat
      by (rewrite length_reverse; cbn [length]; lia).
    rewrite steps_app, inside_tasks, outcome_bind_ok. by rewrite inside_end by auto.
Qed.

Lemma steps_reachable n (m0 m : machine U) : Sched.steps n m0 = Ok m → reachable m0 m.
Proof.
  assert (G : ∀ m1, reachable m0 m1 → Sched.steps n m1 = Ok m → reachable m0 m).
  { induction n as [|n IH]; intros m1 Hr H; cbn in H; [by injection H as <-|].
    destruct (step m1) as [[m2|]| |] eqn:E; try discriminate H.
    - apply (IH m2); [by eapply reach_step|done].
    - by injection H as <-. }
  intros H. apply (G m0); [constructor|done].
Qed.

(** The state after [n] steps of a program. *)
Definition at_step (n : nat) (p : prog U) (u : U) : machine U :=
  match Sched.steps n (boot p u) with Ok m => m | _ => boot p u end.

Lemma at_step_reachable n p u : reachable (boot p u) (at_step n p u).
Proof.
  unfold at_step. destruct (Sched.steps n (boot p u)) as [m| |] eqn:E; [|constructor..].
  by eapply steps_reachable.
Qed.
End sched_properties.

(** ** Examples: programs that write a log *)
Section sched_examples.
Import Sched SchedInv.

Definition log (x : Z) (k : prog (list Z)) : prog (list Z) := Act (λ u, Ok (u ++ [x], k)).

(** The example of [yield] in docs/docs/coroutine.md: two coroutines take turns. *)
Definition ping_pong : prog (list Z) :=
  Create (log 1 (Yield (log 3 Ret))) (λ id,
    Create (log 2 (ResumeCid id (log 4 Ret))) (λ _, Ret)).

Example ping_pong_runs :
  globals <$> Sched.steps 20 (boot ping_pong []) = Ok [1; 2; 3; 4].
Proof. vm_compute. reflexivity. Qed.

(** A coroutine that resumes the one that created it. *)
Definition resumes_parent : prog (list Z) :=
  Create (Create (ResumeCid 1 Ret) (λ _, Ret)) (λ _, Ret).

End sched_examples.

Lemma scheduler_invariant_witness :
  ∃ c, objects (at_step 1 ping_pong []) !! 1%positive = Some c ∧ SchedInv.active 1 c.
Proof.
  destruct (scheduler_invariant ping_pong (log 1 (Yield (log 3 Ret))) [] (at_step 1 ping_pong []))
    as (_ & H & _); [apply at_step_reachable|reflexivity|].
  apply H. apply active_current. reflexivity.
Defined.

Lemma scheduler_step_outcome_witness :
  Sched.step (at_step 2 resumes_parent []) = UB ∧ current (at_step 2 resumes_parent []) ≠ Some 1%positive.
Proof.
  assert (Hc : cpu (at_step 2 resumes_parent []) = Prog (ResumeCid 1 Ret)) by (vm_compute; reflexivity).
  assert (Hg : Sched.get_by_cid 1 (at_step 2 resumes_parent []) = Some 1%positive) by (vm_compute; reflexivity).
  assert (Hn : current (at_step 2 resumes_parent []) = Some 2%positive) by (vm_compute; reflexivity).
  assert (Ho : (objects (at_step 2 resumes_parent []) !! 2%positive) ≫= origin = Some 1%positive)
    by (vm_compute; reflexivity).
  split; [|rewrite Hn; discriminate].
  apply (scheduler_step_outcome resumes_parent [] (at_step 2 resumes_parent []));
    [apply at_step_reachable|].
  unfold misuse. rewrite Hc, Hg. right. split; [|rewrite Hn; discriminate].
  destruct (objects (at_step 2 resumes_parent []) !! 2%positive) as [c|] eqn:E; [|discriminate Ho].
  exact (active_origin _ 1%positive 2%positive c (active_current _ _ Hn) E Ho).
Defined.

Lemma call_returns_to_caller_witness :
  ∃ m4, Sched.step (at_step 3 ping_pong []) = Ok (Some m4) ∧
    cpu m4 = Prog (Create (log 2 (ResumeCid 1 (log 4 Ret))) (λ _, Ret)) ∧
    stack m4 = None ∧ current m4 = None.
Proof.
  assert (E1 : Sched.step (Sched.boot ping_pong []) = Ok (Some (at_step 1 ping_pong [])))
    by (vm_compute; reflexivity).
  assert (E2 : Sched.step (at_step 1 ping_pong []) = Ok (Some (at_step 2 ping_pong [])))
    by (vm_compute; reflexivity).
  assert (E3 : Sched.step (at_step 2 ping_pong []) = Ok (Some (at_step 3 ping_pong [])))
    by (vm_compute; reflexivity).
  assert (Hs : is_Some ((objects (at_step 1 ping_pong []) !! 1%positive) ≫= (swap_ctx_ ∘ ctx)))
    by (apply (bool_decide_eq_true_1 _); vm_compute; reflexivity).
  assert (Hin : is_Some ((objects (at_step 2 ping_pong []) !! 1%positive) ≫= (swap_ctx_ ∘ ctx)))
    by (apply (bool_decide_eq_true_1 _); vm_compute; reflexivity).
  assert (Hout : (objects (at_step 3 ping_pong []) !! 1%positive) ≫= (swap_ctx_ ∘ ctx) = None)
    by (vm_compute; reflexivity).
  assert (Hsw : ∀ m : machine (list Z), is_Some ((objects m !! 1%positive) ≫= (swap_ctx_ ∘ ctx)) → swapped_in m 1).
  { intros m [s E]. apply bind_Some in E as (c & Hc & E). exists c, s. by split. }
  assert (Hout3 : ¬ swapped_in (at_step 3 ping_pong []) 1).
  { intros (c & s & Hc & E). rewrite Hc in Hout. cbn in Hout. congruence. }
  assert (Hen : enters (Sched.boot ping_pong []) 1
    (Create (log 2 (ResumeCid 1 (log 4 Ret))) (λ _, Ret))) by (right; by eexists _, _).
  destruct (call_returns_to_caller ping_pong _ [] _ _ _ _ 1 (Sched.reach_start _) Hen E1
    (while_step _ _ _ _ (while_start _ _ (Hsw _ Hs)) E2 (Hsw _ Hin)) E3 Hout3) as [_ H]. exact H.
Defined.

Lemma create_runs_defers_lifo_witness :
  globals <$> Sched.steps 10
    (Sched.boot (Create (deferring [λ u, u ++ [1]; λ u, u ++ [2]] (effect (λ u, u ++ [0]))) (λ _, Ret)) [])
  = Ok [0; 2; 1].
Proof.
  pose proof (create_runs_defers_lifo _ [] _ [λ u, u ++ [1]; λ u, u ++ [2]] (λ u, u ++ [0]) (λ _, Ret)
    (Sched.reach_start _) eq_refl) as H.
  exact (f_equal (fmap globals) H).
Defined.
