(* ===== verification/Waiters.v ===== *)
(** * Waiters: coroutines that wait in known places

    A client of the scheduler that suspends coroutines keeps their addresses
    somewhere (the queues of a channel, the timers, the registered
    descriptors) and resumes them from there. This file is the invariant such
    clients share: two lists [cs] and [ps] of waiting coroutines, whose
    suspended code satisfies [P1] and [P2] (which may depend on the coroutine's
    address and id), are together exactly the suspended
    coroutines, without repetition, and all other saved code satisfies
    [client]. Each lemma says what one kind of step does to it. *)

From S2P Require Import Prelude Words Coroutine.
From stdpp Require Import gmap.
#[local] Open Scope Z_scope.

Section waiters.
Import Sched SchedInv.
Context {U : Type}.

(** [client b p]: [p] may run on the stack of a coroutine ([b = true]) or on
    the main stack. *)
Variables (client : bool → prog U → Prop) (P1 P2 : option ptr → Z → prog U → Prop).

Implicit Types (m : machine U) (c : Coroutine U) (p : prog U) (cs ps : list (option ptr)).

Definition on_stack m : bool := bool_decide (stack m ≠ None).

(** The running coroutine's id. *)
Definition current_cid m (id : Z) : Prop :=
  ∃ a c, current m = Some a ∧ objects m !! a = Some c ∧ cid c = id.

Definition waits m (P : option ptr → Z → prog U → Prop) (co : option ptr) : Prop :=
  ∃ a c p, co = Some a ∧ objects m !! a = Some c ∧ end_ (ctx c) = false ∧
    ctx_ (ctx c) = Some (Prog p, Some a) ∧ P co (cid c) p.

(** Every saved continuation is a client, nothing is deferred. *)
Definition saved_ok m : Prop :=
  ∀ a c, objects m !! a = Some c →
    defer_tasks (ctx c) = None ∧
    ∀ s o, swap_ctx_ (ctx c) = Some (s, o) → client (bool_decide (o ≠ None)) (resumption s).

(** Who is suspended is in one of the lists. *)
Definition complete m cs ps : Prop :=
  ∀ a c s, objects m !! a = Some c → end_ (ctx c) = false → ctx_ (ctx c) = Some s → Some a ∈ cs ++ ps.

Definition base m cs ps : Prop :=
  wf_step m ∧ saved_ok m ∧ NoDup (cs ++ ps) ∧ complete m cs ps ∧
  Forall (waits m P1) cs ∧ Forall (waits m P2) ps.

Lemma base_perm m cs ps cs' ps' : cs ≡ₚ cs' → ps ≡ₚ ps' → base m cs ps → base m cs' ps'.
Proof.
  intros E1 E2 (H1 & H2 & H3 & H4 & H5 & H6). split_and!; try done.
  - by rewrite <- E1, <- E2.
  - intros a c s. rewrite <- E1, <- E2. apply H4.
  - by rewrite <- E1.
  - by rewrite <- E2.
Qed.

Lemma waits_frame m m' P co :
  waits m P co →
  (∀ a c p, co = Some a → objects m !! a = Some c → end_ (ctx c) = false →
     ctx_ (ctx c) = Some (Prog p, Some a) → objects m' !! a = Some c) →
  waits m' P co.
Proof. intros (a & c & p & -> & Hc & He & Hx & HP) H. exists a, c, p. split_and!; eauto. Qed.

Lemma waits_insert m m' P b d q :
  Forall (waits m P) q → objects m' = <[b := d]> (objects m) → Some b ∉ q → Forall (waits m' P) q.
Proof.
  rewrite !Forall_forall. intros H E Hb co Hco. apply (waits_frame m); [by apply H|].
  intros a c p -> Ha _ _. rewrite E, lookup_insert_ne; [done|]. intros ->. done.
Qed.

Lemma waits_delete m m' P b q :
  Forall (waits m P) q → objects m' = delete b (objects m) → Some b ∉ q → Forall (waits m' P) q.
Proof.
  rewrite !Forall_forall. intros H E Hb co Hco. apply (waits_frame m); [by apply H|].
  intros a c p -> Ha _ _. rewrite E, lookup_delete_ne; [done|]. intros ->. done.
Qed.

(** A coroutine that is running, or has ended, is not waiting. *)
Lemma not_waiting m P q b c :
  Forall (waits m P) q → objects m !! b = Some c → ctx_ (ctx c) = None ∨ end_ (ctx c) = true → Some b ∉ q.
Proof.
  intros H Hb Hc Hin. rewrite Forall_forall in H.
  destruct (H _ Hin) as (a & d & p & [= <-] & Hd & He & Hx & _). rewrite Hb in Hd. injection Hd as <-.
  destruct Hc; congruence.
Qed.

Lemma not_waiting_fresh m P q b :
  Forall (waits m P) q → objects m !! b = None → Some b ∉ q.
Proof.
  intros H Hb Hin. rewrite Forall_forall in H.
  destruct (H _ Hin) as (a & d & p & [= <-] & Hd & _). congruence.
Qed.

Lemma base_same m m' cs ps : base m cs ps → wf_step m' → objects m' = objects m → base m' cs ps.
Proof.
  intros (_ & H1 & H2 & H3 & H4 & H5) Hwf E. split_and!; try done.
  - intros a c. rewrite E. apply H1.
  - intros a c s. rewrite E. apply H3.
  - eapply List.Forall_impl; [|exact H4]. intros co Hco. eapply waits_frame; [done|]. by rewrite E.
  - eapply List.Forall_impl; [|exact H5]. intros co Hco. eapply waits_frame; [done|]. by rewrite E.
Qed.

(** A running or fresh coroutine [b] becomes [d], still not waiting. *)
Lemma base_insert m m' cs ps b d :
  base m cs ps → wf_step m' → objects m' = <[b := d]> (objects m) →
  Some b ∉ cs ++ ps → ctx_ (ctx d) = None ∨ end_ (ctx d) = true →
  defer_tasks (ctx d) = None →
  (∀ s o, swap_ctx_ (ctx d) = Some (s, o) → client (bool_decide (o ≠ None)) (resumption s)) →
  base m' cs ps.
Proof.
  intros (_ & H1 & H2 & H3 & H4 & H5) Hwf E Hb Hx Hd Hs. rewrite elem_of_app in Hb.
  split_and!; try done.
  - intros a c. rewrite E. destruct (decide (a = b)) as [->|Hab].
    + rewrite lookup_insert_eq. by intros [= <-].
    + rewrite lookup_insert_ne by done. apply H1.
  - intros a c s. rewrite E. destruct (decide (a = b)) as [->|Hab].
    + rewrite lookup_insert_eq. intros [= <-] He Hc. destruct Hx; congruence.
    + rewrite lookup_insert_ne by done. apply H3.
  - eapply waits_insert; [done|done|tauto].
  - eapply waits_insert; [done|done|tauto].
Qed.

Lemma base_running m cs ps b c :
  base m cs ps → objects m !! b = Some c → ctx_ (ctx c) = None ∨ end_ (ctx c) = true →
  Some b ∉ cs ++ ps.
Proof.
  intros (_ & _ & _ & _ & H3 & H4) Hb Hc. rewrite elem_of_app.
  intros [Hi|Hi]; [apply (not_waiting m P1 cs b c H3 Hb Hc Hi)|apply (not_waiting m P2 ps b c H4 Hb Hc Hi)].
Qed.

Lemma base_wf m cs ps p : base m cs ps → cpu m = Prog p → wf m.
Proof. intros (H & _) Hc. unfold wf_step in H. by rewrite Hc in H. Qed.

(** The running coroutine. *)
Lemma base_current m cs ps p :
  base m cs ps → cpu m = Prog p → on_stack m = true →
  ∃ a c s ch, stack m = Some a ∧ current m = Some a ∧ objects m !! a = Some c ∧
    swap_ctx_ (ctx c) = Some (s, origin c) ∧ returns s a (cid c) ∧ end_ (ctx c) = false ∧
    ctx_ (ctx c) = None ∧ scheduled (objects m) (Some a) (a :: ch) ∧ active a c.
Proof.
  intros Hb Hc Ho. pose proof (base_wf m cs ps p Hb Hc) as Hwf.
  destruct (wf_current m Hwf) as [(Hs & _)|(a & c & ch & Hs & Hcur & Ha & Hact & Hch)].
  - unfold on_stack in Ho. rewrite Hs in Ho. by apply bool_decide_eq_true in Ho.
  - pose proof Hact as (Hx & He & s & Hsw & Hret). exists a, c, s, ch. by split_and!.
Qed.

(** On the main stack every coroutine is waiting. *)
Lemma base_main m cs ps p a c :
  base m cs ps → cpu m = Prog p → on_stack m = false → objects m !! a = Some c → Some a ∈ cs ++ ps.
Proof.
  intros Hb Hc Ho Ha. pose proof (base_wf m cs ps p Hb Hc) as Hwf. destruct Hb as (_ & _ & _ & H & _).
  destruct (wf_current m Hwf) as [(_ & _ & _ & Hs)|(b & d & ch & Hs & _)].
  - destruct (Hs a c Ha) as (He & _ & q & Hq). by eapply H.
  - unfold on_stack in Ho. rewrite Hs in Ho. by apply bool_decide_eq_false in Ho; destruct Ho.
Qed.

(** ** Steps *)

Lemma base_act m cs ps f u q :
  base m cs ps → cpu m = Prog (Act f) → f (globals m) = Ok (u, q) →
  ∃ m', step m = Ok (Some m') ∧ base m' cs ps ∧
    cpu m' = Prog q ∧ stack m' = stack m ∧ current m' = current m ∧ objects m' = objects m ∧
    globals m' = u.
Proof.
  intros Hb Hc Hf. pose proof Hb as (Hwf & _).
  assert (Hst : step m = Ok (Some (set_cpu (Prog q) (set_globals u m)))).
  { unfold step. by rewrite Hc, Hf. }
  eexists. split; [exact Hst|]. split; [|done].
  eapply base_same; [done|by eapply step_wf|done].
Qed.

Lemma base_get_current m cs ps k :
  base m cs ps → cpu m = Prog (GetCurrent k) →
  ∃ m', step m = Ok (Some m') ∧ base m' cs ps ∧
    cpu m' = Prog (k (current m)) ∧ stack m' = stack m ∧ current m' = current m ∧
    objects m' = objects m ∧ globals m' = globals m.
Proof.
  intros Hb Hc. pose proof Hb as (Hwf & _).
  assert (Hst : step m = Ok (Some (set_cpu (Prog (k (current m))) m))).
  { unfold step. by rewrite Hc. }
  eexists. split; [exact Hst|]. split; [|done].
  eapply base_same; [done|by eapply step_wf|done].
Qed.

Lemma base_get_cid m cs ps k :
  base m cs ps → cpu m = Prog (GetCid (current m) k) → on_stack m = true →
  ∃ m' id, step m = Ok (Some m') ∧ base m' cs ps ∧ current_cid m id ∧
    cpu m' = Prog (k id) ∧ stack m' = stack m ∧ current m' = current m ∧
    objects m' = objects m ∧ globals m' = globals m.
Proof.
  intros Hb Hc Ho. pose proof Hb as (Hwf & _).
  destruct (base_current m cs ps _ Hb Hc Ho) as (a & c & _ & _ & _ & Hcur & Ha & _).
  assert (Hst : step m = Ok (Some (set_cpu (Prog (k (cid c))) m))).
  { unfold step. rewrite Hc, Hcur. unfold get_cid, deref. by rewrite Ha. }
  eexists _, (cid c). split; [exact Hst|]. split; [|split; [by exists a, c|done]].
  eapply base_same; [done|by eapply step_wf|done].
Qed.

(** The end of [run] or [_resume]. *)
Lemma base_return m cs ps a id :
  base m cs ps → returns (cpu m) a id →
  ∃ m', step m = Ok (Some m') ∧ base m' cs ps ∧
    cpu m' = Prog (resumption (cpu m)) ∧ stack m' = stack m ∧ globals m' = globals m.
Proof.
  intros Hb Hret. pose proof Hb as (Hwf & Hsv & Hnd & Hcm & H3 & H4).
  assert (G : ∃ c, objects m !! a = Some c ∧ ∃ m', step m = Ok (Some m') ∧ stack m' = stack m ∧
     globals m' = globals m ∧ cpu m' = Prog (resumption (cpu m)) ∧
     (if end_ (ctx c) then objects m' = delete a (objects m) else objects m' = objects m)).
  { unfold wf_step in Hwf. unfold step.
    destruct Hret as [[k Hk]|[k Hk]]; rewrite Hk in Hwf |- *; destruct Hwf as ((c & Hc & _) & _);
      exists c; (split; [done|]); unfold after_swap, deref; rewrite Hc; cbn;
      destruct (end_ (ctx c)) eqn:He; (eexists; split; [done|]); by split_and!. }
  destruct G as (c & Hc & m' & Hst & Hs & Hg & Hcpu & Ho).
  exists m'. split; [done|]. split; [|by split_and!].
  assert (Hwf' : wf_step m') by (by eapply step_wf).
  destruct (end_ (ctx c)) eqn:He; [|by eapply base_same].
  pose proof (base_running m _ _ a c Hb Hc (or_intror He)) as N. rewrite elem_of_app in N.
  split_and!; try done.
  - intros b d. rewrite Ho. intros [_ Hd']%lookup_delete_Some. by apply (Hsv b).
  - intros b d s. rewrite Ho. intros [_ Hd']%lookup_delete_Some. by apply (Hcm b).
  - eapply waits_delete; [done|done|tauto].
  - eapply waits_delete; [done|done|tauto].
Qed.

(** Code that returns: the main function, or a coroutine. *)
Lemma base_ret_main m : cpu m = Prog Ret → on_stack m = false → step m = Ok None.
Proof.
  intros Hc Ho. unfold step. rewrite Hc. unfold on_stack in Ho. apply bool_decide_eq_false in Ho.
  destruct (stack m); [by exfalso; apply Ho|done].
Qed.

Lemma base_ret m cs ps :
  base m cs ps → cpu m = Prog Ret → on_stack m = true →
  ∃ m' a id, step m = Ok (Some m') ∧ base m' cs ps ∧ returns (cpu m') a id ∧
    client (on_stack m') (resumption (cpu m')) ∧ globals m' = globals m.
Proof.
  intros Hb Hc Ho. pose proof Hb as (Hwf & Hsv & _).
  destruct (base_current m cs ps Ret Hb Hc Ho) as (a & c & s & ch & Hs & Hcur & Ha & Hsw & Hret & He & Hx & _).
  destruct (Hsv a c Ha) as [Hd Hcl].
  assert (Hst : ∃ m', context_func a m = Ok m' ∧ m' = left m a c (mkCoroutine (origin c)
        (mkContext (Some (Prog Ret, Some a)) None None true) (cid c)) s (current m)).
  { eexists. split; [|reflexivity]. by apply context_func_end; [..|left]. }
  destruct Hst as (m' & Hst & ->).
  assert (Hst' : step m = Ok (Some (left m a c (mkCoroutine (origin c)
        (mkContext (Some (Prog Ret, Some a)) None None true) (cid c)) s (current m)))).
  { unfold step. by rewrite Hc, Hs, Hst. }
  eexists _, a, (cid c). split; [exact Hst'|]. split_and!.
  - eapply base_insert; [done|by eapply step_wf|done|by eapply base_running; [| |left]|by right|done|done].
  - exact Hret.
  - exact (Hcl _ _ Hsw).
  - done.
Qed.

Lemma base_create m cs ps fn k :
  base m cs ps → cpu m = Prog (Create fn k) → (∀ id, client (on_stack m) (k id)) →
  ∃ m', step m = Ok (Some m') ∧ base m' cs ps ∧ cpu m' = Prog fn ∧ on_stack m' = true ∧
    globals m' = globals m.
Proof.
  intros Hb Hc Hk. pose proof Hb as (Hwf & Hsv & _ & _ & H3 & H4).
  pose proof (base_wf m cs ps _ Hb Hc) as Hwfm.
  assert (Hf : objects m !! next_ptr m = None).
  { destruct (objects m !! next_ptr m) as [d|] eqn:E; [|done]. apply Hwfm in E. lia. }
  pose proof (create_inside m fn k Hc) as Hst.
  eexists. split; [exact Hst|]. split; [|done].
  eapply (base_insert m); [done|by eapply step_wf|reflexivity| |by left|done|].
  - rewrite elem_of_app. intros [Hi|Hi];
      [apply (not_waiting_fresh m P1 cs _ H3 Hf Hi)|apply (not_waiting_fresh m P2 ps _ H4 Hf Hi)].
  - intros s o [= <- <-]. apply Hk.
Qed.

(** [yield]: the running coroutine joins one of the lists. *)
Lemma base_yield m cs ps p :
  base m cs ps → cpu m = Prog (Yield p) → on_stack m = true →
  ∃ m' a id, step m = Ok (Some m') ∧ returns (cpu m') a id ∧
    client (on_stack m') (resumption (cpu m')) ∧ globals m' = globals m ∧ current_cid m id ∧
    (P1 (current m) id p → base m' (current m :: cs) ps) ∧
    (P2 (current m) id p → base m' cs (current m :: ps)).
Proof.
  intros Hb Hc Ho. pose proof Hb as (Hwf & Hsv & Hnd & Hcm & H3 & H4).
  destruct (base_current m cs ps _ Hb Hc Ho)
    as (a & c & s & ch & Hs & Hcur & Ha & Hsw & Hret & He & Hx & Hch & Hact).
  pose proof (base_running m _ _ a c Hb Ha (or_introl Hx)) as N.
  destruct (Hsv a c Ha) as [Hd Hcl]. set (m' := yielded m a c p s).
  assert (Hst : step m = Ok (Some m')) by (unfold step; rewrite Hc; by rewrite (yield_left m a c p s)).
  assert (Hwf' : wf_step m') by (by eapply step_wf).
  assert (Hw : ∀ P : option ptr → Z → prog U → Prop, P (Some a) (cid c) p → waits m' P (Some a)).
  { intros P HP. exists a. eexists. exists p. split_and!; [done|apply lookup_insert_eq|done|done|done]. }
  assert (Hsv' : saved_ok m').
  { intros b d. cbn. destruct (decide (a = b)) as [<-|Hab].
    - rewrite lookup_insert_eq. intros [= <-]. done.
    - rewrite lookup_insert_ne by done. apply Hsv. }
  assert (Hcm' : ∀ b d x, objects m' !! b = Some d → end_ (ctx d) = false → ctx_ (ctx d) = Some x →
    b = a ∨ Some b ∈ cs ++ ps).
  { intros b d x. cbn. destruct (decide (a = b)) as [<-|Hab]; [by left|].
    rewrite lookup_insert_ne by done. right. by eapply Hcm. }
  assert (Hnd' : NoDup (Some a :: cs ++ ps)) by (by apply NoDup_cons).
  rewrite elem_of_app in N. rewrite Hcur.
  exists m', a, (cid c). split; [done|]. split; [exact Hret|]. split; [exact (Hcl _ _ Hsw)|].
  split; [done|]. split; [by exists a, c|]. split; intros HP; (split_and!; [done|done| | | |]).
  - done.
  - intros b d x H1 H2 H5. destruct (Hcm' b d x H1 H2 H5) as [->|?]; [by left|by right].
  - apply Forall_cons_2; [by apply Hw|]. eapply waits_insert; [done|done|tauto].
  - eapply waits_insert; [done|done|tauto].
  - rewrite <- Permutation_middle. done.
  - intros b d x H1 H2 H5. rewrite <- Permutation_middle.
    destruct (Hcm' b d x H1 H2 H5) as [->|?]; [by left|by right].
  - eapply waits_insert; [done|done|tauto].
  - apply Forall_cons_2; [by apply Hw|]. eapply waits_insert; [done|done|tauto].
Qed.

(** [resume] of a waiting coroutine: it leaves the lists. *)
Lemma base_enter m cs ps cs' ps' P co p :
  base m cs ps → cpu m = Prog (Resume co p) → client (on_stack m) p → waits m P co →
  cs ++ ps ≡ₚ co :: cs' ++ ps' → Forall (waits m P1) cs' → Forall (waits m P2) ps' →
  ∃ m' w, step m = Ok (Some m') ∧ base m' cs' ps' ∧ (∃ id, P co id w) ∧ cpu m' = Prog w ∧
    on_stack m' = true ∧ globals m' = globals m.
Proof.
  intros Hb Hc Hp (a & c & w & -> & Ha & He & Hx & HP) Hperm H3' H4'.
  pose proof Hb as (Hwf & Hsv & Hnd & Hcm & H3 & H4). pose proof (base_wf m cs ps _ Hb Hc) as Hwfm.
  pose proof Hwfm as (Hstk & _).
  destruct (resume_spec m a p Hwfm) as (ch & Hch & Hsp). rewrite Ha in Hsp.
  assert (Hnc : current m ≠ Some a ∧ a ∉ ch).
  { split.
    - intros Hcur. destruct (wf_current m Hwfm) as [(_ & Hn & _)|(b & d & ch' & _ & Hb' & Hd & (Hx' & _) & _)];
        [congruence|]. assert (b = a) by congruence. subst b. congruence.
    - intros Hin. destruct (chain_lookup _ _ _ _ (proj1 Hch) Hin) as (d & Hd & (Hx' & _)). congruence. }
  rewrite !bool_decide_eq_false_2 in Hsp by apply Hnc.
  destruct Hsp as (q & Hq & Hres & _). rewrite Hx in Hq. injection Hq as <-.
  rewrite Hperm in Hnd. apply NoDup_cons in Hnd as [Hni Hnd].
  assert (Hst : step m = Ok (Some (entered m a c w (AfterResume a p)))).
  { unfold step. by rewrite Hc, Hres. }
  assert (Hwf' : wf_step (entered m a c w (AfterResume a p))) by (by eapply step_wf).
  rewrite elem_of_app in Hni.
  eexists _, w. split; [exact Hst|]. split; [|split; [by exists (cid c)|done]]. split_and!; [done| |done| | |].
  - intros b d. cbn. destruct (decide (a = b)) as [<-|Hab].
    + rewrite lookup_insert_eq. intros [= <-]. cbn. split; [by destruct (Hsv a c Ha)|].
      intros s o [= <- <-]. apply Hp.
    + rewrite lookup_insert_ne by done. apply Hsv.
  - intros b d s. cbn. destruct (decide (a = b)) as [<-|Hab].
    + rewrite lookup_insert_eq. by intros [= <-].
    + rewrite lookup_insert_ne by done. intros H1 H2 H5. pose proof (Hcm b d s H1 H2 H5) as H6.
      rewrite Hperm in H6. apply elem_of_cons in H6 as [H6|H6]; [congruence|done].
  - eapply waits_insert; [exact H3'|reflexivity|tauto].
  - eapply waits_insert; [exact H4'|reflexivity|tauto].
Qed.

Lemma base_wake1 m cs ps co p :
  base m (co :: cs) ps → cpu m = Prog (Resume co p) → client (on_stack m) p →
  ∃ m' w, step m = Ok (Some m') ∧ base m' cs ps ∧ (∃ id, P1 co id w) ∧ cpu m' = Prog w ∧
    on_stack m' = true ∧ globals m' = globals m.
Proof.
  intros Hb Hc Hp. pose proof Hb as (_ & _ & _ & _ & [H3 H3']%Forall_cons_1 & H4).
  by eapply base_enter.
Qed.

Lemma base_wake2 m cs ps co p :
  base m cs (co :: ps) → cpu m = Prog (Resume co p) → client (on_stack m) p →
  ∃ m' w, step m = Ok (Some m') ∧ base m' cs ps ∧ (∃ id, P2 co id w) ∧ cpu m' = Prog w ∧
    on_stack m' = true ∧ globals m' = globals m.
Proof.
  intros Hb Hc Hp. pose proof Hb as (_ & _ & _ & _ & H3 & [H4 H4']%Forall_cons_1).
  eapply base_enter; [done..| |done|done]. symmetry. apply Permutation_middle.
Qed.

(** The same by id. *)
Lemma waits_get_by_cid m cs ps P a p :
  base m cs ps → cpu m = Prog p → waits m P (Some a) →
  ∃ id w, get_by_cid id m = Some a ∧ P (Some a) id w ∧
    (∀ id' b, get_by_cid id' m = Some b → b = a → id' = id) ∧ 1 ≤ id ≤ last_cid m.
Proof.
  intros Hb Hc (b & c & w & [= <-] & Ha & _ & _ & HP).
  pose proof (base_wf m cs ps p Hb Hc) as (_ & _ & _ & Hr1 & Hr2).
  exists (cid c), w. split_and!.
  - apply Hr1. eauto.
  - done.
  - intros id' b Hb' ->. apply Hr1 in Hb' as (d & Hd & <-). congruence.
  - by apply (Hr2 a c).
  - by apply (Hr2 a c).
Qed.

Lemma step_resume_cid m id a p :
  cpu m = Prog (ResumeCid id p) → get_by_cid id m = Some a →
  step m = step (set_cpu (Prog (Resume (Some a) p)) m).
Proof.
  intros Hc Hg. unfold step at 1. rewrite Hc. unfold resume_cid. rewrite Hg. done.
Qed.

(** What the CPU is about to execute does not matter. *)
Lemma base_set_cpu m cs ps p q :
  base m cs ps → cpu m = Prog p → base (set_cpu (Prog q) m) cs ps.
Proof.
  intros Hb Hc. eapply base_same; [done| |done]. eapply wf_prog; [done|].
  apply wf_set_cpu. by eapply base_wf.
Qed.

Lemma base_set_globals m cs ps u : base m cs ps → base (set_globals u m) cs ps.
Proof.
  intros Hb. eapply base_same; [done| |done]. destruct Hb as (Hwf & _).
  unfold wf_step, after_swap, deref, left_behind in *. cbn [cpu set_globals].
  destruct (cpu m) as [p|a id k|a k]; [exact Hwf| |]; destruct Hwf as (Hl & m' & Hm' & Hw);
    (split; [exact Hl|]); cbn [objects set_globals]; destruct (objects m !! a) as [c|]; try discriminate Hm';
    cbn in Hm' |- *; destruct (end_ (ctx c)); eexists; (split; [reflexivity|]);
    injection Hm' as <-; exact Hw.
Qed.

Lemma boot_base p (u : U) : base (boot p u) [] [].
Proof.
  split_and!; [apply boot_wf| |constructor| |constructor|constructor].
  - intros a c Hc. cbn in Hc. by rewrite lookup_empty in Hc.
  - intros a c s Hc. cbn in Hc. by rewrite lookup_empty in Hc.
Qed.
End waiters.

(** The lists may be described differently. *)
Lemma base_mono {U} client (P1 P2 Q1 Q2 : option ptr → Z → prog U → Prop) m cs ps :
  base client P1 P2 m cs ps →
  (∀ co id p, co ∈ cs → P1 co id p → Q1 co id p) → (∀ co id p, co ∈ ps → P2 co id p → Q2 co id p) →
  base client Q1 Q2 m cs ps.
Proof.
  intros (H1 & H2 & H3 & H4 & H5 & H6) HP HQ. rewrite Forall_forall in H5.
  rewrite Forall_forall in H6. split_and!; try done; apply Forall_forall; intros co Hco.
  - destruct (H5 co Hco) as (a & c & p & Ha & Hc & He & Hx & Hp). exists a, c, p. split_and!; auto.
  - destruct (H6 co Hco) as (a & c & p & Ha & Hc & He & Hx & Hp). exists a, c, p. split_and!; auto.
Qed.

(** ** What steps do to the rest of the machine *)
Section step_frame.
Import Sched SchedInv.
Context {U : Type}.
Implicit Types (m : machine U).

(** The rest of the state and the counter of ids are as before. *)
Definition calm m m' : Prop := globals m' = globals m ∧ last_cid m' = last_cid m.

Lemma swap_in_calm a r m m' : swap_in a r m = Ok m' → calm m m'.
Proof.
  unfold swap_in, deref. destruct (objects m !! a) as [c|]; [|done].
  rewrite outcome_bind_ok. destruct (ctx_ (ctx c)); [|done]. by intros [= <-].
Qed.

Lemma swap_out_calm a r m m' : swap_out a r m = Ok m' → calm m m'.
Proof.
  unfold swap_out, deref. destruct (objects m !! a) as [c|]; [|done].
  rewrite outcome_bind_ok. destruct (swap_ctx_ (ctx c)); [|done]. by intros [= <-].
Qed.

Lemma resume_calm co k m m' : resume co k m = Ok m' → calm m m'.
Proof.
  unfold resume. intros E. apply outcome_bind_inv in E as ([b c] & _ & E).
  unfold _resume in E. case_bool_decide; [done|]. unfold deref in E.
  destruct (objects m !! b) as [d|]; [|done]. rewrite outcome_bind_ok in E.
  by apply swap_in_calm in E.
Qed.

Lemma after_swap_calm a r m m' : after_swap a r m = Ok m' → calm m m'.
Proof.
  unfold after_swap, deref. destruct (objects m !! a) as [c|]; [|done].
  rewrite outcome_bind_ok. by destruct (end_ (ctx c)); intros [= <-].
Qed.

Lemma step_effect m m' :
  step m = Ok (Some m') →
  calm m m' ∨
  (∃ f, cpu m = Prog (Act f) ∧ last_cid m' = last_cid m) ∨
  (∃ fn k, cpu m = Prog (Create fn k) ∧ globals m' = globals m ∧ last_cid m' = last_cid m + 1).
Proof.
  assert (Hsome : ∀ r : outcome (machine U), Some <$> r = Ok (Some m') → r = Ok m').
  { intros [x| |] E; [by injection E as ->|discriminate E..]. }
  unfold step. intros H. destruct (cpu m) as [[|f|fn k|co k|id k|k|k|co k|fn k]|a id k|a k];
    try apply Hsome in H.
  - left. destruct (stack m) as [a|]; [|done]. apply Hsome in H. unfold context_func, deref in H.
    destruct (objects m !! a) as [c|]; [|done]. rewrite outcome_bind_ok in H. cbv beta iota zeta in H.
    destruct (defer_tasks (ctx c)) as [[|t ts]|]; [by apply swap_out_calm in H| |by apply swap_out_calm in H].
    by injection H as <-.
  - right; left. exists f. split; [done|]. destruct (f (globals m)) as [[u q]| |]; [|done..].
    by injection H as <-.
  - right; right. exists fn, k. split; [done|]. unfold create, new_coroutine, run, deref in H.
    cbv beta iota zeta in H. cbn [objects] in H. rewrite lookup_insert_eq, outcome_bind_ok in H.
    by apply swap_in_calm in H.
  - left. by eapply resume_calm.
  - left. by eapply resume_calm.
  - left. unfold yield, deref in H. destruct (current m) as [a|]; [|done].
    destruct (objects m !! a) as [c|]; [|done]. rewrite outcome_bind_ok in H. by apply swap_out_calm in H.
  - left. by injection H as <-.
  - left. by destruct (get_cid_inv m co k m' H) as (c & _ & ->).
  - left. unfold defer, deref in H. destruct (current m) as [a|]; [|done].
    destruct (objects m !! a) as [c|]; [|done]. rewrite outcome_bind_ok in H. by injection H as <-.
  - left. by eapply after_swap_calm.
  - left. by eapply after_swap_calm.
Qed.

Lemma step_globals m m' :
  step m = Ok (Some m') → (∀ f, cpu m ≠ Prog (Act f)) → globals m' = globals m.
Proof.
  intros H Hf. destruct (step_effect m m' H) as [[Hg _]|[(f & Hc & _)|(fn & k & _ & Hg & _)]]; [done| |done].
  by destruct (Hf f).
Qed.

Lemma step_last_cid m m' : step m = Ok (Some m') → last_cid m ≤ last_cid m'.
Proof.
  intros H. destruct (step_effect m m' H) as [[_ Hl]|[(f & _ & Hl)|(fn & k & _ & _ & Hl)]]; lia.
Qed.
End step_frame.
