(* ===== verification/Sleep.v ===== *)
(** * Sleep: waiting with a timer (src/coroutine/coroutine.cc, include/help.h)

    The parts of the process state the scheduler's clients share, and
    [Coroutine::sleep]. A component that lives in the global state [U] of the
    scheduler's machine is reached through [Part]; what two components promise
    each other is [Apart]. *)

From S2P Require Import Prelude Words Timer Coroutine.
From Stdlib Require Import QArith_base.
#[local] Open Scope Z_scope.

(** ** Parts of the global state *)
Class Part (T U : Type) := {
  view : U → T;
  set_view : T → U → U;
  view_set t u : view (set_view t u) = t
}.

(** Writing the part [T] does not change the part [T']. *)
Class Apart (T T' U : Type) `{!Part T U} `{!Part T' U} :=
  apart (t : T) (u : U) : view (T := T') (set_view t u) = view (T := T') u.

(** ** Time *)

(** The callbacks the library passes to [add_timer]: the [sleep_timeout] of
    coroutine.cc and its copy in channel.cc, whose argument is a
    [Coroutine *]. *)
Inductive timer_func := sleep_timeout.
Abbreviation co_timer := (Timer timer_func (option ptr)).

(** What the clock reads now, and the timers of the event loop. *)
Record time_state (TQ : Type) := mkTime { clock : Z; timers : TQ }.
Arguments mkTime {TQ} _ _.
Arguments clock {TQ} _.
Arguments timers {TQ} _.

(** [seconds * Timer::SECOND] as an [int64_t]: a [double] is modelled by the
    rational it stands for, the conversion truncates and is undefined out of
    range. *)
Definition to_msec (seconds : Q) : outcome Z :=
  let ms := Z.quot (Qnum seconds * SECOND) (Zpos (Qden seconds)) in
  if (- 2 ^ 63 <=? ms) && (ms <? 2 ^ 63) then Ok ms else UB.

(** [timeout > 0] on a [double] *)
Definition positive_time (seconds : Q) : bool := 0 <? Qnum seconds.

Section sleep.
Context {U TQ : Type} `{!PQueue co_timer CompareTimerPointer TQ} `{!Part (time_state TQ) U}.

(** [FE(timer_manager).add_timer(seconds * Timer::SECOND, sleep_timeout, co)] *)
Definition add_co_timer (seconds : Q) (co : option ptr) (u : U) : outcome U :=
  let t : time_state TQ := view u in
  ms ← to_msec seconds;
  Ok (set_view (mkTime (clock t) (TimerManager.add_timer (clock t) ms sleep_timeout co (timers t))) u).

(** [Coroutine::sleep]; it always returns 0. *)
Definition sleep (seconds : Q) (k : Z → prog U) : prog U :=
  GetCurrent (λ co, Act (λ u, u ← add_co_timer seconds co u; Ok (u, Yield (k 0)))).

(** What firing a timer runs: [t->callback(t->private_data)]. *)
Definition fire_timer (t : co_timer) (k : prog U) : prog U :=
  match callback t with sleep_timeout => Resume (private_data t) k end.

End sleep.
