(* ===== verification/Channel.v ===== *)
(** * Channel (include/coroutine_channel.h, src/coroutine/channel.cc)

    A queue of pointers with a capacity between coroutines. Its operations are
    programs of the scheduler's machine: they read [current], wait with
    [yield], and resume a coroutine that waits on the other side. *)

From S2P Require Import Prelude Words Timer Coroutine Waiters Sleep.
From stdpp Require Import gmap.
From Stdlib Require Import QArith_base.
#[local] Open Scope Z_scope.

(** [closed] is never read. The queues of waiters hold [Coroutine *]. *)
Record channel (V : Type) := mkChannel {
  capacity : Z;
  producer_queue : list (option ptr);
  consumer_queue : list (option ptr);
  data_queue : list V
}.
Arguments mkChannel {V} _ _ _ _.
Arguments capacity {V} _.
Arguments producer_queue {V} _.
Arguments consumer_queue {V} _.
Arguments data_queue {V} _.

Module Channel.
Section channel.
Context {U V TQ : Type} `{!PQueue co_timer CompareTimerPointer TQ}.
Context `{!Part (channel V) U} `{!Part (time_state TQ) U}.

Definition make (_capacity : Z) : channel V := mkChannel _capacity [] [] [].

Definition set_producers q (ch : channel V) : channel V := mkChannel (capacity ch) q (consumer_queue ch) (data_queue ch).
Definition set_consumers q (ch : channel V) : channel V := mkChannel (capacity ch) (producer_queue ch) q (data_queue ch).
Definition set_data (q : list V) (ch : channel V) : channel V := mkChannel (capacity ch) (producer_queue ch) (consumer_queue ch) q.

(** [if (timeout > 0) add_timer(...)] *)
Definition arm (timeout : Q) (co : option ptr) (u : U) : outcome U :=
  if positive_time timeout then add_co_timer timeout co u else Ok u.

(** [pop] after the wait: [None] is the null pointer it returns when it was
    woken with nothing to take. *)
Definition pop_data (k : option V → prog U) : prog U :=
  Act (λ u, let ch : channel V := view u in
    match data_queue ch with
    | [] => Ok (u, k None)
    | data :: d =>
        let ch := set_data d ch in
        match producer_queue ch with
        | [] => Ok (set_view ch u, k (Some data))
        | co :: q => Ok (set_view (set_producers q ch) u, Resume co (k (Some data)))
        end
    end).

(** [pop] once it has read [current] *)
Definition pop_start (timeout : Q) (k : option V → prog U) (co : option ptr) : prog U :=
  Act (λ u, match data_queue (view (T := channel V) u) with
    | [] =>
        u ← arm timeout co u;
        let ch : channel V := view u in
        Ok (set_view (set_consumers (consumer_queue ch ++ [co]) ch) u, Yield (pop_data k))
    | _ => Ok (u, pop_data k)
    end).

Definition pop (timeout : Q) (k : option V → prog U) : prog U := GetCurrent (pop_start timeout k).

Definition full (ch : channel V) : bool := zlen (data_queue ch) =? capacity ch.

(** [push] after the wait *)
Definition push_data (data : V) (k : bool → prog U) : prog U :=
  Act (λ u, let ch : channel V := view u in
    if full ch then Ok (u, k false)
    else
      let ch := set_data (data_queue ch ++ [data]) ch in
      match consumer_queue ch with
      | [] => Ok (set_view ch u, k true)
      | co :: q => Ok (set_view (set_consumers q ch) u, Resume co (k true))
      end).

(** [push] once it has read [current] *)
Definition push_start (data : V) (timeout : Q) (k : bool → prog U) (co : option ptr) : prog U :=
  Act (λ u,
    if full (view u) then
      u ← arm timeout co u;
      let ch : channel V := view u in
      Ok (set_view (set_producers (producer_queue ch ++ [co]) ch) u, Yield (push_data data k))
    else Ok (u, push_data data k)).

Definition push (data : V) (timeout : Q) (k : bool → prog U) : prog U :=
  GetCurrent (push_start data timeout k).

End channel.
End Channel.

(** ** Clients without timeouts

    [client b p]: a program that uses coroutines only through the channel,
    never waits with a timeout, and, outside coroutines ([b] is [false]), only
    creates them. Nothing is asked of what it does after a [pop] that returns
    the null pointer or a [push] that returns [false]. *)
Module ChannelFacts.
Import Sched SchedInv Channel.
Section channel_facts.
Context {U V TQ : Type} `{!PQueue co_timer CompareTimerPointer TQ}.
Context `{!Part (channel V) U} `{!Part (time_state TQ) U}.
Implicit Types (m : machine U) (c : Coroutine U) (p : prog U) (u : U).

Inductive client : bool → prog U → Prop :=
| client_ret b : client b Ret
| client_act b f :
    (∀ u, defined (f u) = true) →
    (∀ u u' p, f u = Ok (u', p) → view (T := channel V) u' = view u ∧ client b p) →
    client b (Act f)
| client_create b fn k : client true fn → (∀ id, client b (k id)) → client b (Create fn k)
| client_pop timeout (k : option V → prog U) :
    positive_time timeout = false → (∀ v, client true (k (Some v))) → client true (pop timeout k)
| client_push v timeout k :
    positive_time timeout = false → client true (k true) → client true (push v timeout k).

(** What a coroutine in a queue of waiters is suspended in. *)
Definition in_pop (_ : option ptr) (_ : Z) p : Prop := ∃ k, p = pop_data k ∧ ∀ v : V, client true (k (Some v)).
Definition in_push (_ : option ptr) (_ : Z) p : Prop := ∃ (v : V) k, p = push_data v k ∧ client true (k true).

(** The state of the channel when no operation is in progress: waiters wait
    for a reason. *)
Definition quiet (ch : channel V) : Prop :=
  (consumer_queue ch ≠ [] → data_queue ch = []) ∧
  (producer_queue ch ≠ [] → zlen (data_queue ch) = capacity ch) ∧
  zlen (data_queue ch) ≤ capacity ch ∧ 1 ≤ capacity ch.

(** A [pop] is about to take, a [push] about to put. *)
Definition pop_ready (ch : channel V) : Prop :=
  (∃ v d, data_queue ch = v :: d ∧
    (consumer_queue ch ≠ [] → d = [] ∧ producer_queue ch = []) ∧
    (producer_queue ch ≠ [] → zlen (v :: d) = capacity ch)) ∧
  zlen (data_queue ch) ≤ capacity ch ∧ 1 ≤ capacity ch.

Definition push_ready (ch : channel V) : Prop :=
  (producer_queue ch ≠ [] → zlen (data_queue ch) = capacity ch - 1 ∧ consumer_queue ch = []) ∧
  (consumer_queue ch ≠ [] → data_queue ch = []) ∧
  zlen (data_queue ch) < capacity ch.

Inductive doing m (ch : channel V) : list (option ptr) → list (option ptr) → Prop :=
| doing_client p :
    cpu m = Prog p → client (on_stack m) p → quiet ch →
    doing m ch (consumer_queue ch) (producer_queue ch)
| doing_return a id :
    returns (cpu m) a id → client (on_stack m) (resumption (cpu m)) → quiet ch →
    doing m ch (consumer_queue ch) (producer_queue ch)
| doing_pop timeout k co :
    cpu m = Prog (pop_start timeout k co) → co = current m → on_stack m = true →
    positive_time timeout = false → (∀ v : V, client true (k (Some v))) → quiet ch →
    doing m ch (consumer_queue ch) (producer_queue ch)
| doing_push v timeout k co :
    cpu m = Prog (push_start v timeout k co) → co = current m → on_stack m = true →
    positive_time timeout = false → client true (k true) → quiet ch →
    doing m ch (consumer_queue ch) (producer_queue ch)
| doing_pop_wait k cs :
    cpu m = Prog (Yield (pop_data k)) → on_stack m = true →
    (∀ v : V, client true (k (Some v))) → quiet ch → consumer_queue ch = cs ++ [current m] →
    doing m ch cs (producer_queue ch)
| doing_push_wait v k ps :
    cpu m = Prog (Yield (push_data v k)) → on_stack m = true →
    client true (k true) → quiet ch → producer_queue ch = ps ++ [current m] →
    doing m ch (consumer_queue ch) ps
| doing_take k :
    cpu m = Prog (pop_data k) → on_stack m = true → (∀ v : V, client true (k (Some v))) →
    pop_ready ch → doing m ch (consumer_queue ch) (producer_queue ch)
| doing_put v k :
    cpu m = Prog (push_data v k) → on_stack m = true → client true (k true) →
    push_ready ch → doing m ch (consumer_queue ch) (producer_queue ch)
| doing_wake_consumer co p :
    cpu m = Prog (Resume co p) → on_stack m = true → client true p → pop_ready ch →
    doing m ch (co :: consumer_queue ch) (producer_queue ch)
| doing_wake_producer co p :
    cpu m = Prog (Resume co p) → on_stack m = true → client true p → push_ready ch →
    doing m ch (consumer_queue ch) (co :: producer_queue ch).

Abbreviation chan_base := (base client in_pop in_push).

Definition chan_inv m : Prop := ∃ cs ps, chan_base m cs ps ∧ doing m (view (globals m)) cs ps.

Lemma zlen_snoc {A} (x : A) l : zlen (l ++ [x]) = zlen l + 1.
Proof. by rewrite zlen_app, zlen_cons, zlen_nil. Qed.

(** ** One lemma for each thing the CPU can be doing *)

Definition chan_step m : Prop := ∃ r, step m = Ok r ∧ ∀ m', r = Some m' → chan_inv m'.

Lemma chan_step_to m m' cs ps :
  step m = Ok (Some m') → chan_base m' cs ps → doing m' (view (globals m')) cs ps → chan_step m.
Proof. intros H Hb Hd. exists (Some m'). split; [done|]. intros ? [= <-]. by exists cs, ps. Qed.

Lemma chan_step_act m cs ps f u q :
  chan_base m cs ps → cpu m = Prog (Act f) → f (globals m) = Ok (u, q) →
  (∀ m', cpu m' = Prog q → on_stack m' = on_stack m → current m' = current m →
     doing m' (view u) cs ps) →
  chan_step m.
Proof.
  intros Hb Hc Hf G. destruct (base_act _ _ _ m cs ps f u q Hb Hc Hf) as (m' & Hst & Hb' & Hc' & Hs & Hcur & _ & Hg).
  eapply chan_step_to; [done..|]. rewrite Hg. apply G; [done| |done]. unfold on_stack. by rewrite Hs.
Qed.

Section one_step.
Variables (m : machine U) (cs ps : list (option ptr)) (ch : channel V).
Hypotheses (Hb : chan_base m cs ps) (Hch : view (globals m) = ch).

Lemma step_return a id :
  returns (cpu m) a id → client (on_stack m) (resumption (cpu m)) →
  quiet ch → consumer_queue ch = cs → producer_queue ch = ps → chan_step m.
Proof.
  intros Hret Hcl Hq E1 E2.
  destruct (base_return _ _ _ m cs ps a id Hb Hret) as (m' & Hst & Hb' & Hc' & Hs & Hg).
  eapply chan_step_to; [done..|]. rewrite Hg, Hch, <- E1, <- E2. eapply doing_client; [done| |done].
  unfold on_stack in *. by rewrite Hs.
Qed.

Lemma step_client p :
  cpu m = Prog p → client (on_stack m) p →
  quiet ch → consumer_queue ch = cs → producer_queue ch = ps → chan_step m.
Proof.
  intros Hc Hcl Hq E1 E2.
  remember (on_stack m) as b eqn:Eb. destruct Hcl as [b|b f Hdef Hf|b fn k Hfn Hk|t k Ht Hk|v t k Ht Hk].
  - destruct b.
    + destruct (base_ret _ _ _ m cs ps Hb Hc (eq_sym Eb)) as (m' & a & id & Hst & Hb' & Hret & Hcl & Hg).
      eapply chan_step_to; [done..|]. rewrite Hg, Hch, <- E1, <- E2. by eapply doing_return.
    + exists None. split; [|done]. by apply base_ret_main.
  - specialize (Hdef (globals m)). destruct (f (globals m)) as [[u q]| |] eqn:E; try discriminate Hdef.
    destruct (Hf _ _ _ E) as [Ev Hcl]. eapply chan_step_act; [done..|].
    intros m' Hc' Hs' _. rewrite Ev, Hch, <- E1, <- E2. eapply doing_client; [done| |done].
    by rewrite Hs', <- Eb.
  - subst b. destruct (base_create _ _ _ m cs ps fn k Hb Hc Hk) as (m' & Hst & Hb' & Hc' & Hs & Hg).
    eapply chan_step_to; [done..|]. rewrite Hg, Hch, <- E1, <- E2. eapply doing_client; [done| |done].
    by rewrite Hs.
  - destruct (base_get_current _ _ _ m cs ps _ Hb Hc) as (m' & Hst & Hb' & Hc' & Hs & Hcur & _ & Hg).
    eapply chan_step_to; [done..|]. rewrite Hg, Hch, <- E1, <- E2.
    eapply doing_pop; [done|done| |done..]. unfold on_stack in *. by rewrite Hs.
  - destruct (base_get_current _ _ _ m cs ps _ Hb Hc) as (m' & Hst & Hb' & Hc' & Hs & Hcur & _ & Hg).
    eapply chan_step_to; [done..|]. rewrite Hg, Hch, <- E1, <- E2.
    eapply doing_push; [done|done| |done..]. unfold on_stack in *. by rewrite Hs.
Qed.

Lemma step_pop_start timeout k :
  cpu m = Prog (pop_start timeout k (current m)) → on_stack m = true →
  positive_time timeout = false → (∀ v : V, client true (k (Some v))) →
  quiet ch → consumer_queue ch = cs → producer_queue ch = ps → chan_step m.
Proof.
  intros Hc Ho Ht Hk (Q1 & Q2 & Q3 & Q4) E1 E2. destruct (data_queue ch) as [|v d] eqn:Ed.
  - eapply chan_step_act; [done..| |].
    + cbv beta. rewrite Hch, Ed. unfold arm. rewrite Ht. cbn. rewrite Hch. reflexivity.
    + intros m' Hc' Hs' Hcur'. rewrite view_set, <- E1, <- E2.
      apply (doing_pop_wait m' (set_consumers (consumer_queue ch ++ [current m]) ch) k);
        [done|by rewrite Hs'|done| |by rewrite Hcur'].
      by split_and!; cbn; rewrite ?Ed.
  - eapply chan_step_act; [done..|cbv beta; by rewrite Hch, Ed|].
    intros m' Hc' Hs' _. rewrite Hch, <- E1, <- E2. eapply doing_take; [done|by rewrite Hs'|done|].
    split; [|by rewrite Ed]. exists v, d. split_and!; [done| |done]. intros Hne. by specialize (Q1 Hne).
Qed.

Lemma step_push_start v timeout k :
  cpu m = Prog (push_start v timeout k (current m)) → on_stack m = true →
  positive_time timeout = false → client true (k true) →
  quiet ch → consumer_queue ch = cs → producer_queue ch = ps → chan_step m.
Proof.
  intros Hc Ho Ht Hk (Q1 & Q2 & Q3 & Q4) E1 E2. destruct (full ch) eqn:Ef.
  - eapply chan_step_act; [done..| |].
    + cbv beta. rewrite Hch, Ef. unfold arm. rewrite Ht. cbn. rewrite Hch. reflexivity.
    + intros m' Hc' Hs' Hcur'. rewrite view_set, <- E1, <- E2.
      apply (doing_push_wait m' (set_producers (producer_queue ch ++ [current m]) ch) v k);
        [done|by rewrite Hs'|done| |cbn; by rewrite Hcur'].
      unfold full in Ef. zify_bools. by split_and!; cbn.
  - eapply chan_step_act; [done..|cbv beta; by rewrite Hch, Ef|].
    intros m' Hc' Hs' _. rewrite Hch, <- E1, <- E2. eapply doing_put; [done|by rewrite Hs'|done|].
    unfold full in Ef. zify_bools. split_and!; [intros Hne; by specialize (Q2 Hne)|done|lia].
Qed.

Lemma step_wait p :
  cpu m = Prog (Yield p) → on_stack m = true → quiet ch →
  ((∀ co id, in_pop co id p) ∧ consumer_queue ch = cs ++ [current m] ∧ producer_queue ch = ps ∨
   (∀ co id, in_push co id p) ∧ consumer_queue ch = cs ∧ producer_queue ch = ps ++ [current m]) →
  chan_step m.
Proof.
  intros Hc Ho Hq Hcase.
  destruct (base_yield _ _ _ m cs ps p Hb Hc Ho) as (m' & a & id & Hst & Hret & Hcl & Hg & _ & H1 & H2).
  eapply (chan_step_to m m' (consumer_queue ch) (producer_queue ch)); [done| |].
  - destruct Hcase as [(Hp & -> & ->)|(Hp & -> & ->)].
    + eapply base_perm; [apply Permutation_cons_append|done|by apply H1].
    + eapply base_perm; [done|apply Permutation_cons_append|by apply H2].
  - rewrite Hg, Hch. by eapply doing_return.
Qed.

(** The woken side, or one that need not wait, takes or puts; the other side is
    notified. *)
Lemma step_take k :
  cpu m = Prog (pop_data k) → on_stack m = true → (∀ v : V, client true (k (Some v))) →
  pop_ready ch → consumer_queue ch = cs → producer_queue ch = ps → chan_step m.
Proof.
  intros Hc Ho Hk ((v & d & Ed & P1 & P2) & P3 & P4) E1 E2. rewrite Ed, zlen_cons in P3.
  destruct (producer_queue ch) as [|co q] eqn:Ep.
  - eapply chan_step_act; [done..|cbv beta zeta; rewrite Hch, Ed; cbn; by rewrite Ep|].
    intros m' Hc' Hs' _. rewrite view_set, <- E1, <- E2, <- Ep.
    apply (doing_client m' (set_data d ch) (k (Some v))); [done|by rewrite Hs', Ho|].
    split_and!; cbn; [by intros Hne; destruct (P1 Hne)|by rewrite Ep|lia|done].
  - eapply chan_step_act; [done..|cbv beta zeta; rewrite Hch, Ed; cbn; by rewrite Ep|].
    intros m' Hc' Hs' _. rewrite view_set, <- E1, <- E2.
    apply (doing_wake_producer m' (set_producers q (set_data d ch)) co (k (Some v)));
      [done|by rewrite Hs'|apply Hk|].
    assert (Hne : consumer_queue ch = []) by (destruct (consumer_queue ch); [done|by destruct P1]).
    assert (Hcap : zlen (v :: d) = capacity ch) by (by apply P2).
    rewrite zlen_cons in Hcap. split_and!; cbn; [intros _; split; [lia|done]|by rewrite Hne|lia].
Qed.

Lemma step_put v k :
  cpu m = Prog (push_data v k) → on_stack m = true → client true (k true) →
  push_ready ch → consumer_queue ch = cs → producer_queue ch = ps → chan_step m.
Proof.
  intros Hc Ho Hk (P1 & P2 & P3) E1 E2.
  assert (Hf : full ch = false) by (unfold full; apply Z.eqb_neq; lia).
  pose proof (zlen_nonneg (data_queue ch)) as Hn.
  destruct (consumer_queue ch) as [|co q] eqn:Ec.
  - eapply chan_step_act; [done..|cbv beta zeta; rewrite Hch, Hf; cbn; by rewrite Ec|].
    intros m' Hc' Hs' _. rewrite view_set, <- E1, <- E2, <- Ec.
    apply (doing_client m' (set_data (data_queue ch ++ [v]) ch) (k true)); [done|by rewrite Hs', Ho|].
    split_and!; cbn; rewrite ?zlen_snoc; [by rewrite Ec| |lia|lia].
    intros Hne. destruct (P1 Hne). lia.
  - eapply chan_step_act; [done..|cbv beta zeta; rewrite Hch, Hf; cbn; by rewrite Ec|].
    intros m' Hc' Hs' _. rewrite view_set, <- E1, <- E2.
    apply (doing_wake_consumer m' (set_consumers q (set_data (data_queue ch ++ [v]) ch)) co (k true));
      [done|by rewrite Hs'|done|].
    assert (Ed : data_queue ch = []) by (by apply P2).
    assert (Ep : producer_queue ch = []) by (destruct (producer_queue ch); [done|by destruct P1]).
    rewrite Ed in P3. change (zlen []) with 0 in P3.
    split_and!; cbn; rewrite ?Ed; [|change (1 ≤ capacity ch); lia|lia].
    exists v, []. split_and!; [done|done|by rewrite Ep].
Qed.
End one_step.

Lemma chan_inv_step m : chan_inv m → chan_step m.
Proof.
  intros (cs & ps & Hb & Hdo).
  inversion Hdo as [p Hc Hcl Hq|a id Hret Hcl Hq|t k co Hc -> Ho Ht Hk Hq|v t k co Hc -> Ho Ht Hk Hq
    |k cs0 Hc Ho Hk Hq Ec|v k ps0 Hc Ho Hk Hq Ep|k Hc Ho Hk Hr|v k Hc Ho Hk Hr
    |co p Hc Ho Hp Hr|co p Hc Ho Hp Hr]; clear Hdo; subst.
  - by eapply step_client.
  - by eapply step_return.
  - by eapply step_pop_start.
  - by eapply step_push_start.
  - eapply step_wait; [done..|]. left. split_and!; [by exists k|done|done].
  - eapply step_wait; [done..|]. right. split_and!; [by exists v, k|done|done].
  - by eapply step_take.
  - by eapply step_put.
  - rewrite <- Ho in Hp.
    destruct (base_wake1 _ _ _ m _ _ co p Hb Hc Hp) as (m' & w & Hst & Hb' & (id & k & -> & Hk) & Hc' & Ho' & Hg).
    eapply chan_step_to; [done..|]. rewrite Hg. by eapply doing_take.
  - rewrite <- Ho in Hp.
    destruct (base_wake2 _ _ _ m _ _ co p Hb Hc Hp) as (m' & w & Hst & Hb' & (id & v & k & -> & Hk) & Hc' & Ho' & Hg).
    eapply chan_step_to; [done..|]. rewrite Hg. by eapply doing_put.
Qed.

Lemma boot_chan_inv p u cap :
  client false p → view u = make cap → 1 ≤ cap → chan_inv (boot p u).
Proof.
  intros Hp Hv Hcap. exists [], []. split; [apply boot_base|].
  cbn [boot globals]. rewrite Hv. apply (doing_client _ (make cap) p); [done|done|].
  split_and!; [done|done| |done]. change (0 ≤ cap). lia.
Qed.

Lemma reachable_chan_inv p u cap m :
  client false p → view u = make cap → 1 ≤ cap → reachable (boot p u) m → chan_inv m.
Proof.
  intros Hp Hv Hcap Hr. induction Hr as [|m m' _ IH Hst]; [by eapply boot_chan_inv|].
  destruct (chan_inv_step m IH) as (r & Hr & H). rewrite Hst in Hr. injection Hr as <-. by apply H.
Qed.

(** A client that has come to a return leaves the channel quiet. *)
Lemma chan_inv_ret m : chan_inv m → cpu m = Prog Ret → quiet (view (globals m)).
Proof.
  intros (cs & ps & _ & Hdo) Hc.
  inversion Hdo as [p Hc' Hcl Hq|a id Hret Hcl Hq| | | | | | | |]; try done;
    match goal with H : cpu m = Prog ?q |- _ => rewrite Hc in H; discriminate H end.
Qed.

(** ** The order of the data *)

(** [p] acts on [u] alone, makes it [u'] and goes on with [q], perhaps after it
    has resumed a coroutine. *)
Definition goes_on p u u' q : Prop :=
  ∃ f p', p = Act f ∧ f u = Ok (u', p') ∧ (p' = q ∨ ∃ co, p' = Resume co q).

(** On [u], [pop] returns [v], whoever called it; [push] takes [v]. *)
Definition pop_returns u (v : V) u' : Prop := ∀ k, goes_on (pop_data k) u u' (k (Some v)).
Definition push_takes u (v : V) u' : Prop := ∀ k, goes_on (push_data v k) u u' (k true).

(** What the step from [m] to [m'] hands over: the datum a [push] takes from its
    caller, the datum a [pop] returns to its caller, or nothing. *)
Inductive handover m m' : list V → list V → Prop :=
| handover_push v k :
    cpu m = Prog (push_data v k) → push_takes (globals m) v (globals m') → handover m m' [v] []
| handover_pop k v :
    cpu m = Prog (pop_data k) → pop_returns (globals m) v (globals m') → handover m m' [] [v]
| handover_none :
    (∀ v k, cpu m = Prog (push_data v k) → ¬ push_takes (globals m) v (globals m')) →
    (∀ k v, cpu m = Prog (pop_data k) → ¬ pop_returns (globals m) v (globals m')) →
    handover m m' [] [].

(** A caller that shows in the state what it got. *)
Definition show (o : option V) : prog U :=
  Act (λ u, Ok (set_view (mkChannel 0 [] [] (option_list o)) u, Ret)).

Lemma show_inj u o1 o2 : show o1 = show o2 → option_list o1 = option_list o2.
Proof.
  intros [= E]. apply (f_equal (λ f, f u)) in E. injection E as E.
  apply (f_equal (λ u, data_queue (view (T := channel V) u))) in E. by rewrite !view_set in E.
Qed.

Lemma pop_returns_data u v u' :
  pop_returns u v u' → data_queue (view u) = v :: data_queue (view (T := channel V) u').
Proof.
  intros Hk. destruct (Hk show) as (f & p & [= <-] & Hf & Hp). cbv zeta in Hf.
  destruct (data_queue (view u)) as [|x d] eqn:E.
  - injection Hf as <- <-. destruct Hp as [Hp|[co Hp]]; [|done]. by apply (show_inj u) in Hp.
  - destruct (producer_queue _) as [|co q]; injection Hf as <- <-; rewrite view_set; cbn.
    + destruct Hp as [Hp|[co Hp]]; [|done]. apply (show_inj u) in Hp. by injection Hp as <-.
    + destruct Hp as [Hp|[co' Hp]]; [done|]. assert (Hp' : show (Some x) = show (Some v)) by congruence.
      apply (show_inj u) in Hp'. by injection Hp' as <-.
Qed.

Lemma push_takes_data u v u' :
  push_takes u v u' → data_queue (view (T := channel V) u') = data_queue (view u) ++ [v].
Proof.
  intros Hk. destruct (Hk (λ b : bool, show (if b then Some v else None))) as (f & p & [= <-] & Hf & Hp).
  cbv zeta in Hf. destruct (full (view u)).
  - injection Hf as <- <-. destruct Hp as [Hp|[co Hp]]; [|done]. by apply (show_inj u) in Hp.
  - destruct (consumer_queue _) as [|co q]; injection Hf as <- _; by rewrite view_set.
Qed.

(** What a step may do to the queue of data. *)
Inductive queue_step (cap : Z) (d : list V) : list V → list V → list V → Prop :=
| queue_keep : queue_step cap d d [] []
| queue_put v : zlen d < cap → queue_step cap d (d ++ [v]) [v] []
| queue_take v d' : d = v :: d' → queue_step cap d d' [] [v].

Definition data m : list V := data_queue (view (globals m)).
Definition cap_of m : Z := capacity (view (T := channel V) (globals m)).

Lemma step_act m m' f :
  cpu m = Prog (Act f) → step m = Ok (Some m') →
  ∃ q, f (globals m) = Ok (globals m', q).
Proof.
  unfold step. intros ->. destruct (f (globals m)) as [[u q]| |]; [|done..].
  intros [= <-]. by exists q.
Qed.

Lemma handover_keep m m' : data m' = data m → handover m m' [] [].
Proof.
  unfold data. intros E. apply handover_none.
  - intros v k _ H%push_takes_data. rewrite E in H. apply (f_equal length) in H.
    rewrite length_app in H. cbn [length] in H. lia.
  - intros k v _ H%pop_returns_data. rewrite E in H. apply (f_equal length) in H. cbn [length] in H. lia.
Qed.

Lemma chan_queue_step m m' :
  chan_inv m → step m = Ok (Some m') →
  cap_of m' = cap_of m ∧ ∃ ins outs, handover m m' ins outs ∧ queue_step (cap_of m) (data m) (data m') ins outs.
Proof.
  intros (cs & ps & Hb & Hdo) Hst.
  assert (Hkeep2 : data m' = data m → cap_of m' = cap_of m →
    cap_of m' = cap_of m ∧ ∃ ins outs, handover m m' ins outs ∧ queue_step (cap_of m) (data m) (data m') ins outs).
  { intros Ed Ec. split; [done|]. exists [], []. split; [by apply handover_keep|]. rewrite Ed. constructor. }
  assert (Hkeep : view (T := channel V) (globals m') = view (globals m) →
    cap_of m' = cap_of m ∧ ∃ ins outs, handover m m' ins outs ∧ queue_step (cap_of m) (data m) (data m') ins outs).
  { intros E. apply Hkeep2; [unfold data|unfold cap_of]; by rewrite E. }
  assert (Hsame : (∀ f, cpu m ≠ Prog (Act f)) → view (T := channel V) (globals m') = view (globals m)).
  { intros Hf. by rewrite (step_globals m m' Hst Hf). }
  inversion Hdo as [p Hc Hcl Hq|a id Hret Hcl Hq|t k co Hc Hco Ho Ht Hk Hq|v t k co Hc Hco Ho Ht Hk Hq
    |k cs0 Hc Ho Hk Hq Ec|v k ps0 Hc Ho Hk Hq Ep|k Hc Ho Hk Hr|v k Hc Ho Hk Hr
    |co p Hc Ho Hp Hr|co p Hc Ho Hp Hr]; clear Hdo.
  - apply Hkeep. inversion Hcl as [b|b f Hdef Hf|b fn k Hfn Hk|t k Ht Hk|v t k Ht Hk]; subst;
      try (apply Hsame; intros f' E; unfold pop, push in Hc; congruence).
    destruct (step_act m m' f Hc Hst) as (q & Hq'). by destruct (Hf _ _ _ Hq').
  - apply Hkeep, Hsame. intros f E. destruct Hret as [[? Hret]|[? Hret]]; congruence.
  - destruct (step_act m m' _ Hc Hst) as (q & Hq'). unfold arm in Hq'. rewrite Ht in Hq'.
    destruct (data_queue (view (T := channel V) (globals m))) as [|v d] eqn:Ed;
      injection Hq' as Hg _; [|apply Hkeep; by rewrite Hg].
    apply Hkeep2; unfold data, cap_of; by rewrite <- Hg, view_set.
  - destruct (step_act m m' _ Hc Hst) as (q & Hq'). unfold arm in Hq'. rewrite Ht in Hq'.
    destruct (full (view (T := channel V) (globals m))) eqn:Ed;
      injection Hq' as Hg _; [|apply Hkeep; by rewrite Hg].
    apply Hkeep2; unfold data, cap_of; by rewrite <- Hg, view_set.
  - apply Hkeep, Hsame. intros f E. congruence.
  - apply Hkeep, Hsame. intros f E. congruence.
  - destruct Hr as ((v & d & Ed & _) & _). destruct (step_act m m' _ Hc Hst) as (q & Hq').
    cbv zeta in Hq'. rewrite Ed in Hq'.
    assert (G : view (T := channel V) (globals m') = set_data d (view (globals m)) ∨
      ∃ ps, view (T := channel V) (globals m') = set_producers ps (set_data d (view (globals m)))).
    { destruct (producer_queue _); injection Hq' as Hg _; rewrite <- Hg, view_set; eauto. }
    assert (Hret : pop_returns (globals m) v (globals m')).
    { intros k'. cbn [producer_queue set_data] in Hq'.
      destruct (producer_queue (view (T := channel V) (globals m))) as [|co ps'] eqn:Ep; injection Hq' as Hg _;
        rewrite <- Hg; eexists _, _; (split; [reflexivity|]); cbv beta zeta; rewrite Ed; cbn [producer_queue set_data];
        rewrite Ep; (split; [reflexivity|]); eauto. }
    unfold cap_of, data. destruct G as [->|[ps' ->]]; (split; [done|]); exists [], [v];
      (split; [by eapply handover_pop|by constructor]).
  - destruct Hr as (_ & _ & Hlt). destruct (step_act m m' _ Hc Hst) as (q & Hq').
    cbv zeta in Hq'. assert (Hf : full (view (T := channel V) (globals m)) = false)
      by (unfold full; apply Z.eqb_neq; lia). rewrite Hf in Hq'.
    assert (G : view (T := channel V) (globals m') = set_data (data m ++ [v]) (view (globals m)) ∨
      ∃ cs, view (T := channel V) (globals m') = set_consumers cs (set_data (data m ++ [v]) (view (globals m)))).
    { destruct (consumer_queue _); injection Hq' as Hg _; rewrite <- Hg, view_set; eauto. }
    assert (Hput : push_takes (globals m) v (globals m')).
    { intros k'. cbn [consumer_queue set_data] in Hq'.
      destruct (consumer_queue (view (T := channel V) (globals m))) as [|co cs'] eqn:Ep; injection Hq' as Hg _;
        rewrite <- Hg; eexists _, _; (split; [reflexivity|]); cbv beta zeta; rewrite Hf; cbn [consumer_queue set_data];
        rewrite Ep; (split; [reflexivity|]); eauto. }
    unfold cap_of, data at 2. destruct G as [->|[cs' ->]]; (split; [done|]); exists [v], [];
      (split; [by eapply handover_push|by constructor]).
  - apply Hkeep, Hsame. intros f E. congruence.
  - apply Hkeep, Hsame. intros f E. congruence.
Qed.

(** An execution with the data that [push] took from its callers and those that
    [pop] returned to its. *)
Inductive traced m0 : list V → list V → machine U → Prop :=
| traced_start : traced m0 [] [] m0
| traced_step puts takes m m' ins outs :
    traced m0 puts takes m → step m = Ok (Some m') →
    handover m m' ins outs →
    traced m0 (puts ++ ins) (takes ++ outs) m'.
End channel_facts.
End ChannelFacts.

(** ** Properties *)
Section channel_properties.
Import Sched Channel ChannelFacts.
Context {U V TQ : Type} `{!PQueue co_timer CompareTimerPointer TQ}.
Context `{!Part (channel V) U} `{!Part (time_state TQ) U}.
Implicit Types (m : machine U) (p : prog U) (u : U).

(** C32: coroutines that communicate through a channel and never wait with a
    timeout never go wrong: no step of any execution is undefined or stopped by
    an assertion, whatever the number of coroutines and the interleaving. The
    clients may rely on [pop] never returning the null pointer and on [push]
    never returning [false]: what they do in that case is not restricted. *)
Theorem channel_clients_never_fail p u cap m :
  client false p → view u = make (V := V) cap → 1 ≤ cap → reachable (boot p u) m →
  ∃ r, step m = Ok r.
Proof.
  intros Hp Hv Hcap Hr. destruct (chan_inv_step m) as (r & H & _); [|by exists r].
  by eapply reachable_chan_inv.
Qed.

(** C16: the channel is a bounded queue. In every execution the data that [push]
    took from its callers are, in order, the data that [pop] returned to its
    callers, followed by what the channel holds, and it never holds more than
    its capacity. *)
Theorem channel_fifo p u cap m :
  client false p → view u = make (V := V) cap → 1 ≤ cap → reachable (boot p u) m →
  ∃ puts takes, traced (V := V) (boot p u) puts takes m ∧ puts = takes ++ data m ∧ zlen (data m) ≤ cap.
Proof.
  intros Hp Hv Hcap Hr.
  assert (G : cap_of (V := V) m = cap ∧
    ∃ puts takes, traced (V := V) (boot p u) puts takes m ∧ puts = takes ++ data m ∧ zlen (data m) ≤ cap).
  { induction Hr as [|m m' Hr (Hc & puts & takes & Ht & He & Hl) Hst].
    - unfold cap_of, data. cbn [boot globals]. rewrite Hv. split; [done|].
      exists [], []. split_and!; [constructor|done|change (0 ≤ cap); lia].
    - assert (Hinv : chan_inv (V := V) m) by (by eapply reachable_chan_inv).
      destruct (chan_queue_step m m' Hinv Hst) as (Hc' & ins & outs & Hho & Hq).
      split; [congruence|]. exists (puts ++ ins), (takes ++ outs).
      split; [by eapply traced_step|]. subst puts. revert Hl.
      destruct Hq as [|v Hlt|v d' Ed]; intros Hl; rewrite ?app_nil_r.
      + done.
      + rewrite <- app_assoc, zlen_snoc. split; [done|lia].
      + rewrite Ed in Hl |- *. rewrite zlen_cons in Hl. rewrite <- app_assoc. split; [done|lia]. }
  apply G.
Qed.

End channel_properties.

(** ** Example: two consumers and a producer that logs what it is told *)
Module ChannelExample.
Import Sched Channel ChannelFacts.

Record world := mkWorld {
  chan : channel Z;
  time : time_state (sorted_timers timer_func (option ptr));
  output : list Z
}.

#[global] Instance chan_part : Part (channel Z) world := {|
  view := chan; set_view c u := mkWorld c (time u) (output u); view_set _ _ := eq_refl |}.
#[global] Instance time_part : Part (time_state (sorted_timers timer_func (option ptr))) world := {|
  view := time; set_view t u := mkWorld (chan u) t (output u); view_set _ _ := eq_refl |}.

Definition no_timeout : Q := Qmake (-1) 1.

Definition emit (x : Z) (k : prog world) : prog world :=
  Act (λ u, Ok (mkWorld (chan u) (time u) (output u ++ [x]), k)).

(** The program behind a null pointer or [false] is never run: it is an
    undefined step here. *)
Definition crash : prog world := Act (λ _, UB).

Definition consumer : prog world :=
  pop no_timeout (λ v : option Z, match v with Some x => emit x Ret | None => crash end).

Definition producer : prog world :=
  push 1 no_timeout (λ b, if b : bool then
  push 2 no_timeout (λ b, if b : bool then
  push 3 no_timeout (λ b, if b : bool then
  push 4 no_timeout (λ b, if b : bool then emit 9 Ret else crash) else crash) else crash) else crash).

Definition example : prog world :=
  Create consumer (λ _, Create consumer (λ _, Create producer (λ _, Ret))).

Definition start : world := mkWorld (make 1) (mkTime 0 pq_empty) [].

Lemma emit_client x k b : client (V := Z) b k → client (V := Z) b (emit x k).
Proof. intros H. apply client_act; [done|]. intros u u' p [= <- <-]. by split. Qed.

Lemma example_client : client (V := Z) false example.
Proof.
  assert (Hc : client (V := Z) true consumer).
  { apply client_pop; [done|]. intros v. apply emit_client. constructor. }
  repeat (apply client_create; [assumption|intros _]). apply client_create; [|constructor].
  repeat (apply client_push; [done|]). apply emit_client. constructor.
Qed.

End ChannelExample.

Lemma channel_clients_never_fail_witness :
  ∃ r, Sched.step (at_step 30 ChannelExample.example ChannelExample.start) = Ok r.
Proof.
  apply (channel_clients_never_fail (V := Z) (TQ := sorted_timers timer_func (option ptr)) ChannelExample.example ChannelExample.start 1);
    [exact ChannelExample.example_client|reflexivity|lia|apply at_step_reachable].
Defined.

Lemma channel_fifo_witness :
  ∃ puts takes, ChannelFacts.traced (V := Z) (Sched.boot ChannelExample.example ChannelExample.start) puts takes
    (at_step 60 ChannelExample.example ChannelExample.start) ∧
    puts = takes ++ ChannelFacts.data (V := Z) (at_step 60 ChannelExample.example ChannelExample.start) ∧
    ChannelFacts.data (V := Z) (at_step 60 ChannelExample.example ChannelExample.start) = [3].
Proof.
  assert (E : ChannelFacts.data (V := Z) (at_step 60 ChannelExample.example ChannelExample.start) = [3])
    by (vm_compute; reflexivity).
  destruct (channel_fifo (V := Z) (TQ := sorted_timers timer_func (option ptr)) ChannelExample.example ChannelExample.start 1
    (at_step 60 ChannelExample.example ChannelExample.start)) as (puts & takes & H1 & H2 & _);
    [exact ChannelExample.example_client|reflexivity|lia|apply at_step_reachable|].
  exists puts, takes. split; [exact H1|]. split; [exact H2|exact E].
Defined.


(** ** Timeouts *)
Module TimeoutExample.
Import Sched Channel ChannelExample.

(** A coroutine that waits for one millisecond in [pop] and ends; the main
    stack fires the timer as the event loop does, then another coroutine
    pushes. *)
Definition one_msec : Q := Qmake 1 1000.

Definition late_push : prog world :=
  Create (pop one_msec (λ _ : option Z, Ret)) (λ _,
    Act (λ u, match pq_top (timers (time u)) with
              | Some t => Ok (mkWorld (chan u) (mkTime (clock (time u) + 1) (pq_pop (timers (time u)))) (output u),
                              fire_timer t (Create (push 7 no_timeout (λ _, Ret)) (λ _, Ret)))
              | None => Ok (u, Ret)
              end)).
End TimeoutExample.

(** A [pop] that times out leaves its coroutine in the queue of consumers.
    When that coroutine has ended, the next [push] takes it from the queue and
    resumes it: a use of a deleted object. *)
Theorem channel_timeout_dangles :
  ∃ n m k, Sched.steps n (Sched.boot TimeoutExample.late_push ChannelExample.start) = Ok m ∧
    cpu m = Prog (Resume (Some 1%positive) k) ∧ objects m !! 1%positive = None ∧ Sched.step m = UB.
Proof.
  exists 14%nat. eexists _, _. split; [vm_compute; reflexivity|].
  split; [reflexivity|]. split; [vm_compute; reflexivity|]. vm_compute. reflexivity.
Qed.
