(* ===== verification/Event.v ===== *)
(** * Event: the event loop (include/event.h, src/core/event.cc)

    [epoll] is the kernel's: [Epoll] is what its manual promises of the three
    calls the library makes. The loop runs on the main stack of the scheduler's
    machine; [loop_step] is one transition of the process once the main
    function has started, where the environment chooses which reports
    [epoll_wait] makes and when the clock advances. *)

From S2P Require Import Prelude Words Timer Coroutine Waiters Sleep.
From stdpp Require Import gmap.
From Stdlib Require Import QArith_base.
#[local] Open Scope Z_scope.

(** ** The kernel *)

(** [struct epoll_event]: [events], [data.u64]. *)
Record epoll_event := mkEpollEvent { ev_events : Z; ev_u64 : Z }.
#[global] Instance epoll_event_eq_dec : EqDecision epoll_event.
Proof. solve_decision. Defined.

Definition EPOLLIN : Z := 1.
Definition EPOLLOUT : Z := 4.

(** A kernel [K] with its interest list as ghost state. [epoll_add] and
    [epoll_del] are [epoll_ctl] ([None] is a negative result);
    [epoll_report k n evs] says that a call of [epoll_wait] with room for [n]
    events can return [evs]. *)
Class Epoll (K : Type) := {
  epoll_add : Z → epoll_event → K → option K;
  epoll_del : Z → K → option K;
  epoll_report : K → Z → list epoll_event → Prop;
  interest : K → gmap Z epoll_event;
  epoll_add_spec fd ev k k' :
    epoll_add fd ev k = Some k' → interest k !! fd = None ∧ interest k' = <[fd := ev]> (interest k);
  epoll_del_spec fd k ev :
    interest k !! fd = Some ev → ∃ k', epoll_del fd k = Some k' ∧ interest k' = delete fd (interest k);
  epoll_report_spec k n evs :
    epoll_report k n evs → zlen evs ≤ n ∧
    ∃ fds, NoDup fds ∧
      Forall2 (λ fd ev, ∃ ev0, interest k !! fd = Some ev0 ∧ ev_u64 ev0 = ev_u64 ev) fds evs
}.

(** ** The event loop's data *)

Definition FSW_EPOLL_CAP : Z := 16.

Record Poll := mkPoll {
  epollfd : Z;
  ncap : Z;
  event_num : Z;
  events : list epoll_event
}.

(** [handle_timer] and [handle_io] are the defaults [register_handler]
    installs, the timer manager is [time_state]. *)
Record Event := mkEvent { running : Z; poll : option Poll; num : Z }.

Definition set_event_num (n : Z) (p : Poll) : Poll := mkPoll (epollfd p) (ncap p) n (events p).
Definition set_events (evs : list epoll_event) (p : Poll) : Poll :=
  mkPoll (epollfd p) (ncap p) (event_num p) evs.
Definition set_poll (p : option Poll) (e : Event) : Event := mkEvent (running e) p (num e).

Module EventLoop.

(** [Event::init_Poll], for the result of [epoll_create(256)]. *)
Definition init_Poll (epfd : Z) (e : Event) : bool * Event :=
  if epfd <? 0 then (false, set_poll None e)
  else (true, set_poll (Some (mkPoll epfd FSW_EPOLL_CAP 0
                (replicate (Z.to_nat FSW_EPOLL_CAP) (mkEpollEvent 0 0)))) e).

(** [Event::Event]; [e0] is what the memory holds. *)
Definition make (epfd : Z) (e0 : Event) : Event :=
  let '(_, e) := init_Poll epfd e0 in mkEvent 1 (poll e) (num e).

(** [Event::free_Poll] and [Event::~Event]: closing may fail, only the log
    says so. *)
Definition free_Poll (e : Event) : outcome (bool * Event) :=
  match poll e with
  | None => UB
  | Some _ => Ok (true, set_poll None e)
  end.
Definition destroy (e : Event) : outcome Event :=
  let e := mkEvent 0 (poll e) (num e) in snd <$> free_Poll e.

Section event_loop.
Context {U K TQ : Type} `{!PQueue co_timer CompareTimerPointer TQ} `{!Epoll K}.
Context `{!Part Event U} `{!Part (time_state TQ) U} `{!Part K U}.

(** The head of the loop of [Event::wait]: [None] is the return, [Some t] the
    call of [epoll_wait] with the timeout [t], an [int]. *)
Definition wait_head (u : U) : outcome (option Z * U) :=
  let e : Event := view u in
  if 0 <? running e then
    let t : time_state TQ := view u in
    let timeout := TimerManager.get_next_timeout (clock t) (timers t) in
    match poll e with
    | None => if timeout <? 0 then UB else Ok (Some (i32 timeout), u)
    | Some p =>
        if (timeout <? 0) && (event_num p =? 0) then Ok (None, set_view (mkEvent 0 (poll e) (num e)) u)
        else Ok (Some (i32 timeout), u)
    end
  else Ok (None, u).

(** What [epoll_wait] leaves: the events at the start of the array and their
    number, or -1. *)
Definition epoll_result (r : option (list epoll_event)) (u : U) : outcome U :=
  let e : Event := view u in
  match poll e with
  | None => UB
  | Some p =>
      match r with
      | None => Ok (set_view (mkEvent (running e) (poll e) (-1)) u)
      | Some evs =>
          Ok (set_view (mkEvent (running e)
            (Some (set_events (evs ++ drop (length evs) (events p)) p)) (zlen evs)) u)
      end
  end.

(** An iteration of the loop of [default_handle_io]: the id to resume. *)
Definition handle_io_next (i : Z) (u : U) : outcome (option Z) :=
  let e : Event := view u in
  if i <? num e then
    match poll e with
    | None => UB
    | Some p =>
        match events p !! Z.to_nat i with
        | None => UB
        | Some ev => let '(fd, cid) := Help.fromuint64 (ev_u64 ev) in Ok (Some cid)
        end
    end
  else Ok None.

(** An iteration of the loop of [run_timers] for the time [now]. *)
Definition run_timers_next (now : Z) (u : U) : option (co_timer * U) :=
  let t : time_state TQ := view u in
  match pq_top (timers t) with
  | None => None
  | Some x => if now <? exec_msec x then None else Some (x, set_view (mkTime (clock t) (pq_pop (timers t))) u)
  end.

(** Where the main stack is, below the code the CPU executes. *)
Inductive phase :=
| InMain                 (** in the main function, before [FE(wait())] *)
| InWait                 (** in [wait], at the head of the loop *)
| InIo (i : Z)           (** in [default_handle_io], at iteration [i] *)
| InTimers (now : Z)     (** in [run_timers] *)
| Returned.              (** [wait] has returned *)

Record loop := mkLoop { mach : machine U; ph : phase }.

(** The main stack is executing one of the functions above. *)
Definition at_rest (m : machine U) : Prop := cpu m = Prog Ret ∧ stack m = None.

Definition with_globals (u : U) (m : machine U) : machine U := Sched.set_globals u m.

(** The main stack calls [p]. *)
Definition call (p : prog U) (m : machine U) : machine U := Sched.set_cpu (Prog p) m.

Inductive loop_step : loop → outcome loop → Prop :=
| step_code m ph r :
    ¬ at_rest m → Sched.step m = r →
    loop_step (mkLoop m ph)
      (match r with Ok (Some m') => Ok (mkLoop m' ph) | Ok None | UB => UB | Exit => Exit end)
| step_clock m ph (t : time_state TQ) t' :
    t = view (globals m) →
    loop_step (mkLoop m ph) (Ok (mkLoop (with_globals (set_view (mkTime t' (timers t)) (globals m)) m) ph))
| step_wait m :
    at_rest m → loop_step (mkLoop m InMain) (Ok (mkLoop m InWait))
| step_return m u :
    at_rest m → wait_head (globals m) = Ok (None, u) →
    loop_step (mkLoop m InWait) (Ok (mkLoop (with_globals u m) Returned))
| step_wait_fails m :
    at_rest m → wait_head (globals m) = UB → loop_step (mkLoop m InWait) UB
| step_epoll m timeout u r k' :
    at_rest m → wait_head (globals m) = Ok (Some timeout, u) →
    k' = view u →
    (∀ evs, r = Some evs → ∀ p, poll (view u) = Some p → epoll_report (K := K) k' (ncap p) evs) →
    loop_step (mkLoop m InWait)
      (match epoll_result r u with Ok u' => Ok (mkLoop (with_globals u' m) (InIo 0)) | _ => UB end)
| step_io m i cid :
    at_rest m → handle_io_next i (globals m) = Ok (Some cid) →
    loop_step (mkLoop m (InIo i)) (Ok (mkLoop (call (ResumeCid cid Ret) m) (InIo (i + 1))))
| step_io_end m i (t : time_state TQ) :
    at_rest m → handle_io_next i (globals m) = Ok None → t = view (globals m) →
    loop_step (mkLoop m (InIo i)) (Ok (mkLoop m (InTimers (clock t))))
| step_io_fails m i :
    at_rest m → handle_io_next i (globals m) = UB → loop_step (mkLoop m (InIo i)) UB
| step_timer m now x u :
    at_rest m → run_timers_next now (globals m) = Some (x, u) →
    loop_step (mkLoop m (InTimers now)) (Ok (mkLoop (call (fire_timer x Ret) (with_globals u m)) (InTimers now)))
| step_timers_end m now :
    at_rest m → run_timers_next now (globals m) = None →
    loop_step (mkLoop m (InTimers now)) (Ok (mkLoop m InWait)).

(** [coroutine::run(fn)] of coroutine.h: the loop is made, [fn] is started,
    the loop is entered. *)
Definition run (fn : prog U) (u : U) : loop :=
  mkLoop (Sched.boot (Create fn (λ _, Ret)) u) InMain.

Inductive loop_reachable (l0 : loop) : loop → Prop :=
| loop_start : loop_reachable l0 l0
| loop_next l l' : loop_reachable l0 l → loop_step l (Ok l') → loop_reachable l0 l'.

(** [coroutine::Socket::wait_event] up to the [yield], [fd] being the socket's
    descriptor: the first slot of the event array is its scratch space. *)
Definition add_event (fd : Z) (write : bool) (id : Z) (u : U) : outcome (bool * U) :=
  let e : Event := view u in
  match poll e with
  | None => Exit
  | Some p =>
      let ev := mkEpollEvent (if write then EPOLLOUT else EPOLLIN) (Help.touint64 fd (i32 id)) in
      match events p with
      | [] => UB
      | _ :: evs =>
          let u := set_view (set_poll (Some (set_events (ev :: evs) p)) e) u in
          match epoll_add fd ev (view (T := K) u) with
          | None => Ok (false, u)
          | Some k =>
              let u := set_view k u in
              Ok (true, set_view (set_poll (Some (set_event_num (event_num p + 1) (set_events (ev :: evs) p))) e) u)
          end
      end
  end.

(** ... and after it *)
Definition remove_event (fd : Z) (u : U) : outcome (bool * U) :=
  match epoll_del fd (view (T := K) u) with
  | None => Ok (false, u)
  | Some k =>
      let u := set_view k u in
      let e : Event := view u in
      match poll e with
      | None => UB
      | Some p => Ok (true, set_view (set_poll (Some (set_event_num (event_num p - 1) p)) e) u)
      end
  end.

Definition after_wait (fd : Z) (k : bool → prog U) : prog U :=
  Act (λ u, '(ok, u) ← remove_event fd u; Ok (u, k ok)).

Definition before_wait (fd : Z) (write : bool) (k : bool → prog U) (id : Z) : prog U :=
  Act (λ u, '(ok, u) ← add_event fd write id u;
    if ok : bool then Ok (u, Yield (after_wait fd k)) else Ok (u, k false)).

Definition wait_event (fd : Z) (write : bool) (k : bool → prog U) : prog U :=
  GetCurrent (λ co, GetCid co (before_wait fd write k)).

End event_loop.
End EventLoop.

(** ** Clients of the loop

    Coroutines that wait only with [sleep] and [wait_event], and touch neither
    the loop's data nor the kernel's. *)
Module EventFacts.
Import Sched SchedInv EventLoop.
Section event_facts.
Context {U K TQ : Type} `{!PQueue co_timer CompareTimerPointer TQ} `{!Epoll K}.
Context `{!Part Event U} `{!Part (time_state TQ) U} `{!Part K U}.
Context `{!Apart Event (time_state TQ) U} `{!Apart Event K U}.
Context `{!Apart (time_state TQ) Event U} `{!Apart (time_state TQ) K U}.
Context `{!Apart K Event U} `{!Apart K (time_state TQ) U}.
Implicit Types (m : machine U) (p : prog U) (u : U).

Abbreviation ev_of u := (view (T := Event) u).
Abbreviation time_of u := (view (T := time_state TQ) u).
Abbreviation kern_of u := (view (T := K) u).

(** [strict]: every step of the program itself is defined, whatever the state. *)
Inductive tame (strict : bool) : bool → prog U → Prop :=
| tame_ret b : tame strict b Ret
| tame_act b f :
    (strict = true → ∀ u, defined (f u) = true) →
    (∀ u u' p, f u = Ok (u', p) →
       ev_of u' = ev_of u ∧ time_of u' = time_of u ∧ kern_of u' = kern_of u ∧ tame strict b p) →
    tame strict b (Act f)
| tame_create b fn k : tame strict true fn → (∀ id, tame strict b (k id)) → tame strict b (Create fn k)
| tame_sleep seconds ms k : to_msec seconds = Ok ms → tame strict true (k 0) → tame strict true (sleep seconds k)
| tame_wait fd write k :
    0 ≤ fd < 2 ^ 31 → (∀ ok, tame strict true (k ok)) → tame strict true (wait_event fd write k).

Definition client : bool → prog U → Prop := tame true.

Lemma client_ret b : client b Ret.
Proof. constructor. Qed.
Lemma client_act b f :
  (∀ u, defined (f u) = true) →
  (∀ u u' p, f u = Ok (u', p) →
     ev_of u' = ev_of u ∧ time_of u' = time_of u ∧ kern_of u' = kern_of u ∧ client b p) → client b (Act f).
Proof. intros H. by apply tame_act. Qed.
Lemma client_create b fn k : client true fn → (∀ id, client b (k id)) → client b (Create fn k).
Proof. apply tame_create. Qed.
Lemma client_sleep seconds ms k : to_msec seconds = Ok ms → client true (k 0) → client true (sleep seconds k).
Proof. apply tame_sleep. Qed.
Lemma client_wait fd write k :
  0 ≤ fd < 2 ^ 31 → (∀ ok, client true (k ok)) → client true (wait_event fd write k).
Proof. apply tame_wait. Qed.

(** The CPU's next step is undefined or ends the process. *)
Definition faulty m : Prop := ∃ f, cpu m = Prog (Act f) ∧ defined (f (globals m)) = false.

Context {strict : bool}.
Implicit Types (b : bool).

(** A coroutine that waits for a descriptor: the descriptor, the coroutine,
    its id. *)
Definition io : Type := Z * ptr * Z.
Implicit Types (ios regs pend : list io) (cs ts : list (option ptr)).
Definition io_fd (x : io) : Z := x.1.1.
Definition io_co (x : io) : option ptr := Some x.1.2.
Definition io_id (x : io) : Z := x.2.

Definition in_sleep (_ : option ptr) (_ : Z) p : Prop := tame strict true p.
Definition in_wait ios (co : option ptr) (id : Z) p : Prop :=
  ∃ fd a k, co = Some a ∧ (fd, a, id) ∈ ios ∧ p = after_wait fd k ∧ ∀ ok, tame strict true (k ok).

(** The kernel's interest list is [regs]. *)
Definition registered regs (k : K) : Prop :=
  NoDup (io_fd <$> regs) ∧
  (∀ x, x ∈ regs → 0 ≤ io_fd x < 2 ^ 31 ∧ is_Some (interest k !! io_fd x)) ∧
  (∀ fd ev, interest k !! fd = Some ev → ∃ a id, (fd, a, id) ∈ regs ∧ ev_u64 ev = Help.touint64 fd (i32 id)).

(** The part of the loop's data that the coroutines do not change: all but the
    first event, [num] and [running]. *)
Definition fixed_part u : option (list epoll_event) * Z * Z :=
  (tail ∘ events <$> poll (ev_of u), num (ev_of u), running (ev_of u)).

(** The loop's data, for the coroutines [ts] that own a timer. *)
Definition loop_data u regs ts : Prop :=
  registered regs (kern_of u) ∧
  private_data <$> pq_elems (timers (time_of u)) ≡ₚ ts ∧
  ∃ pl, poll (ev_of u) = Some pl ∧ length (events pl) = 16%nat ∧ ncap pl = 16 ∧ event_num pl = zlen regs.

(** What the CPU is doing, for the waiters [cs] and [ios], to the data. *)
Inductive edoing m pend : list (option ptr) → list io → list (option ptr) → list io → Prop :=
| edoing_client cs ios p :
    cpu m = Prog p → tame strict (on_stack m) p → edoing m pend cs ios cs ios
| edoing_return cs ios a id :
    returns (cpu m) a id → tame strict (on_stack m) (resumption (cpu m)) → edoing m pend cs ios cs ios
| edoing_sleep cs ios seconds ms k :
    cpu m = Prog (Act (λ u, u ← add_co_timer seconds (current m) u; Ok (u, Yield (k 0)))) →
    to_msec seconds = Ok ms → tame strict true (k 0) → on_stack m = true → edoing m pend cs ios cs ios
| edoing_sleep_yield cs ios p :
    cpu m = Prog (Yield p) → tame strict true p → on_stack m = true →
    edoing m pend cs ios (current m :: cs) ios
| edoing_get_cid cs ios fd write k :
    cpu m = Prog (GetCid (current m) (before_wait fd write k)) →
    0 ≤ fd < 2 ^ 31 → (∀ ok, tame strict true (k ok)) → on_stack m = true → edoing m pend cs ios cs ios
| edoing_wait cs ios fd write k id :
    cpu m = Prog (before_wait fd write k id) → current_cid m id →
    0 ≤ fd < 2 ^ 31 → (∀ ok, tame strict true (k ok)) → on_stack m = true → edoing m pend cs ios cs ios
| edoing_wait_yield cs ios fd a id k :
    cpu m = Prog (Yield (after_wait fd k)) → current m = Some a → current_cid m id →
    (∀ ok, tame strict true (k ok)) → on_stack m = true → edoing m pend cs ios cs ((fd, a, id) :: ios)
| edoing_woken cs ios fd a id k :
    cpu m = Prog (after_wait fd k) → (∀ ok, tame strict true (k ok)) → on_stack m = true →
    edoing m pend cs ios cs ((fd, a, id) :: ios)
| edoing_wake_sleeper cs ios co :
    cpu m = Prog (Resume co Ret) → on_stack m = false → edoing m pend (co :: cs) ios cs ios
| edoing_wake_io cs ios fd a id :
    cpu m = Prog (ResumeCid id Ret) → (fd, a, id) ∈ ios → (fd, a, id) ∉ pend → on_stack m = false →
    edoing m pend cs ios cs ios.

(** The invariant; [pend] are the waiters whose events the loop has still to
    handle. *)
Abbreviation ev_base ios := (base (tame strict) in_sleep (in_wait ios)).

Definition minv m pend : Prop :=
  ∃ cs ios ts regs,
    ev_base ios m cs (io_co <$> ios) ∧ edoing m pend cs ios ts regs ∧
    loop_data (globals m) regs ts ∧ (∀ x, x ∈ pend → x ∈ ios).

Definition estep m pend : Prop :=
  (strict = false ∧ faulty m) ∨
  ∃ r, step m = Ok r ∧ ∀ m', r = Some m' →
    minv m' pend ∧ fixed_part (globals m') = fixed_part (globals m).

(** ** The clients' operations on the data *)

Ltac parts :=
  repeat first
    [ rewrite (apart (T := Event) (T' := time_state TQ)) | rewrite (apart (T := Event) (T' := K))
    | rewrite (apart (T := time_state TQ) (T' := Event)) | rewrite (apart (T := time_state TQ) (T' := K))
    | rewrite (apart (T := K) (T' := Event)) | rewrite (apart (T := K) (T' := time_state TQ))
    | rewrite (view_set (T := Event)) | rewrite (view_set (T := time_state TQ))
    | rewrite (view_set (T := K)) ].

Lemma add_timer_data u seconds ms co regs ts :
  loop_data u regs ts → to_msec seconds = Ok ms →
  ∃ u', add_co_timer seconds co u = Ok u' ∧ loop_data u' regs (co :: ts) ∧ fixed_part u' = fixed_part u.
Proof.
  intros (Hr & Ht & pl & Hp & Hd) Hms. unfold add_co_timer. rewrite Hms. eexists. split; [reflexivity|].
  unfold loop_data, fixed_part. parts. split; [|done].
  split; [done|]. split; [|by exists pl]. cbn [timers]. unfold TimerManager.add_timer.
  rewrite pq_elems_push. cbn [fmap list_fmap]. by rewrite Ht.
Qed.

Lemma add_event_data u fd write a id regs ts :
  loop_data u regs ts → 0 ≤ fd < 2 ^ 31 →
  ∃ ok u', add_event fd write id u = Ok (ok, u') ∧ fixed_part u' = fixed_part u ∧
    loop_data u' (if ok then (fd, a, id) :: regs else regs) ts.
Proof.
  intros ((Hr1 & Hr2 & Hr3) & Ht & pl & Hp & Hlen & Hcap & Hn) Hfd. unfold add_event. rewrite Hp.
  destruct (events pl) as [|e0 evs] eqn:He; [done|]. parts.
  destruct (epoll_add fd _ (kern_of u)) as [k'|] eqn:Hadd.
  - apply epoll_add_spec in Hadd as [Hfree Hint]. eexists true, _. split; [reflexivity|].
    unfold loop_data, fixed_part. parts. cbn [poll set_poll events tail num running].
    rewrite Hp. split; [cbn; by rewrite He|]. split; [|split; [done|]].
    + split_and!; cbn [fmap list_fmap].
      * apply NoDup_cons. split; [|done]. intros Hin. apply list_elem_of_fmap in Hin as (x & Ex & Hx).
        apply Hr2 in Hx as [_ [ev Hev]]. cbn in Ex. rewrite <- Ex in Hev. unfold io_fd in Hev. cbn in Hev. congruence.
      * intros x Hx. rewrite Hint. apply elem_of_cons in Hx as [->|Hx].
        -- split; [done|]. cbn. rewrite lookup_insert_eq. by eexists.
        -- destruct (Hr2 x Hx) as [Hb Hs]. split; [done|]. destruct (decide (fd = io_fd x)) as [->|].
           ++ rewrite lookup_insert_eq. by eexists.
           ++ by rewrite lookup_insert_ne.
      * intros fd' ev. rewrite Hint. destruct (decide (fd = fd')) as [->|].
        -- rewrite lookup_insert_eq. intros [= <-]. exists a, id. split; [left|done].
        -- rewrite lookup_insert_ne by done. intros Hev. destruct (Hr3 _ _ Hev) as (b & i & Hin & Hu).
           exists b, i. split; [by right|done].
    + eexists. split; [reflexivity|]. cbn. rewrite zlen_cons. split_and!; [by rewrite <- Hlen|done|lia].
  - eexists false, _. split; [reflexivity|].
    unfold loop_data, fixed_part. parts. cbn [poll set_poll events tail num running].
    rewrite Hp. split; [cbn; by rewrite He|]. split; [done|]. split; [done|].
    eexists. split; [reflexivity|]. by split_and!.
Qed.

Lemma remove_event_data u fd a id regs ts :
  loop_data u ((fd, a, id) :: regs) ts →
  ∃ u', remove_event fd u = Ok (true, u') ∧ fixed_part u' = fixed_part u ∧ loop_data u' regs ts.
Proof.
  intros ((Hr1 & Hr2 & Hr3) & Ht & pl & Hp & Hlen & Hcap & Hn). unfold remove_event.
  destruct (Hr2 (fd, a, id)) as [_ [ev Hev]]; [left|]. cbn in Hev.
  destruct (epoll_del_spec fd _ ev Hev) as (k' & -> & Hint). parts. rewrite Hp.
  eexists. split; [reflexivity|]. unfold loop_data, fixed_part. parts.
  cbn [poll set_poll events tail num running]. rewrite Hp. split; [done|].
  cbn [fmap list_fmap] in Hr1. apply NoDup_cons in Hr1 as [Hnin Hr1].
  split; [|split; [done|]].
  - split_and!; [done| |].
    + intros x Hx. destruct (Hr2 x) as [Hb Hs]; [by right|]. split; [done|]. rewrite Hint.
      rewrite lookup_delete_ne; [done|]. intros ->. apply Hnin. apply list_elem_of_fmap. by exists x.
    + intros fd' ev'. rewrite Hint. intros [Hne Hl]%lookup_delete_Some.
      destruct (Hr3 _ _ Hl) as (b & i & Hin & Hu). apply elem_of_cons in Hin as [Hin|Hin]; [congruence|].
      by exists b, i.
  - eexists. split; [reflexivity|]. cbn. rewrite zlen_cons in Hn. split_and!; [done|done|lia].
Qed.


(** ** One lemma for each thing the CPU can be doing *)

Lemma NoDup_fmap_eq {A B} (f : A → B) (l : list A) x y :
  NoDup (f <$> l) → x ∈ l → y ∈ l → f x = f y → x = y.
Proof.
  induction l as [|z l IH]; [by intros _ ?%elem_of_nil|]. cbn. intros [Hz Hl]%NoDup_cons Hx Hy E.
  apply elem_of_cons in Hx as [->|Hx]; apply elem_of_cons in Hy as [->|Hy]; try done.
  - destruct Hz. rewrite E. apply list_elem_of_fmap. eauto.
  - destruct Hz. rewrite <- E. apply list_elem_of_fmap. eauto.
  - by apply IH.
Qed.

Lemma base_io_nodup m cs ios : ev_base ios m cs (io_co <$> ios) → NoDup (io_co <$> ios).
Proof. intros (_ & _ & H & _). by apply NoDup_app in H as (_ & _ & H). Qed.

Lemma io_lookup m cs ios p x :
  ev_base ios m cs (io_co <$> ios) → cpu m = Prog p → x ∈ ios →
  get_by_cid (io_id x) m = Some x.1.2 ∧ 1 ≤ io_id x ≤ last_cid m.
Proof.
  intros Hb Hc Hx. pose proof (base_io_nodup m cs ios Hb) as Hnd.
  pose proof Hb as (_ & _ & _ & _ & _ & H). rewrite Forall_forall in H.
  assert (Hw : waits m (in_wait ios) (io_co x)) by (apply H, list_elem_of_fmap; eauto).
  destruct (waits_get_by_cid _ _ _ m cs _ _ x.1.2 p Hb Hc Hw) as (id & w & Hg & (fd & a & k & Ha & Hin & _) & _ & Hid).
  injection Ha as Ha.
  assert (x = (fd, a, id)) as -> by (apply (NoDup_fmap_eq io_co ios); [done..|unfold io_co; by rewrite Ha]).
  done.
Qed.

(** Waiters with the same id are the same. *)
Lemma io_id_inj m cs ios p x y :
  ev_base ios m cs (io_co <$> ios) → cpu m = Prog p → x ∈ ios → y ∈ ios → io_id x = io_id y → x = y.
Proof.
  intros Hb Hc Hx Hy E.
  destruct (io_lookup m cs ios p x Hb Hc Hx) as [H1 _]. destruct (io_lookup m cs ios p y Hb Hc Hy) as [H2 _].
  apply (NoDup_fmap_eq io_co ios); [by eapply base_io_nodup|done..|]. unfold io_co.
  rewrite E in H1. congruence.
Qed.

Lemma loop_data_perm u regs regs' ts : regs ≡ₚ regs' → loop_data u regs ts → loop_data u regs' ts.
Proof.
  intros E ((H1 & H2 & H3) & H4 & pl & H5 & H6 & H7 & H8). split; [|split; [done|]].
  - split_and!; [by rewrite <- E|intros x; rewrite <- E; apply H2|].
    intros fd ev Hev. destruct (H3 fd ev Hev) as (a & id & Hin & Hu). exists a, id. by rewrite <- E.
  - exists pl. split_and!; try done. rewrite H8. unfold zlen. by rewrite E.
Qed.

(** Taking a waiter out. *)
Lemma base_io_out m cs ios x ios' ps :
  ev_base ios m cs ps → NoDup (io_co <$> ios) → ios ≡ₚ x :: ios' → ps = io_co <$> ios' →
  ev_base ios' m cs ps.
Proof.
  intros Hb Hnd E ->. eapply base_mono; [exact Hb|done|].
  intros co id p Hco (fd & a & k & -> & Hin & Hp). exists fd, a, k. split_and!; try apply Hp; [done|].
  rewrite E in Hin. apply elem_of_cons in Hin as [Hin|Hin]; [|done].
  rewrite E in Hnd. cbn in Hnd. apply NoDup_cons in Hnd as [Hnin _]. destruct Hnin.
  rewrite <- Hin. done.
Qed.

Section one_step.
Variables (m : machine U) (pend ios : list io) (cs : list (option ptr)).
Hypotheses (Hb : ev_base ios m cs (io_co <$> ios)) (Hpend : ∀ x, x ∈ pend → x ∈ ios).

Lemma estep_to m' cs' ios' ts regs :
  step m = Ok (Some m') → ev_base ios' m' cs' (io_co <$> ios') → edoing m' pend cs' ios' ts regs →
  loop_data (globals m') regs ts → (∀ x, x ∈ pend → x ∈ ios') →
  fixed_part (globals m') = fixed_part (globals m) → estep m pend.
Proof.
  intros Hst H1 H2 H3 H4 H5. right. exists (Some m'). split; [done|]. intros ? [= <-]. split; [|done].
  by exists cs', ios', ts, regs.
Qed.

Lemma estep_return a id :
  returns (cpu m) a id → tame strict (on_stack m) (resumption (cpu m)) →
  loop_data (globals m) ios cs → estep m pend.
Proof.
  intros Hret Hcl Hd. destruct (base_return _ _ _ m _ _ a id Hb Hret) as (m' & Hst & Hb' & Hc' & Hs & Hg).
  rewrite <- Hg in Hd. eapply estep_to; [done..| |done|done|by rewrite Hg].
  eapply edoing_client; [done|]. unfold on_stack in *. by rewrite Hs.
Qed.

Lemma estep_client p :
  cpu m = Prog p → tame strict (on_stack m) p → loop_data (globals m) ios cs → estep m pend.
Proof.
  intros Hc Hcl Hd. remember (on_stack m) as b eqn:Eb.
  destruct Hcl as [b|b f Hdef Hf|b fn k Hfn Hk|s ms k Hms Hk|fd w k Hfd Hk].
  - destruct b.
    + destruct (base_ret _ _ _ m _ _ Hb Hc (eq_sym Eb)) as (m' & a & id & Hst & Hb' & Hret & Hcl & Hg).
      rewrite <- Hg in Hd. eapply estep_to; [done..| |done|done|by rewrite Hg]. by eapply edoing_return.
    + right. exists None. split; [|done]. by apply base_ret_main.
  - destruct (defined (f (globals m))) eqn:Ed.
    2:{ left. split; [|by exists f]. destruct strict; [|done]. by rewrite Hdef in Ed. }
    destruct (f (globals m)) as [[u q]| |] eqn:E; try discriminate Ed.
    destruct (Hf _ _ _ E) as (E1 & E2 & E3 & Hcl).
    destruct (base_act _ _ _ m _ _ f u q Hb Hc E) as (m' & Hst & Hb' & Hc' & Hs & Hcur & _ & Hg).
    assert (Hd' : loop_data u ios cs) by (unfold loop_data; by rewrite E1, E2, E3).
    rewrite <- Hg in Hd'. eapply estep_to; [done..| |done|done|].
    + eapply edoing_client; [done|]. unfold on_stack in *. by rewrite Hs, <- Eb.
    + rewrite Hg. unfold fixed_part. by rewrite E1.
  - subst b. destruct (base_create _ _ _ m _ _ fn k Hb Hc Hk) as (m' & Hst & Hb' & Hc' & Hs & Hg).
    rewrite <- Hg in Hd. eapply estep_to; [done..| |done|done|by rewrite Hg].
    eapply edoing_client; [done|]. by rewrite Hs.
  - destruct (base_get_current _ _ _ m _ _ _ Hb Hc) as (m' & Hst & Hb' & Hc' & Hs & Hcur & _ & Hg).
    rewrite <- Hg in Hd. eapply estep_to; [done..| |done|done|by rewrite Hg].
    eapply edoing_sleep; [by rewrite Hcur|done|done|]. unfold on_stack in *. by rewrite Hs.
  - destruct (base_get_current _ _ _ m _ _ _ Hb Hc) as (m' & Hst & Hb' & Hc' & Hs & Hcur & _ & Hg).
    rewrite <- Hg in Hd. eapply estep_to; [done..| |done|done|by rewrite Hg].
    eapply edoing_get_cid; [by rewrite Hcur|done|done|]. unfold on_stack in *. by rewrite Hs.
Qed.

Lemma estep_sleep seconds ms k :
  cpu m = Prog (Act (λ u, u ← add_co_timer seconds (current m) u; Ok (u, Yield (k 0)))) →
  to_msec seconds = Ok ms → tame strict true (k 0) → on_stack m = true →
  loop_data (globals m) ios cs → estep m pend.
Proof.
  intros Hc Hms Hk Ho Hd.
  destruct (add_timer_data _ seconds ms (current m) _ _ Hd Hms) as (u & Hu & Hd' & Hf).
  destruct (base_act _ _ _ m _ _ _ u (Yield (k 0)) Hb Hc) as (m' & Hst & Hb' & Hc' & Hs & Hcur & _ & Hg).
  { cbv beta. by rewrite Hu. }
  rewrite <- Hg in Hd'. eapply estep_to; [done..| |done|done|by rewrite Hg].
  rewrite <- Hcur. eapply edoing_sleep_yield; [done|done|]. unfold on_stack in *. by rewrite Hs.
Qed.

Lemma estep_sleep_yield p :
  cpu m = Prog (Yield p) → tame strict true p → on_stack m = true →
  loop_data (globals m) ios (current m :: cs) → estep m pend.
Proof.
  intros Hc Hp Ho Hd.
  destruct (base_yield _ _ _ m _ _ p Hb Hc Ho) as (m' & a & id & Hst & Hret & Hcl & Hg & _ & H1 & _).
  rewrite <- Hg in Hd. eapply (estep_to m' (current m :: cs)); [done|by apply H1| |done|done|by rewrite Hg].
  by eapply edoing_return.
Qed.

Lemma estep_get_cid fd write k :
  cpu m = Prog (GetCid (current m) (before_wait fd write k)) →
  0 ≤ fd < 2 ^ 31 → (∀ ok, tame strict true (k ok)) → on_stack m = true →
  loop_data (globals m) ios cs → estep m pend.
Proof.
  intros Hc Hfd Hk Ho Hd.
  destruct (base_get_cid _ _ _ m _ _ _ Hb Hc Ho) as (m' & id & Hst & Hb' & Hid & Hc' & Hs & Hcur & Hobj & Hg).
  rewrite <- Hg in Hd. eapply estep_to; [done..| |done|done|by rewrite Hg].
  eapply edoing_wait; [done| |done|done|unfold on_stack in *; by rewrite Hs].
  unfold current_cid in *. by rewrite Hcur, Hobj.
Qed.

Lemma estep_wait fd write k id :
  cpu m = Prog (before_wait fd write k id) → current_cid m id →
  0 ≤ fd < 2 ^ 31 → (∀ ok, tame strict true (k ok)) → on_stack m = true →
  loop_data (globals m) ios cs → estep m pend.
Proof.
  intros Hc Hid Hfd Hk Ho Hd. pose proof Hid as (a & c & Ha & Hac & Hcid).
  destruct (add_event_data _ fd write a id _ _ Hd Hfd) as (ok & u & Hu & Hf & Hd').
  destruct (base_act _ _ _ m _ _ _ u (if ok then Yield (after_wait fd k) else k false) Hb Hc)
    as (m' & Hst & Hb' & Hc' & Hs & Hcur & Hobj & Hg).
  { cbv beta. rewrite Hu. by destruct ok. }
  rewrite <- Hg in Hd'. eapply estep_to; [done..| |done|done|by rewrite Hg].
  assert (Ho' : on_stack m' = true) by (unfold on_stack in *; by rewrite Hs). destruct ok.
  - eapply edoing_wait_yield; [done|by rewrite Hcur|unfold current_cid; by rewrite Hcur, Hobj|done|done].
  - eapply edoing_client; [done|]. rewrite Ho'. apply Hk.
Qed.

Lemma estep_wait_yield fd a id k :
  cpu m = Prog (Yield (after_wait fd k)) → current m = Some a → current_cid m id →
  (∀ ok, tame strict true (k ok)) → on_stack m = true →
  loop_data (globals m) ((fd, a, id) :: ios) cs → estep m pend.
Proof.
  intros Hc Ha Hid Hk Ho Hd.
  assert (Hb' : ev_base ((fd, a, id) :: ios) m cs (io_co <$> ios)).
  { eapply base_mono; [exact Hb|done|]. intros co i p _ (fd' & a' & k' & H1 & H2 & H3).
    exists fd', a', k'. split_and!; [done|by right|apply H3..]. }
  destruct (base_yield _ _ _ m _ _ _ Hb' Hc Ho) as (m' & b & i & Hst & Hret & Hcl & Hg & Hi & _ & H2).
  assert (i = id) as ->.
  { destruct Hid as (x & c & Hx & Hc1 & <-). destruct Hi as (y & d & Hy & Hd1 & <-). congruence. }
  rewrite <- Hg in Hd. eapply (estep_to m' cs ((fd, a, id) :: ios)); [done| | |done| |by rewrite Hg].
  - cbn [fmap list_fmap]. replace (io_co (fd, a, id)) with (current m) by done. apply H2.
    rewrite Ha. exists fd, a, k. split_and!; [done|left|done|done].
  - by eapply edoing_return.
  - intros x Hx. right. by apply Hpend.
Qed.

Lemma estep_woken fd a id k :
  cpu m = Prog (after_wait fd k) → (∀ ok, tame strict true (k ok)) → on_stack m = true →
  loop_data (globals m) ((fd, a, id) :: ios) cs → estep m pend.
Proof.
  intros Hc Hk Ho Hd. destruct (remove_event_data _ _ _ _ _ _ Hd) as (u & Hu & Hf & Hd').
  destruct (base_act _ _ _ m _ _ _ u (k true) Hb Hc) as (m' & Hst & Hb' & Hc' & Hs & Hcur & _ & Hg).
  { cbv beta. by rewrite Hu. }
  rewrite <- Hg in Hd'. eapply estep_to; [done..| |done|done|by rewrite Hg].
  eapply edoing_client; [done|]. unfold on_stack in *. rewrite Hs, Ho. apply Hk.
Qed.

Lemma estep_wake_io fd a id :
  cpu m = Prog (ResumeCid id Ret) → (fd, a, id) ∈ ios → (fd, a, id) ∉ pend → on_stack m = false →
  loop_data (globals m) ios cs → estep m pend.
Proof.
  intros Hc Hin Hnp Ho Hd. pose proof (base_io_nodup m cs ios Hb) as Hnd.
  destruct (io_lookup m cs ios _ _ Hb Hc Hin) as [Hg _]. cbn in Hg.
  apply elem_of_Permutation in Hin as [ios' E].
  assert (Hps : io_co <$> ios ≡ₚ Some a :: (io_co <$> ios')) by (by rewrite E).
  pose proof (base_set_cpu _ _ _ m cs _ _ (Resume (Some a) Ret) Hb Hc) as Hb1.
  pose proof (base_perm _ _ _ _ _ _ cs _ (reflexivity cs) Hps Hb1) as Hb2.
  destruct (base_wake2 _ _ _ _ cs _ (Some a) Ret Hb2) as (m' & w & Hst & Hb3 & (i & fd' & a' & k & [= <-] & Hin' & -> & Hk) & Hc' & Ho' & Hg');
    [done|constructor|].
  assert (E' : (fd', a, i) = (fd, a, id)).
  { apply (NoDup_fmap_eq io_co ios); [done|done|rewrite E; left|done]. }
  injection E' as -> ->.
  rewrite <- (step_resume_cid m id a Ret Hc Hg) in Hst.
  apply (loop_data_perm _ _ _ _ E) in Hd. change (globals m' = globals m) in Hg'. rewrite <- Hg' in Hd.
  eapply estep_to; [done|by eapply base_io_out|by eapply edoing_woken|done| |by rewrite Hg'].
  intros x Hx. pose proof (Hpend x Hx) as Hx'. rewrite E in Hx'.
  apply elem_of_cons in Hx' as [->|Hx']; [done|done].
Qed.

End one_step.

Lemma minv_step m pend : minv m pend → estep m pend.
Proof.
  intros (cs & ios & ts & regs & Hb & Hdo & Hd & Hp).
  destruct Hdo as [cs ios p|cs ios a id|cs ios s ms k|cs ios p|cs ios fd w k|cs ios fd w k id|cs ios fd a id k
    |cs ios fd a id k|cs ios co Hc Ho|cs ios fd a id].
  - by eapply estep_client.
  - by eapply estep_return.
  - by eapply estep_sleep.
  - by eapply estep_sleep_yield.
  - by eapply estep_get_cid.
  - by eapply estep_wait.
  - by eapply estep_wait_yield.
  - by eapply estep_woken.
  - destruct (base_wake1 _ _ _ m cs _ co Ret Hb Hc) as (m' & w & Hst & Hb' & (i & Hw) & Hc' & Ho' & Hg);
      [constructor|].
    rewrite <- Hg in Hd. eapply estep_to; [done..| |done|done|by rewrite Hg].
    eapply edoing_client; [done|]. by rewrite Ho'.
  - by eapply estep_wake_io.
Qed.

(** ** The loop *)

(** The events still to be handled are those of [pend]. *)
Definition pending u (i : Z) pend : Prop :=
  num (ev_of u) ≤ 16 ∧ ∃ pl, poll (ev_of u) = Some pl ∧
    Forall2 (λ x ev, ev_u64 ev = Help.touint64 (io_fd x) (i32 (io_id x))) pend
      (drop (Z.to_nat i) (take (Z.to_nat (num (ev_of u))) (events pl))).

Definition phase_inv m (q : phase) pend : Prop :=
  match q with
  | InMain => pend = []
  | InWait => pend = [] ∧ at_rest m
  | InIo i => 0 ≤ i ∧ (i = 0 → at_rest m) ∧ NoDup pend ∧ pending (globals m) i pend
  | InTimers _ => pend = []
  | Returned => pend = [] ∧ at_rest m ∧
      pq_elems (timers (time_of (globals m))) = [] ∧ objects m = ∅ ∧
      option_map event_num (poll (ev_of (globals m))) = Some 0
  end.

Definition linv (l : loop) : Prop :=
  ∃ pend, minv (mach l) pend ∧ phase_inv (mach l) (ph l) pend ∧
    (ph l ≠ Returned → running (ev_of (globals (mach l))) = 1).

Lemma drop_take_tail {A} (i n : nat) (l l' : list A) :
  (1 ≤ i)%nat → tail l = tail l' → drop i (take n l) = drop i (take n l').
Proof.
  intros Hi Ht. destruct i as [|i]; [lia|]. destruct n as [|n]; [by rewrite !take_0|].
  destruct l as [|x l], l' as [|y l']; cbn in Ht; subst; cbn; try done; by rewrite !take_nil, drop_nil.
Qed.

Lemma pending_fixed u u' i pend :
  1 ≤ i → fixed_part u' = fixed_part u → pending u i pend → pending u' i pend.
Proof.
  intros Hi Hf (Hn & pl & Hp & HF). unfold fixed_part in Hf. rewrite Hp in Hf.
  destruct (poll (ev_of u')) as [pl'|] eqn:Hp'; [|discriminate Hf]. injection Hf as Ht Hnum _.
  split; [by rewrite Hnum|]. exists pl'. split; [done|]. rewrite Hnum.
  erewrite drop_take_tail; [exact HF|lia|exact Ht].
Qed.

Lemma fixed_running u u' : fixed_part u' = fixed_part u → running (ev_of u') = running (ev_of u).
Proof. unfold fixed_part. by intros [= _ _ ->]. Qed.

Lemma at_rest_stuck m : at_rest m → step m = Ok None.
Proof. intros [Hc Hs]. unfold step. by rewrite Hc, Hs. Qed.

Lemma at_rest_main m : at_rest m → on_stack m = false.
Proof. intros [_ Hs]. unfold on_stack. by rewrite Hs. Qed.

(** At rest no operation is in progress. *)
Lemma rest_data m pend :
  minv m pend → at_rest m →
  ∃ cs ios, ev_base ios m cs (io_co <$> ios) ∧ loop_data (globals m) ios cs ∧ (∀ x, x ∈ pend → x ∈ ios).
Proof.
  intros (cs & ios & ts & regs & Hb & Hdo & Hd & Hp) [Hc _].
  exists cs, ios. destruct Hdo as [cs ios p|cs ios a id Hret| | | | | | | | ]; try done;
    match goal with H : cpu m = Prog ?q |- _ => rewrite Hc in H; discriminate H end.
Qed.

Lemma edoing_globals m pend cs ios ts regs u :
  edoing m pend cs ios ts regs → edoing (set_globals u m) pend cs ios ts regs.
Proof.
  intros H. destruct H.
  - by eapply edoing_client.
  - by eapply edoing_return.
  - by eapply edoing_sleep.
  - by eapply (edoing_sleep_yield (set_globals u m)).
  - by eapply edoing_get_cid.
  - by eapply edoing_wait.
  - by eapply edoing_wait_yield.
  - by eapply edoing_woken.
  - by eapply edoing_wake_sleeper.
  - by eapply edoing_wake_io.
Qed.

(** Changes of the data while the machine rests. *)
Lemma minv_rest m cs ios pend :
  ev_base ios m cs (io_co <$> ios) → at_rest m → loop_data (globals m) ios cs →
  (∀ x, x ∈ pend → x ∈ ios) → minv m pend.
Proof.
  intros Hb [Hc Hs] Hd Hp. exists cs, ios, cs, ios. split_and!; try done.
  eapply edoing_client; [done|]. constructor.
Qed.

Lemma next_timeout_none now (q : TQ) : TimerManager.get_next_timeout now q < 0 → pq_elems q = [].
Proof.
  unfold TimerManager.get_next_timeout. destruct (pq_top q) as [t|] eqn:E.
  - split_if; lia.
  - intros _. by apply pq_top_none.
Qed.

Lemma linv_return m u :
  linv (mkLoop m InWait) → at_rest m → wait_head (globals m) = Ok (None, u) →
  linv (mkLoop (with_globals u m) Returned).
Proof.
  intros (pend & Hm & [-> _] & Hr) Hrest Hw. cbn [mach ph] in *. specialize (Hr ltac:(done)).
  destruct (rest_data m [] Hm Hrest) as (cs & ios & Hb & Hd & _).
  pose proof Hd as (_ & Ht & pl & Hp & Hlen & Hcap & Hnum).
  unfold wait_head in Hw. rewrite Hr, Hp in Hw. cbn [Z.ltb] in Hw. change (0 <? 1) with true in Hw. cbv beta iota zeta in Hw.
  destruct (_ && _) eqn:E; [|done]. zify_bools. injection Hw as <-.
  match goal with H : TimerManager.get_next_timeout _ _ < 0 |- _ => apply next_timeout_none in H as Hq end.
  assert (Hios : ios = []).
  { rewrite Hnum in *. destruct ios as [|x ios]; [done|]. rewrite zlen_cons in *. pose proof (zlen_nonneg ios). lia. }
  assert (Hcs : cs = []) by (rewrite Hq in Ht; by apply Permutation_nil_l in Ht).
  subst ios cs. exists []. split; [|split; [|done]].
  - eapply (minv_rest _ [] []); [by apply base_set_globals|by destruct Hrest| |done].
    destruct Hd as (H1 & H2 & H3). cbn [globals mach with_globals set_globals].
    unfold loop_data. parts. split; [done|]. split; [done|]. by exists pl.
  - split; [done|]. split; [by destruct Hrest|]. cbn [globals mach with_globals set_globals objects]. parts.
    split; [done|]. split; [|cbn; by rewrite Hnum].
    apply map_empty. intros a. destruct (objects m !! a) as [c|] eqn:Ha; [|done].
    pose proof (base_main _ _ _ m _ _ Ret a c Hb (proj1 Hrest) (at_rest_main m Hrest) Ha) as Hin.
    by apply elem_of_nil in Hin.
Qed.

Lemma loop_data_clock u t regs ts :
  loop_data u regs ts → timers t = timers (time_of u) → loop_data (set_view t u) regs ts.
Proof.
  intros (H1 & H2 & H3) Ht. unfold loop_data. parts. split; [done|]. split; [by rewrite Ht|done].
Qed.

Lemma linv_clock m (q : phase) (t' : Z) :
  linv (mkLoop m q) →
  linv (mkLoop (with_globals (set_view (mkTime t' (timers (time_of (globals m)))) (globals m)) m) q).
Proof.
  intros (pend & (cs & ios & ts & regs & Hb & Hdo & Hd & Hp) & Hph & Hr). cbn [mach ph] in *. exists pend.
  split; [|split].
  - exists cs, ios, ts, regs. split_and!; [by apply base_set_globals|by apply edoing_globals| |done].
    by apply loop_data_clock.
  - cbn [mach ph]. unfold phase_inv, pending, with_globals in *. cbn [globals set_globals]. parts.
    destruct q; done.
  - cbn [mach ph with_globals set_globals globals]. by parts.
Qed.


Lemma forall2_pend ios (k : K) (fds : list Z) (evs : list epoll_event) :
  registered ios k → NoDup fds →
  Forall2 (λ fd ev, ∃ ev0, interest k !! fd = Some ev0 ∧ ev_u64 ev0 = ev_u64 ev) fds evs →
  ∃ pend, (∀ x, x ∈ pend → x ∈ ios) ∧ NoDup pend ∧ io_fd <$> pend = fds ∧
    Forall2 (λ x ev, ev_u64 ev = Help.touint64 (io_fd x) (i32 (io_id x))) pend evs.
Proof.
  intros (_ & _ & Hr) Hnd HF. induction HF as [|fd ev fds evs (ev0 & Hev & Hu) HF IH].
  - exists []. split_and!; [by intros x ?%elem_of_nil|constructor|done|constructor].
  - apply NoDup_cons in Hnd as [Hn Hnd]. destruct (IH Hnd) as (pend & H1 & H2 & H3 & H4).
    destruct (Hr fd ev0 Hev) as (a & id & Hin & Hu0). exists ((fd, a, id) :: pend). split_and!.
    + intros x [->|Hx]%elem_of_cons; auto.
    + apply NoDup_cons. split; [|done]. intros Hx. apply Hn. rewrite <- H3. apply list_elem_of_fmap.
      by exists (fd, a, id).
    + cbn. by rewrite H3.
    + constructor; [|done]. cbn. congruence.
Qed.

Lemma linv_epoll m timeout u r u' :
  linv (mkLoop m InWait) → at_rest m → wait_head (globals m) = Ok (Some timeout, u) →
  (∀ evs, r = Some evs → ∀ pl, poll (ev_of u) = Some pl → epoll_report (kern_of u) (ncap pl) evs) →
  epoll_result r u = Ok u' → linv (mkLoop (with_globals u' m) (InIo 0)).
Proof.
  intros (pend & Hm & [-> _] & Hr) Hrest Hw Hrep He. cbn [mach ph] in *. specialize (Hr ltac:(done)).
  destruct (rest_data m [] Hm Hrest) as (cs & ios & Hb & Hd & _).
  pose proof Hd as (Hreg & Ht & pl & Hp & Hlen & Hcap & Hnum).
  assert (u = globals m) as ->.
  { unfold wait_head in Hw. rewrite Hr, Hp in Hw. change (0 <? 1) with true in Hw. cbv beta iota zeta in Hw.
    destruct (_ && _); [done|]. by injection Hw as _ <-. }
  unfold epoll_result in He. rewrite Hp in He. destruct r as [evs|]; injection He as <-.
  - destruct (epoll_report_spec _ _ _ (Hrep evs eq_refl pl Hp)) as (Hle & fds & Hnd & HF).
    destruct (forall2_pend ios _ fds evs Hreg Hnd HF) as (pend & H1 & H2 & _ & H4).
    rewrite Hcap in Hle. unfold zlen in Hle. exists pend. split; [|split].
    + eapply minv_rest; [by apply base_set_globals|by destruct Hrest| |done].
      cbn [globals mach with_globals set_globals]. unfold loop_data. parts. split_and!; [apply Hreg..|done|].
      eexists. split; [reflexivity|]. cbn. split_and!; [rewrite length_app, length_drop; lia|done|done].
    + cbn [mach ph phase_inv]. split; [lia|]. split; [by intros _; destruct Hrest|]. split; [done|].
      unfold pending. cbn [globals mach with_globals set_globals]. parts. cbn [num poll]. split; [unfold zlen; lia|].
      eexists. split; [reflexivity|]. cbn [events set_events]. unfold zlen. rewrite Nat2Z.id.
      by rewrite take_app_length, drop_0.
    + cbn [mach ph with_globals set_globals globals]. by parts.
  - exists []. split; [|split].
    + eapply minv_rest; [by apply base_set_globals|by destruct Hrest| |by intros x ?%elem_of_nil].
      cbn [globals mach with_globals set_globals]. unfold loop_data. parts. split_and!; [apply Hreg..|done|].
      by exists pl.
    + cbn [mach ph phase_inv]. split; [lia|]. split; [by intros _; destruct Hrest|]. split; [constructor|].
      unfold pending. cbn [globals mach with_globals set_globals]. parts. cbn [num poll]. split; [lia|].
      exists pl. split; [done|]. constructor.
    + cbn [mach ph with_globals set_globals globals]. by parts.
Qed.

Lemma handle_io_next_pending u i pend :
  0 ≤ i → pending u i pend → (∃ pl, poll (ev_of u) = Some pl ∧ length (events pl) = 16%nat) →
  match pend with
  | [] => handle_io_next i u = Ok None
  | x :: pend' => pending u (i + 1) pend' ∧
      ∃ v, v = Help.touint64 (io_fd x) (i32 (io_id x)) ∧
        handle_io_next i u = Ok (Some (Help.fromuint64 v).2)
  end.
Proof.
  intros Hi (Hn & pl & Hp & HF) (pl' & Hp' & Hlen). rewrite Hp in Hp'. injection Hp' as <-.
  unfold handle_io_next. rewrite Hp. destruct pend as [|x pend].
  - apply Forall2_nil_inv_l in HF. split_if; [|done].
    apply (f_equal length) in HF. rewrite length_drop, length_take in HF. cbn in HF. lia.
  - destruct (drop (Z.to_nat i) (take (Z.to_nat (num (ev_of u))) (events pl))) as [|ev rest] eqn:Ed;
      [by inversion HF|]. apply Forall2_cons_1 in HF as [Hx HF].
    assert (Hlt : (Z.to_nat i < Z.to_nat (num (ev_of u)))%nat).
    { apply (f_equal length) in Ed. rewrite length_drop, length_take in Ed. cbn in Ed. lia. }
    assert (Hev : events pl !! Z.to_nat i = Some ev).
    { rewrite <- (lookup_take_lt _ (Z.to_nat (num (ev_of u)))) by done.
      rewrite <- (Nat.add_0_r (Z.to_nat i)), <- lookup_drop, Ed. done. }
    split.
    + split; [done|]. exists pl. split; [done|].
      replace (Z.to_nat (i + 1)) with (Z.to_nat i + 1)%nat by lia.
      rewrite <- drop_drop, Ed. exact HF.
    + eexists. split; [reflexivity|]. rewrite (proj2 (Z.ltb_lt _ _)) by lia. rewrite Hev, Hx.
      by destruct (Help.fromuint64 _).
Qed.

Lemma linv_io m i r :
  linv (mkLoop m (InIo i)) → at_rest m → last_cid m < 2 ^ 31 →
  handle_io_next i (globals m) = r →
  match r with
  | Ok (Some cid) => linv (mkLoop (call (ResumeCid cid Ret) m) (InIo (i + 1)))
  | Ok None => ∀ now, linv (mkLoop m (InTimers now))
  | _ => False
  end.
Proof.
  intros (pend & Hm & (Hi & _ & Hnd & Hpe) & Hr) Hrest Hcid <-. cbn [mach ph] in *.
  destruct (rest_data m pend Hm Hrest) as (cs & ios & Hb & Hd & Hin).
  pose proof Hd as (Hreg & Ht & pl & Hp & Hlen & Hcap & Hnum).
  assert (Hlen' : ∃ pl, poll (ev_of (globals m)) = Some pl ∧ length (events pl) = 16%nat) by (by exists pl).
  pose proof (handle_io_next_pending (globals m) i pend Hi Hpe Hlen') as Hnext. destruct pend as [|x pend].
  - rewrite Hnext. intros now. exists []. split_and!; [|done|intros _; by apply Hr].
    eapply minv_rest; [exact Hb|done|done|by intros y ?%elem_of_nil].
  - destruct Hnext as (Hpe' & v & -> & ->).
    assert (Hx : x ∈ ios) by (apply Hin; left).
    destruct (io_lookup m cs ios _ x Hb (proj1 Hrest) Hx) as [_ Hid].
    destruct Hreg as (_ & Hr2 & _). destruct (Hr2 x Hx) as [Hfd _].
    rewrite (i32_id (io_id x)) by lia.
    rewrite Help.fromuint64_touint64_gen by lia. cbn [snd].
    apply NoDup_cons in Hnd as [Hnx Hnd].
    exists pend. split; [|split].
    + exists cs, ios, cs, ios. split_and!.
      * apply (base_set_cpu _ _ _ m cs _ Ret); [done|apply Hrest].
      * destruct x as [[fd a] id]. apply (edoing_wake_io _ _ cs ios fd a id); [done|done|done|exact (at_rest_main m Hrest)].
      * done.
      * intros y Hy. apply Hin. by right.
    + cbn [mach ph phase_inv]. split_and!; [lia|lia|done|apply Hpe'..].
    + intros _. by apply Hr.
Qed.

Lemma linv_timer m now x u :
  linv (mkLoop m (InTimers now)) → at_rest m → run_timers_next now (globals m) = Some (x, u) →
  linv (mkLoop (call (fire_timer x Ret) (with_globals u m)) (InTimers now)).
Proof.
  intros (pend & Hm & -> & Hr) Hrest Hn. cbn [mach ph] in *.
  destruct (rest_data m [] Hm Hrest) as (cs & ios & Hb & Hd & _).
  pose proof Hd as (Hreg & Ht & pl & Hp & Hlen & Hcap & Hnum).
  unfold run_timers_next in Hn. destruct (pq_top (timers (time_of (globals m)))) as [t|] eqn:E; [|done].
  destruct (now <? exec_msec t); [done|]. injection Hn as <- <-.
  pose proof (pq_top_pop _ _ E) as Hpop.
  assert (Hcs : cs ≡ₚ private_data t :: (private_data <$> pq_elems (pq_pop (timers (time_of (globals m)))))).
  { etrans; [symmetry; exact Ht|]. exact (fmap_Permutation private_data _ _ Hpop). }
  exists []. split_and!; [|done|cbn [mach ph call set_cpu with_globals set_globals globals]; parts; intros _; by apply Hr].
  eexists _, ios, _, ios. split_and!.
  - apply (base_set_cpu _ _ _ _ _ _ Ret); [|apply Hrest]. apply base_set_globals.
    eapply base_perm; [exact Hcs|done|exact Hb].
  - apply edoing_wake_sleeper; [|exact (at_rest_main m Hrest)].
    cbn [call set_cpu cpu mach]. unfold fire_timer. by destruct (callback t).
  - cbn [mach globals call set_cpu with_globals set_globals]. unfold loop_data. parts.
    split_and!; [apply Hreg..|done|]. by exists pl.
  - by intros y ?%elem_of_nil.
Qed.

Lemma linv_code m q r :
  linv (mkLoop m q) → ¬ at_rest m → step m = r →
  (strict = false ∧ faulty m ∧ defined r = false) ∨ ∃ m', r = Ok (Some m') ∧ linv (mkLoop m' q).
Proof.
  intros (pend & Hm & Hph & Hr) Hn Hst. cbn [mach ph] in *.
  destruct (minv_step m pend Hm) as [(Hs & f & Hc & Hd)|(r' & Hr' & H)]; [left|right].
  { split; [done|]. split; [by exists f|]. rewrite <- Hst. unfold step. rewrite Hc. by destruct (f (globals m)). }

  assert (r = Ok r') as -> by congruence. destruct r' as [m'|].
  - exists m'. split; [done|]. destruct (H m' eq_refl) as [Hm' Hf]. exists pend. split; [done|]. cbn [mach ph]. split.
    + destruct q as [| |i|now|]; cbn [phase_inv] in *; try done; try (by destruct Hph as (_ & ? & _)).
      * by destruct Hph.
      * destruct Hph as (Hi & H0 & Hnd & Hpe). assert (i ≠ 0) by (intros ->; auto).
        split; [done|]. split; [done|]. split; [done|].
        eapply pending_fixed; [lia|exact Hf|exact Hpe].
    + intros Hq. rewrite (fixed_running _ _ Hf). by apply Hr.
  - exfalso. apply Hn. unfold step in Hst.
    assert (Hsome : ∀ r : outcome (machine U), Some <$> r ≠ Ok None) by (by intros [?| |]).
    destruct (cpu m) as [[|f|fn k|co k|id k|k|k|co k|fn k]|a id k|a k] eqn:Hc; try (by apply Hsome in Hst); try done.
    + split; [done|]. destruct (stack m); [by apply Hsome in Hst|done].
    + destruct (f (globals m)) as [[? ?]| |]; done.
Qed.

Lemma linv_step l r :
  linv l → last_cid (mach l) < 2 ^ 31 → loop_step (K := K) l r →
  (strict = false ∧ faulty (mach l) ∧ defined r = false) ∨ ∃ l', r = Ok l' ∧ linv l'.
Proof.
  intros Hl Hcid Hst. destruct Hst as [m q r Hn Hst|m q t t' ->|m Hrest|m u Hrest Hw|m Hrest Hw
    |m timeout u r k' Hrest Hw -> Hrep|m i cid Hrest Hn|m i t Hrest Hn ->|m i Hrest Hn|m now x u Hrest Hn|m now Hrest Hn].
  - destruct (linv_code m q r Hl Hn Hst) as [(Hs & Hf & Hd)|(m' & -> & Hl')].
    { left. split; [done|]. split; [done|]. by destruct r. }
    right. by eexists.
  - right. eexists. split; [done|]. by apply linv_clock.
  - right. eexists. split; [done|]. destruct Hl as (pend & Hm & -> & Hr). exists []. split_and!; try done.
    intros _. by apply Hr.
  - right. eexists. split; [done|]. by eapply linv_return.
  - exfalso. destruct Hl as (pend & Hm & _ & Hr). cbn [mach ph] in *.
    destruct (rest_data m pend Hm Hrest) as (cs & ios & _ & (_ & _ & pl & Hp & _) & _).
    unfold wait_head in Hw. rewrite Hp in Hw. destruct (0 <? _); [|done]. by destruct (_ && _).
  - destruct (epoll_result r u) as [u'| |] eqn:E.
    + right. eexists. split; [done|]. by eapply linv_epoll.
    + exfalso. unfold epoll_result in E. destruct (poll _); [|done]. by destruct r.
    + exfalso. pose proof Hl as (pend & Hm & _ & Hr). cbn [mach ph] in *.
      destruct (rest_data m pend Hm Hrest) as (cs & ios & _ & (_ & _ & pl & Hp & _) & _).
      assert (u = globals m) as ->.
      { unfold wait_head in Hw. rewrite Hp in Hw. destruct (0 <? _); [|done]. destruct (_ && _); [done|].
        by injection Hw as _ <-. }
      unfold epoll_result in E. rewrite Hp in E. by destruct r.
  - right. eexists. split; [done|]. by apply (linv_io m i _ Hl Hrest Hcid Hn).
  - right. eexists. split; [done|]. by apply (linv_io m i _ Hl Hrest Hcid Hn).
  - exfalso. by apply (linv_io m i _ Hl Hrest Hcid Hn).
  - right. eexists. split; [done|]. by eapply linv_timer.
  - right. eexists. split; [done|]. destruct Hl as (pend & Hm & -> & Hr). exists []. split_and!; try done.
    intros _. by apply Hr.
Qed.

Lemma loop_step_last_cid l r l' :
  loop_step (K := K) l r → r = Ok l' → last_cid (mach l) ≤ last_cid (mach l').
Proof.
  intros H. destruct H as [m q r Hn Hst|m q t t' ->|m Hrest|m u Hrest Hw|m Hrest Hw
    |m timeout u r k' Hrest Hw -> Hrep|m i cid Hrest Hn|m i t Hrest Hn ->|m i Hrest Hn|m now x u Hrest Hn|m now Hrest Hn];
    try (by intros [= <-]).
  - destruct r as [[m'|]| |]; try done. intros [= <-]. cbn [mach]. by eapply step_last_cid.
  - by destruct (epoll_result r u); intros [= <-].
Qed.

(** The state of the process when [coroutine::run] starts. *)
Definition fresh_loop u (epfd : Z) (e0 : Event) : Prop :=
  ev_of u = EventLoop.make epfd e0 ∧ 0 ≤ epfd ∧ pq_elems (timers (time_of u)) = [] ∧
  interest (kern_of u) = ∅.

Lemma run_linv fn u epfd e0 : tame strict true fn → fresh_loop u epfd e0 → linv (run fn u).
Proof.
  intros Hfn (He & Hfd & Ht & Hk). unfold EventLoop.make, init_Poll in He.
  rewrite (proj2 (Z.ltb_ge _ _) Hfd) in He. exists []. split_and!.
  - exists [], [], [], []. split_and!; [apply boot_base| | |done].
    + eapply edoing_client; [done|]. apply tame_create; [done|intros _; constructor].
    + cbn [mach run globals boot]. split; [|split].
      * split_and!; [constructor|by intros x ?%elem_of_nil|]. intros fd ev. by rewrite Hk, lookup_empty.
      * by rewrite Ht.
      * rewrite He. cbn. eexists. split; [reflexivity|]. by split_and!.
  - done.
  - intros _. cbn [mach run globals boot]. by rewrite He.
Qed.

Lemma loop_reachable_linv l0 l :
  linv l0 → loop_reachable (K := K) l0 l → last_cid (mach l) < 2 ^ 31 → linv l.
Proof.
  intros H0 Hr. induction Hr as [|l l' Hr IH Hst]; [done|]. intros Hc.
  pose proof (loop_step_last_cid l (Ok l') l' Hst eq_refl).
  by destruct (linv_step l (Ok l')) as [(_ & _ & ?)|(l2 & [= <-] & Hl2)]; [apply IH; lia|lia|done..|].
Qed.

End event_facts.
End EventFacts.

(** ** Properties *)
Section event_properties.
Import EventLoop EventFacts.
Context {U K TQ : Type} `{!PQueue co_timer CompareTimerPointer TQ} `{!Epoll K}.
Context `{!Part Event U} `{!Part (time_state TQ) U} `{!Part K U}.
Context `{!Apart Event (time_state TQ) U} `{!Apart Event K U}.
Context `{!Apart (time_state TQ) Event U} `{!Apart (time_state TQ) K U}.
Context `{!Apart K Event U} `{!Apart K (time_state TQ) U}.
Implicit Types (fn : prog U) (u : U) (l : loop (U := U)).

(** C3: the event loop never goes wrong. While fewer than [2^31] coroutines
    have been created, for any number of coroutines that wait with [sleep] and
    [wait_event], any reports of the kernel and any clock, no transition of the
    process is undefined or ends it: every event resumes a coroutine that is
    alive and waiting, also when a coroutine resumed earlier in the same batch
    has used the first slot of the event array, and every timer too. *)
Theorem event_loop_never_fails fn u epfd e0 l r :
  client true fn → fresh_loop u epfd e0 →
  loop_reachable (K := K) (run fn u) l → last_cid (mach l) < 2 ^ 31 →
  loop_step (K := K) l r → ∃ l', r = Ok l'.
Proof.
  intros Hfn Hu Hr Hc Hst. destruct (linv_step (strict := true) l r) as [(? & _)|(l' & H & _)]; [|done..|by exists l'].
  eapply loop_reachable_linv; [by eapply run_linv|done|done].
Qed.

End event_properties.

(** ** Running the loop *)
Module LoopRun.
Import Sched EventLoop.
Section loop_run.
Context {U K TQ : Type} `{!PQueue co_timer CompareTimerPointer TQ} `{!Epoll K}.
Context `{!Part Event U} `{!Part (time_state TQ) U} `{!Part K U}.

(** What [epoll_wait] returns with room for so many events; [None] when it is
    interrupted. *)
Variable reported : Z → K → option (list epoll_event).
Context (Hreported : ∀ n k evs, reported n k = Some evs → epoll_report k n evs).

Definition report (u : U) : option (list epoll_event) :=
  match poll (view (T := Event) u) with Some p => reported (ncap p) (view u) | None => None end.

(** A transition of the process with these reports when the clock stands still. *)
Definition next_with (l : loop) : option loop :=
  let m := mach l in
  match cpu m, stack m with
  | Prog Ret, None =>
      match ph l with
      | InMain => Some (mkLoop m InWait)
      | InWait =>
          match wait_head (TQ := TQ) (globals m) with
          | Ok (None, u) => Some (mkLoop (with_globals u m) Returned)
          | Ok (Some _, u) =>
              match epoll_result (report u) u with Ok u => Some (mkLoop (with_globals u m) (InIo 0)) | _ => None end
          | _ => None
          end
      | InIo i =>
          match handle_io_next i (globals m) with
          | Ok (Some cid) => Some (mkLoop (call (ResumeCid cid Ret) m) (InIo (i + 1)))
          | Ok None => Some (mkLoop m (InTimers (clock (view (T := time_state TQ) (globals m)))))
          | _ => None
          end
      | InTimers now =>
          match run_timers_next (TQ := TQ) now (globals m) with
          | Some (x, u) => Some (mkLoop (call (fire_timer x Ret) (with_globals u m)) (InTimers now))
          | None => Some (mkLoop m InWait)
          end
      | Returned => None
      end
  | _, _ => match Sched.step m with Ok (Some m') => Some (mkLoop m' (ph l)) | _ => None end
  end.

Lemma next_with_sound l l' : next_with l = Some l' → loop_step (K := K) (TQ := TQ) l (Ok l').
Proof.
  destruct l as [m q]. unfold next_with. cbn [mach ph].
  assert (Hcode : ¬ at_rest m →
    match Sched.step m with Ok (Some m') => Some (mkLoop m' q) | _ => None end = Some l' →
    loop_step (K := K) (TQ := TQ) (mkLoop m q) (Ok l')).
  { intros Hn. destruct (Sched.step m) as [[m'|]| |] eqn:E; try done. intros [= <-].
    exact (step_code m q _ Hn E). }
  destruct (cpu m) as [[|f|fn k|co k|id k|k|k|co k|fn k]|a id k|a k] eqn:Hc;
    try (by apply Hcode; intros [H _]; congruence).
  destruct (stack m) as [a|] eqn:Hs; [by apply Hcode; intros [_ H]; congruence|].
  assert (Hrest : at_rest m) by done. clear Hcode. destruct q as [| |i|now|]; [| | | |done].
  - intros [= <-]. by apply step_wait.
  - destruct (wait_head (TQ := TQ) (globals m)) as [[[t|] u]| |] eqn:Ew; try done.
    + destruct (epoll_result (report u) u) as [u'| |] eqn:Ee; try done. intros [= <-].
      pose proof (step_epoll (K := K) (TQ := TQ) m t u (report u) _ Hrest Ew eq_refl) as H. rewrite Ee in H.
      apply H. intros evs Hevs p Hp. unfold report in Hevs. rewrite Hp in Hevs. by apply Hreported.
    + intros [= <-]. by apply step_return.
  - destruct (handle_io_next i (globals m)) as [[c|]| |] eqn:Eh; try done; intros [= <-].
    + by apply step_io.
    + by apply step_io_end.
  - destruct (run_timers_next (TQ := TQ) now (globals m)) as [[x u]|] eqn:Er; intros [= <-].
    + by apply step_timer.
    + by apply step_timers_end.
Qed.

Fixpoint iterate (n : nat) (l : loop) : loop :=
  match n with O => l | S n => match next_with l with Some l' => iterate n l' | None => l end end.

Lemma iterate_reachable n l0 l : loop_reachable (K := K) (TQ := TQ) l0 l →
  loop_reachable (K := K) (TQ := TQ) l0 (iterate n l).
Proof.
  revert l. induction n as [|n IH]; intros l Hr; [done|]. cbn.
  destruct (next_with l) as [l'|] eqn:E; [|done]. apply IH. eapply loop_next; [exact Hr|by apply next_with_sound].
Qed.

(** The process started with [fn], after [n] of these transitions. *)
Definition after_with (fn : prog U) (u : U) (n : nat) : loop := iterate n (run fn u).

Lemma after_with_reachable fn u n : loop_reachable (K := K) (TQ := TQ) (run fn u) (after_with fn u n).
Proof. apply iterate_reachable. constructor. Qed.
End loop_run.

(** When [epoll_wait] is interrupted each time. *)
Section silent.
Context {U K TQ : Type} `{!PQueue co_timer CompareTimerPointer TQ} `{!Epoll K}.
Context `{!Part Event U} `{!Part (time_state TQ) U} `{!Part K U}.

Definition next : loop (U := U) → option loop := next_with (K := K) (TQ := TQ) (λ _ _, None).
Definition after : prog U → U → nat → loop := after_with (K := K) (TQ := TQ) (λ _ _, None).

Lemma next_sound l l' : next l = Some l' → loop_step (K := K) (TQ := TQ) l (Ok l').
Proof. by apply next_with_sound. Qed.

Lemma after_reachable fn u n : loop_reachable (K := K) (TQ := TQ) (run fn u) (after fn u n).
Proof. by apply after_with_reachable. Qed.
End silent.
End LoopRun.

(** ** Example: the loop with a concrete kernel *)

(** An interest list; any event of it may be reported. *)
Record simple_kernel := mkKernel { ilist : gmap Z epoll_event }.

#[local] Obligation Tactic := idtac.
#[global] Program Instance simple_epoll : Epoll simple_kernel := {|
  epoll_add fd ev k :=
    match ilist k !! fd with Some _ => None | None => Some (mkKernel (<[fd := ev]> (ilist k))) end;
  epoll_del fd k :=
    match ilist k !! fd with Some _ => Some (mkKernel (delete fd (ilist k))) | None => None end;
  epoll_report k n evs :=
    zlen evs ≤ n ∧ ∃ fds, NoDup fds ∧
      Forall2 (λ fd ev, ∃ ev0, ilist k !! fd = Some ev0 ∧ ev_u64 ev0 = ev_u64 ev) fds evs;
  interest := ilist
|}.
Next Obligation.
  intros fd ev k k' H. cbn in *. destruct (ilist k !! fd) as [x|] eqn:E; [discriminate H|].
  injection H as <-. by split.
Qed.
Next Obligation. intros fd k ev H. cbn. rewrite H. by eexists. Qed.
Next Obligation. intros k n evs H. exact H. Qed.

(** All of the interest list, as far as there is room. *)
Definition report_all (n : Z) (k : simple_kernel) : option (list epoll_event) :=
  if n <? 0 then None else Some (take (Z.to_nat n) (map_to_list (ilist k)).*2).

Lemma report_all_ok n k evs : report_all n k = Some evs → epoll_report k n evs.
Proof.
  unfold report_all. destruct (Z.ltb_spec n 0) as [|Hn]; [done|]. intros [= <-]. split; [unfold zlen; rewrite length_take; lia|]. exists (take (Z.to_nat n) (map_to_list (ilist k)).*1).
  split; [eapply sublist_NoDup; [apply (NoDup_fst_map_to_list (ilist k))|apply sublist_take]|].
  rewrite <- !fmap_take. apply Forall2_fmap, Forall_Forall2_diag, Forall_take, Forall_forall. intros [fd ev] Hin.
  apply elem_of_map_to_list in Hin. by exists ev.
Qed.

Module EventExample.
Import Sched EventLoop EventFacts.

Abbreviation queue := (sorted_timers timer_func (option ptr)).
Record world := mkWorld { ev_part : Event; time_part : time_state queue; kern_part : simple_kernel; out : list Z }.

#[global] Instance world_event : Part Event world := {|
  view := ev_part; set_view e u := mkWorld e (time_part u) (kern_part u) (out u); view_set _ _ := eq_refl |}.
#[global] Instance world_time : Part (time_state queue) world := {|
  view := time_part; set_view t u := mkWorld (ev_part u) t (kern_part u) (out u); view_set _ _ := eq_refl |}.
#[global] Instance world_kernel : Part simple_kernel world := {|
  view := kern_part; set_view k u := mkWorld (ev_part u) (time_part u) k (out u); view_set _ _ := eq_refl |}.
#[global] Instance apart_et : Apart Event (time_state queue) world. Proof. done. Qed.
#[global] Instance apart_ek : Apart Event simple_kernel world. Proof. done. Qed.
#[global] Instance apart_te : Apart (time_state queue) Event world. Proof. done. Qed.
#[global] Instance apart_tk : Apart (time_state queue) simple_kernel world. Proof. done. Qed.
#[global] Instance apart_ke : Apart simple_kernel Event world. Proof. done. Qed.
#[global] Instance apart_kt : Apart simple_kernel (time_state queue) world. Proof. done. Qed.

Definition emit (x : Z) (k : prog world) : prog world :=
  Act (λ u, Ok (mkWorld (ev_part u) (time_part u) (kern_part u) (out u ++ [x]), k)).

(** Two coroutines that sleep; the second is created by the first. *)
Definition zero_seconds : Q := Qmake 0 1.
Definition fn : prog world :=
  Create (sleep zero_seconds (λ _, emit 2 Ret)) (λ _, emit 1 (sleep zero_seconds (λ _, emit 3 Ret))).

Definition start : world := mkWorld (EventLoop.make 3 (mkEvent 0 None 0)) (mkTime 5 pq_empty) (mkKernel ∅) [].

Lemma emit_loop_client x k b :
  EventFacts.client (K := simple_kernel) (TQ := queue) b k →
  EventFacts.client (K := simple_kernel) (TQ := queue) b (emit x k).
Proof. intros H. apply client_act; [done|]. by intros u u' p [= <- <-]. Qed.

Lemma fn_client : EventFacts.client (K := simple_kernel) (TQ := queue) true fn.
Proof.
  apply client_create; [|intros _; apply emit_loop_client];
    (eapply client_sleep; [reflexivity|]; apply emit_loop_client; constructor).
Qed.

Lemma start_fresh : fresh_loop (K := simple_kernel) (TQ := queue) start 3 (mkEvent 0 None 0).
Proof. by split_and!. Qed.

Abbreviation after n := (LoopRun.after (K := simple_kernel) (TQ := queue) fn start n).

Lemma start_reachable n : loop_reachable (K := simple_kernel) (TQ := queue) (run fn start) (after n).
Proof. apply LoopRun.after_reachable. Qed.

End EventExample.

Lemma event_loop_never_fails_witness :
  ∃ r, EventLoop.loop_step (K := simple_kernel) (EventExample.after 12) r ∧ ∃ l', r = Ok l'.
Proof.
  assert (Hc : (last_cid (EventLoop.mach (EventExample.after 12)) <? 2 ^ 31) = true) by (vm_compute; reflexivity).
  assert (Hn : LoopRun.next (K := simple_kernel) (TQ := EventExample.queue) (EventExample.after 12) = Some (EventExample.after 13)) by (vm_compute; reflexivity).
  exists (Ok (EventExample.after 13)). split; [exact (LoopRun.next_sound _ _ Hn)|].
  apply (event_loop_never_fails (K := simple_kernel) EventExample.fn EventExample.start 3 (mkEvent 0 None 0)
    (EventExample.after 12) (Ok (EventExample.after 13)) EventExample.fn_client EventExample.start_fresh
    (EventExample.start_reachable 12) (proj1 (Z.ltb_lt _ _) Hc) (LoopRun.next_sound _ _ Hn)).
Defined.

