(* ===== verification/Threads.v ===== *)
(** * Threads: what a program may assume of the scheduler

    Seen from its own stack, a coroutine is a thread: what the scheduler does
    with the CPU, the contexts and the table of objects is not visible to it.
    This file makes the view precise. A [pool] holds, for every native stack,
    the code it still has to execute; [thread_step] is a step of one of them.
    The scheduler's machine of Coroutine.v refines this system: each of its
    steps is a step of the thread whose stack the CPU is on, or the return of
    a [swap_in], which no thread sees. *)

From S2P Require Import Prelude Words Coroutine.
From stdpp Require Import gmap.
#[local] Open Scope Z_scope.

Module Threads.
Import Sched SchedInv.
Section threads.
Context {U : Type}.
Implicit Types (m : machine U) (c : Coroutine U) (p k fn : prog U) (u : U) (x : option ptr).

(** The code of a stack, and the tasks its coroutine has deferred. *)
Abbreviation thread := (prog U * list (prog U))%type.
Abbreviation pool := (gmap (option ptr) thread).
Implicit Types (pl : pool) (ts : list (prog U)).

(** The calls that change no thread but the one that makes them; what they
    return is the scheduler's business. *)
Inductive goes_on x : prog U → prog U → Prop :=
| goes_resume co k : goes_on x (Resume co k) k
| goes_resume_cid id k : goes_on x (ResumeCid id k) k
| goes_yield k : x ≠ None → goes_on x (Yield k) k
| goes_get_current (k : option ptr → prog U) : goes_on x (GetCurrent k) (k x)
| goes_get_cid co (k : Z → prog U) id : goes_on x (GetCid co k) (k id).

(** A step of the thread on the stack [x]. *)
Inductive thread_step x : pool * U → pool * U → Prop :=
| thread_act f ts pl u u' p :
    pl !! x = Some (Act f, ts) → f u = Ok (u', p) → thread_step x (pl, u) (<[x := (p, ts)]> pl, u')
| thread_create fn (k : Z → prog U) ts pl u y id :
    pl !! x = Some (Create fn k, ts) → pl !! Some y = None →
    thread_step x (pl, u) (<[x := (k id, ts)]> (<[Some y := (fn, [])]> pl), u)
| thread_call p p' ts pl u :
    pl !! x = Some (p, ts) → goes_on x p p' → thread_step x (pl, u) (<[x := (p', ts)]> pl, u)
| thread_defer fn k ts pl u :
    x ≠ None → pl !! x = Some (Defer fn k, ts) → thread_step x (pl, u) (<[x := (k, fn :: ts)]> pl, u)
| thread_task t ts pl u :
    x ≠ None → pl !! x = Some (Ret, t :: ts) → thread_step x (pl, u) (<[x := (t, ts)]> pl, u)
| thread_end pl u :
    x ≠ None → pl !! x = Some (Ret, []) → thread_step x (pl, u) (delete x pl, u).

(** ** The pool of a machine *)
Definition tasks (obs : gmap ptr (Coroutine U)) x : list (prog U) :=
  default [] (a ← x; c ← obs !! a; defer_tasks (ctx c)).
#[local] Arguments tasks : simpl never.

(** The running stack has the code of the CPU, a suspended coroutine its saved
    code, and whoever has entered a coroutine the code at the return. *)
Record represents m pl : Prop := {
  rep_cpu : pl !! stack m = Some (resumption (cpu m), tasks (objects m) (stack m));
  rep_suspended a c p :
    objects m !! a = Some c → end_ (ctx c) = false → ctx_ (ctx c) = Some (Prog p, Some a) →
    pl !! Some a = Some (p, tasks (objects m) (Some a));
  rep_caller b c s o :
    objects m !! b = Some c → swap_ctx_ (ctx c) = Some (s, o) →
    pl !! o = Some (resumption s, tasks (objects m) o);
  rep_alive a t : pl !! Some a = Some t → ∃ c, objects m !! a = Some c ∧ end_ (ctx c) = false;
  rep_ended a c : objects m !! a = Some c → end_ (ctx c) = true → defer_tasks (ctx c) = None
}.

(** *** Facts on well-formed machines *)
Lemma tasks_insert_same (obs : gmap ptr (Coroutine U)) a c d x :
  obs !! a = Some c → defer_tasks (ctx d) = defer_tasks (ctx c) → tasks (<[a := d]> obs) x = tasks obs x.
Proof.
  intros Ha Hd. destruct x as [b|]; [|done]. unfold tasks; cbn. destruct (decide (a = b)) as [<-|Hab].
  - rewrite lookup_insert_eq, Ha. cbn. by rewrite Hd.
  - by rewrite lookup_insert_ne.
Qed.

Lemma tasks_insert_ne (obs : gmap ptr (Coroutine U)) a d x : x ≠ Some a → tasks (<[a := d]> obs) x = tasks obs x.
Proof. intros Hx. destruct x as [b|]; [|done]. unfold tasks; cbn. rewrite lookup_insert_ne; [done|congruence]. Qed.

Lemma tasks_delete_ne (obs : gmap ptr (Coroutine U)) a x : x ≠ Some a → tasks (delete a obs) x = tasks obs x.
Proof. intros Hx. destruct x as [b|]; [|done]. unfold tasks; cbn. rewrite lookup_delete_ne; [done|congruence]. Qed.

Lemma tasks_object (obs : gmap ptr (Coroutine U)) a c : obs !! a = Some c → tasks obs (Some a) = default [] (defer_tasks (ctx c)).
Proof. intros Ha. unfold tasks; cbn. by rewrite Ha. Qed.

Lemma chain_origin_in (obs : gmap ptr (Coroutine U)) o ch b c e :
  chain obs o ch → obs !! b = Some c → b ∈ ch → origin c = Some e → e ∈ tail ch.
Proof.
  revert o. induction ch as [|d ch IH]; intros o H Hb Hin He; [by apply elem_of_nil in Hin|].
  destruct H as (_ & c' & Hd & _ & H). cbn. apply elem_of_cons in Hin as [->|Hin].
  - rewrite Hb in Hd. injection Hd as <-. rewrite He in H. destruct ch as [|f ch]; [done|].
    destruct H as ([= ->] & _). left.
  - pose proof (IH _ H Hb Hin He) as Ht. destruct ch; [done|]. by right.
Qed.

(** Nobody returns to the running stack. *)
Lemma caller_not_running m b c s o :
  wf m → objects m !! b = Some c → swap_ctx_ (ctx c) = Some (s, o) → o ≠ stack m ∧ active b c ∧ o = origin c.
Proof.
  intros (Hs & (ch & Hch & Hnd & Hsus) & _) Hb Hsw.
  assert (Hin : b ∈ ch).
  { destruct (decide (b ∈ ch)) as [|Hn]; [done|]. destruct (Hsus b c Hb Hn) as (_ & Hx & _). congruence. }
  destruct (chain_lookup _ _ _ _ Hch Hin) as (d & Hd & Hact). rewrite Hb in Hd. injection Hd as <-.
  pose proof Hact as (_ & _ & s' & Hs' & _). rewrite Hsw in Hs'. injection Hs' as -> ->. split; [|done].
  rewrite Hs. intros E. destruct (current m) as [a|].
  - pose proof (chain_origin_in _ _ _ _ _ a Hch Hb Hin E) as Ht. destruct (chain_head _ _ _ _ Hch eq_refl) as [ch' ->].
    cbn in Ht. by apply NoDup_cons in Hnd as [Hn _].
  - destruct ch as [|d ch]; [by apply elem_of_nil in Hin|]. by destruct Hch as [? _].
Qed.

Lemma suspended_not_running m a c s : wf m → objects m !! a = Some c → ctx_ (ctx c) = Some s → Some a ≠ stack m.
Proof.
  intros Hwf Ha Hx E. destruct (wf_current m Hwf) as [(Hs & _)|(b & d & ch & Hs & _ & Hb & (Hn & _) & _)]; [congruence|].
  rewrite <- E in Hs. injection Hs as ->. congruence.
Qed.

Lemma running_alive m a : wf m → stack m = Some a → ∃ c, objects m !! a = Some c ∧ end_ (ctx c) = false.
Proof.
  intros Hwf E. destruct (wf_current m Hwf) as [(Hs & _)|(b & d & ch & Hs & _ & Hb & (_ & He & _) & _)]; [congruence|].
  exists d. split; [|done]. congruence.
Qed.

Lemma after_swap_prog a rest m m' : after_swap a rest m = Ok m' → ∃ p, cpu m' = Prog p.
Proof.
  unfold after_swap. intros H. apply outcome_bind_inv in H as ([b c] & _ & H).
  destruct (end_ (ctx c)); injection H as <-; by eexists.
Qed.

(** *** One lemma for each kind of step *)

(** The running code goes on. *)
Lemma rep_local m m' pl p :
  wf m → represents m pl → objects m' = objects m → stack m' = stack m → cpu m' = Prog p →
  represents m' (<[stack m := (p, tasks (objects m) (stack m))]> pl).
Proof.
  intros Hwf Hr Eo Es Ec. split; rewrite ?Eo, ?Es, ?Ec.
  - apply lookup_insert_eq.
  - intros a c q Ha He Hx. rewrite lookup_insert_ne; [by apply (rep_suspended m pl Hr a c)|].
    intros E. by eapply suspended_not_running.
  - intros b c s o Hb Hsw. destruct (caller_not_running m b c s o Hwf Hb Hsw) as [Hn _].
    rewrite lookup_insert_ne by done. by eapply (rep_caller m pl Hr).
  - intros a t. destruct (decide (stack m = Some a)) as [E|Hn].
    + intros _. by apply running_alive.
    + rewrite lookup_insert_ne by done. apply (rep_alive m pl Hr).
  - apply (rep_ended m pl Hr).
Qed.

(** A new coroutine. *)
Lemma rep_new m fn pl :
  wf m → represents m pl →
  let '(a, m') := new_coroutine fn m in pl !! Some a = None ∧ represents m' (<[Some a := (fn, [])]> pl).
Proof.
  intros Hwf Hr. unfold new_coroutine. set (a := next_ptr m).
  assert (Ha : objects m !! a = None).
  { destruct (objects m !! a) as [d|] eqn:E; [|done]. apply Hwf in E. unfold a in E. lia. }
  assert (Hp : pl !! Some a = None).
  { destruct (pl !! Some a) as [t|] eqn:E; [|done]. apply (rep_alive m pl Hr) in E as (c & Hc & _). congruence. }
  assert (Ht : ∀ x, x ≠ Some a → tasks (<[a := mkCoroutine None (mkContext (Some (Prog fn, Some a)) None None false) (last_cid m + 1)]> (objects m)) x = tasks (objects m) x)
    by (intros x; apply tasks_insert_ne).
  assert (Hs : stack m ≠ Some a).
  { intros E. destruct (running_alive m a Hwf E) as (c & Hc & _). congruence. }
  split; [exact Hp|]. split; cbn.
  - rewrite lookup_insert_ne, Ht by done. apply (rep_cpu m pl Hr).
  - intros b c q. destruct (decide (a = b)) as [<-|Hab].
    + rewrite !lookup_insert_eq. intros [= <-] _ [= <-]. by rewrite (tasks_object _ a _ (lookup_insert_eq _ _ _)).
    + rewrite !lookup_insert_ne, Ht by congruence. apply (rep_suspended m pl Hr).
  - intros b c s o. destruct (decide (a = b)) as [<-|Hab]; [rewrite lookup_insert_eq; by intros [= <-]|].
    rewrite lookup_insert_ne by done. intros Hb Hsw. pose proof (rep_caller m pl Hr b c s o Hb Hsw) as Ho.
    assert (o ≠ Some a) by congruence. by rewrite lookup_insert_ne, Ht by congruence.
  - intros b t. destruct (decide (a = b)) as [<-|Hab]; [rewrite !lookup_insert_eq; by eexists|].
    rewrite !lookup_insert_ne by congruence. apply (rep_alive m pl Hr).
  - intros b c. destruct (decide (a = b)) as [<-|Hab]; [rewrite lookup_insert_eq; by intros [= <-]|].
    rewrite lookup_insert_ne by done. apply (rep_ended m pl Hr).
Qed.

(** The CPU enters the suspended coroutine [a]; [s] is the caller's return. *)
Lemma rep_enter m a c p s pl :
  wf m → represents m pl → objects m !! a = Some c → end_ (ctx c) = false → ctx_ (ctx c) = Some (Prog p, Some a) →
  represents (entered m a c p s) (<[stack m := (resumption s, tasks (objects m) (stack m))]> pl).
Proof.
  intros Hwf Hr Ha He Hx.
  assert (Hs : Some a ≠ stack m) by by eapply suspended_not_running.
  assert (Ht : ∀ x, tasks (objects (entered m a c p s)) x = tasks (objects m) x)
    by (intros x; by apply (tasks_insert_same _ a c)).
  split.
  - rewrite Ht. cbn. rewrite lookup_insert_ne by done. by apply (rep_suspended m pl Hr a c).
  - intros b d q. rewrite Ht. cbn. destruct (decide (a = b)) as [<-|Hab]; [rewrite lookup_insert_eq; by intros [= <-]|].
    rewrite lookup_insert_ne by done. intros Hb Hed Hxd.
    assert (Some b ≠ stack m) by by eapply suspended_not_running.
    rewrite lookup_insert_ne by done. by apply (rep_suspended m pl Hr b d).
  - intros b d s' o. rewrite Ht. cbn. destruct (decide (a = b)) as [<-|Hab].
    + rewrite lookup_insert_eq. intros [= <-] [= <- <-]. apply lookup_insert_eq.
    + rewrite lookup_insert_ne by done. intros Hb Hsw. destruct (caller_not_running m b d s' o Hwf Hb Hsw) as [Hn _].
      rewrite lookup_insert_ne by done. by eapply (rep_caller m pl Hr).
  - intros b t. cbn. destruct (decide (a = b)) as [<-|Hab]; [rewrite lookup_insert_eq; by eexists|].
    rewrite (lookup_insert_ne (objects m)) by done. destruct (decide (stack m = Some b)) as [E|Hn].
    + intros _. by apply running_alive.
    + rewrite lookup_insert_ne by done. apply (rep_alive m pl Hr).
  - intros b d. cbn. destruct (decide (a = b)) as [<-|Hab].
    + rewrite lookup_insert_eq. intros [= <-]. cbn. congruence.
    + rewrite lookup_insert_ne by done. apply (rep_ended m pl Hr).
Qed.

(** The CPU leaves the running coroutine [a], which becomes [c']. *)
Lemma rep_left m a c c' s cur pl pl' :
  wf m → represents m pl → stack m = Some a → objects m !! a = Some c → swap_ctx_ (ctx c) = Some (s, origin c) →
  swap_ctx_ (ctx c') = None →
  (∀ x, x ≠ Some a → pl' !! x = pl !! x) →
  (∀ p, end_ (ctx c') = false → ctx_ (ctx c') = Some (Prog p, Some a) → pl' !! Some a = Some (p, default [] (defer_tasks (ctx c')))) →
  (is_Some (pl' !! Some a) → end_ (ctx c') = false) → (end_ (ctx c') = true → defer_tasks (ctx c') = None) →
  represents (left m a c c' s cur) pl'.
Proof.
  intros Hwf Hr Hs Ha Hsw Hsw' Hpl Hsus Hal Hen.
  assert (Ht : ∀ x, x ≠ Some a → tasks (objects (left m a c c' s cur)) x = tasks (objects m) x)
    by (intros x; apply tasks_insert_ne).
  assert (Hcn : ∀ b d s' o, objects m !! b = Some d → swap_ctx_ (ctx d) = Some (s', o) → o ≠ Some a).
  { intros b d s' o Hb Hd. rewrite <- Hs. by eapply caller_not_running. }
  split.
  - assert (origin c ≠ Some a) by by eapply Hcn. rewrite Ht by done. cbn. rewrite Hpl by done.
    by apply (rep_caller m pl Hr a c).
  - intros b d q. cbn. destruct (decide (a = b)) as [<-|Hab].
    + rewrite lookup_insert_eq. intros [= <-] He Hx. rewrite (tasks_object _ a c') by apply lookup_insert_eq. by apply Hsus.
    + rewrite lookup_insert_ne by done. intros Hb He Hx.
      rewrite Hpl, tasks_insert_ne by congruence. by apply (rep_suspended m pl Hr b d).
  - intros b d s' o. cbn. destruct (decide (a = b)) as [<-|Hab]; [rewrite lookup_insert_eq; intros [= <-]; congruence|].
    rewrite lookup_insert_ne by done. intros Hb Hd. assert (o ≠ Some a) by by eapply Hcn.
    rewrite Hpl, tasks_insert_ne by done. by eapply (rep_caller m pl Hr).
  - intros b t. cbn. destruct (decide (a = b)) as [<-|Hab].
    + rewrite lookup_insert_eq. intros Hb. exists c'. split; [done|]. apply Hal. by exists t.
    + rewrite lookup_insert_ne, Hpl by congruence. apply (rep_alive m pl Hr).
  - intros b d. cbn. destruct (decide (a = b)) as [<-|Hab]; [rewrite lookup_insert_eq; by intros [= <-]|].
    rewrite lookup_insert_ne by done. apply (rep_ended m pl Hr).
Qed.

(** Only the running coroutine's tasks change. *)
Lemma rep_tasks m m' a c p ts pl :
  wf m → represents m pl → stack m = Some a → objects m !! a = Some c → end_ (ctx c) = false →
  cpu m' = Prog p → stack m' = stack m → objects m' = <[a := with_tasks (Some ts) c]> (objects m) →
  represents m' (<[stack m := (p, ts)]> pl).
Proof.
  intros Hwf Hr Hs Ha He Ec Es Eo.
  assert (Hx : ctx_ (ctx c) = None).
  { destruct (wf_current m Hwf) as [(Hn & _)|(b & d & ch & Hs' & _ & Hb & (Hn & _) & _)]; congruence. }
  assert (Ht : ∀ x, x ≠ stack m → tasks (objects m') x = tasks (objects m) x).
  { intros x. rewrite Hs, Eo. apply tasks_insert_ne. }
  split; rewrite ?Ec, ?Es.
  - rewrite lookup_insert_eq, Hs, Eo. by rewrite (tasks_object _ a _ (lookup_insert_eq _ _ _)).
  - intros b d q. rewrite Eo. destruct (decide (a = b)) as [<-|Hab].
    + rewrite lookup_insert_eq. intros [= <-]. cbn. congruence.
    + rewrite lookup_insert_ne by done. intros Hb Hed Hxd.
      assert (Some b ≠ stack m) by by eapply suspended_not_running.
      rewrite <- Eo, Ht, lookup_insert_ne by done. by apply (rep_suspended m pl Hr b d).
  - intros b d s o Hb Hsw.
    assert (∃ d', objects m !! b = Some d' ∧ swap_ctx_ (ctx d') = Some (s, o)) as (d' & Hb' & Hsw').
    { rewrite Eo in Hb. destruct (decide (a = b)) as [<-|Hab].
      - rewrite lookup_insert_eq in Hb. injection Hb as <-. by exists c.
      - rewrite lookup_insert_ne in Hb by done. by exists d. }
    destruct (caller_not_running m b d' s o Hwf Hb' Hsw') as [Hn _].
    rewrite Ht, lookup_insert_ne by done. by eapply (rep_caller m pl Hr).
  - intros b t. rewrite Eo. destruct (decide (a = b)) as [<-|Hab]; [rewrite lookup_insert_eq; by eexists|].
    rewrite Hs, lookup_insert_ne, lookup_insert_ne by congruence. apply (rep_alive m pl Hr).
  - intros b d. rewrite Eo. destruct (decide (a = b)) as [<-|Hab].
    + rewrite lookup_insert_eq. intros [= <-]. cbn. congruence.
    + rewrite lookup_insert_ne by done. apply (rep_ended m pl Hr).
Qed.

(** The end of [run] or [_resume]: no thread sees it. *)
Lemma rep_return m m' a rest pl :
  represents m pl → left_behind a m → resumption (cpu m) = rest →
  after_swap a rest m = Ok m' → wf m' → represents m' pl ∧ globals m' = globals m.
Proof.
  intros Hr (c & Ha & Hsw) Hrest H Hwf. unfold after_swap, deref in H. rewrite Ha, outcome_bind_ok in H.
  destruct (end_ (ctx c)) eqn:He; injection H as <-; (split; [|done]).
  - assert (Hs : stack m ≠ Some a).
    { intros E. destruct (running_alive _ a Hwf E) as (d & Hd & _). cbn in Hd. by rewrite lookup_delete_eq in Hd. }
    assert (Ht : ∀ x, tasks (delete a (objects m)) x = tasks (objects m) x).
    { intros x. destruct (decide (x = Some a)) as [->|Hx]; [|by apply tasks_delete_ne].
      rewrite (tasks_object _ a c Ha), (rep_ended m pl Hr a c Ha He). unfold tasks. cbn. by rewrite lookup_delete_eq. }
    split; cbn; try setoid_rewrite Ht.
    + rewrite <- Hrest. apply (rep_cpu m pl Hr).
    + intros b d q [_ Hb]%lookup_delete_Some. by apply (rep_suspended m pl Hr).
    + intros b d s o [_ Hb]%lookup_delete_Some. by apply (rep_caller m pl Hr b d).
    + intros b t Hb. destruct (rep_alive m pl Hr b t Hb) as (d & Hd & Hed). exists d.
      rewrite lookup_delete_ne; [done|]. intros ->. congruence.
    + intros b d [_ Hb]%lookup_delete_Some. by apply (rep_ended m pl Hr b).
  - destruct Hr. split; cbn; by rewrite <- ?Hrest.
Qed.

(** ** Every step of the machine is a step of the running thread *)
Lemma running_current m : wf m → current m = stack m.
Proof. by intros [-> _]. Qed.

Lemma rep_prog m pl p : represents m pl → cpu m = Prog p → pl !! stack m = Some (p, tasks (objects m) (stack m)).
Proof. intros Hr Hc. pose proof (rep_cpu m pl Hr) as H. by rewrite Hc in H. Qed.

(** What a step of [m] does, for the pool [pl]. *)
Definition simulated m pl m' : Prop :=
  ∃ pl', represents m' pl' ∧ thread_step (stack m) (pl, globals m) (pl', globals m').

Lemma simulated_call m m' pl p p' :
  wf m → represents m pl → cpu m = Prog p → goes_on (stack m) p p' →
  objects m' = objects m → stack m' = stack m → cpu m' = Prog p' → globals m' = globals m → simulated m pl m'.
Proof.
  intros Hwf Hr Hc Hgo Ho Hs Hc' Hg. eexists. split; [by eapply rep_local|].
  rewrite Hg. eapply thread_call; [by apply rep_prog|done].
Qed.

Lemma simulated_enter m a c q p k pl :
  wf m → represents m pl → objects m !! a = Some c → end_ (ctx c) = false → ctx_ (ctx c) = Some (Prog q, Some a) →
  cpu m = Prog p → goes_on (stack m) p k → simulated m pl (entered m a c q (AfterResume a k)).
Proof.
  intros Hwf Hr Ha He Hx Hc Hgo. eexists. split; [by eapply rep_enter|].
  eapply thread_call; [by apply rep_prog|exact Hgo].
Qed.

Lemma simulated_resume m m' co p k pl :
  wf m → represents m pl → cpu m = Prog p → goes_on (stack m) p k → resume co k m = Ok m' → simulated m pl m'.
Proof.
  intros Hwf Hr Hc Hgo H. destruct co as [a|]; [|discriminate H].
  destruct (resume_spec m a k Hwf) as (ch & Hch & Hsp). destruct (objects m !! a) as [c|] eqn:Ha; [|congruence].
  case_bool_decide as Hcur; [congruence|]. case_bool_decide as Hin; [congruence|].
  destruct Hsp as (q & Hx & Hres & _). rewrite Hres in H. injection H as <-.
  destruct (off_chain_suspended m ch a c Hwf (proj1 Hch) Ha Hin) as (He & _).
  by eapply simulated_enter.
Qed.

Lemma simulated_create m m' fn (k : Z → prog U) pl :
  wf m → represents m pl → cpu m = Prog (Create fn k) → create fn k m = Ok m' → simulated m pl m'.
Proof.
  intros Hwf Hr Hc H. pose proof (rep_new m fn pl Hwf Hr) as Hnew. pose proof (new_coroutine_wf fn m Hwf) as Hwn.
  unfold create in H. unfold new_coroutine in *. cbv beta iota zeta in *.
  set (m1 := mkMachine _ _ _ _ _ _ _ _) in *. destruct Hnew as [Hfree Hr1].
  destruct Hwn as (Hwf1 & c & Ha & (He & _) & Hcid & Hx & _).
  rewrite (run_enter m1 _ c fn k Ha Hx) in H. injection H as <-.
  pose proof (rep_enter m1 _ c fn (AfterRun (next_ptr m) (cid c) k) _ Hwf1 Hr1 Ha He Hx) as Hr2.
  eexists. split; [exact Hr2|]. cbn [resumption]. change (globals (entered _ _ _ _ _)) with (globals m).
  subst m1. cbn [objects stack]. rewrite (tasks_insert_ne (objects m)); [eapply thread_create; [by apply rep_prog|done]|].
  intros E. pose proof (rep_prog m pl _ Hr Hc) as Hp. rewrite E in Hp. congruence.
Qed.

Lemma simulated_yield m a c ch s k pl :
  wf m → represents m pl → cpu m = Prog (Yield k) → stack m = Some a → objects m !! a = Some c → active a c →
  swap_ctx_ (ctx c) = Some (s, origin c) → scheduled (objects m) (Some a) (a :: ch) →
  simulated m pl (yielded m a c k s).
Proof.
  intros Hwf Hr Hc Hs Ha (_ & He & _) Hsw Hch. exists (<[Some a := (k, tasks (objects m) (Some a))]> pl). split.
  - unfold yielded. eapply rep_left; [done..|by rewrite Hsw| | | | |]; cbn; try congruence.
    + intros x Hx. by rewrite lookup_insert_ne.
    + intros p _ [= <-]. by rewrite lookup_insert_eq, (tasks_object _ a c).
  - cbn. rewrite <- Hs. eapply thread_call; [by apply rep_prog|]. constructor. congruence.
Qed.

Lemma simulated_ret m a c m' pl :
  wf m → represents m pl → cpu m = Prog Ret → stack m = Some a → objects m !! a = Some c → active a c →
  context_func a m = Ok m' → simulated m pl m'.
Proof.
  intros Hwf Hr Hc Hs Ha (Hx & He & s & Hsw & _) H.
  pose proof (rep_prog m pl _ Hr Hc) as Hp. rewrite Hs, (tasks_object _ a c Ha) in Hp.
  assert (Hn : stack m ≠ None) by congruence.
  assert (Hend : defer_tasks (ctx c) = None ∨ defer_tasks (ctx c) = Some [] → simulated m pl m').
  { intros Hd. rewrite (context_func_end m a c s Hs Ha Hsw Hd) in H. injection H as <-.
    exists (delete (Some a) pl). split.
    - eapply rep_left; [done..|by rewrite Hsw| | | | |]; cbn; try done.
      + intros x Hxa. by rewrite lookup_delete_ne.
      + rewrite lookup_delete_eq. by intros [t Ht].
    - cbn. rewrite Hs. apply thread_end; [congruence|]. by destruct Hd as [Hd|Hd]; rewrite Hd in Hp. }
  destruct (defer_tasks (ctx c)) as [[|t ts]|] eqn:Hd; [by auto| |by auto].
  unfold context_func, deref in H. rewrite Ha, outcome_bind_ok in H. cbv beta iota in H. rewrite Hd in H. injection H as <-.
  eexists. split; [eapply (rep_tasks m _ a c t ts pl); done|]. cbn [globals set_cpu set_object]. apply thread_task; [done|]. by rewrite Hs.
Qed.

Lemma step_simulated m m' pl :
  wf_step m → represents m pl → step m = Ok (Some m') →
  (∃ p, cpu m = Prog p ∧ simulated m pl m') ∨
  ((∃ a id, returns (cpu m) a id) ∧ (∃ p, cpu m' = Prog p) ∧ represents m' pl ∧ globals m' = globals m).
Proof.
  intros Hwf Hr H. unfold wf_step in Hwf. unfold step in H.
  assert (Hcall : ∀ r : outcome (machine U), Some <$> r = Ok (Some m') → r = Ok m').
  { intros [x| |] E; [by injection E as ->|discriminate E..]. }
  destruct (cpu m) as [p|a id k|a k] eqn:Hc.
  2,3: right; apply Hcall in H; destruct Hwf as (Hl & m2 & H2 & Hw); assert (m2 = m') as -> by congruence;
    split; [first [by exists a, id; left; eexists|by exists a, 0; right; eexists]|];
    (split; [by eapply after_swap_prog|]); eapply rep_return; [done..|by rewrite Hc|done|done].
  left. exists p. split; [done|]. pose proof (running_current m Hwf) as Hcur.
  assert (Hco : ∀ k : prog U, (p = Yield k ∨ p = Ret ∧ stack m ≠ None ∨ ∃ fn, p = Defer fn k) →
    ∃ a c ch, stack m = Some a ∧ current m = Some a ∧ objects m !! a = Some c ∧ active a c ∧ scheduled (objects m) (Some a) (a :: ch)).
  { intros k Hk. destruct (wf_current m Hwf) as [(Hs & Hn & _)|(a & c & ch & Hs)]; [|by exists a, c, ch].
    exfalso. destruct Hk as [->|[[_ Hk]|[fn ->]]]; [| done|]; unfold yield, defer, deref in H; by rewrite Hn in H. }
  destruct p as [|f|fn k|co k|id k|k|k|co k|fn k].
  - destruct (stack m) as [b|] eqn:Hs; [|done]. apply Hcall in H.
    destruct (Hco Ret) as (a & c & ch & Hs' & _ & Ha & Hact & Hch); [by right; left|].
    injection Hs' as ->. by eapply simulated_ret.
  - destruct (f (globals m)) as [[u q]| |] eqn:E; try discriminate H. injection H as <-.
    eexists. split; [by eapply (rep_local m)|]. eapply thread_act; [by apply rep_prog|done].
  - apply Hcall in H. by eapply simulated_create.
  - apply Hcall in H. eapply simulated_resume; [done|done|done|constructor|done].
  - apply Hcall in H. eapply simulated_resume; [done|done|done|constructor|done].
  - apply Hcall in H. destruct (Hco k) as (a & c & ch & Hs & Hca & Ha & Hact & Hch); [by left|].
    destruct (yield_wf m a c ch k Hwf Hs Hca Ha Hact Hch) as (s & Hsw & Hy & _). rewrite Hy in H. injection H as <-.
    by eapply simulated_yield.
  - injection H as <-. eapply (simulated_call m _ pl _ (k (current m))); [done|done|done|rewrite Hcur; constructor|done..].
  - apply Hcall in H. destruct (get_cid_inv m co k m' H) as (c & _ & ->).
    eapply (simulated_call m _ pl _ (k (cid c))); [done|done|done|constructor|done..].
  - apply Hcall in H. destruct (Hco k) as (a & c & ch & Hs & Hca & Ha & (_ & He & _) & Hch); [right; right; by eexists|].
    destruct (defer_wf m a c ch fn k Hwf Hs Hca Ha Hch) as [Hd _]. rewrite Hd in H. injection H as <-.
    eexists. split; [eapply (rep_tasks m _ a c k); done|]. cbn [globals set_cpu set_object].
    apply thread_defer; [congruence|]. rewrite (rep_prog m pl _ Hr Hc), Hs, (tasks_object _ a c Ha). done.
Qed.

Lemma boot_represents p u : represents (boot p u) {[None := (p, [])]}.
Proof.
  split; cbn.
  - by rewrite lookup_singleton_eq.
  - intros a c q Ha. by rewrite lookup_empty in Ha.
  - intros b c s o Hb. by rewrite lookup_empty in Hb.
  - intros a t Ht. by rewrite lookup_singleton_ne in Ht.
  - intros a c Ha. by rewrite lookup_empty in Ha.
Qed.

(** The executions of the threads. *)
Inductive threads_reach (s0 : pool * U) : pool * U → Prop :=
| threads_start : threads_reach s0 s0
| threads_next x s s' : threads_reach s0 s → thread_step x s s' → threads_reach s0 s'.

Lemma reachable_represents p u m :
  reachable (boot p u) m → ∃ pl, represents m pl ∧ threads_reach ({[None := (p, [])]}, u) (pl, globals m).
Proof.
  induction 1 as [|m m' Hr (pl & Hrep & Ht) Hst]; [eexists; split; [apply boot_represents|constructor]|].
  pose proof (reachable_wf _ _ (boot_wf p u) Hr) as Hwf.
  destruct (step_simulated m m' pl Hwf Hrep Hst) as [(q & _ & pl' & Hrep' & Hth)|(_ & _ & Hrep' & Hg)].
  - exists pl'. split; [done|]. by eapply threads_next.
  - exists pl. split; [done|]. by rewrite Hg.
Qed.
End threads.
End Threads.

(** ** Property *)
Section threads_properties.
Import Sched SchedInv Threads.
Context {U : Type}.

(** C2: coroutines are threads. Every state an execution of the scheduler gets
    to is the state of an interleaving of independent threads, one for every
    stack, each executing its own code to the end: contexts, [swap_in],
    [swap_out] and the table of objects lose no step, repeat none and mix no
    two stacks. A step of the machine is a step of the thread whose stack the
    CPU is on, or it is the return of a [swap_in], which changes nothing a
    thread sees and is not followed by another one. *)
Theorem scheduler_refines_threads (p : prog U) (u : U) (m : machine U) :
  reachable (boot p u) m →
  ∃ pl, represents m pl ∧ threads_reach ({[None := (p, [])]}, u) (pl, globals m) ∧
    ∀ m', Sched.step m = Ok (Some m') →
      (∃ pl', represents m' pl' ∧ thread_step (stack m) (pl, globals m) (pl', globals m')) ∨
      ((∃ a id, returns (cpu m) a id) ∧ (∃ q, cpu m' = Prog q) ∧ represents m' pl ∧ globals m' = globals m).
Proof.
  intros Hr. destruct (reachable_represents p u m Hr) as (pl & Hrep & Ht). exists pl. split; [done|]. split; [done|].
  intros m' Hst. pose proof (reachable_wf _ _ (boot_wf p u) Hr) as Hwf.
  destruct (step_simulated m m' pl Hwf Hrep Hst) as [(q & _ & Hsim)|H]; [by left|by right].
Qed.
End threads_properties.

Section threads_example.
Import Sched SchedInv Threads.

(** The example of docs/docs/coroutine.md: inside the second coroutine, the
    first waits after its [yield], the main function after its second [create]. *)
Lemma scheduler_refines_threads_witness :
  ∃ pl : gmap (option ptr) (prog (list Z) * list (prog (list Z))),
    pl !! Some 1%positive = Some (log 3 Ret, []) ∧ pl !! None = Some (Ret, []) ∧
    threads_reach ({[None := (ping_pong, [])]}, []) (pl, [1; 2]).
Proof.
  destruct (scheduler_refines_threads ping_pong [] (at_step 6 ping_pong []) (at_step_reachable 6 ping_pong []))
    as (pl & Hrep & Ht & _).
  assert (H1 : ∃ c, objects (at_step 6 ping_pong []) !! 1%positive = Some c ∧ end_ (ctx c) = false ∧
    ctx_ (ctx c) = Some (Prog (log 3 Ret), Some 1%positive) ∧ defer_tasks (ctx c) = None)
    by (eexists; vm_compute; by split_and!).
  assert (H2 : ∃ c s, objects (at_step 6 ping_pong []) !! 2%positive = Some c ∧
    swap_ctx_ (ctx c) = Some (s, None) ∧ resumption s = Ret) by (do 2 eexists; vm_compute; by split_and!).
  destruct H1 as (c & Hc & He & Hx & Hd). destruct H2 as (d & s & Hd' & Hsw & Hs).
  exists pl. split; [|split].
  - rewrite (rep_suspended _ _ Hrep _ _ _ Hc He Hx), (tasks_object _ _ _ Hc), Hd. reflexivity.
  - rewrite (rep_caller _ _ Hrep _ _ _ _ Hd' Hsw), Hs. reflexivity.
  - assert (Hg : globals (at_step 6 ping_pong []) = [1; 2]) by (vm_compute; reflexivity). by rewrite Hg in Ht.
Defined.
End threads_example.
