(* ===== verification/Progress.v ===== *)
(** * Progress: the threads end, and the process can always go on to its end

    A program makes finitely many steps, so a pool of threads comes to an end
    however it is scheduled ([pool_wf]); what can keep the process of
    coroutine::run from ending is only the world: descriptors of which the
    kernel never reports an event and a clock that stands still. The theorem:
    from every state the process can get to, some reports of the kernel and
    some times lead to the return of the event loop. No coroutine is forgotten,
    and none waits for something that can no longer happen. *)

From S2P Require Import Prelude Words Timer Coroutine Waiters Sleep Event Threads.
From stdpp Require Import gmap relations.
#[local] Open Scope Z_scope.

Module Termination.
Import Threads.
Section termination.
Context {U : Type}.
Implicit Types (p fn : prog U) (u : U) (x y : option ptr) (ts : list (prog U)).
Abbreviation thread := (prog U * list (prog U))%type.
Abbreviation pool := (gmap (option ptr) thread).
Implicit Types (pl : pool) (t : thread).

(** Induction on a program: what an action goes on with is a part of it. *)
Section prog_induction.
Variable Q : prog U → Prop.
Context (Hret : Q Ret) (Hact : ∀ f, (∀ u u' p, f u = Ok (u', p) → Q p) → Q (Act f)).
Context (Hcreate : ∀ fn k, Q fn → (∀ id, Q (k id)) → Q (Create fn k)) (Hresume : ∀ co k, Q k → Q (Resume co k)).
Context (Hcid : ∀ id k, Q k → Q (ResumeCid id k)) (Hyield : ∀ k, Q k → Q (Yield k)).
Context (Hcur : ∀ k : option ptr → prog U, (∀ co, Q (k co)) → Q (GetCurrent k)).
Context (Hget : ∀ co (k : Z → prog U), (∀ id, Q (k id)) → Q (GetCid co k)) (Hdefer : ∀ fn k, Q fn → Q k → Q (Defer fn k)).

Fixpoint prog_deep_ind p : Q p :=
  match p with
  | Ret => Hret
  | Act f => Hact f (λ u u' p' E,
      match f u as o return o = Ok (u', p') → Q p' with
      | Ok (u0, p0) => λ E, match E in _ = o return match o with Ok (_, q) => Q q | _ => True end with eq_refl => prog_deep_ind p0 end
      | Exit => λ E, match E in _ = o return match o with Ok (_, q) => Q q | _ => True end with eq_refl => I end
      | UB => λ E, match E in _ = o return match o with Ok (_, q) => Q q | _ => True end with eq_refl => I end
      end E)
  | Create fn k => Hcreate fn k (prog_deep_ind fn) (λ id, prog_deep_ind (k id))
  | Resume co k => Hresume co k (prog_deep_ind k)
  | ResumeCid id k => Hcid id k (prog_deep_ind k)
  | Yield k => Hyield k (prog_deep_ind k)
  | GetCurrent k => Hcur k (λ co, prog_deep_ind (k co))
  | GetCid co k => Hget co k (λ id, prog_deep_ind (k id))
  | Defer fn k => Hdefer fn k (prog_deep_ind fn) (prog_deep_ind k)
  end.
End prog_induction.

(** A step of some thread, whatever the state around it. *)
Definition pool_step pl' pl : Prop := ∃ x u u', thread_step x (pl, u) (pl', u').

(** The threads of a pool do not need the others. *)
Lemma step_frame x y t pl u pl' u' :
  pl !! x = None → y ≠ x → thread_step y (<[x := t]> pl, u) (pl', u') →
  ∃ pl'', pl' = <[x := t]> pl'' ∧ pl'' !! x = None ∧ pool_step pl'' pl.
Proof.
  intros Hx Hxy Hst.
  inversion Hst as [f ts ? ? ? p Hy Hf|fn k ts ? ? z id Hy Hz|p p' ts ? ? Hy Hgo|fn k ts ? ? Hn Hy|s ts ? ? Hn Hy|? ? Hn Hy]; subst;
    rewrite lookup_insert_ne in Hy by done.
  - exists (<[y := (p, ts)]> pl). rewrite insert_insert_ne by done. split; [done|]. rewrite lookup_insert_ne by done.
    split; [done|]. exists y, u, u'. by eapply thread_act.
  - assert (Hzx : Some z ≠ x) by (intros <-; by rewrite lookup_insert_eq in Hz).
    rewrite lookup_insert_ne in Hz by done. exists (<[y := (k id, ts)]> (<[Some z := (fn, [])]> pl)).
    rewrite (insert_insert_ne _ (Some z)), (insert_insert_ne _ y) by done. split; [done|].
    rewrite !lookup_insert_ne by done. split; [done|]. exists y, u', u'. by eapply thread_create.
  - exists (<[y := (p', ts)]> pl). rewrite insert_insert_ne by done. split; [done|]. rewrite lookup_insert_ne by done.
    split; [done|]. exists y, u', u'. by eapply thread_call.
  - exists (<[y := (k, fn :: ts)]> pl). rewrite insert_insert_ne by done. split; [done|]. rewrite lookup_insert_ne by done.
    split; [done|]. exists y, u', u'. by eapply thread_defer.
  - exists (<[y := (s, ts)]> pl). rewrite insert_insert_ne by done. split; [done|]. rewrite lookup_insert_ne by done.
    split; [done|]. exists y, u', u'. by eapply thread_task.
  - exists (delete y pl). rewrite delete_insert_ne by done. split; [done|]. rewrite lookup_delete_ne by done.
    split; [done|]. exists y, u', u'. by eapply thread_end.
Qed.

(** A thread that does not keep a pool from ending. *)
Definition ends t : Prop := ∀ pl x, Acc pool_step pl → pl !! x = None → Acc pool_step (<[x := t]> pl).

Lemma ends_by_steps t :
  (∀ x u u' pl pl', Acc pool_step pl → pl !! x = None → thread_step x (<[x := t]> pl, u) (pl', u') → Acc pool_step pl') → ends t.
Proof.
  intros Hown pl x Hacc. induction Hacc as [pl Hacc IH]. intros Hx. constructor. intros pl' (y & u & u' & Hst).
  destruct (decide (y = x)) as [->|Hne].
  - eapply Hown; [by constructor|exact Hx|exact Hst].
  - destruct (step_frame x y t pl u pl' u' Hx Hne Hst) as (pl'' & -> & Hx' & Hs). by apply IH.
Qed.

Lemma ends_goes p p' ts : (∀ q, (∃ x, goes_on x p q) → ends (q, ts)) → (∀ f, p ≠ Act f) → (∀ fn k, p ≠ Create fn k) →
  (∀ fn k, p ≠ Defer fn k) → p ≠ Ret → p' = p → ends (p', ts).
Proof.
  intros Hgo H1 H2 H3 H4 ->. apply ends_by_steps. intros x u u' pl pl' Hacc Hx Hst.
  inversion Hst as [f ts' ? ? ? q Hy Hf|fn k ts' ? ? z id Hy Hz|q q' ts' ? ? Hy Hg|fn k ts' ? ? Hn Hy|s ts' ? ? Hn Hy|? ? Hn Hy]; subst;
    rewrite lookup_insert_eq in Hy; injection Hy as ? ?; subst; try congruence; try (by eapply H1); try (by eapply H2); try (by eapply H3).
  rewrite insert_insert_eq. apply Hgo; [by exists x|done|done].
Qed.

(** What one step makes of the thread on [x], the only one that moves. *)
Ltac step_of Hst Hx :=
  inversion Hst as [f0 ts0 ? ? ? q0 Hy Hf|fn0 k0 ts0 ? ? z0 id0 Hy Hz|q0 q0' ts0 ? ? Hy Hg|fn0 k0 ts0 ? ? Hn Hy|s0 ts0 ? ? Hn Hy|? ? Hn Hy]; subst;
  rewrite lookup_insert_eq in Hy; simplify_eq; try (inversion Hg; fail);
  rewrite ?insert_insert_eq, ?(delete_insert_id _ _ _ Hx).

Lemma ends_task fn ts : ends (fn, ts) → ends (Ret, fn :: ts).
Proof. intros H. apply ends_by_steps. intros x u u' pl pl' Hacc Hx Hst. step_of Hst Hx. by apply H. Qed.

Lemma ends_over : ends (Ret, []).
Proof.
  apply ends_by_steps. intros x u u' pl pl' Hacc Hx Hst. step_of Hst Hx. exact Hacc.
Qed.

Lemma ends_prog p : ∀ ts, ends (Ret, ts) → ends (p, ts).
Proof.
  induction p as [|f IH|fn k IHf IH|co k IH|id k IH|k IH|k IH|co k IH|fn k IHf IH] using prog_deep_ind; intros ts Hts; [done|..];
    apply ends_by_steps; intros x u u' pl pl' Hacc Hx Hst; step_of Hst Hx.
  - by eapply IH.
  - assert (Hzx : Some z0 ≠ x) by (intros <-; by rewrite lookup_insert_eq in Hz).
    rewrite lookup_insert_ne in Hz by done. rewrite (insert_insert_ne _ (Some z0)), insert_insert_eq by done.
    apply IH; [done| |by rewrite lookup_insert_ne]. apply IHf; [apply ends_over|done|done].
  - inversion Hg; subst. by apply IH.
  - inversion Hg; subst. by apply IH.
  - inversion Hg; subst. by apply IH.
  - inversion Hg; subst. by apply IH.
  - inversion Hg; subst. by apply IH.
  - apply IH; [|done..]. apply ends_task. by apply IHf.
Qed.

Lemma ends_thread t : ends t.
Proof.
  destruct t as [p ts]. apply ends_prog. induction ts as [|fn ts IH]; [apply ends_over|]. by apply ends_task, ends_prog.
Qed.

(** However its threads are scheduled, a pool comes to an end. *)
Lemma pool_wf : well_founded pool_step.
Proof.
  intros pl. induction pl as [|x t pl Hx IH] using map_ind; [|exact (ends_thread t pl x IH Hx)].
  constructor. intros pl' (x & u & u' & Hst).
  inversion Hst as [f ts ? ? ? q Hy Hf|fn k ts ? ? z id Hy Hz|q q' ts ? ? Hy Hg|fn k ts ? ? Hn Hy|s ts ? ? Hn Hy|? ? Hn Hy]; subst;
    by rewrite lookup_empty in Hy.
Qed.
End termination.
End Termination.

Lemma tc_well_founded {A} (R : relation A) : well_founded R → well_founded (tc R).
Proof.
  intros Hwf x. induction (Hwf x) as [x _ IH]. constructor. intros y Hy.
  induction Hy as [y x Hyx|y z x Hyz _ IHz]; [by apply IH|]. exact (Acc_inv (IHz IH) (tc_once _ _ _ Hyz)).
Qed.

(** ** The process *)
Module Progress.
Import Sched SchedInv EventLoop EventFacts Threads Termination.
Section progress.
Context {U K TQ : Type} `{!PQueue co_timer CompareTimerPointer TQ} `{!Epoll K}.
Context `{!Part Event U} `{!Part (time_state TQ) U} `{!Part K U}.
Context `{!Apart Event (time_state TQ) U} `{!Apart Event K U} `{!Apart (time_state TQ) Event U}.
Context `{!Apart (time_state TQ) K U} `{!Apart K Event U} `{!Apart K (time_state TQ) U}.
Context {strict : bool}.
Implicit Types (m : machine U) (u : U) (p : prog U) (l : loop (U := U)) (q : phase).
Abbreviation pool := (gmap (option ptr) (prog U * list (prog U))).
Implicit Types (pl : pool).
Abbreviation linv := (EventFacts.linv (K := K) (TQ := TQ) (strict := strict)).
Abbreviation loop_step := (EventLoop.loop_step (K := K) (TQ := TQ)).
Abbreviation loop_reachable := (EventLoop.loop_reachable (K := K) (TQ := TQ)).

(** An event of any registered descriptor can be reported alone. *)
Definition reports : Prop := ∀ (k : K) fd ev n, interest k !! fd = Some ev → 0 < n → ∃ ev', epoll_report k n [ev'].

(** What the process keeps, in which it makes no undefined step. *)
Variable I : loop (U := U) → Prop.
Context (I_linv : ∀ l, I l → linv l).
Context (I_step : ∀ l r, I l → last_cid (mach l) < 2 ^ 31 → loop_step l r → ∃ l', r = Ok l' ∧ I l').

(** The process can end, unless it creates more coroutines than it can number. *)
Definition can_return l : Prop := ∃ l', loop_reachable l l' ∧ (ph l' = Returned ∨ 2 ^ 31 ≤ last_cid (mach l')).

Lemma reachable_trans l0 l1 l2 : loop_reachable l0 l1 → loop_reachable l1 l2 → loop_reachable l0 l2.
Proof. intros H0. induction 1 as [|l l' _ IH Hst]; [done|]. by eapply loop_next. Qed.

Lemma can_return_reach l l' : loop_reachable l l' → can_return l' → can_return l.
Proof. intros H (l2 & H2 & Hp). exists l2. split; [by eapply reachable_trans|done]. Qed.

Lemma can_return_step l l' : loop_step l (Ok l') → can_return l' → can_return l.
Proof. intros H. apply can_return_reach. eapply loop_next; [constructor|done]. Qed.

(** ** Running to the next rest *)

(** The main stack only makes the loop's own calls. *)
Definition loop_call p : Prop := p = Ret ∨ (∃ co, p = Resume co Ret) ∨ (∃ id, p = ResumeCid id Ret).
Definition calm pl : Prop := ∃ p, pl !! None = Some (p, []) ∧ loop_call p.
Definition coroutines_of pl : pool := delete None pl.

Lemma calm_step x pl u pl' u' :
  calm pl → thread_step x (pl, u) (pl', u') →
  calm pl' ∧ if decide (x = None) then coroutines_of pl' = coroutines_of pl else pool_step (coroutines_of pl') (coroutines_of pl).
Proof.
  intros (p & Hp & Hcall) Hst. destruct (decide (x = None)) as [->|Hx].
  - inversion Hst as [f ts ? ? ? p0 Hy Hf|fn k ts ? ? z id Hy Hz|p0 p' ts ? ? Hy Hg|fn k ts ? ? Hn Hy|s ts ? ? Hn Hy|? ? Hn Hy]; subst; try done;
      rewrite Hp in Hy; injection Hy as ? ?; subst; try (by destruct Hcall as [?|[[? ?]|[? ?]]]).
    split; [|unfold coroutines_of; by rewrite delete_insert_eq]. exists p'. rewrite lookup_insert_eq. split; [done|].
    destruct Hcall as [->|[[co ->]|[id ->]]]; inversion Hg; subst; by left.
  - rewrite <- (insert_delete_id pl None (p, [])) in Hst by done.
    destruct (step_frame None x (p, []) (delete None pl) u pl' u' (lookup_delete_eq _ _) Hx Hst) as (pl'' & -> & Hn & Hs).
    split; [exists p; by rewrite lookup_insert_eq|]. unfold coroutines_of. by rewrite delete_insert_id.
Qed.

Lemma rest_calm m pl : represents m pl → at_rest m → calm pl.
Proof. intros Hr [Hc Hs]. pose proof (rep_prog m pl _ Hr Hc) as H. rewrite Hs in H. exists Ret. split; [exact H|by left]. Qed.

Lemma rest_dec m : at_rest m ∨ ¬ at_rest m.
Proof.
  unfold at_rest. destruct (stack m); [right; by intros [_ ?]|]. destruct (cpu m) as [[]| |]; (by left) || (right; by intros [? _]).
Qed.

Lemma linv_wf l : linv l → wf_step (mach l).
Proof. intros (pend & (cs & ios & ts & regs & (Hwf & _) & _) & _). exact Hwf. Qed.

Lemma code_step m q : I (mkLoop m q) → last_cid m < 2 ^ 31 → ¬ at_rest m →
  ∃ m', step m = Ok (Some m') ∧ loop_step (mkLoop m q) (Ok (mkLoop m' q)) ∧ I (mkLoop m' q).
Proof.
  intros HI Hc Hn. destruct (I_step _ _ HI Hc (EventLoop.step_code m q _ Hn eq_refl)) as (l' & E & HI').
  pose proof (EventLoop.step_code (K := K) (TQ := TQ) m q _ Hn eq_refl) as Hst.
  destruct (step m) as [[m'|]| |]; try discriminate E. injection E as <-. by exists m'.
Qed.

(** What running to the next rest gives. *)
Definition comes_to_rest (lt : relation pool) m pl q : Prop :=
  ∃ m', loop_reachable (mkLoop m q) (mkLoop m' q) ∧
    (2 ^ 31 ≤ last_cid m' ∨
     last_cid m' < 2 ^ 31 ∧ at_rest m' ∧ I (mkLoop m' q) ∧
       ∃ pl', represents m' pl' ∧ (calm pl → lt (coroutines_of pl') (coroutines_of pl))).

Lemma comes_to_rest_step (lt lt' : relation pool) m m1 pl pl1 q :
  loop_step (mkLoop m q) (Ok (mkLoop m1 q)) →
  (calm pl → calm pl1 ∧ ∀ N, lt N (coroutines_of pl1) → lt' N (coroutines_of pl)) →
  comes_to_rest lt m1 pl1 q → comes_to_rest lt' m pl q.
Proof.
  intros Hst Hlt (m' & Hr & H). exists m'. split; [eapply reachable_trans; [eapply loop_next; [constructor|exact Hst]|exact Hr]|].
  destruct H as [H|(Hc & Hrest & HI & pl' & Hrep & Hl)]; [by left|right]. split_and!; [done..|]. exists pl'. split; [done|].
  intros Hcalm. destruct (Hlt Hcalm) as [H1 H2]. by apply H2, Hl.
Qed.

(** The running code comes to rest; a coroutine that runs has moved. *)
Lemma runs_to_rest pl : ∀ m q, I (mkLoop m q) → represents m pl → last_cid m < 2 ^ 31 →
  comes_to_rest (rtc pool_step) m pl q ∧ ((∃ p, cpu m = Prog p) → stack m ≠ None → comes_to_rest (tc pool_step) m pl q).
Proof.
  induction (pool_wf pl) as [pl _ IH]. intros m q HI Hrep Hc.
  assert (Hstop : ∀ (lt : relation pool) m1 pl1, 2 ^ 31 ≤ last_cid m1 → comes_to_rest lt m1 pl1 q).
  { intros lt m1 pl1 H. exists m1. split; [constructor|by left]. }
  assert (Hcore : ∀ m, I (mkLoop m q) → represents m pl → last_cid m < 2 ^ 31 → (∃ p, cpu m = Prog p) →
    comes_to_rest (rtc pool_step) m pl q ∧ (stack m ≠ None → comes_to_rest (tc pool_step) m pl q)).
  { clear m HI Hrep Hc. intros m HI Hrep Hc (p & Hp). destruct (rest_dec m) as [Hrest|Hn].
    { split; [|by destruct Hrest]. exists m. split; [constructor|right]. split_and!; [done..|]. exists pl. split; [done|]. by intros _. }
    destruct (code_step m q HI Hc Hn) as (m1 & Hst & Hls & HI1).
    destruct (step_simulated m m1 pl (linv_wf _ (I_linv _ HI)) Hrep Hst) as [(_ & _ & pl1 & Hrep1 & Hth)|((a & id & Hret) & _)].
    2: { exfalso. destruct Hret as [[k E]|[k E]]; congruence. }
    assert (H1 : comes_to_rest (rtc pool_step) m1 pl1 q).
    { destruct (Z.le_gt_cases (2 ^ 31) (last_cid m1)) as [Hge|Hlt]; [by apply Hstop|].
      apply IH; [by exists (stack m), (globals m), (globals m1)|done..]. }
    split; [|intros Hs]; (eapply comes_to_rest_step; [exact Hls| |exact H1]); intros Hcalm;
      destruct (calm_step _ _ _ _ _ Hcalm Hth) as [Hcalm1 Hlt]; (split; [exact Hcalm1|]); intros N HN.
    - destruct (decide (stack m = None)); [by rewrite <- Hlt|]. by eapply rtc_r.
    - rewrite decide_False in Hlt by done. apply rtc_tc in HN as [->|HN]; [by apply tc_once|by eapply tc_r]. }
  destruct (cpu m) as [p|a id k|a k] eqn:Ecpu; [split; [apply Hcore; by eauto|]; intros Hp; apply Hcore; by eauto| |];
    (split; [|by intros [p ?]]);
    (assert (Hn : ¬ at_rest m) by (intros [? _]; congruence); destruct (code_step m q HI Hc Hn) as (m1 & Hst & Hls & HI1);
     destruct (step_simulated m m1 pl (linv_wf _ (I_linv _ HI)) Hrep Hst) as [(p & Hp & _)|(_ & Hp1 & Hrep1 & _)]; [congruence|];
     eapply comes_to_rest_step; [exact Hls|by intros H|];
     destruct (Z.le_gt_cases (2 ^ 31) (last_cid m1)) as [Hge|Hlt]; [by apply Hstop|by apply Hcore]).
Qed.

(** ** The loop wakes somebody *)

Lemma resume_enters co k m m' : wf m → resume co k m = Ok m' → stack m' ≠ None ∧ ∃ p, cpu m' = Prog p.
Proof.
  intros Hwf H. destruct co as [a|]; [|discriminate H]. destruct (resume_spec m a k Hwf) as (ch & _ & Hsp).
  destruct (objects m !! a) as [c|]; [|congruence]. do 2 (case_bool_decide; [congruence|]).
  destruct Hsp as (p & _ & Hres & _). rewrite Hres in H. injection H as <-. split; [done|by exists p].
Qed.

(** After the loop's call some coroutine has moved. *)
Lemma call_to_rest p m pl q : at_rest m → (∃ id, p = ResumeCid id Ret) ∨ (∃ co, p = Resume co Ret) →
  I (mkLoop (call p m) q) → represents m pl → last_cid m < 2 ^ 31 → comes_to_rest (tc pool_step) (call p m) pl q.
Proof.
  intros Hrest Hp HI Hrep Hc. pose proof Hrest as [Hcpu Hstk].
  assert (Hn : ¬ at_rest (call p m)).
  { intros [E _]. cbn in E. injection E as ->. destruct Hp as [[? ?]|[? ?]]; congruence. }
  destruct (code_step _ q HI Hc Hn) as (m1 & Hst & Hls & HI1).
  assert (Hwfs : wf_step (call p m)) by exact (linv_wf _ (I_linv _ HI)). assert (Hwf' : wf (call p m)) by exact Hwfs.
  assert (Hin : stack m1 ≠ None ∧ ∃ p', cpu m1 = Prog p').
  { assert (Hr : ∃ co, Some <$> resume co Ret (call p m) = Ok (Some m1)).
    { destruct Hp as [[id ->]|[co ->]]; eexists; exact Hst. }
    destruct Hr as [co Hr]. destruct (resume co Ret (call p m)) as [m2| |] eqn:E; try discriminate Hr. injection Hr as ->.
    by eapply resume_enters. }
  destruct Hin as [Hs1 Hp1].
  assert (Hrep' : represents (call p m) (<[None := (p, [])]> pl) ∧ pl !! None = Some (Ret, [])).
  { pose proof (rep_local m (call p m) pl p Hwf' Hrep eq_refl eq_refl eq_refl) as H.
    pose proof (rep_prog m pl _ Hrep Hcpu) as H'. rewrite Hstk in H, H'. by split. }
  destruct Hrep' as [Hrep' Hmain].
  assert (Hcalm : calm (<[None := (p, [])]> pl)).
  { exists p. rewrite lookup_insert_eq. split; [done|]. destruct Hp as [[id ->]|[co ->]]; [by right; right; exists id|by right; left; exists co]. }
  assert (Hco : coroutines_of (<[None := (p, [])]> pl) = coroutines_of pl) by (unfold coroutines_of; by rewrite delete_insert_eq).
  destruct (step_simulated _ m1 _ Hwfs Hrep' Hst) as [(_ & _ & pl1 & Hrep1 & Hth)|([a [id Hret]] & _)].
  2: { exfalso. destruct Hret as [[k E]|[k E]]; discriminate E. }
  destruct (calm_step _ _ _ _ _ Hcalm Hth) as [Hcalm1 Hlt]. rewrite decide_True, Hco in Hlt by exact Hstk.
  eapply comes_to_rest_step; [exact Hls|intros _; split; [exact Hcalm1|rewrite Hlt; intros N HN; exact HN]|].
  destruct (Z.le_gt_cases (2 ^ 31) (last_cid m1)) as [Hge|Hl1]; [exists m1; split; [constructor|by left]|].
  by apply (runs_to_rest pl1 m1 q HI1 Hrep1 Hl1).
Qed.

(** What [epoll_wait] is called for. *)
Lemma wait_head_waits u timeout u' po : poll (view (T := Event) u) = Some po → wait_head (TQ := TQ) u = Ok (Some timeout, u') →
  u' = u ∧ (event_num po ≠ 0 ∨ ∃ x, pq_top (timers (view (T := time_state TQ) u)) = Some x).
Proof.
  intros Hp Ew. unfold wait_head in Ew. rewrite Hp in Ew. destruct (0 <? _); [|done]. destruct (Z.eqb_spec (event_num po) 0) as [He|He].
  - unfold TimerManager.get_next_timeout in Ew. destruct (pq_top _) as [x|]; [|done]. destruct (_ && _); [done|].
    injection Ew as _ <-. split; [done|]. right. by exists x.
  - rewrite andb_false_r in Ew. injection Ew as _ <-. split; [done|by left].
Qed.

Lemma epoll_round m timeout po r : at_rest m → wait_head (TQ := TQ) (globals m) = Ok (Some timeout, globals m) →
  poll (view (T := Event) (globals m)) = Some po → (∀ evs, r = Some evs → epoll_report (view (T := K) (globals m)) (ncap po) evs) →
  ∃ u', epoll_result r (globals m) = Ok u' ∧ loop_step (mkLoop m InWait) (Ok (mkLoop (with_globals u' m) (InIo 0))).
Proof.
  intros Hrest Hw Hp Hr. assert (∃ u', epoll_result r (globals m) = Ok u') as [u' Eu] by (unfold epoll_result; rewrite Hp; destruct r; by eexists).
  exists u'. split; [exact Eu|]. pose proof (step_epoll (K := K) (TQ := TQ) m timeout (globals m) r _ Hrest Hw eq_refl) as Hst.
  rewrite Eu in Hst. apply Hst. intros evs Hevs po' Hp'. rewrite Hp in Hp'. injection Hp' as <-. by apply Hr.
Qed.

Section round.
(** The coroutines as they are, and what can be done once one of them has moved. *)
Variable N : pool.
Context (IHN : ∀ m q pl, tc pool_step (coroutines_of pl) N → I (mkLoop m q) → at_rest m → represents m pl → last_cid m < 2 ^ 31 →
  can_return (mkLoop m q)).

Lemma call_can_return m u p q q' pl : coroutines_of pl = N →
  at_rest m → represents m pl → last_cid m < 2 ^ 31 →
  (∃ id, p = ResumeCid id Ret) ∨ (∃ co, p = Resume co Ret) →
  I (mkLoop m q) → loop_step (mkLoop m q) (Ok (mkLoop (call p (with_globals u m)) q')) → can_return (mkLoop m q).
Proof.
  intros HN Hrest Hrep Hc Hp HI Hst. destruct (I_step _ _ HI Hc Hst) as (l' & [= <-] & HI').
  eapply can_return_step; [exact Hst|].
  assert (Hrep' : represents (with_globals u m) pl) by (by destruct Hrep).
  destruct (call_to_rest p (with_globals u m) pl q' Hrest Hp HI' Hrep' Hc) as (m' & Hr & [Hge|(Hc' & Hrest' & HI2 & pl' & Hrep2 & Hlt)]).
  - exists (mkLoop m' q'). split; [exact Hr|by right].
  - eapply can_return_reach; [exact Hr|]. eapply IHN; [|done..]. rewrite <- HN. apply Hlt. by eapply rest_calm.
Qed.
Section phases.
Context (m : machine U) (pl : pool) (HN : coroutines_of pl = N) (Hrest : at_rest m) (Hrep : represents m pl) (Hc : last_cid m < 2 ^ 31).

(** The next state of the loop at rest. *)
Lemma rest_step q m' q' : I (mkLoop m q) → loop_step (mkLoop m q) (Ok (mkLoop m' q')) →
  I (mkLoop m' q') ∧ (can_return (mkLoop m' q') → can_return (mkLoop m q)).
Proof.
  intros HI Hst. destruct (I_step _ _ HI Hc Hst) as (l' & [= <-] & HI'). split; [done|]. by apply can_return_step.
Qed.

(** A timer that is due wakes its coroutine. *)
Lemma due_timer_can_return now t q : I (mkLoop m (InTimers now)) → q = InTimers now →
  pq_top (timers (view (T := time_state TQ) (globals m))) = Some t → exec_msec t ≤ now → can_return (mkLoop m q).
Proof.
  intros HI -> Ht Hle. assert (Hn : ∃ u, run_timers_next (TQ := TQ) now (globals m) = Some (t, u)).
  { unfold run_timers_next. rewrite Ht, (proj2 (Z.ltb_ge _ _)) by done. by eexists. }
  destruct Hn as [u Hn]. eapply (call_can_return m u (fire_timer t Ret)); [exact HN|done..| |exact HI|].
  - right. unfold fire_timer. destruct (callback t). by eexists.
  - exact (step_timer m now t u Hrest Hn).
Qed.

(** An event that was reported wakes its coroutine. *)
Lemma event_can_return i cid : I (mkLoop m (InIo i)) → handle_io_next i (globals m) = Ok (Some cid) → can_return (mkLoop m (InIo i)).
Proof.
  intros HI Hn. eapply (call_can_return m (globals m) (ResumeCid cid Ret)); [exact HN|done..| |exact HI|].
  - left. by eexists.
  - replace (with_globals (globals m) m) with m by (by destruct m). exact (step_io m i cid Hrest Hn).
Qed.
End phases.

(** A round of the loop in which the kernel reports an event. *)
Lemma report_can_return (Hrep_any : reports) m pl timeout po fd ev : coroutines_of pl = N → at_rest m → represents m pl → last_cid m < 2 ^ 31 →
  I (mkLoop m InWait) → wait_head (TQ := TQ) (globals m) = Ok (Some timeout, globals m) →
  poll (view (T := Event) (globals m)) = Some po → 0 < ncap po → interest (view (T := K) (globals m)) !! fd = Some ev →
  can_return (mkLoop m InWait).
Proof.
  intros HN Hrest Hrep Hc HI Hw Hp Hcap Hev. destruct (Hrep_any _ _ ev (ncap po) Hev Hcap) as [ev' Hrp].
  destruct (epoll_round m timeout po (Some [ev']) Hrest Hw Hp) as (u' & Eu & Hst); [by intros evs [= <-]|].
  destruct (rest_step m Hc InWait _ _ HI Hst) as [HI2 Hback]. apply Hback.
  assert (Hnext : ∃ cid, handle_io_next 0 u' = Ok (Some cid)).
  { unfold epoll_result in Eu. rewrite Hp in Eu. injection Eu as <-. unfold handle_io_next. rewrite view_set. eexists. cbn. reflexivity. }
  destruct Hnext as [cid Hnext]. eapply event_can_return; [exact HN|exact Hrest|by destruct Hrep|exact Hc|exact HI2|exact Hnext].
Qed.

(** A round of the loop in which only the first timer is due. *)
Lemma timeout_can_return m pl timeout po x : coroutines_of pl = N → at_rest m → represents m pl → last_cid m < 2 ^ 31 →
  I (mkLoop m InWait) → wait_head (TQ := TQ) (globals m) = Ok (Some timeout, globals m) →
  poll (view (T := Event) (globals m)) = Some po →
  pq_top (timers (view (T := time_state TQ) (globals m))) = Some x → exec_msec x ≤ clock (view (T := time_state TQ) (globals m)) →
  can_return (mkLoop m InWait).
Proof.
  intros HN Hrest Hrep Hc HI Hw Hp Hx Hdue. destruct (epoll_round m timeout po None Hrest Hw Hp) as (u' & Eu & Hst); [done|].
  destruct (rest_step m Hc InWait _ _ HI Hst) as [HI2 Hback]. apply Hback.
  assert (Hnext : handle_io_next 0 u' = Ok None ∧ view (T := time_state TQ) u' = view (globals m)).
  { unfold epoll_result in Eu. rewrite Hp in Eu. injection Eu as <-. unfold handle_io_next. rewrite view_set, (apart (T := Event)). done. }
  destruct Hnext as [Hnext Htime]. set (m2 := with_globals u' m) in *.
  destruct (rest_step m2 Hc _ _ _ HI2 (step_io_end m2 0 _ Hrest Hnext eq_refl)) as [HI3 Hback3]. apply Hback3.
  eapply (due_timer_can_return m2 pl HN Hrest); [by destruct Hrep|exact Hc|exact HI3|reflexivity|..];
    unfold m2; cbn [globals with_globals set_globals]; rewrite Htime; [exact Hx|exact Hdue].
Qed.

(** The clock goes on until the first timer is due. *)
Lemma clock_step m q (t := view (T := time_state TQ) (globals m)) :
  ∃ now, loop_step (mkLoop m q) (Ok (mkLoop (with_globals (set_view (mkTime now (timers t)) (globals m)) m) q)) ∧
    ∀ x, pq_top (timers t) = Some x → exec_msec x ≤ now.
Proof.
  exists (match pq_top (timers t) with Some x => Z.max (clock t) (exec_msec x) | None => clock t end). split.
  - by apply step_clock.
  - intros x ->. lia.
Qed.

(** At the head of [wait]: it returns, or something is waited for. *)
Lemma wait_can_return m pl (Hrep_any : reports) : coroutines_of pl = N → at_rest m → represents m pl → last_cid m < 2 ^ 31 →
  I (mkLoop m InWait) → can_return (mkLoop m InWait).
Proof.
  intros HN Hrest Hrep Hc HI. destruct (clock_step m InWait) as (now & Hclock & Hdue). set (m1 := with_globals _ m) in Hclock.
  destruct (rest_step m Hc InWait m1 InWait HI Hclock) as [HI1 Hback]. apply Hback. clear Hback.
  assert (Hrep1 : represents m1 pl) by (by destruct Hrep).
  assert (Ht1 : view (T := time_state TQ) (globals m1) = mkTime now (timers (view (globals m)))) by (unfold m1; cbn; by rewrite view_set).
  pose proof (I_linv _ HI1) as (pend & Hm & _ & _). cbn [mach] in Hm.
  destruct (rest_data m1 pend Hm Hrest) as (cs & ios & _ & (Hreg & Htm & po & Hp & Hlen & Hcap & Hnum) & _).
  destruct (wait_head (TQ := TQ) (globals m1)) as [[[timeout|] u]| |] eqn:Ew.
  2: { eapply can_return_step; [exact (step_return m1 u Hrest Ew)|]. eexists. split; [constructor|by left]. }
  2,3: exfalso; unfold wait_head in Ew; rewrite Hp in Ew; destruct (0 <? _); [|done]; by destruct (_ && _).
  destruct (wait_head_waits _ _ _ _ Hp Ew) as [-> [He|[x Hx]]].
  - destruct ios as [|y ios]; [by rewrite Hnum in He|]. destruct Hreg as (_ & Hin & _). destruct (Hin y ltac:(left)) as [_ [ev Hev]].
    by eapply (report_can_return Hrep_any m1 pl timeout po _ ev); [..|exact Hp|lia|exact Hev].
  - eapply (timeout_can_return m1 pl timeout po x); [done..|exact Hx|]. rewrite Ht1 in Hx |- *. by apply Hdue.
Qed.
End round.

Lemma rest_can_return (Hrep_any : reports) : ∀ (N : pool) m q pl, coroutines_of pl = N →
  I (mkLoop m q) → at_rest m → represents m pl → last_cid m < 2 ^ 31 → can_return (mkLoop m q).
Proof.
  intros N. induction (tc_well_founded _ (@pool_wf U) N) as [N _ IH]. intros m q pl HN HI Hrest Hrep Hc.
  assert (IHN : ∀ m q pl, tc pool_step (coroutines_of pl) N → I (mkLoop m q) → at_rest m → represents m pl → last_cid m < 2 ^ 31 →
    can_return (mkLoop m q)).
  { intros m1 q1 pl1 Hlt HI1 Hrest1 Hrep1 Hc1. by eapply IH. }
  assert (Hwait : I (mkLoop m InWait) → can_return (mkLoop m InWait)) by (intros HIw; by eapply wait_can_return).
  assert (Htimers : ∀ now, I (mkLoop m (InTimers now)) → can_return (mkLoop m (InTimers now))).
  { intros now HIt. destruct (run_timers_next (TQ := TQ) now (globals m)) as [[t u]|] eqn:En.
    - pose proof En as En'. unfold run_timers_next in En'. destruct (pq_top _) as [x|] eqn:Ex; [|done].
      destruct (Z.ltb_spec now (exec_msec x)); [done|]. by eapply due_timer_can_return.
    - destruct (rest_step m Hc _ _ _ HIt (step_timers_end m now Hrest En)) as [HI1 Hback]. by apply Hback, Hwait. }
  destruct q as [| |i|now|].
  - destruct (rest_step m Hc _ _ _ HI (step_wait m Hrest)) as [HI1 Hback]. by apply Hback, Hwait.
  - by apply Hwait.
  - destruct (handle_io_next i (globals m)) as [[cid|]| |] eqn:En.
    + by eapply event_can_return.
    + destruct (rest_step m Hc _ _ _ HI (step_io_end m i _ Hrest En eq_refl)) as [HI1 Hback]. by apply Hback, Htimers.
    + exfalso. unfold handle_io_next in En. destruct (_ <? _); [|done]. destruct (poll _); [|done].
      destruct (_ !! _); [|done]. by destruct (Help.fromuint64 _).
    + by destruct (I_step _ _ HI Hc (step_io_fails m i Hrest En)) as (l' & E & _).
  - by apply Htimers.
  - eexists. split; [constructor|by left].
Qed.

(** From every state that is kept, represented by a pool, the process can end. *)
Lemma kept_can_return (Hrep_any : reports) l pl : I l → represents (mach l) pl → last_cid (mach l) < 2 ^ 31 → can_return l.
Proof.
  destruct l as [m q]. cbn [mach]. intros HI Hrep Hc.
  destruct (runs_to_rest pl m q HI Hrep Hc) as [(m' & Hr & [Hge|(Hc' & Hrest & HI' & pl' & Hrep' & _)]) _].
  - exists (mkLoop m' q). split; [exact Hr|by right].
  - eapply can_return_reach; [exact Hr|]. by eapply rest_can_return.
Qed.
End progress.

(** ** What is kept of the threads *)
Section represented.
Context {U K TQ : Type} `{!PQueue co_timer CompareTimerPointer TQ} `{!Epoll K}.
Context `{!Part Event U} `{!Part (time_state TQ) U} `{!Part K U}.
Implicit Types (m : machine U) (u : U) (p : prog U) (l : loop (U := U)).
Implicit Types (pl : gmap (option ptr) (prog U * list (prog U))).

Lemma represents_globals m u pl : represents m pl → represents (with_globals u m) pl.
Proof. by intros []. Qed.

(** The loop's own calls: the thread of the main stack makes them. *)
Lemma represents_call m pl p :
  wf_step m → at_rest m → represents m pl → represents (call p m) (<[None := (p, [])]> pl) ∧ pl !! None = Some (Ret, []).
Proof.
  intros Hwf [Hc Hs] Hr. unfold wf_step in Hwf. rewrite Hc in Hwf.
  pose proof (rep_local m (call p m) pl p Hwf Hr eq_refl eq_refl eq_refl) as H. rewrite Hs in H.
  split; [exact H|]. pose proof (rep_prog m pl _ Hr Hc) as Hp. by rewrite Hs in Hp.
Qed.

Lemma represents_step l l' pl :
  wf_step (mach l) → represents (mach l) pl → EventLoop.loop_step (K := K) (TQ := TQ) l (Ok l') → ∃ pl', represents (mach l') pl'.
Proof.
  intros Hwf Hrep Hst. remember (Ok l') as r eqn:Er. destruct Hst as [m q r Hn Hst|m q t t' ->|m Hrest|m u Hrest Hw|m Hrest Hw
    |m timeout u r k' Hrest Hw -> Hrep'|m i cid Hrest Hn|m i t Hrest Hn ->|m i Hrest Hn|m now y u Hrest Hn|m now Hrest Hn];
    cbn [mach] in *; try (discriminate Er); try (injection Er as <-; exists pl; first [exact Hrep|by apply represents_globals]).
  - destruct r as [[m'|]| |]; try discriminate Er. injection Er as <-.
    destruct (step_simulated m m' pl Hwf Hrep Hst) as [(p & _ & pl' & Hrep' & _)|(_ & _ & Hrep' & _)]; by eexists.
  - destruct (epoll_result r u) as [u'| |]; try discriminate Er. injection Er as <-. exists pl. by apply represents_globals.
  - injection Er as <-. eexists. by apply represents_call.
  - injection Er as <-. eexists. apply (represents_globals (call (fire_timer y Ret) m)). by apply represents_call.
Qed.
End represented.
End Progress.

(** ** The property *)
Section progress_properties.
Import EventLoop EventFacts Threads Progress.
Context {U K TQ : Type} `{!PQueue co_timer CompareTimerPointer TQ} `{!Epoll K}.
Context `{!Part Event U} `{!Part (time_state TQ) U} `{!Part K U}.
Context `{!Apart Event (time_state TQ) U} `{!Apart Event K U} `{!Apart (time_state TQ) Event U}.
Context `{!Apart (time_state TQ) K U} `{!Apart K Event U} `{!Apart K (time_state TQ) U}.

End progress_properties.

Section progress_example.
Import EventLoop EventExample Progress.

(** A kernel that reports what it is asked for. *)
Lemma simple_reports : reports (K := simple_kernel).
Proof.
  intros k fd ev n Hev Hn. exists ev. split; [unfold zlen; cbn; lia|]. exists [fd]. split; [apply NoDup_singleton|].
  constructor; [by exists ev|constructor].
Qed.

End progress_example.
