(* ===== verification/SocketLoop.v ===== *)
(** * SocketLoop: the sockets of the coroutines on the event loop
    (src/coroutine/socket.cc)

    CoSocket describes an operation by its result for given answers of the
    kernel and given results of [wait_event]. Here the operations are programs
    of the scheduler's machine that wait with [EventLoop.wait_event], and they
    are shown to have those results whatever the rest of the process does while
    they wait. *)

From S2P Require Import Prelude Words CoSocket Timer Coroutine Waiters Sleep Event.
From stdpp Require Import gmap.
#[local] Open Scope Z_scope.

(** The descriptors of the process. *)
Definition table : Type := Z → sock.
Definition put (fd : Z) (s : sock) (t : table) : table := λ fd', if fd' =? fd then s else t fd'.

Module SocketLoop.
Section socket_loop.
Context {U K TQ : Type} `{!PQueue co_timer CompareTimerPointer TQ} `{!Epoll K}.
Context `{!Part Event U} `{!Part (time_state TQ) U} `{!Part K U} `{!Part table U}.

(** A call on a descriptor: its results and [errno] to the rest. *)
Definition on_socket {A} (fd : Z) (f : sock → outcome (A * sock)) (k : A → Z → prog U) : prog U :=
  Act (λ u, let t : table := view u in '(a, s) ← f (t fd); Ok (set_view (put fd s t) u, k a (errno s))).

(** The programs below have the loops of the code; [fuel] bounds their turns,
    and [stop] is what is left when it is used up. *)
Variable stop : prog U.

(** The retry loop of [recv] ([w] is [i32]) and [recv_all]. *)
Fixpoint recv_loop (w : Z → Z) (fuel : nat) (fd : Z) (buf : bytes) (off len : Z) (k : Z → bytes → prog U) : prog U :=
  match fuel with
  | O => stop
  | S fuel =>
      on_socket fd (λ s, '(ret, buf, s) ← Socket.recv s buf off len; Ok ((ret, buf), s)) (λ '(ret, buf) errno,
        let ret := w ret in
        if (ret <? 0) && (errno =? EAGAIN) then
          EventLoop.wait_event (K := K) fd (FSW_EVENT_READ =? FSW_EVENT_WRITE)
            (λ again, if again then recv_loop w fuel fd buf off len k else k ret buf)
        else k ret buf)
  end.

Definition recv (fuel : nat) (fd : Z) (buf : bytes) (len : Z) (k : Z → bytes → prog U) : prog U :=
  recv_loop i32 fuel fd buf 0 len k.

Fixpoint recv_all_loop (fuel : nat) (fd : Z) (buf : bytes) (total len : Z) (k : Z → bytes → prog U) : prog U :=
  match fuel with
  | O => stop
  | S fuel =>
      recv_loop (λ r, r) fuel fd buf total (u64 (len - total)) (λ ret buf,
        if ret <=? 0 then k (if total =? 0 then ret else total) buf
        else
          let total := total + ret in
          if u64 total =? len then k total buf else recv_all_loop fuel fd buf total len k)
  end.

Definition recv_all (fuel : nat) (fd : Z) (buf : bytes) (len : Z) (k : Z → bytes → prog U) : prog U :=
  recv_all_loop fuel fd buf 0 len k.

(** The retry loop of [send] and [send_all]. *)
Fixpoint send_loop (w : Z → Z) (fuel : nat) (ev : Z) (fd : Z) (buf : bytes) (off len : Z) (k : Z → prog U) : prog U :=
  match fuel with
  | O => stop
  | S fuel =>
      on_socket fd (λ s, Socket.send s buf off len) (λ ret errno,
        let ret := w ret in
        if (ret <? 0) && (errno =? EAGAIN) then
          EventLoop.wait_event (K := K) fd (ev =? FSW_EVENT_WRITE)
            (λ again, if again then send_loop w fuel ev fd buf off len k else k ret)
        else k ret)
  end.

Definition send (fuel : nat) (fd : Z) (buf : bytes) (len : Z) (k : Z → prog U) : prog U :=
  send_loop i32 fuel FSW_EVENT_WRITE fd buf 0 len k.

Fixpoint send_all_loop (fuel : nat) (fd : Z) (buf : bytes) (total len : Z) (k : Z → prog U) : prog U :=
  match fuel with
  | O => stop
  | S fuel =>
      send_loop (λ r, r) fuel FSW_EVENT_READ fd buf total (u64 (len - total)) (λ ret,
        if ret <=? 0 then k (if total =? 0 then ret else total)
        else
          let total := total + ret in
          if u64 total =? len then k total else send_all_loop fuel fd buf total len k)
  end.

Definition send_all (fuel : nat) (fd : Z) (buf : bytes) (len : Z) (k : Z → prog U) : prog U :=
  send_all_loop fuel fd buf 0 len k.

(** The loop of [accept] and of [connect]: it goes on while the call fails with
    [pending]. *)
Fixpoint call_loop (pending ev : Z) (fuel : nat) (fd : Z) (k : Z → prog U) : prog U :=
  match fuel with
  | O => stop
  | S fuel =>
      on_socket fd (λ s, Ok (Socket.call s)) (λ ret errno,
        if (ret <? 0) && (errno =? pending) then
          EventLoop.wait_event (K := K) fd (ev =? FSW_EVENT_WRITE)
            (λ again, if again then call_loop pending ev fuel fd k else k ret)
        else k ret)
  end.

Definition accept : nat → Z → (Z → prog U) → prog U := call_loop EAGAIN FSW_EVENT_READ.
Definition connect_loop : nat → Z → (Z → prog U) → prog U := call_loop EINPROGRESS FSW_EVENT_WRITE.

(** ** What a program does to one descriptor

    [leads fd M p s Q]: on its own, [p] started with the descriptor in the state
    [s] gets to a program, a state of the descriptor and a list of results of
    [wait_event] of which [Q] holds, after finitely many steps: defined calls on
    the descriptor, each of which changes it as [M] says, and waits for it,
    whatever their results are. *)
Inductive leads (fd : Z) (M : sock → sock → Prop) : prog U → sock → (prog U → sock → list bool → Prop) → Prop :=
| leads_done p s (Q : prog U → sock → list bool → Prop) : Q p s [] → leads fd M p s Q
| leads_call {A} (f : sock → outcome (A * sock)) k s a s' Q :
    f s = Ok (a, s') → M s s' → leads fd M (k a (errno s')) s' Q → leads fd M (on_socket fd f k) s Q
| leads_wait write k s (Q : prog U → sock → list bool → Prop) :
    (∀ ok, leads fd M (k ok) s (λ p s' l, Q p s' (ok :: l))) →
    leads fd M (EventLoop.wait_event (K := K) fd write k) s Q.

End socket_loop.
End SocketLoop.

Module SocketLoopFacts.
Import SocketLoop.
Section facts.
Context {U K TQ : Type} `{!PQueue co_timer CompareTimerPointer TQ} `{!Epoll K}.
Context `{!Part Event U} `{!Part (time_state TQ) U} `{!Part K U} `{!Part table U}.
Context `{!Apart table Event U} `{!Apart table (time_state TQ) U} `{!Apart table K U}.
Implicit Types (u : U) (p : prog U) (s t : sock).
Context {strict : bool}.
Abbreviation client := (EventFacts.tame (U := U) (K := K) (TQ := TQ) strict).

(** Calls that send nothing, and calls that send, after [base], the bytes of
    [buf] in order. *)
Definition quiet (s s' : sock) : Prop := sent s' = sent s.
Definition sends (base buf : bytes) (s s' : sock) : Prop :=
  ∃ k k', sent s = base ++ take k buf ∧ sent s' = base ++ take k' buf.

Lemma put_same fd s (t : table) : put fd s t fd = s.
Proof. unfold put. by rewrite Z.eqb_refl. Qed.

(** *** The programs are tame, and clients of the loop *)
Lemma on_socket_client {A} b fd (f : sock → outcome (A * sock)) k :
  (∀ s, ∃ a s', f s = Ok (a, s') ∧ ∀ e, client b (k a e)) → client b (on_socket fd f k).
Proof.
  intros H. apply EventFacts.tame_act.
  - intros _ u. destruct (H (view (T := table) u fd)) as (a & s' & E & _). cbv beta zeta. by rewrite E.
  - intros u u' p E. destruct (H (view (T := table) u fd)) as (a & s' & E1 & Hk). cbv beta zeta in E. rewrite E1 in E. injection E as <- <-.
    rewrite !apart. by split_and!.
Qed.

Lemma recv_total s buf off len :
  0 ≤ off → 0 ≤ len → off + len ≤ zlen buf →
  ∃ ret buf' s', Socket.recv s buf off len = Ok (ret, buf', s') ∧ zlen buf' = zlen buf ∧ -1 ≤ ret ≤ len.
Proof.
  intros Ho Hl Hb. unfold Socket.recv. destruct (rx s) as [|[d|e] l]; [eexists _, _, _; split; [reflexivity|split; [done|lia]]| |].
  - set (g := take (Z.to_nat len) d). assert (zlen g ≤ len) by (unfold g, zlen; rewrite length_take; lia).
    pose proof (zlen_nonneg g). rewrite mem_write_ok, outcome_bind_ok by lia. eexists _, _, _. split; [reflexivity|].
    split; [|lia]. rewrite !zlen_app, zlen_take, zlen_drop by lia. lia.
  - eexists _, _, _. split; [reflexivity|]. split; [done|lia].
Qed.

Lemma recv_loop_client stop w fuel fd k len off : client true stop → 0 ≤ fd < 2 ^ 31 → 0 ≤ off → 0 ≤ len →
  (∀ r, -1 ≤ r ≤ len → w r ≤ len) → ∀ buf, off + len ≤ zlen buf →
  (∀ ret buf', zlen buf' = zlen buf → ret ≤ len → client true (k ret buf')) →
  client true (recv_loop (K := K) stop w fuel fd buf off len k).
Proof.
  intros Hstop Hfd Ho Hl Hw. induction fuel as [|fuel IH]; intros buf Hb Hk; [done|]. cbn [recv_loop].
  apply on_socket_client. intros s. destruct (recv_total s buf off len Ho Hl Hb) as (ret & buf' & s' & -> & Hz & Hr).
  rewrite outcome_bind_ok. eexists _, _. split; [reflexivity|]. intros e. cbv beta iota zeta.
  pose proof (Hw ret Hr). destruct (_ && _); [|by apply Hk]. apply EventFacts.tame_wait; [done|].
  intros [|]; [|by apply Hk]. apply IH; [lia|]. intros r b Hbz Hle. apply Hk; lia.
Qed.

Lemma send_total s buf off len :
  0 ≤ off → 0 ≤ len → off + len ≤ zlen buf → ∃ ret s', Socket.send s buf off len = Ok (ret, s') ∧ -1 ≤ ret ≤ len.
Proof.
  intros Ho Hl Hb. unfold Socket.send. destruct (tx s) as [|[n|e] l]; [| |eexists _, _; split; [reflexivity|lia]];
    rewrite mem_read_ok, outcome_bind_ok by lia; eexists _, _; (split; [reflexivity|]);
    rewrite zlen_take by (rewrite zlen_drop by lia; lia); lia.
Qed.

(** *** What the programs lead to *)
Lemma leads_bind fd M p s Q R :
  leads (K := K) fd M p s Q → (∀ p' s' l, Q p' s' l → leads (K := K) fd M p' s' (λ p2 s2 l2, R p2 s2 (l ++ l2))) →
  leads (K := K) fd M p s R.
Proof.
  intros H. revert R. induction H as [p s Q H|A f k s a s' Q Hf HM _ IH|write k s Q _ IH]; intros R HR.
  - exact (HR p s [] H).
  - eapply leads_call; [exact Hf|exact HM|by apply IH].
  - apply leads_wait. intros ok. apply (IH ok). intros p' s' l Hl. exact (HR p' s' (ok :: l) Hl).
Qed.

(** The descriptor as CoSocket has it: [l] is what [wait_event] returns. *)
Definition scripted (s : sock) (l : list bool) (w : list Z) : sock :=
  mkSock (CoSocket.fd s) (errno s) (rx s) (tx s) (calls s) l w (sent s) (shut s).
Abbreviation same s t := (scripted s [] [] = scripted t [] []).

Lemma recv_scripted s l w buf off len :
  Socket.recv (scripted s l w) buf off len =
    ('(ret, buf, s) ← Socket.recv s buf off len; Ok (ret, buf, scripted s l w)).
Proof.
  unfold Socket.recv. cbn [rx scripted]. destruct (rx s) as [|[d|e] r]; [done| |done].
  cbv zeta. destruct (mem_write _ _ _); done.
Qed.

Lemma send_scripted s l w buf off len :
  Socket.send (scripted s l w) buf off len =
    ('(ret, s) ← Socket.send s buf off len; Ok (ret, scripted s l w)).
Proof.
  unfold Socket.send. cbn [tx scripted]. destruct (tx s) as [|[n|e] r]; [|..]; by try destruct (mem_read _ _ _).
Qed.

(** One call of [recv]. *)
Lemma recv_cases s buf off len :
  0 ≤ off → 0 ≤ len → off + len ≤ zlen buf →
  (∃ ret buf' s', Socket.recv s buf off len = Ok (ret, buf', s') ∧ 0 ≤ ret ≤ len ∧ zlen buf' = zlen buf ∧
     (length (rx s') ≤ length (rx s))%nat ∧ (0 < ret < len → (length (rx s') < length (rx s))%nat)) ∨
  (∃ e s', Socket.recv s buf off len = Ok (-1, buf, s') ∧ errno s' = e ∧ (length (rx s') < length (rx s))%nat).
Proof.
  intros Ho Hl Hb. unfold Socket.recv. destruct (rx s) as [|[d|e] l] eqn:Er.
  - left. eexists 0, _, _. split; [reflexivity|]. rewrite Er. split_and!; [lia|lia|done|done|lia].
  - left. cbv zeta. set (g := take (Z.to_nat len) d). pose proof (zlen_nonneg g).
    assert (Hg : zlen g ≤ len) by (unfold g, zlen; rewrite length_take; lia).
    rewrite mem_write_ok, outcome_bind_ok by lia. eexists _, _, _. split; [reflexivity|].
    split; [lia|]. split; [rewrite !zlen_app, zlen_take, zlen_drop by lia; lia|]. cbn [set_rx rx length].
    destruct (drop (Z.to_nat len) d) as [|x r] eqn:Ed; cbn [length]; [split; lia|]. split; [lia|]. intros Hlt. exfalso.
    assert (Hdl : (Z.to_nat len < length d)%nat) by (apply (f_equal length) in Ed; rewrite length_drop in Ed; cbn in Ed; lia).
    unfold g, zlen in Hlt. rewrite length_take in Hlt. lia.
  - right. eexists e, _. split; [reflexivity|]. split; [done|]. cbn. lia.
Qed.

Lemma recv_sent s buf off len ret buf' s' : Socket.recv s buf off len = Ok (ret, buf', s') → quiet s s'.
Proof.
  unfold Socket.recv. destruct (rx s) as [|[d|e] r]; [by intros [= _ _ <-]| |by intros [= _ _ <-]].
  cbv zeta. intros H. apply outcome_bind_inv in H as (b & _ & H). by injection H as _ _ <-.
Qed.

Lemma recv_loop_leads stop w fd k off len : 0 ≤ off → 0 ≤ len → (∀ r, -1 ≤ r ≤ len → w r = r) →
  ∀ fuel buf s, off + len ≤ zlen buf → (length (rx s) < fuel)%nat →
  leads (K := K) fd quiet (recv_loop (K := K) stop w fuel fd buf off len k) s (λ p s' l, ∃ ret buf',
    p = k ret buf' ∧ -1 ≤ ret ≤ len ∧ zlen buf' = zlen buf ∧ (length (rx s') ≤ length (rx s))%nat ∧
    (0 < ret < len → (length (rx s') < length (rx s))%nat) ∧
    ∀ more wd, ∃ wd', CoSocket.recv_loop w fuel (scripted s (l ++ more) wd) buf off len =
      Some (Ok (ret, buf', scripted s' more wd'))).
Proof.
  intros Ho Hl Hw. induction fuel as [|fuel IH]; intros buf s Hb Hf; [lia|]. cbn [recv_loop].
  assert (Hstep : ∀ ret buf' s' l wd, Socket.recv s buf off len = Ok (ret, buf', s') → -1 ≤ ret ≤ len →
    CoSocket.recv_loop w (S fuel) (scripted s l wd) buf off len =
    if (ret <? 0) && (errno s' =? EAGAIN) then
      let '(again, s) := CoSocket.wait_event FSW_EVENT_READ (scripted s' l wd) in
      if again then CoSocket.recv_loop w fuel s buf' off len else Some (Ok (ret, buf', s))
    else Some (Ok (ret, buf', scripted s' l wd))).
  { intros ret buf' s' l wd E Hr. cbn [CoSocket.recv_loop]. rewrite recv_scripted, E, outcome_bind_ok. cbv zeta. by rewrite Hw by lia. }
  destruct (recv_cases s buf off len Ho Hl Hb) as
    [(ret & buf' & s' & E & Hret & Hz & Hle & Hlt)|(e & s' & E & He & Hlt)];
    (eapply leads_call; [by rewrite E, outcome_bind_ok|by eapply recv_sent|]); cbv beta iota zeta; rewrite Hw by lia.
  - rewrite (proj2 (Z.ltb_ge _ _)) by lia. cbn [andb]. apply leads_done.
    exists ret, buf'. split_and!; [done|lia|lia|done|done|done|]. intros more wd. exists wd.
    rewrite (Hstep ret buf' s') by (done || lia). by rewrite (proj2 (Z.ltb_ge _ _)) by lia.
  - change (-1 <? 0) with true. cbn [andb]. pose proof (λ l wd, Hstep (-1) buf s' l wd E ltac:(lia)) as Hst.
    change (-1 <? 0) with true in Hst. cbn [andb] in Hst. destruct (errno s' =? EAGAIN) eqn:Ee.
    + apply leads_wait. intros [|].
      * eapply leads_bind; [apply (IH buf s' Hb); lia|]. intros p' s2 l (ret & buf' & Hp & Hr & Hz & H1 & H2 & H3).
        apply leads_done. rewrite app_nil_r. exists ret, buf'. split_and!; [done|lia|lia|done|lia|lia|].
        intros more wd. destruct (H3 more (wd ++ [FSW_EVENT_READ])) as (wd' & H4). exists wd'.
        rewrite Hst, <- H4. by destruct s'.
      * apply leads_done. exists (-1), buf. split_and!; [done|lia|lia|done|lia|lia|].
        intros more wd. eexists. rewrite Hst. reflexivity.
    + apply leads_done. exists (-1), buf. split_and!; [done|lia|lia|done|lia|lia|]. intros more wd. exists wd. apply Hst.
Qed.

Lemma recv_all_loop_leads stop fd k len : 0 ≤ len < 2 ^ 64 →
  ∀ fuel buf total s, 0 ≤ total ≤ len → len ≤ zlen buf → (length (rx s) < fuel)%nat →
  leads (K := K) fd quiet (recv_all_loop (K := K) stop (S fuel) fd buf total len k) s (λ p s' l, ∃ ret buf',
    p = k ret buf' ∧ zlen buf' = zlen buf ∧
    ∀ more wd, ∃ wd', CoSocket.recv_all_loop (S fuel) (scripted s (l ++ more) wd) buf total len =
      Some (Ok (ret, buf', scripted s' more wd'))).
Proof.
  intros Hl. induction fuel as [|fuel IH]; intros buf total s Ht Hb Hf; [lia|].
  remember (S fuel) as n eqn:En. cbn [recv_all_loop]. rewrite u64_id by lia.
  eapply leads_bind; [apply recv_loop_leads; [lia|lia|done|lia|lia]|].
  intros p s1 l1 (ret & buf' & -> & Hr & Hz & H1 & H2 & H3). cbv beta.
  destruct (ret <=? 0) eqn:E0; [|destruct (u64 (total + ret) =? len) eqn:E1]; zify_bools.
  - apply leads_done. eexists _, buf'. split; [reflexivity|]. split; [done|]. intros more wd. destruct (H3 more wd) as (wd' & H4). exists wd'.
    rewrite app_nil_r. cbn [CoSocket.recv_all_loop]. rewrite u64_id, H4 by lia. by rewrite (proj2 (Z.leb_le _ _)) by lia.
  - apply leads_done. eexists _, buf'. split; [reflexivity|]. split; [done|]. intros more wd. destruct (H3 more wd) as (wd' & H4). exists wd'.
    rewrite app_nil_r. cbn [CoSocket.recv_all_loop]. rewrite u64_id, H4 by lia. rewrite (proj2 (Z.leb_gt _ _)) by lia.
    cbv zeta. by rewrite (proj2 (Z.eqb_eq _ _)).
  - assert (ret < len - total). { destruct (decide (ret = len - total)) as [->|]; [|lia]. rewrite u64_id in E1 by lia. lia. }
    subst n. eapply leads_bind; [apply IH; lia|]. intros p s2 l2 (ret2 & buf2 & -> & Hz2 & H5).
    apply leads_done. exists ret2, buf2. split; [done|]. split; [lia|]. rewrite app_nil_r. intros more wd.
    rewrite <- app_assoc. destruct (H3 (l2 ++ more) wd) as (wd1 & H4). destruct (H5 more wd1) as (wd2 & H6). exists wd2.
    rewrite <- H6. remember (S fuel) as n. cbn [CoSocket.recv_all_loop]. rewrite u64_id, H4 by lia.
    rewrite (proj2 (Z.leb_gt _ _)) by lia. cbv zeta. by rewrite (proj2 (Z.eqb_neq _ _)).
Qed.

(** One call of [send]. *)
Lemma send_cases s buf off len :
  0 ≤ off → 0 ≤ len → off + len ≤ zlen buf →
  ∃ ret s', Socket.send s buf off len = Ok (ret, s') ∧ -1 ≤ ret ≤ len ∧
    sent s' = sent s ++ take (Z.to_nat ret) (drop (Z.to_nat off) buf) ∧
    (length (tx s') ≤ length (tx s))%nat ∧ (ret < len → (length (tx s') < length (tx s))%nat).
Proof.
  intros Ho Hl Hb. unfold Socket.send.
  assert (Hz : ∀ n, 0 ≤ n ≤ len → zlen (take (Z.to_nat n) (drop (Z.to_nat off) buf)) = n)
    by (intros n Hn; apply zlen_take; rewrite zlen_drop by lia; lia).
  destruct (tx s) as [|[n|e] l] eqn:Et; [| |eexists _, _; split; [reflexivity|]; cbn; by split_and!; try lia];
    rewrite mem_read_ok, outcome_bind_ok by lia; eexists _, _; (split; [reflexivity|]); cbn [set_tx tx sent length];
    rewrite Hz by lia; split_and!; try lia; done.
Qed.

(** Sending on, from [off]. *)
Lemma sends_at s s' base buf off ret :
  0 ≤ off → -1 ≤ ret → sent s = base ++ take (Z.to_nat off) buf →
  sent s' = sent s ++ take (Z.to_nat ret) (drop (Z.to_nat off) buf) →
  sends base buf s s' ∧ sent s' = base ++ take (Z.to_nat (off + Z.max 0 ret)) buf.
Proof.
  intros Ho Hr Hs Hs'. assert (H : sent s' = base ++ take (Z.to_nat (off + Z.max 0 ret)) buf).
  { rewrite Hs', Hs, <- app_assoc, take_take_drop. do 2 f_equal. lia. }
  split; [by eexists _, _|done].
Qed.

Lemma send_loop_client stop w fuel ev fd k off len buf : client true stop → 0 ≤ fd < 2 ^ 31 →
  0 ≤ off → 0 ≤ len → off + len ≤ zlen buf → (∀ r, -1 ≤ r ≤ len → w r ≤ len) → (∀ ret, ret ≤ len → client true (k ret)) →
  client true (send_loop (K := K) stop w fuel ev fd buf off len k).
Proof.
  intros Hstop Hfd Ho Hl Hb Hw Hk. induction fuel as [|fuel IH]; [done|]. cbn [send_loop].
  apply on_socket_client. intros s. destruct (send_total s buf off len Ho Hl Hb) as (ret & s' & -> & Hr). eexists _, _. split; [reflexivity|].
  intros e. cbv beta iota zeta. pose proof (Hw ret ltac:(lia)). destruct (_ && _); [|by apply Hk].
  apply EventFacts.tame_wait; [done|]. intros [|]; [done|by apply Hk].
Qed.

Lemma send_loop_leads stop w ev fd k base off len buf : 0 ≤ off → 0 ≤ len → off + len ≤ zlen buf → (∀ r, -1 ≤ r ≤ len → w r = r) →
  ∀ fuel s, sent s = base ++ take (Z.to_nat off) buf → (length (tx s) < fuel)%nat →
  leads (K := K) fd (sends base buf) (send_loop (K := K) stop w fuel ev fd buf off len k) s (λ p s' l, ∃ ret,
    p = k ret ∧ -1 ≤ ret ≤ len ∧ sent s' = base ++ take (Z.to_nat (off + Z.max 0 ret)) buf ∧
    (length (tx s') ≤ length (tx s))%nat ∧ (ret < len → (length (tx s') < length (tx s))%nat) ∧
    ∀ more wd, ∃ wd', CoSocket.send_loop w fuel ev (scripted s (l ++ more) wd) buf off len =
      Some (Ok (ret, scripted s' more wd'))).
Proof.
  intros Ho Hl Hb Hw. induction fuel as [|fuel IH]; intros s Hs Hf; [lia|]. cbn [send_loop].
  destruct (send_cases s buf off len Ho Hl Hb) as (ret & s' & E & Hret & HM & Hle & Hlt).
  destruct (sends_at s s' base buf off ret Ho ltac:(lia) Hs HM) as [HM' Hs'].
  eapply leads_call; [exact E|exact HM'|]. cbv beta iota zeta. rewrite Hw by lia.
  assert (Hstep : ∀ l wd, CoSocket.send_loop w (S fuel) ev (scripted s l wd) buf off len =
    if (ret <? 0) && (errno s' =? EAGAIN) then
      let '(again, s) := CoSocket.wait_event ev (scripted s' l wd) in
      if again then CoSocket.send_loop w fuel ev s buf off len else Some (Ok (ret, s))
    else Some (Ok (ret, scripted s' l wd))).
  { intros l wd. cbn [CoSocket.send_loop]. rewrite send_scripted, E, outcome_bind_ok. cbv zeta. by rewrite Hw by lia. }
  destruct ((ret <? 0) && (errno s' =? EAGAIN)) eqn:Ee.
  - apply andb_true_iff in Ee as [E0 _]. zify_bools. assert (ret = -1) as -> by lia. rewrite Z.add_0_r in Hs'.
    apply leads_wait. intros [|].
    + eapply leads_bind; [apply (IH s'); [done|lia]|]. intros p' s2 l (ret & Hp & Hr & H0 & H1 & H2 & H3).
      apply leads_done. rewrite app_nil_r. exists ret. split_and!; [done|lia|lia|done|lia|lia|].
      intros more wd. destruct (H3 more (wd ++ [ev])) as (wd' & H4). exists wd'. rewrite Hstep, <- H4. by destruct s'.
    + apply leads_done. exists (-1). split_and!; [done|lia|lia|by rewrite Z.add_0_r|lia|lia|].
      intros more wd. eexists. rewrite Hstep. reflexivity.
  - apply leads_done. exists ret. split_and!; [done|lia|lia|done|done|done|]. intros more wd. exists wd. apply Hstep.
Qed.

Lemma send_all_loop_leads stop fd k base len buf : 0 ≤ len < 2 ^ 64 → len ≤ zlen buf →
  ∀ fuel total s, 0 ≤ total ≤ len → sent s = base ++ take (Z.to_nat total) buf → (length (tx s) < fuel)%nat →
  leads (K := K) fd (sends base buf) (send_all_loop (K := K) stop (S fuel) fd buf total len k) s (λ p s' l, ∃ ret,
    p = k ret ∧ ∀ more wd, ∃ wd', CoSocket.send_all_loop (S fuel) (scripted s (l ++ more) wd) buf total len =
      Some (Ok (ret, scripted s' more wd'))).
Proof.
  intros Hl Hb. induction fuel as [|fuel IH]; intros total s Ht Hs Hf; [lia|].
  remember (S fuel) as n eqn:En. cbn [send_all_loop]. rewrite u64_id by lia.
  eapply leads_bind; [apply send_loop_leads; [lia|lia|lia|done|done|lia]|].
  intros p s1 l1 (ret & -> & Hr & H0 & H1 & H2 & H3). cbv beta.
  destruct (ret <=? 0) eqn:E0; [|destruct (u64 (total + ret) =? len) eqn:E1]; zify_bools.
  - apply leads_done. eexists _. split; [reflexivity|]. intros more wd. destruct (H3 more wd) as (wd' & H4). exists wd'.
    rewrite app_nil_r. cbn [CoSocket.send_all_loop]. rewrite u64_id, H4 by lia. by rewrite (proj2 (Z.leb_le _ _)) by lia.
  - apply leads_done. eexists _. split; [reflexivity|]. intros more wd. destruct (H3 more wd) as (wd' & H4). exists wd'.
    rewrite app_nil_r. cbn [CoSocket.send_all_loop]. rewrite u64_id, H4 by lia. rewrite (proj2 (Z.leb_gt _ _)) by lia.
    cbv zeta. by rewrite (proj2 (Z.eqb_eq _ _)).
  - assert (ret < len - total). { destruct (decide (ret = len - total)) as [->|]; [|lia]. rewrite u64_id in E1 by lia. lia. }
    rewrite Z.max_r in H0 by lia.
    subst n. eapply leads_bind; [apply IH; [lia|done|lia]|]. intros p s2 l2 (ret2 & -> & H5).
    apply leads_done. exists ret2. split; [done|]. rewrite app_nil_r. intros more wd.
    rewrite <- app_assoc. destruct (H3 (l2 ++ more) wd) as (wd1 & H4). destruct (H5 more wd1) as (wd2 & H6). exists wd2.
    rewrite <- H6. remember (S fuel) as n. cbn [CoSocket.send_all_loop]. rewrite u64_id, H4 by lia.
    rewrite (proj2 (Z.leb_gt _ _)) by lia. cbv zeta. by rewrite (proj2 (Z.eqb_neq _ _)).
Qed.

Lemma recv_all_loop_client stop fd k len fuel : client true stop → 0 ≤ fd < 2 ^ 31 → 0 ≤ len < 2 ^ 64 → ∀ buf total,
  0 ≤ total ≤ len → len ≤ zlen buf → (∀ ret buf', zlen buf' = zlen buf → client true (k ret buf')) →
  client true (recv_all_loop (K := K) stop fuel fd buf total len k).
Proof.
  intros Hstop Hfd Hl. induction fuel as [|fuel IH]; intros buf total Ht Hb Hk; [done|]. cbn [recv_all_loop].
  rewrite u64_id by lia. apply recv_loop_client; [done|done|lia|lia|lia|lia|]. intros ret buf' Hz Hle. cbv zeta.
  destruct (ret <=? 0) eqn:E0; [by apply Hk|]. destruct (_ =? len) eqn:E1; [by apply Hk|]. zify_bools.
  apply IH; [lia|lia|]. intros r b Hz2. apply Hk. lia.
Qed.

Lemma send_all_loop_client stop fd k len fuel buf : client true stop → 0 ≤ fd < 2 ^ 31 → 0 ≤ len < 2 ^ 64 → len ≤ zlen buf →
  (∀ ret, client true (k ret)) → ∀ total, 0 ≤ total ≤ len →
  client true (send_all_loop (K := K) stop fuel fd buf total len k).
Proof.
  intros Hstop Hfd Hl Hb Hk. induction fuel as [|fuel IH]; intros total Ht; [done|]. cbn [send_all_loop].
  rewrite u64_id by lia. apply send_loop_client; [done|done|lia|lia|lia|lia|]. intros ret Hle. cbv zeta.
  destruct (ret <=? 0) eqn:E0; [by apply Hk|]. destruct (_ =? len) eqn:E1; [by apply Hk|]. zify_bools. apply IH. lia.
Qed.

(** [accept] and [connect]. *)
Lemma call_shrinks s : let '(ret, s') := Socket.call s in
  (length (calls s') ≤ length (calls s))%nat ∧ (ret < 0 → (length (calls s') < length (calls s))%nat).
Proof. unfold Socket.call. destruct (calls s) as [|[r|e] l] eqn:E; cbn; rewrite ?E; cbn; lia. Qed.

Lemma call_quiet s : quiet s (Socket.call s).2.
Proof. unfold Socket.call. by destruct (calls s) as [|[r|e] l]. Qed.

Lemma call_scripted s l w : Socket.call (scripted s l w) = ((Socket.call s).1, scripted (Socket.call s).2 l w).
Proof. unfold Socket.call. cbn [calls scripted]. by destruct (calls s) as [|[r|e] r']. Qed.

Lemma call_loop_client stop pending ev fuel fd k : client true stop → 0 ≤ fd < 2 ^ 31 → (∀ ret, client true (k ret)) →
  client true (call_loop (K := K) stop pending ev fuel fd k).
Proof.
  intros Hstop Hfd Hk. induction fuel as [|fuel IH]; [done|]. cbn [call_loop]. apply on_socket_client. intros s.
  destruct (Socket.call s) as [ret s']. eexists _, _. split; [reflexivity|]. intros e. cbv beta iota zeta.
  destruct (_ && _); [|by apply Hk]. apply EventFacts.tame_wait; [done|]. by intros [|].
Qed.

(** The same loop, with the script. *)
Fixpoint call_script (pending ev : Z) (fuel : nat) (s : sock) : option (Z * sock) :=
  match fuel with
  | O => None
  | S fuel =>
      let '(ret, s) := Socket.call s in
      if (ret <? 0) && (errno s =? pending) then
        let '(again, s) := CoSocket.wait_event ev s in
        if again then call_script pending ev fuel s else Some (ret, s)
      else Some (ret, s)
  end.

Ltac same_loop IH :=
  cbn [CoSocket.accept CoSocket.connect_loop call_script]; destruct (Socket.call _) as [? ?]; destruct (_ && _); [|done];
  destruct (CoSocket.wait_event _ _) as [[|] ?]; [apply IH|done].

Lemma accept_script fuel : ∀ s, CoSocket.accept fuel s = call_script EAGAIN FSW_EVENT_READ fuel s.
Proof. induction fuel as [|fuel IH]; intros s; [done|]. same_loop IH. Qed.
Lemma connect_script fuel : ∀ s, CoSocket.connect_loop fuel s = call_script EINPROGRESS FSW_EVENT_WRITE fuel s.
Proof. induction fuel as [|fuel IH]; intros s; [done|]. same_loop IH. Qed.

Lemma call_loop_leads stop pending ev fd k : ∀ fuel s, (length (calls s) < fuel)%nat →
  leads (K := K) fd quiet (call_loop (K := K) stop pending ev fuel fd k) s (λ p s' l, ∃ ret, p = k ret ∧
    ∀ more wd, ∃ wd', call_script pending ev fuel (scripted s (l ++ more) wd) = Some (ret, scripted s' more wd')).
Proof.
  induction fuel as [|fuel IH]; intros s Hf; [lia|]. cbn [call_loop].
  pose proof (call_shrinks s) as Hc. pose proof (call_scripted s) as Hs. pose proof (call_quiet s) as Hq.
  destruct (Socket.call s) as [ret s'] eqn:E. destruct Hc as [H1 H2]. cbn [fst snd] in Hs, Hq.
  eapply leads_call; [by rewrite E|exact Hq|]. cbv beta iota zeta.
  destruct ((ret <? 0) && (errno s' =? pending)) eqn:Ee.
  - pose proof Ee as Ee'. apply andb_true_iff in Ee' as [E0 _]. apply Z.ltb_lt in E0. apply leads_wait.
    intros [|].
    + eapply leads_bind; [apply IH; lia|]. intros p s2 l (ret2 & -> & H3). apply leads_done. exists ret2.
      split; [done|]. intros more wd. rewrite app_nil_r. destruct (H3 more (wd ++ [ev])) as (wd' & H4).
      exists wd'. cbn [call_script app]. rewrite Hs. cbn [errno scripted]. rewrite Ee. rewrite <- H4. by destruct s'.
    + apply leads_done. exists ret. split; [done|]. intros more wd. eexists. cbn [call_script app]. rewrite Hs.
      cbn [errno scripted]. rewrite Ee. reflexivity.
  - apply leads_done. exists ret. split; [done|]. intros more wd. exists wd. cbn [call_script app]. rewrite Hs.
    cbn [errno scripted]. by rewrite Ee.
Qed.

(** A program leads to the continuation [k] of the result that the function
    [run] of CoSocket has on the descriptor with the script of the waits. *)
Definition refined {R} (s : sock) (run : sock → option (outcome (R * sock))) (k : R → prog U) : prog U → sock → list bool → Prop :=
  λ p s' l, ∃ r, p = k r ∧ ∀ more wd, ∃ wd', run (scripted s (l ++ more) wd) = Some (Ok (r, scripted s' more wd')).

Lemma recv_refined stop fd buf len fuel k s :
  0 ≤ len < 2 ^ 31 → len ≤ zlen buf → (length (rx s) < fuel)%nat →
  leads (K := K) fd quiet (recv (K := K) stop fuel fd buf len k) s
    (refined s (λ s, CoSocket.recv fuel s buf len) (λ r, k r.1 r.2)).
Proof.
  intros Hl Hb Hf. eapply leads_bind; [apply recv_loop_leads; [lia|lia|intros r Hr; apply i32_id; lia|lia|done]|].
  intros p s1 l (ret & buf' & -> & _ & _ & _ & _ & H). apply leads_done. exists (ret, buf'). split; [done|by rewrite app_nil_r].
Qed.

Lemma send_refined stop fd buf len fuel k s :
  0 ≤ len < 2 ^ 31 → len ≤ zlen buf → (length (tx s) < fuel)%nat →
  leads (K := K) fd (sends (sent s) buf) (send (K := K) stop fuel fd buf len k) s (refined s (λ s, CoSocket.send fuel s buf len) k).
Proof.
  intros Hl Hb Hf. eapply leads_bind; [apply (send_loop_leads _ _ _ _ _ (sent s)); [lia|lia|lia|intros r Hr; apply i32_id; lia|by rewrite take_0, app_nil_r|done]|].
  intros p s1 l (ret & -> & _ & _ & _ & _ & H). apply leads_done. exists ret. split; [done|by rewrite app_nil_r].
Qed.

Lemma recv_all_refined stop fd buf len fuel k s :
  0 ≤ len < 2 ^ 64 → len ≤ zlen buf → (length (rx s) < fuel)%nat →
  leads (K := K) fd quiet (recv_all (K := K) stop (S fuel) fd buf len k) s
    (refined s (λ s, CoSocket.recv_all (S fuel) s buf len) (λ r, k r.1 r.2)).
Proof.
  intros Hl Hb Hf. eapply leads_bind; [apply recv_all_loop_leads; [done|lia|done|done]|].
  intros p s1 l (ret & buf' & -> & _ & H). apply leads_done. exists (ret, buf'). split; [done|by rewrite app_nil_r].
Qed.

Lemma send_all_refined stop fd buf len fuel k s :
  0 ≤ len < 2 ^ 64 → len ≤ zlen buf → (length (tx s) < fuel)%nat →
  leads (K := K) fd (sends (sent s) buf) (send_all (K := K) stop (S fuel) fd buf len k) s
    (refined s (λ s, CoSocket.send_all (S fuel) s buf len) k).
Proof.
  intros Hl Hb Hf. eapply leads_bind; [apply (send_all_loop_leads _ _ _ (sent s)); [done|done|lia|by rewrite take_0, app_nil_r|done]|].
  intros p s1 l (ret & -> & H). apply leads_done. exists ret. split; [done|by rewrite app_nil_r].
Qed.

Lemma call_refined stop pending ev fd fuel k s run :
  (∀ s, run s = call_script pending ev fuel s) → (length (calls s) < fuel)%nat →
  leads (K := K) fd quiet (call_loop (K := K) stop pending ev fuel fd k) s (refined s (λ s, Ok <$> run s) k).
Proof.
  intros He Hf. eapply leads_bind; [by apply call_loop_leads|]. intros p s1 l (ret & -> & H). apply leads_done.
  exists ret. split; [done|]. intros more wd. destruct (H more wd) as (wd' & H1). exists wd'. by rewrite app_nil_r, He, H1.
Qed.

End facts.
End SocketLoopFacts.

(** ** The property *)
Section socket_loop_properties.
Import SocketLoop SocketLoopFacts.
Context {U K TQ : Type} `{!PQueue co_timer CompareTimerPointer TQ} `{!Epoll K}.
Context `{!Part Event U} `{!Part (time_state TQ) U} `{!Part K U} `{!Part table U}.
Context `{!Apart table Event U} `{!Apart table (time_state TQ) U} `{!Apart table K U}.

(** C17: sockets, scheduler and event loop together. With more turns than the
    kernel has answers for the descriptor, the programs of [recv], [recv_all],
    [send], [send_all], [accept] and [connect] make no undefined step, make
    calls on that descriptor only, send nothing but their argument, in order, and
    get to their continuation; for every outcome of their waits the result and
    what is done to the descriptor are the ones CoSocket gives. And the
    programs are clients of the event loop when what they are followed by is. *)
Theorem socket_operations_refine (stop : prog U) (fd len : Z) (buf : bytes) (fuel : nat) (s : sock)
    (kr : Z → bytes → prog U) (ks : Z → prog U) :
  0 ≤ len < 2 ^ 31 → len ≤ zlen buf → 0 ≤ fd < 2 ^ 31 →
  (length (rx s) < fuel)%nat → (length (tx s) < fuel)%nat → (length (calls s) < fuel)%nat →
  (leads (K := K) fd quiet (recv (K := K) stop fuel fd buf len kr) s (refined s (λ s, CoSocket.recv fuel s buf len) (λ r, kr r.1 r.2)) ∧
   leads (K := K) fd quiet (recv_all (K := K) stop (S fuel) fd buf len kr) s
     (refined s (λ s, CoSocket.recv_all (S fuel) s buf len) (λ r, kr r.1 r.2)) ∧
   leads (K := K) fd (sends (sent s) buf) (send (K := K) stop fuel fd buf len ks) s (refined s (λ s, CoSocket.send fuel s buf len) ks) ∧
   leads (K := K) fd (sends (sent s) buf) (send_all (K := K) stop (S fuel) fd buf len ks) s
     (refined s (λ s, CoSocket.send_all (S fuel) s buf len) ks) ∧
   leads (K := K) fd quiet (accept (K := K) stop fuel fd ks) s (refined s (λ s, Ok <$> CoSocket.accept fuel s) ks) ∧
   leads (K := K) fd quiet (connect_loop (K := K) stop fuel fd ks) s (refined s (λ s, Ok <$> CoSocket.connect_loop fuel s) ks)) ∧
  (EventFacts.client (K := K) (TQ := TQ) true stop → (∀ ret b, zlen b = zlen buf → EventFacts.client (K := K) (TQ := TQ) true (kr ret b)) →
   (∀ ret, EventFacts.client (K := K) (TQ := TQ) true (ks ret)) →
   Forall (EventFacts.client (K := K) (TQ := TQ) true)
     [recv (K := K) stop fuel fd buf len kr; recv_all (K := K) stop (S fuel) fd buf len kr; send (K := K) stop fuel fd buf len ks;
      send_all (K := K) stop (S fuel) fd buf len ks; accept (K := K) stop fuel fd ks; connect_loop (K := K) stop fuel fd ks]).
Proof.
  intros Hl Hb Hfd Hrx Htx Hc. split.
  - split; [by apply recv_refined|]. split; [apply recv_all_refined; [lia|done|done]|].
    split; [by apply send_refined|]. split; [apply send_all_refined; [lia|done|done]|].
    split; apply call_refined; [apply accept_script|done|apply connect_script|done].
  - intros Hstop Hkr Hks. repeat apply Forall_cons_2; [..|apply Forall_nil_2].
    + apply recv_loop_client; [done|done|lia|lia| |lia|by intros; apply Hkr]. intros r Hr. rewrite i32_id; lia.
    + apply recv_all_loop_client; [done|done|lia|lia|done|done].
    + apply send_loop_client; [done|done|lia|lia|lia| |by intros; apply Hks]. intros r Hr. rewrite i32_id; lia.
    + apply send_all_loop_client; [done|done|lia|done|done|lia].
    + by apply call_loop_client.
    + by apply call_loop_client.
Qed.
End socket_loop_properties.

(** ** Example *)
Module SocketLoopExample.
Import SocketLoop SocketLoopFacts EventExample.

(** The process of the example of Event, with descriptors. *)
Record net := mkNet { base : world; descriptors : table }.

#[global] Instance net_part {T} `{!Part T world} : Part T net | 10.
Proof. refine {| view u := view (base u); set_view t u := mkNet (set_view t (base u)) (descriptors u) |}. intros t u. apply view_set. Defined.
#[global] Instance net_table : Part table net | 0 := {|
  view := descriptors; set_view t u := mkNet (base u) t; view_set _ _ := eq_refl |}.
#[global] Instance net_apart {T} `{!Part T world} : Apart table T net.
Proof. done. Qed.

(** A peer that lets the process wait, and then sends. *)
Definition peer5 : sock := mkSock 5 0 [RxError EAGAIN; RxData (str "hel"); RxData (str "lo")] [TxAccept 2] [] [] [] [] false.
Definition begin : net := mkNet start (λ _, peer5).
Definition done_with (ret : Z) (b : bytes) : prog net := Ret.

Lemma socket_operations_refine_witness :
  leads (K := simple_kernel) 5 quiet (recv_all (K := simple_kernel) Ret 10 5 [0; 0; 0; 0; 0] 5 done_with) peer5
    (refined peer5 (λ s, CoSocket.recv_all 10 s [0; 0; 0; 0; 0] 5) (λ r, done_with r.1 r.2)) ∧
  CoSocket.recv_all 10 (scripted peer5 [true] []) [0; 0; 0; 0; 0] 5 =
    Some (Ok (5, str "hello", scripted (mkSock 5 EAGAIN [] [TxAccept 2] [] [] [] [] false) [] [FSW_EVENT_READ])) ∧
  EventFacts.client (K := simple_kernel) (TQ := queue) true (send (K := simple_kernel) Ret 9 5 [1; 2; 3; 4; 5] 5 (λ _, Ret)).
Proof.
  split; [|split; [vm_compute; reflexivity|]].
  - apply (socket_operations_refine (K := simple_kernel) (TQ := queue) Ret 5 5 [0; 0; 0; 0; 0] 9 peer5 done_with (λ _, Ret));
      [lia|by vm_compute|lia|cbn; lia..].
  - destruct (socket_operations_refine (K := simple_kernel) (TQ := queue) Ret 5 5 [1; 2; 3; 4; 5] 9 peer5 done_with (λ _, Ret))
      as [_ H]; [lia|by vm_compute|lia|cbn; lia..|].
    specialize (H ltac:(constructor) ltac:(constructor) ltac:(constructor)).
    apply Forall_cons_1 in H as [_ H]. apply Forall_cons_1 in H as [_ H]. apply Forall_cons_1 in H as [H _]. exact H.
Defined.
End SocketLoopExample.
