(* ===== verification/Ownership.v ===== *)
(** * Ownership: programs whose coroutines share no descriptor

    What each coroutine does to its own descriptors can be stated without the
    others: [safe D p c] says that the program [p], which owns the descriptors
    [D], whose state is [c], makes no undefined step whatever the rest of the
    process does, keeps the promise [G] about what is sent on a descriptor
    after each of its steps, hands descriptors over to the coroutines it
    creates, and when it returns has each descriptor it still owns in a state
    that [E] allows. The theorem of this file is that this is enough: on the
    event loop, under every interleaving, report of the kernel and clock, such
    a program never goes wrong, [G] holds throughout and [E] at the end.

    What is shared otherwise can be owned in the same way: [Memory] says which
    part of the memory of the process goes by which number (the scratch buffer,
    in Http2Process); without an instance there is none.

    The proof goes through the threads of Threads.v: the loop never sees who
    owns what. *)

From S2P Require Import Prelude Words CoSocket Timer Coroutine Waiters Sleep Event Threads Progress SocketLoop.
From stdpp Require Import gmap.
#[local] Open Scope Z_scope.

(** What is owned under a number: a descriptor, which is the socket and its
    registration with the kernel, and memory of the process that goes by this
    number; none, unless an instance says otherwise. *)
Definition cell : Type := sock * option epoll_event * bytes.

Class Memory (U : Type) := memory : U → Z → bytes.
Class MemoryApart (T U : Type) `{!Part T U} `{!Memory U} :=
  memory_apart : ∀ (t : T) (u : U) fd, memory (set_view t u) fd = memory u fd.
#[global] Instance no_memory U : Memory U | 100 := λ _ _, [].
#[global] Instance no_memory_apart T U `{!Part T U} : MemoryApart T U | 100.
Proof. done. Qed.

Module Ownership.
Import Sched SchedInv EventLoop EventFacts Threads Progress SocketLoop SocketLoopFacts.
Section ownership.
Context {U K TQ : Type} `{!PQueue co_timer CompareTimerPointer TQ} `{!Epoll K}.
Context `{!Part Event U} `{!Part (time_state TQ) U} `{!Part K U} `{!Part table U}.
Context `{!Apart Event (time_state TQ) U} `{!Apart Event K U} `{!Apart (time_state TQ) Event U}.
Context `{!Apart (time_state TQ) K U} `{!Apart K Event U} `{!Apart K (time_state TQ) U}.
Context `{!Apart table Event U} `{!Apart table (time_state TQ) U} `{!Apart table K U}.
Context `{!Apart Event table U} `{!Apart (time_state TQ) table U} `{!Apart K table U}.
Context `{!Memory U} `{!MemoryApart Event U} `{!MemoryApart (time_state TQ) U} `{!MemoryApart K U} `{!MemoryApart table U}.
Implicit Types (u : U) (p : prog U) (c : Z → cell) (D : gset Z) (x : option ptr) (l : loop (U := U)).

Definition cells u : Z → cell := λ fd, (view (T := table) u fd, interest (view (T := K) u) !! fd, memory u fd).

(** The loop has been made. *)
Definition loop_ok u : Prop := ∃ pl, poll (view (T := Event) u) = Some pl ∧ events pl ≠ [].

Definition agree D c c' : Prop := ∀ fd, fd ∈ D → c fd = c' fd.

(** What may have been sent on a descriptor at any time, and its state when its
    owner has returned. *)
Variables (G : Z → bytes → Prop) (E : Z → sock → Prop).

Definition kept D c c' : Prop := ∀ fd, fd ∈ D → G fd (sent (c fd).1.1) → G fd (sent (c' fd).1.1).

Inductive safe : gset Z → prog U → (Z → cell) → Prop :=
| safe_ret D c : (∀ fd, fd ∈ D → E fd (c fd).1.1) → safe D Ret c
| safe_act D f c :
    (∀ u, agree D (cells u) c → loop_ok u → defined (f u) = true) →
    (∀ u u' p, agree D (cells u) c → loop_ok u → f u = Ok (u', p) →
       (∀ fd, fd ∉ D → cells u' fd = cells u fd) ∧ kept D (cells u) (cells u')) →
    (∀ u u' p, agree D (cells u) c → loop_ok u → f u = Ok (u', p) → safe D p (cells u')) →
    safe D (Act f) c
| safe_create D D1 D2 fn (k : Z → prog U) c :
    D ≡ D1 ∪ D2 → D1 ## D2 → safe D1 fn c → (∀ id, safe D2 (k id) c) → safe D (Create fn k) c
| safe_resume D co k c : safe D k c → safe D (Resume co k) c
| safe_resume_cid D id k c : safe D k c → safe D (ResumeCid id k) c
| safe_yield D k c : safe D k c → safe D (Yield k) c
| safe_get_current D (k : option ptr → prog U) c : (∀ co, safe D (k co) c) → safe D (GetCurrent k) c
| safe_get_cid D co (k : Z → prog U) c : (∀ id, safe D (k id) c) → safe D (GetCid co k) c.

Lemma agree_mono D D' c c' : D' ⊆ D → agree D c c' → agree D' c c'.
Proof. intros H Ha fd Hf. by apply Ha, H. Qed.

Lemma safe_agree D p c c' : safe D p c → agree D c c' → safe D p c'.
Proof.
  intros H. revert c'. induction H as [D c HE|D f c Hd Hk Hs IH|D D1 D2 fn k c HD Hx _ IH1 _ IH2|D co k c _ IH
    |D id k c _ IH|D k c _ IH|D k c _ IH|D co k c _ IH]; intros c' Ha.
  - apply safe_ret. intros fd Hf. rewrite <- Ha by done. by apply HE.
  - assert (Ht : ∀ u, agree D (cells u) c' → agree D (cells u) c).
    { intros u Hu fd Hf. rewrite Hu by done. by rewrite Ha. }
    apply safe_act; eauto.
  - eapply safe_create; [done..| |intros id].
    + apply IH1. eapply agree_mono; [|done]. set_solver.
    + apply IH2. eapply agree_mono; [|done]. set_solver.
  - by apply safe_resume, IH.
  - by apply safe_resume_cid, IH.
  - by apply safe_yield, IH.
  - apply safe_get_current. eauto.
  - apply safe_get_cid. eauto.
Qed.

Lemma safe_equiv D D' p c : D ≡ D' → safe D p c → safe D' p c.
Proof. intros E'. apply leibniz_equiv in E'. by subst. Qed.

(** *** The threads of a process and what they own *)
Record owned (D0 : gset Z) (pl : gmap (option ptr) (prog U * list (prog U))) u
    (own : option ptr → gset Z) (fin : gset Z) : Prop := {
  own_safe x t : pl !! x = Some t → ∃ p, t = (p, []) ∧ safe (own x) p (cells u);
  own_disjoint x y : x ≠ y → own x ## own y;
  own_dom x : pl !! x = None → own x = ∅;
  own_fin x : own x ## fin;
  own_all fd : fd ∈ D0 → fd ∈ fin ∨ ∃ x, fd ∈ own x;
  own_end fd : fd ∈ fin → E fd (view (T := table) u fd);
  own_kept fd : fd ∈ D0 → G fd (sent (view (T := table) u fd))
}.

Definition give (own : option ptr → gset Z) x D : option ptr → gset Z :=
  λ y, if decide (y = x) then D else own y.
Lemma give_eq own x D : give own x D x = D.
Proof. unfold give. by rewrite decide_True. Qed.
Lemma give_ne own x y D : y ≠ x → give own x D y = own y.
Proof. intros H. unfold give. by rewrite decide_False. Qed.

Lemma owned_cells D0 pl u u' own fin :
  owned D0 pl u own fin → (∀ fd, cells u' fd = cells u fd) → owned D0 pl u' own fin.
Proof.
  intros Ho Hc. assert (Ht : ∀ fd, view (T := table) u' fd = view (T := table) u fd).
  { intros fd. pose proof (Hc fd) as H. by injection H. }
  split; try apply Ho.
  - intros x t Hx. destruct (own_safe _ _ _ _ _ Ho x t Hx) as (p & -> & Hs). exists p. split; [done|].
    eapply safe_agree; [done|]. by intros fd _.
  - intros fd Hf. rewrite Ht. by apply Ho.
  - intros fd Hf. rewrite Ht. by apply Ho.
Qed.

(** The thread [x] goes on with what it owns. *)
Lemma owned_goes D0 pl u own fin x p p' ts :
  owned D0 pl u own fin → pl !! x = Some (p, ts) → (safe (own x) p (cells u) → safe (own x) p' (cells u)) →
  owned D0 (<[x := (p', ts)]> pl) u own fin.
Proof.
  intros Ho Hx Hp. split; try apply Ho.
  - intros y t. destruct (decide (x = y)) as [<-|Hxy].
    + rewrite lookup_insert_eq. intros [= <-]. destruct (own_safe _ _ _ _ _ Ho x _ Hx) as (q & [= <- ->] & Hs).
      exists p'. split; [done|]. by apply Hp.
    + rewrite lookup_insert_ne by done. apply Ho.
  - intros y. destruct (decide (x = y)) as [<-|Hxy]; [by rewrite lookup_insert_eq|].
    rewrite lookup_insert_ne by done. apply Ho.
Qed.

(** Its steps reach only what it owns. *)
Lemma owned_act D0 pl u u' own fin x f ts p :
  owned D0 pl u own fin → loop_ok u → pl !! x = Some (Act f, ts) → f u = Ok (u', p) →
  owned D0 (<[x := (p, ts)]> pl) u' own fin.
Proof.
  intros Ho Hl Hx Hf. destruct (own_safe _ _ _ _ _ Ho x _ Hx) as (q & [= <- ->] & Hs).
  inversion Hs as [|? ? ? _ Hk Hn| | | | | |]; subst.
  assert (Hag : agree (own x) (cells u) (cells u)) by done.
  destruct (Hk u u' p Hag Hl Hf) as [Hfr Hkp]. specialize (Hn u u' p Hag Hl Hf).
  assert (Hag' : ∀ D', D' ## own x → agree D' (cells u) (cells u')).
  { intros D' Hd fd Hin. symmetry. apply Hfr. set_solver. }
  split; try apply Ho.
  - intros y t. destruct (decide (x = y)) as [<-|Hxy].
    + rewrite lookup_insert_eq. intros [= <-]. by exists p.
    + rewrite lookup_insert_ne by done. intros Hy. destruct (own_safe _ _ _ _ _ Ho y t Hy) as (q & -> & Hq).
      exists q. split; [done|]. eapply safe_agree; [done|]. apply Hag'. by apply (own_disjoint _ _ _ _ _ Ho).
  - intros y. destruct (decide (x = y)) as [<-|Hxy]; [by rewrite lookup_insert_eq|].
    rewrite lookup_insert_ne by done. apply Ho.
  - intros fd Hin. assert (Hc : cells u' fd = cells u fd).
    { apply Hfr. pose proof (own_fin _ _ _ _ _ Ho x). set_solver. }
    injection Hc as -> _ _. by apply Ho.
  - intros fd Hin. pose proof (own_kept _ _ _ _ _ Ho fd Hin) as HG. destruct (decide (fd ∈ own x)) as [Hd|Hd].
    + by apply Hkp.
    + pose proof (Hfr fd Hd) as Hc. injection Hc as -> _ _. done.
Qed.

(** A new thread takes some of it. *)
Lemma owned_create D0 pl u own fin x y fn (k : Z → prog U) id ts :
  owned D0 pl u own fin → pl !! x = Some (Create fn k, ts) → pl !! Some y = None →
  ∃ own', owned D0 (<[x := (k id, ts)]> (<[Some y := (fn, [])]> pl)) u own' fin.
Proof.
  intros Ho Hx Hy. destruct (own_safe _ _ _ _ _ Ho x _ Hx) as (q & [= <- ->] & Hs).
  inversion Hs as [| |? D1 D2 ? ? ? HD Hdis Hfn Hk| | | | |]; subst.
  assert (Hxy : x ≠ Some y) by congruence. pose proof (own_dom _ _ _ _ _ Ho _ Hy) as Hoy.
  exists (give (give own x D2) (Some y) D1).
  assert (H1 : give (give own x D2) (Some y) D1 (Some y) = D1) by apply give_eq.
  assert (H2 : give (give own x D2) (Some y) D1 x = D2) by (rewrite give_ne by done; apply give_eq).
  assert (H3 : ∀ z, z ≠ x → z ≠ Some y → give (give own x D2) (Some y) D1 z = own z).
  { intros z Hzx Hzy. by rewrite !give_ne. }
  set (own' := give (give own x D2) (Some y) D1) in *. set (o := λ z, if decide (z = Some y) then x else z).
  assert (Ho1 : o (Some y) = x) by (unfold o; by rewrite decide_True).
  assert (Ho2 : ∀ z, z ≠ Some y → o z = z) by (intros z Hz; unfold o; by rewrite decide_False).
  assert (Hsub : ∀ z, own' z ⊆ own (o z)).
  { intros z. destruct (decide (z = Some y)) as [->|Hzy]; [rewrite H1, Ho1; set_solver|]. rewrite Ho2 by done.
    destruct (decide (z = x)) as [->|Hzx]; [rewrite H2; set_solver|by rewrite H3]. }
  assert (Hdj : ∀ z w, z ≠ w → own' z ## own' w).
  { intros z w Hzw. destruct (decide (o z = o w)) as [Eo|No].
    - destruct (decide (z = Some y)) as [->|Hzy].
      + rewrite Ho1, Ho2 in Eo by congruence. subst w. by rewrite H1, H2.
      + rewrite (Ho2 z Hzy) in Eo. destruct (decide (w = Some y)) as [->|Hwy]; [|by rewrite Ho2 in Eo].
        rewrite Ho1 in Eo. subst z. rewrite H1, H2. by symmetry.
    - pose proof (own_disjoint _ _ _ _ _ Ho (o z) (o w) No) as Hd. intros fd Hz Hw.
      exact (Hd fd (Hsub z fd Hz) (Hsub w fd Hw)). }
  split; try apply Ho; [| done| | |].
  - intros z t. destruct (decide (x = z)) as [<-|Hxz].
    + rewrite lookup_insert_eq, H2. intros [= <-]. by exists (k id).
    + rewrite lookup_insert_ne by done. destruct (decide (Some y = z)) as [<-|Hyz].
      * rewrite lookup_insert_eq, H1. intros [= <-]. by exists fn.
      * rewrite lookup_insert_ne, H3 by done. apply Ho.
  - intros z. destruct (decide (x = z)) as [<-|Hxz]; [by rewrite lookup_insert_eq|].
    destruct (decide (Some y = z)) as [<-|Hyz]; [by rewrite lookup_insert_ne, lookup_insert_eq|].
    rewrite !lookup_insert_ne, H3 by done. apply Ho.
  - intros z fd Hz Hf. exact (own_fin _ _ _ _ _ Ho (o z) fd (Hsub z fd Hz) Hf).
  - intros fd Hin. destruct (own_all _ _ _ _ _ Ho fd Hin) as [?|(z & Hz)]; [by left|right].
    destruct (decide (z = x)) as [->|Hzx].
    + rewrite HD in Hz. apply elem_of_union in Hz as [Hz|Hz]; [exists (Some y); by rewrite H1|exists x; by rewrite H2].
    + exists z. rewrite H3; [done..|]. intros ->. rewrite Hoy in Hz. set_solver.
Qed.

(** A thread that ends leaves what it owns. *)
Lemma owned_end D0 pl u own fin x :
  owned D0 pl u own fin → pl !! x = Some (Ret, []) → owned D0 (delete x pl) u (give own x ∅) (fin ∪ own x).
Proof.
  intros Ho Hx. destruct (own_safe _ _ _ _ _ Ho x _ Hx) as (q & [= <-] & Hs).
  inversion Hs as [? ? HE| | | | | | |]; subst. split; try apply Ho.
  - intros y t [Hxy Hy]%lookup_delete_Some. rewrite give_ne by done. by apply Ho.
  - intros y z Hyz. pose proof (own_disjoint _ _ _ _ _ Ho y z Hyz).
    destruct (decide (y = x)) as [->|Hyx], (decide (z = x)) as [->|Hzx];
      rewrite ?give_eq; rewrite ?give_ne by done; set_solver.
  - intros y. destruct (decide (y = x)) as [->|Hyx]; [by rewrite give_eq|].
    rewrite lookup_delete_ne, give_ne by done. apply Ho.
  - intros y. pose proof (own_fin _ _ _ _ _ Ho y). destruct (decide (y = x)) as [->|Hyx]; [rewrite give_eq; set_solver|].
    rewrite give_ne by done. pose proof (own_disjoint _ _ _ _ _ Ho y x Hyx). set_solver.
  - intros fd Hin. destruct (own_all _ _ _ _ _ Ho fd Hin) as [?|(z & Hz)]; [left; set_solver|].
    destruct (decide (z = x)) as [->|Hzx]; [left; set_solver|]. right. exists z. by rewrite give_ne.
  - intros fd [Hin|Hin]%elem_of_union; [by apply Ho|]. by apply HE.
Qed.

Lemma owned_step D0 x pl u pl' u' own fin :
  owned D0 pl u own fin → loop_ok u → thread_step x (pl, u) (pl', u') → ∃ own' fin', owned D0 pl' u' own' fin'.
Proof.
  intros Ho Hl Hst.
  inversion Hst as [f ts ? ? ? p Hx Hf|fn k ts ? ? y id Hx Hy|p p' ts ? ? Hx Hgo|fn k ts ? ? _ Hx|t ts ? ? _ Hx|? ? _ Hx]; subst.
  - exists own, fin. by eapply owned_act.
  - destruct (owned_create D0 pl u' own fin x y fn k id ts Ho Hx Hy) as (own' & H). by exists own', fin.
  - exists own, fin. eapply owned_goes; [done|exact Hx|]. intros Hs. by destruct Hgo; inversion Hs; subst.
  - destruct (own_safe _ _ _ _ _ Ho x _ Hx) as (q & [= <- ->] & Hs). inversion Hs.
  - by destruct (own_safe _ _ _ _ _ Ho x _ Hx) as (q & [= <- ?] & Hs).
  - eexists _, _. by apply owned_end.
Qed.

(** *** On the loop *)
Abbreviation linv := (EventFacts.linv (K := K) (TQ := TQ) (strict := false)).

Definition oinv D0 l : Prop :=
  linv l ∧ ∃ pl own fin, represents (mach l) pl ∧ owned D0 pl (globals (mach l)) own fin.

Lemma linv_loop_ok l : linv l → loop_ok (globals (mach l)).
Proof.
  intros (pend & (cs & ios & ts & regs & _ & _ & (_ & _ & pl & Hp & Hlen & _) & _) & _).
  exists pl. split; [done|]. intros He. by rewrite He in Hlen.
Qed.

(** The running thread's own steps are defined. *)
Lemma owned_not_faulty D0 pl own fin (m : machine U) :
  represents m pl → owned D0 pl (globals m) own fin → loop_ok (globals m) → ¬ faulty m.
Proof.
  intros Hr Ho Hl (f & Hc & Hd). pose proof (rep_prog m pl _ Hr Hc) as Hx.
  destruct (own_safe _ _ _ _ _ Ho _ _ Hx) as (q & [= <- _] & Hs).
  inversion Hs as [|? ? ? Hdef _ _| | | | | |]; subst. rewrite (Hdef (globals m)) in Hd; [done|done|done].
Qed.

(** The thread of the main stack makes the loop's own calls. *)
Lemma owned_call D0 pl u own fin co cid (p : prog U) :
  owned D0 pl u own fin → pl !! None = Some (Ret, []) → p = Resume co Ret ∨ p = ResumeCid cid Ret →
  owned D0 (<[None := (p, [])]> pl) u own fin.
Proof. intros Ho Hx Hp. eapply owned_goes; [done|exact Hx|]. by destruct Hp as [->| ->]; constructor. Qed.

Ltac parts :=
  repeat first
    [ rewrite (apart (T := Event) (T' := table)) | rewrite (apart (T := Event) (T' := K))
    | rewrite (apart (T := time_state TQ) (T' := table)) | rewrite (apart (T := time_state TQ) (T' := K)) ].

Lemma cells_event u (e : Event) fd : cells (set_view e u) fd = cells u fd.
Proof. unfold cells. parts. by rewrite memory_apart. Qed.
Lemma cells_time u (t : time_state TQ) fd : cells (set_view t u) fd = cells u fd.
Proof. unfold cells. parts. by rewrite memory_apart. Qed.

Lemma wait_head_cells u r u' fd : wait_head (TQ := TQ) u = Ok (r, u') → cells u' fd = cells u fd.
Proof.
  unfold wait_head. destruct (0 <? _); [|by intros [= _ <-]]. destruct (poll _) as [pl|].
  - destruct (_ && _); intros [= _ <-]; [apply cells_event|done].
  - destruct (_ <? 0); [done|by intros [= _ <-]].
Qed.
Lemma epoll_result_cells u r u' fd : epoll_result r u = Ok u' → cells u' fd = cells u fd.
Proof.
  unfold epoll_result. destruct (poll _) as [pl|]; [|done].
  destruct r; intros [= <-]; apply cells_event.
Qed.
Lemma run_timers_next_cells u now y u' fd : run_timers_next (TQ := TQ) now u = Some (y, u') → cells u' fd = cells u fd.
Proof.
  unfold run_timers_next. destruct (pq_top _); [|done]. destruct (_ <? _); [done|]. intros [= _ <-]. apply cells_time.
Qed.

Lemma oinv_step D0 l r :
  oinv D0 l → last_cid (mach l) < 2 ^ 31 → loop_step (K := K) (TQ := TQ) l r → ∃ l', r = Ok l' ∧ oinv D0 l'.
Proof.
  intros (Hl & pl & own & fin & Hrep & Ho) Hc Hst. pose proof (linv_wf l Hl) as Hwf. pose proof (linv_loop_ok l Hl) as Hok.
  destruct (linv_step l r Hl Hc Hst) as [(_ & Hf & _)|(l' & -> & Hl')].
  { by destruct (owned_not_faulty D0 pl own fin (mach l) Hrep Ho Hok). }
  exists l'. split; [done|]. split; [done|].
  assert (Hsame : ∀ u' m', represents m' pl → globals m' = u' → (∀ fd, cells u' fd = cells (globals (mach l)) fd) →
    ∃ pl own fin, represents m' pl ∧ owned D0 pl (globals m') own fin).
  { intros u' m' Hr' <- Hcells. exists pl, own, fin. split; [done|]. by eapply owned_cells. }
  clear Hl Hl' Hc. remember (Ok l') as r eqn:Er. destruct Hst as [m q r Hn Hst|m q t t' ->|m Hrest|m u Hrest Hw|m Hrest Hw
    |m timeout u r k' Hrest Hw -> Hrep'|m i cid Hrest Hn|m i t Hrest Hn ->|m i Hrest Hn|m now y u Hrest Hn|m now Hrest Hn];
    cbn [mach] in *; try (discriminate Er); try (injection Er as <-); cbn [mach].
  - destruct r as [[m'|]| |]; try discriminate Er. injection Er as <-. cbn [mach].
    destruct (step_simulated m m' pl Hwf Hrep Hst) as [(p & _ & pl' & Hrep' & Hth)|(_ & _ & Hrep' & Hg)].
    + destruct (owned_step D0 _ pl _ pl' _ own fin Ho Hok Hth) as (own' & fin' & Ho'). by exists pl', own', fin'.
    + apply (Hsame (globals m')); [done|done|]. intros fd. by rewrite Hg.
  - eapply Hsame; [by apply represents_globals|done|]. intros fd. apply cells_time.
  - by eapply Hsame.
  - eapply Hsame; [by apply represents_globals|done|]. intros fd. by eapply wait_head_cells.
  - destruct (epoll_result r u) as [u'| |] eqn:Ee; try discriminate Er. injection Er as <-. cbn [mach].
    eapply Hsame; [by apply represents_globals|done|]. intros fd. cbn [globals with_globals set_globals].
    rewrite (epoll_result_cells _ _ _ _ Ee). by eapply wait_head_cells.
  - destruct (represents_call m pl (ResumeCid cid Ret) Hwf Hrest Hrep) as [Hr' Hx].
    eexists _, own, fin. split; [exact Hr'|]. cbn [globals call set_cpu].
    eapply (owned_call D0 pl (globals m) own fin None cid); [done|done|by right].
  - by eapply Hsame.
  - destruct (represents_call m pl (fire_timer y Ret) Hwf Hrest Hrep) as [Hr' Hx].
    eexists _, own, fin. split; [exact (represents_globals (call (fire_timer y Ret) m) u _ Hr')|]. cbn [globals call set_cpu with_globals set_globals].
    eapply (owned_call D0 pl u own fin (private_data y) 0); [|done|].
    + eapply owned_cells; [done|]. intros fd. by eapply run_timers_next_cells.
    + left. unfold fire_timer. by destruct (callback y).
  - by eapply Hsame.
Qed.

Lemma oinv_reachable D0 l0 l :
  oinv D0 l0 → loop_reachable (K := K) (TQ := TQ) l0 l → last_cid (mach l) < 2 ^ 31 → oinv D0 l.
Proof.
  intros H0 Hr. induction Hr as [|l l' Hr IH Hst]; [done|]. intros Hc.
  pose proof (loop_step_last_cid l (Ok l') l' Hst eq_refl).
  destruct (oinv_step D0 l (Ok l') (IH ltac:(lia)) ltac:(lia) Hst) as (l2 & [= <-] & Ho). done.
Qed.

Lemma oinv_start D0 fn u epfd e0 :
  tame (K := K) (TQ := TQ) false true fn → fresh_loop (K := K) (TQ := TQ) u epfd e0 → safe D0 fn (cells u) →
  (∀ fd, fd ∈ D0 → G fd (sent (view (T := table) u fd))) → oinv D0 (run fn u).
Proof.
  intros Hfn Hu Hs HG. split; [by eapply run_linv|].
  exists {[None := (Create fn (λ _, Ret), [])]}, (give (λ _, ∅) None D0), ∅. split; [apply boot_represents|]. cbn [mach run globals boot].
  split.
  - intros x t Hx. apply lookup_singleton_Some in Hx as [<- <-]. eexists. split; [done|]. rewrite give_eq.
    apply (safe_create _ D0 ∅); [set_solver|set_solver|done|]. intros _. apply safe_ret. set_solver.
  - intros x y Hxy. destruct (decide (x = None)) as [->|Hx]; [rewrite (give_ne _ _ y) by done; set_solver|].
    rewrite (give_ne _ _ x) by done. set_solver.
  - intros x Hx. rewrite give_ne; [done|]. intros ->. by rewrite lookup_singleton_eq in Hx.
  - intros x. set_solver.
  - intros fd Hin. right. exists None. by rewrite give_eq.
  - set_solver.
  - done.
Qed.

(** When all is done, every descriptor has been left. *)
Lemma oinv_returned D0 l fd :
  oinv D0 l → ph l = Returned → fd ∈ D0 → E fd (view (T := table) (globals (mach l)) fd).
Proof.
  intros ((pend & _ & Hph & _) & pl & own & fin & Hrep & Ho) Hq Hin. rewrite Hq in Hph.
  destruct Hph as (_ & [Hc Hs] & _ & Hobj & _).
  destruct (own_all _ _ _ _ _ Ho fd Hin) as [Hf|(x & Hx)]; [by apply Ho|].
  pose proof (rep_prog _ pl _ Hrep Hc) as Hp. rewrite Hs in Hp.
  assert (x = None) as ->.
  { destruct x as [a|]; [|done]. destruct (pl !! Some a) as [t|] eqn:Ea.
    - apply (rep_alive _ pl Hrep) in Ea as (c & Hca & _). by rewrite Hobj, lookup_empty in Hca.
    - rewrite (own_dom _ _ _ _ _ Ho _ Ea) in Hx. set_solver. }
  destruct (own_safe _ _ _ _ _ Ho None _ Hp) as (q & [= <-] & Hsf).
  inversion Hsf as [? ? HE| | | | | | |]; subst. by apply HE.
Qed.

(** What the process run from a state has of its descriptors. *)
Definition kept_to_the_end D0 l : Prop :=
  (∀ r, loop_step (K := K) (TQ := TQ) l r → ∃ l', r = Ok l') ∧
  (∀ fd, fd ∈ D0 → G fd (sent (view (T := table) (globals (mach l)) fd))) ∧
  (ph l = Returned → ∀ fd, fd ∈ D0 → E fd (view (T := table) (globals (mach l)) fd)) ∧
  (reports (K := K) → can_return (K := K) (TQ := TQ) l).

Lemma oinv_adequate D0 fn u epfd e0 l :
  tame (K := K) (TQ := TQ) false true fn → fresh_loop (K := K) (TQ := TQ) u epfd e0 → safe D0 fn (cells u) →
  (∀ fd, fd ∈ D0 → G fd (sent (view (T := table) u fd))) →
  loop_reachable (K := K) (TQ := TQ) (run fn u) l → last_cid (mach l) < 2 ^ 31 → kept_to_the_end D0 l.
Proof.
  intros Hfn Hu Hs HG Hr Hc. pose proof (oinv_reachable D0 _ l (oinv_start D0 fn u epfd e0 Hfn Hu Hs HG) Hr Hc) as Ho.
  split; [|split; [|split]].
  - intros r Hst. destruct (oinv_step D0 l r Ho Hc Hst) as (l' & -> & _). by exists l'.
  - intros fd Hin. destruct Ho as (_ & pl & own & fin & _ & Ho). by apply (own_kept _ _ _ _ _ Ho).
  - intros Hph fd Hin. by eapply oinv_returned.
  - intros Hrp. pose proof Ho as (_ & pl & _ & _ & Hrep & _).
    exact (kept_can_return (oinv D0) (λ l H, proj1 H) (oinv_step D0) Hrp l pl Ho Hrep Hc).
Qed.

(** ** The library's programs *)

(** The kernel registers every descriptor that is not registered yet. *)
Definition grants : Prop := ∀ fd ev (k : K), interest k !! fd = None → is_Some (epoll_add fd ev k).

Lemma safe_sleep D seconds ms (k : Z → prog U) c : to_msec seconds = Ok ms → safe D (k 0) c → safe D (sleep (TQ := TQ) seconds k) c.
Proof.
  intros Hms Hk. apply safe_get_current. intros co.
  assert (Hf : ∀ u, ∃ t : time_state TQ, (u ← add_co_timer (TQ := TQ) seconds co u; Ok (u, Yield (k 0))) = Ok (set_view t u, Yield (k 0))).
  { intros u. unfold add_co_timer. rewrite Hms, outcome_bind_ok. by eexists. }
  apply safe_act.
  - intros u _ _. destruct (Hf u) as (t & E'). cbv beta. by rewrite E'.
  - intros u u' p _ _. destruct (Hf u) as (t & E'). cbv beta. rewrite E'. intros [= <- <-]. split.
    + intros fd _. apply cells_time.
    + intros fd _. by rewrite cells_time.
  - intros u u' p Ha _. destruct (Hf u) as (t & E'). cbv beta. rewrite E'. intros [= <- <-]. apply safe_yield.
    eapply safe_agree; [exact Hk|]. intros fd Hin. rewrite cells_time. symmetry. by apply Ha.
Qed.

Ltac kparts :=
  repeat first
    [ rewrite (apart (T := K) (T' := table)) | rewrite (apart (T := K) (T' := Event)) | rewrite (view_set (T := K))
    | rewrite (apart (T := Event) (T' := table)) | rewrite (apart (T := Event) (T' := K)) | rewrite (view_set (T := Event)) ].

Lemma add_event_cells fd write id u :
  loop_ok u → interest (view (T := K) u) !! fd = None →
  (∃ u' r, add_event (K := K) fd write id u = Ok (true, u') ∧
     (∀ fd', cells u' fd' = if fd' =? fd then (view (T := table) u fd, Some r, memory u fd) else cells u fd')) ∨
  (∃ u', add_event (K := K) fd write id u = Ok (false, u') ∧ ¬ grants ∧ ∀ fd', cells u' fd' = cells u fd').
Proof.
  intros (pl & Hp & He) Hn. unfold add_event. rewrite Hp. destruct (events pl) as [|e0 evs]; [done|]. kparts.
  destruct (epoll_add fd _ (view u)) as [k'|] eqn:Ea.
  - left. apply epoll_add_spec in Ea as [_ Hint]. eexists _, _. split; [reflexivity|]. intros fd'. unfold cells. kparts. rewrite !memory_apart.
    rewrite Hint. destruct (fd' =? fd) eqn:Ef; zify_bools.
    + subst fd'. by rewrite lookup_insert_eq.
    + by rewrite lookup_insert_ne.
  - right. eexists. split; [reflexivity|]. split; [|intros fd'; apply cells_event].
    intros Hg. eapply (Hg fd) in Hn as [k' Hk']. rewrite Ea in Hk'. discriminate Hk'.
Qed.

Lemma remove_event_cells fd u r :
  loop_ok u → interest (view (T := K) u) !! fd = Some r →
  ∃ u', remove_event (K := K) fd u = Ok (true, u') ∧
    (∀ fd', cells u' fd' = if fd' =? fd then (view (T := table) u fd, None, memory u fd) else cells u fd').
Proof.
  intros (pl & Hp & _) Hr. unfold remove_event. destruct (epoll_del_spec fd _ r Hr) as (k' & -> & Hint). kparts. rewrite Hp.
  eexists. split; [reflexivity|]. intros fd'. unfold cells. kparts. rewrite !memory_apart, Hint. destruct (fd' =? fd) eqn:Ef; zify_bools.
  - subst fd'. by rewrite lookup_delete_eq.
  - by rewrite lookup_delete_ne.
Qed.

(** [wait_event] on a descriptor that the program owns and has not registered. *)
Lemma safe_wait_event D fd write (k : bool → prog U) c :
  fd ∈ D → (c fd).1.2 = None → (∀ ok, (ok = false → ¬ grants) → safe D (k ok) c) → safe D (wait_event (K := K) fd write k) c.
Proof.
  intros Hin Hn Hk. apply safe_get_current. intros co. apply safe_get_cid. intros id.
  assert (Hadd : ∀ u, agree D (cells u) c → loop_ok u → _) by (intros u Ha Hl; apply (add_event_cells fd write id u Hl);
    pose proof (Ha fd Hin) as E'; by rewrite <- E' in Hn).
  assert (Hother : ∀ u u' s r, (∀ fd', cells u' fd' = if fd' =? fd then (s, r, memory u fd) else cells u fd') → ∀ fd', fd' ∉ D → cells u' fd' = cells u fd').
  { intros u u' s r H fd' Hf. rewrite H. destruct (fd' =? fd) eqn:Ef; zify_bools; [by subst|done]. }
  assert (Hsame : ∀ u u' r, (∀ fd', cells u' fd' = if fd' =? fd then (view (T := table) u fd, r, memory u fd) else cells u fd') →
    ∀ fd', (cells u' fd').1.1 = (cells u fd').1.1).
  { intros u u' r H fd'. rewrite H. destruct (fd' =? fd) eqn:Ef; zify_bools; [by subst|done]. }
  apply safe_act.
  - intros u Ha Hl. destruct (Hadd u Ha Hl) as [(u' & r & -> & _)|(u' & -> & _)]; done.
  - intros u u' p Ha Hl. destruct (Hadd u Ha Hl) as [(u1 & r & -> & Hc)|(u1 & -> & _ & Hc)]; intros [= <- <-].
    + split; [by eapply Hother|]. intros fd' _. by rewrite (Hsame _ _ _ Hc).
    + split; [by intros fd' _|]. intros fd' _. by rewrite Hc.
  - intros u u' p Ha Hl. destruct (Hadd u Ha Hl) as [(u1 & r & -> & Hc)|(u1 & -> & Hg & Hc)]; intros [= <- <-].
    2:{ eapply safe_agree; [by apply Hk|]. intros fd' Hf. rewrite Hc. symmetry. by apply Ha. }
    apply safe_yield.
    assert (Hdel : ∀ u2, agree D (cells u2) (cells u1) → loop_ok u2 → _) by (intros u2 Ha2 Hl2; apply (remove_event_cells fd u2 r Hl2);
      pose proof (Ha2 fd Hin) as E'; rewrite Hc, Z.eqb_refl in E'; by injection E').
    apply safe_act.
    + intros u2 Ha2 Hl2. by destruct (Hdel u2 Ha2 Hl2) as (u3 & -> & _).
    + intros u2 u3 p Ha2 Hl2. destruct (Hdel u2 Ha2 Hl2) as (u3' & -> & Hc3). intros [= <- <-].
      split; [by eapply Hother|]. intros fd' _. by rewrite (Hsame _ _ _ Hc3).
    + intros u2 u3 p Ha2 Hl2. destruct (Hdel u2 Ha2 Hl2) as (u3' & -> & Hc3). intros [= <- <-].
      eapply safe_agree; [by apply (Hk true)|]. intros fd' Hf. rewrite <- (Ha fd' Hf), Hc3.
      pose proof (Ha2 fd' Hf) as E2. rewrite Hc in E2. destruct (fd' =? fd) eqn:Ef; zify_bools; [|by rewrite E2].
      subst fd'. rewrite <- (Ha fd Hin) in Hn. unfold cells in Hn, E2 |- *. cbn in Hn. rewrite Hn. by injection E2 as -> _ ->.
Qed.

(** A call on a descriptor. *)
Definition upd (fd : Z) (s : sock) c : Z → cell := λ fd', if fd' =? fd then (s, (c fd).1.2, (c fd).2) else c fd'.

Lemma upd_eq fd s c : upd fd s c fd = (s, (c fd).1.2, (c fd).2).
Proof. unfold upd. by rewrite Z.eqb_refl. Qed.

Lemma cells_put u fd s fd' :
  cells (set_view (put fd s (view (T := table) u)) u) fd' = upd fd s (cells u) fd'.
Proof.
  unfold cells, upd, put. rewrite view_set, apart, memory_apart. by destruct (fd' =? fd) eqn:Ef; zify_bools; subst.
Qed.

Lemma upd_agree D fd s c c' : agree D c c' → fd ∈ D → agree D (upd fd s c) (upd fd s c').
Proof. intros Ha Hin fd' Hf. unfold upd. rewrite (Ha fd Hin). destruct (fd' =? fd); [done|by apply Ha]. Qed.

Lemma safe_on_socket {A} D fd (f : sock → outcome (A * sock)) k c a s' :
  fd ∈ D → f (c fd).1.1 = Ok (a, s') → (G fd (sent (c fd).1.1) → G fd (sent s')) →
  safe D (k a (errno s')) (upd fd s' c) → safe D (on_socket fd f k) c.
Proof.
  intros Hin Hf HG Hk.
  assert (Hu : ∀ u, agree D (cells u) c → f (view (T := table) u fd) = Ok (a, s')).
  { intros u Ha. pose proof (Ha fd Hin) as E'. by rewrite <- E' in Hf. }
  apply safe_act.
  - intros u Ha _. cbv beta zeta. by rewrite (Hu u Ha).
  - intros u u' p Ha _. cbv beta zeta. rewrite (Hu u Ha). intros [= <- <-]. split.
    + intros fd' Hn. rewrite cells_put. unfold upd. destruct (fd' =? fd) eqn:Ef; zify_bools; [by subst|done].
    + intros fd' _. rewrite cells_put. unfold upd. destruct (fd' =? fd) eqn:Ef; zify_bools; [|done].
      subst fd'. rewrite (Ha fd Hin). exact HG.
  - intros u u' p Ha _. cbv beta zeta. rewrite (Hu u Ha). intros [= <- <-]. eapply safe_agree; [exact Hk|].
    intros fd' Hf'. rewrite cells_put. symmetry. by apply (upd_agree D).
Qed.

(** *** The socket operations

    [bs] is what the calls of [wait_event] return: only [true] if the kernel
    grants every registration. *)
Implicit Types (bs : list bool).
Definition waits_ok bs : Prop := grants → Forall (λ b, b = true) bs.

Lemma waits_ok_cons b bs : (b = false → ¬ grants) → waits_ok bs → waits_ok (b :: bs).
Proof. intros Hb Hl Hg. constructor; [|by apply Hl]. destruct b; [done|]. by destruct (Hb eq_refl Hg). Qed.

Lemma upd_upd D fd s s' c : agree D (upd fd s' (upd fd s c)) (upd fd s' c).
Proof. intros fd' _. unfold upd. rewrite Z.eqb_refl. by destruct (fd' =? fd). Qed.

Lemma upd_id D fd s r c : (c fd).1 = (s, r) → agree D (upd fd s c) c.
Proof. intros Hc fd' _. unfold upd. destruct (fd' =? fd) eqn:Ef; zify_bools; [|done]. subst. rewrite Hc. cbn. by rewrite <- Hc, <- surjective_pairing. Qed.

(** What a program leads to on its descriptor is all there is to show. *)
Lemma safe_leads D fd M p s Q c :
  leads (K := K) fd M p s Q → fd ∈ D → (∀ s s', M s s' → G fd (sent s) → G fd (sent s')) → (c fd).1 = (s, None) →
  (∀ p' s' bs, Q p' s' bs → waits_ok bs → safe D p' (upd fd s' c)) → safe D p c.
Proof.
  intros H. revert c. induction H as [p s Q H|A f k s a s' Q Hf HM _ IH|write k s Q _ IH]; intros c Hin HG Hc HQ.
  - eapply safe_agree; [apply (HQ p s [] H); by intros _|]. by eapply upd_id.
  - eapply safe_on_socket; [done|by rewrite Hc|rewrite Hc; by apply HG|]. apply IH; [done|done|by rewrite upd_eq, Hc|].
    intros p' s2 l Hl Hok. eapply safe_agree; [by eapply HQ|]. intros fd' Hf'. symmetry. by apply (upd_upd D).
  - apply safe_wait_event; [done|by rewrite Hc|]. intros ok Hok. eapply (IH ok); [done|done|exact Hc|].
    intros p' s2 l Hl Hlok. apply (HQ p' s2 (ok :: l) Hl). by apply waits_ok_cons.
Qed.

Lemma quiet_keeps fd s s' : quiet s s' → G fd (sent s) → G fd (sent s').
Proof. by intros ->. Qed.
End ownership.

Section promises.
Context {U K : Type} `{!Epoll K} `{!Part Event U} `{!Part K U} `{!Part table U} `{!Memory U}.
(** The promises may be stated differently on the descriptors owned. *)
Lemma safe_mono (G G' : Z → bytes → Prop) (E E' : Z → sock → Prop) D (p : prog U) c :
  (∀ fd, fd ∈ D → (∀ b, G fd b ↔ G' fd b) ∧ (∀ s, E fd s → E' fd s)) → safe G E D p c → safe G' E' D p c.
Proof.
  intros HD H. induction H as [D c HE|D f c Hd Hk Hs IH|D D1 D2 fn k c HD' Hx _ IH1 _ IH2|D co k c _ IH
    |D id k c _ IH|D k c _ IH|D k c _ IH|D co k c _ IH].
  - apply safe_ret. intros fd Hf. by apply HD, HE.
  - apply safe_act; [done| |by intros; eapply IH]. intros u u' p Ha Hl Hf. destruct (Hk u u' p Ha Hl Hf) as [H1 H2].
    split; [done|]. intros fd Hin HG. apply HD; [done|]. apply H2; [done|]. by apply HD.
  - eapply safe_create; [done..| |intros id].
    + apply IH1. intros fd Hf. apply HD. set_solver.
    + apply IH2. intros fd Hf. apply HD. set_solver.
  - by apply safe_resume, IH.
  - by apply safe_resume_cid, IH.
  - by apply safe_yield, IH.
  - apply safe_get_current. eauto.
  - apply safe_get_cid. eauto.
Qed.
End promises.
End Ownership.

(** ** The property *)
Section ownership_properties.
Import EventLoop EventFacts SocketLoop Ownership.
Context {U K TQ : Type} `{!PQueue co_timer CompareTimerPointer TQ} `{!Epoll K}.
Context `{!Part Event U} `{!Part (time_state TQ) U} `{!Part K U} `{!Part table U}.
Context `{!Apart Event (time_state TQ) U} `{!Apart Event K U} `{!Apart (time_state TQ) Event U}.
Context `{!Apart (time_state TQ) K U} `{!Apart K Event U} `{!Apart K (time_state TQ) U}.
Context `{!Apart table Event U} `{!Apart table (time_state TQ) U} `{!Apart table K U}.
Context `{!Apart Event table U} `{!Apart (time_state TQ) table U} `{!Apart K table U}.
Context `{!Memory U} `{!MemoryApart Event U} `{!MemoryApart (time_state TQ) U} `{!MemoryApart K U} `{!MemoryApart table U}.

(** C5: coroutines can be reasoned about one at a time. Let [fn] own the
    descriptors [D], keep the promise [G] about the bytes sent on each, and
    leave each as [E] says, judged without the rest of the process: every
    coroutine it creates is judged alone, with what it is handed. Then the
    process started with [fn] makes no undefined step and never ends early,
    for every interleaving, report of the kernel and clock; the promise holds
    at all times; when the event loop returns, every descriptor has been left as
    [E] says; and it always can go on until it returns, when the kernel can
    report every descriptor that is registered. *)
Theorem ownership_adequate (G : Z → bytes → Prop) (E : Z → sock → Prop) (D : gset Z) (fn : prog U) (u : U) epfd e0 l :
  tame (K := K) (TQ := TQ) false true fn → fresh_loop (K := K) (TQ := TQ) u epfd e0 →
  safe (K := K) G E D fn (cells (K := K) u) → (∀ fd, fd ∈ D → G fd (sent (view (T := table) u fd))) →
  loop_reachable (K := K) (TQ := TQ) (run fn u) l → last_cid (mach l) < 2 ^ 31 →
  (∀ r, loop_step (K := K) (TQ := TQ) l r → ∃ l', r = Ok l') ∧
  (∀ fd, fd ∈ D → G fd (sent (view (T := table) (globals (mach l)) fd))) ∧
  (ph l = Returned → ∀ fd, fd ∈ D → E fd (view (T := table) (globals (mach l)) fd)) ∧
  (Progress.reports (K := K) → Progress.can_return (K := K) (TQ := TQ) l).
Proof.
  intros Hfn Hu Hs HG Hr Hc. exact (oinv_adequate G E D fn u epfd e0 l Hfn Hu Hs HG Hr Hc).
Qed.
End ownership_properties.

(** ** Example: a coroutine that sends three bytes *)
Module OwnershipExample.
Import SocketLoop SocketLoopFacts EventExample SocketLoopExample.

#[global] Instance net_apart_base {T} `{!Part T world} : Apart T table net.
Proof. done. Qed.
#[global] Instance net_apart_parts {T T'} `{!Part T world} `{!Part T' world} `{!Apart T T' world} : Apart T T' net.
Proof. intros t u. exact (apart (T := T) (T' := T') (U := world) t (base u)). Qed.

Definition quiet_peer : sock := mkSock 5 0 [] [] [] [] [] [] false.
Definition sender : prog net := send (K := simple_kernel) Ret 2 5 [1; 2; 3] 3 (λ _, Ret).
Definition net0 : net := mkNet start (λ _, quiet_peer).

Definition all_sent (fd : Z) (s : sock) : Prop := sent s = [1; 2; 3].

Lemma sender_tame : EventFacts.tame (K := simple_kernel) (TQ := queue) false true sender.
Proof. apply send_loop_client; [constructor|lia|lia|lia|by vm_compute|intros r Hr; rewrite i32_id; lia|intros; constructor]. Qed.

Lemma sender_safe (G : Z → bytes → Prop) :
  (∀ fd b, G fd b) → Ownership.safe (K := simple_kernel) G all_sent {[5]} sender (Ownership.cells (K := simple_kernel) net0).
Proof.
  intros HG. eapply (Ownership.safe_leads G all_sent _ 5); [apply (send_refined _ _ _ _ _ _ quiet_peer); [lia|by vm_compute|cbn; lia]|set_solver|by intros|reflexivity|].
  intros p s bs (r & -> & Hr) _. destruct (Hr [] []) as (wd & H). vm_compute in H. injection H as _ _ _ _ _ _ Hs _.
  apply Ownership.safe_ret. intros fd ->%elem_of_singleton. rewrite Ownership.upd_eq. by symmetry.
Qed.

Lemma ownership_adequate_witness :
  let l := LoopRun.after (K := simple_kernel) (TQ := queue) sender net0 30 in
  EventLoop.ph l = EventLoop.Returned ∧ all_sent 5 (view (T := table) (globals (EventLoop.mach l)) 5).
Proof.
  intros l. assert (Hp : EventLoop.ph l = EventLoop.Returned) by (vm_compute; reflexivity). split; [exact Hp|].
  assert (Hc : (last_cid (EventLoop.mach l) <? 2 ^ 31) = true) by (vm_compute; reflexivity).
  destruct (ownership_adequate (K := simple_kernel) (TQ := queue) (λ _ _, True) all_sent {[5]} sender net0 3 (mkEvent 0 None 0) l
    sender_tame start_fresh (sender_safe _ (λ _ _, Logic.I)) (λ _ _, Logic.I)
    (LoopRun.after_reachable _ _ _) (proj1 (Z.ltb_lt _ _) Hc)) as (_ & _ & H & _).
  apply (H Hp). set_solver.
Defined.
End OwnershipExample.
