(* ===== verification/ServerLoop.v ===== *)
(** * ServerLoop: the servers' loop on the event loop
    (src/coroutine/server.cc; the loop of src/coroutine/http/server.cc is the same)

    HttpServer describes [start] by the connections it hands out. Here it is a
    program of the scheduler's machine: it waits for connections with [accept]
    and creates a coroutine for each, and its handlers run and wait among each
    other. A handler that is right alone on its connection is right on all of
    them. *)

From S2P Require Import Prelude Words CoSocket Timer Coroutine Waiters Sleep Event Progress SocketLoop Ownership.
From stdpp Require Import gmap.
#[local] Open Scope Z_scope.

Module ServerLoop.
Section server_loop.
Context {U K TQ : Type} `{!PQueue co_timer CompareTimerPointer TQ} `{!Epoll K}.
Context `{!Part Event U} `{!Part (time_state TQ) U} `{!Part K U} `{!Part table U}.

(** What is left when the bounds on the turns are used up. *)
Variable stop : prog U.

(** The loop of [Server::start]: [runs] is what [running] holds each time it is
    read, [handler] what a coroutine does with the [Socket] made for a
    descriptor; [accept] always makes one. *)
Fixpoint start_loop (runs : list bool) (fuel : nat) (lfd : Z) (handler : Z → prog U) (k : bool → prog U) : prog U :=
  match runs with
  | [] => stop
  | false :: _ => k true
  | true :: runs =>
      SocketLoop.accept (K := K) stop fuel lfd (λ connfd,
        Create (handler connfd) (λ _, start_loop runs fuel lfd handler k))
  end.

Definition start (later : list bool) : nat → Z → (Z → prog U) → (bool → prog U) → prog U :=
  start_loop (true :: later).

(** A call on the [Socket] for [fd]; for the -1 of a failed [accept] it fails
    with [EBADF], and so does not wait. *)
Definition valid_fd (fd : Z) : bool := (0 <=? fd) && (fd <? 2 ^ 31).

Definition conn_recv (fuel : nat) (fd : Z) (buf : bytes) (len : Z) (k : Z → bytes → prog U) : prog U :=
  if valid_fd fd then SocketLoop.recv (K := K) stop fuel fd buf len k else k (-1) buf.
Definition conn_send (fuel : nat) (fd : Z) (buf : bytes) (len : Z) (k : Z → prog U) : prog U :=
  if valid_fd fd then SocketLoop.send (K := K) stop fuel fd buf len k else k (-1).

End server_loop.
End ServerLoop.

Module ServerLoopFacts.
Import ServerLoop SocketLoop SocketLoopFacts Ownership.
Section facts.
Context {U K TQ : Type} `{!PQueue co_timer CompareTimerPointer TQ} `{!Epoll K}.
Context `{!Part Event U} `{!Part (time_state TQ) U} `{!Part K U} `{!Part table U}.
Context `{!Apart Event (time_state TQ) U} `{!Apart Event K U} `{!Apart (time_state TQ) Event U}.
Context `{!Apart (time_state TQ) K U} `{!Apart K Event U} `{!Apart K (time_state TQ) U}.
Context `{!Apart table Event U} `{!Apart table (time_state TQ) U} `{!Apart table K U}.
Context `{!Apart Event table U} `{!Apart (time_state TQ) table U} `{!Apart K table U}.
Context `{!Memory U} `{!MemoryApart Event U} `{!MemoryApart (time_state TQ) U} `{!MemoryApart K U} `{!MemoryApart table U}.

(** *** Connections that arrive

    The kernel's answers to [accept]: each of [conns] comes after some calls
    that find nothing. *)
Inductive arrivals : list Z → list call_answer → Prop :=
| arrivals_none l : arrivals [] l
| arrivals_some j fd conns l :
    0 ≤ fd < 2 ^ 31 → arrivals conns l →
    arrivals (fd :: conns) (replicate j (CallError EAGAIN) ++ CallOk fd :: l).

Definition all_true (bs : list bool) : Prop := Forall (λ b, b = true) bs.

Lemma wait_true ev (s : sock) bs wd : all_true bs →
  ∃ bs', all_true bs' ∧ CoSocket.wait_event ev (scripted s bs wd) = (true, scripted s bs' (wd ++ [ev])).
Proof.
  intros Hb. unfold CoSocket.wait_event. cbn [waits scripted]. destruct bs as [|b bs].
  - by exists [].
  - apply Forall_cons_1 in Hb as [-> Hb]. by exists bs.
Qed.

Lemma accept_arrives j fd l : ∀ fuel (s s' : sock) bs wd r,
  all_true bs → calls s = replicate j (CallError EAGAIN) ++ CallOk fd :: l → 0 ≤ fd →
  call_script EAGAIN FSW_EVENT_READ fuel (scripted s bs wd) = Some (r, s') → r = fd ∧ calls s' = l.
Proof.
  induction j as [|j IH]; intros [|fuel] s s' bs wd r Hb Hc Hfd; [done| |done|]; cbn [call_script];
    rewrite call_scripted; unfold Socket.call; rewrite Hc; cbn [replicate app fst snd].
  - rewrite (proj2 (Z.ltb_ge _ _)) by lia. cbn [andb]. by intros [= <- <-].
  - change (-1 <? 0) with true. cbn [andb errno scripted set_errno]. rewrite Z.eqb_refl.
    destruct (wait_true FSW_EVENT_READ (set_errno EAGAIN (set_calls (replicate j (CallError EAGAIN) ++ CallOk fd :: l) s)) bs wd Hb) as (bs' & Hb' & ->).
    by apply IH.
Qed.

(** *** The programs are tame *)
Lemma start_loop_tame strict stop fuel lfd handler (k : bool → prog U) runs :
  EventFacts.tame (K := K) (TQ := TQ) strict true stop → 0 ≤ lfd < 2 ^ 31 →
  (∀ fd, EventFacts.tame (K := K) (TQ := TQ) strict true (handler fd)) →
  (∀ b, EventFacts.tame (K := K) (TQ := TQ) strict true (k b)) →
  EventFacts.tame (K := K) (TQ := TQ) strict true (start_loop (K := K) stop runs fuel lfd handler k).
Proof.
  intros Hstop Hl Hh Hk. induction runs as [|[|] runs IH]; [done| |apply Hk]. cbn [start_loop].
  apply call_loop_client; [done|done|]. intros fd. by apply EventFacts.tame_create.
Qed.

Lemma conn_recv_tame strict stop fuel fd buf len (k : Z → bytes → prog U) :
  EventFacts.tame (K := K) (TQ := TQ) strict true stop → 0 ≤ len < 2 ^ 31 → len ≤ zlen buf →
  (∀ ret buf', zlen buf' = zlen buf → EventFacts.tame (K := K) (TQ := TQ) strict true (k ret buf')) →
  EventFacts.tame (K := K) (TQ := TQ) strict true (conn_recv (K := K) stop fuel fd buf len k).
Proof.
  intros Hstop Hl Hb Hk. unfold conn_recv, valid_fd. destruct (_ && _) eqn:E; [|by apply Hk]. zify_bools.
  apply recv_loop_client; [done|lia|lia|lia| |lia|by intros; apply Hk]. intros r Hr. rewrite i32_id; lia.
Qed.

Lemma conn_send_tame strict stop fuel fd buf len (k : Z → prog U) :
  EventFacts.tame (K := K) (TQ := TQ) strict true stop → 0 ≤ len < 2 ^ 31 → len ≤ zlen buf →
  (∀ ret, EventFacts.tame (K := K) (TQ := TQ) strict true (k ret)) →
  EventFacts.tame (K := K) (TQ := TQ) strict true (conn_send (K := K) stop fuel fd buf len k).
Proof.
  intros Hstop Hl Hb Hk. unfold conn_send, valid_fd. destruct (_ && _) eqn:E; [|by apply Hk]. zify_bools.
  apply send_loop_client; [done|lia|lia|lia|lia| |by intros; apply Hk]. intros r Hr. rewrite i32_id; lia.
Qed.

(** *** The loop serves each connection with a handler that is right alone *)
Section serve.
Variables (G : Z → bytes → Prop) (E : Z → sock → Prop).
Abbreviation safe := (safe (K := K) G E).

Lemma start_loop_safe (stop : prog U) fuel lfd handler (Hgrant : grants (K := K)) (HE : ∀ s, E lfd s) :
  0 ≤ lfd < 2 ^ 31 → ∀ conns c,
  NoDup conns → lfd ∉ conns → (c lfd).1.2 = None → arrivals conns (calls (c lfd).1.1) → (length (calls (c lfd).1.1) < fuel)%nat →
  (∀ fd, fd ∈ conns → safe {[fd]} (handler fd) c) →
  safe ({[lfd]} ∪ list_to_set conns) (start_loop (K := K) stop (replicate (length conns) true ++ [false]) fuel lfd handler (λ _, Ret)) c.
Proof.
  intros Hl. induction conns as [|fd conns IH]; intros c Hnd Hn Hc Ha Hf Hh; cbn [length replicate app start_loop].
  { apply safe_ret. intros fd. cbn [list_to_set foldr]. intros [->%elem_of_singleton|?%elem_of_empty]%elem_of_union; [apply HE|done]. }
  inversion Ha as [|j ? ? l Hfd Ha' Ec Hcl]; subst. apply NoDup_cons in Hnd as [Hnin Hnd].
  apply not_elem_of_cons in Hn as [Hne Hn].
  eapply (safe_leads G E _ lfd); [apply call_loop_leads; exact Hf|set_solver|apply quiet_keeps|by rewrite <- Hc; destruct (c lfd).1|].
  intros p s bs (r & -> & Hr) Hbs. specialize (Hbs Hgrant). destruct (Hr [] []) as (wd & H). rewrite app_nil_r in H.
  apply (accept_arrives j fd l) in H as [-> Hcs]; [|done|by rewrite Hcl|lia]. cbn [calls scripted] in Hcs.
  apply (safe_create G E _ {[fd]} ({[lfd]} ∪ list_to_set conns)).
  - cbn [list_to_set foldr]. set_solver.
  - intros x ->%elem_of_singleton. rewrite elem_of_union, elem_of_singleton, elem_of_list_to_set. naive_solver.
  - eapply safe_agree; [apply (Hh fd); left|]. intros x ->%elem_of_singleton. unfold upd.
    rewrite (proj2 (Z.eqb_neq fd lfd)) by congruence. done.
  - intros _. apply IH; rewrite ?upd_eq; cbn [fst snd]; [done|done|done|by rewrite Hcs| |].
    + rewrite Hcs. rewrite <- Hcl, length_app in Hf. cbn [length] in Hf. lia.
    + intros x Hx. eapply safe_agree; [apply (Hh x); by right|]. intros y ->%elem_of_singleton. unfold upd.
      rewrite (proj2 (Z.eqb_neq x lfd)) by (intros ->; done). done.
Qed.
End serve.

(** The process that serves the connections [conns]. *)
Lemma start_serves (G : Z → bytes → Prop) (E : Z → sock → Prop) (stop : prog U) fuel lfd handler conns later u epfd e0 l :
  true :: later = replicate (length conns) true ++ [false] →
  0 ≤ lfd < 2 ^ 31 → NoDup conns → lfd ∉ conns → arrivals conns (calls (view (T := table) u lfd)) →
  (length (calls (view (T := table) u lfd)) < fuel)%nat → grants (K := K) →
  EventFacts.tame (K := K) (TQ := TQ) false true stop →
  (∀ fd, EventFacts.tame (K := K) (TQ := TQ) false true (handler fd)) →
  (∀ fd, fd ∈ conns → safe (K := K) G E {[fd]} (handler fd) (cells (K := K) u) ∧ G fd (sent (view (T := table) u fd))) →
  EventFacts.fresh_loop (K := K) (TQ := TQ) u epfd e0 →
  EventLoop.loop_reachable (K := K) (TQ := TQ) (EventLoop.run (start (K := K) stop later fuel lfd handler (λ _, Ret)) u) l →
  last_cid (EventLoop.mach l) < 2 ^ 31 → kept_to_the_end (K := K) (TQ := TQ) G E (list_to_set conns) l.
Proof.
  intros Hruns Hlfd Hnd Hn Ha Hf Hgr Hst Hh Hs Hu Hr Hc.
  set (G' fd b := fd ≠ lfd → G fd b). set (E' fd s := fd ≠ lfd → E fd s).
  assert (Hne : ∀ fd, fd ∈ conns → fd ≠ lfd) by (by intros fd Hin ->).
  assert (Hfree : (cells (K := K) u lfd).1.2 = None) by (unfold cells; cbn; destruct Hu as (_ & _ & _ & ->); by rewrite lookup_empty).
  destruct (oinv_adequate G' E' ({[lfd]} ∪ list_to_set conns) (start (K := K) stop later fuel lfd handler (λ _, Ret)) u epfd e0 l) as (H1 & H2 & H3 & H4); [| done | | |done|done|].
  - unfold start. apply start_loop_tame; [done|done|done|intros _; constructor].
  - unfold start. rewrite Hruns. apply start_loop_safe; [done|intros s Hx; by destruct Hx|done|done|done|done|done|done|].
    intros fd Hin. destruct (Hs fd Hin) as [Hsafe _]. eapply safe_mono; [|exact Hsafe]. intros fd' ->%elem_of_singleton.
    pose proof (Hne fd Hin). split; [intros b; unfold G'; naive_solver|by intros s Hb _].
  - intros fd Hin Hx. apply elem_of_union in Hin as [->%elem_of_singleton|Hin]; [done|]. apply elem_of_list_to_set in Hin. by apply Hs.
  - split; [done|]. split; [|split; [|done]].
    + intros fd Hin. apply (H2 fd); [by apply elem_of_union_r|]. by apply Hne, (elem_of_list_to_set (C := gset Z)).
    + intros Hph fd Hin. apply (H3 Hph fd); [by apply elem_of_union_r|]. by apply Hne, (elem_of_list_to_set (C := gset Z)).
Qed.
End facts.
End ServerLoopFacts.

(** ** The property *)
Section server_loop_properties.
Import EventLoop EventFacts SocketLoop ServerLoop ServerLoopFacts Ownership.
Context {U K TQ : Type} `{!PQueue co_timer CompareTimerPointer TQ} `{!Epoll K}.
Context `{!Part Event U} `{!Part (time_state TQ) U} `{!Part K U} `{!Part table U}.
Context `{!Apart Event (time_state TQ) U} `{!Apart Event K U} `{!Apart (time_state TQ) Event U}.
Context `{!Apart (time_state TQ) K U} `{!Apart K Event U} `{!Apart K (time_state TQ) U}.
Context `{!Apart table Event U} `{!Apart table (time_state TQ) U} `{!Apart table K U}.
Context `{!Apart Event table U} `{!Apart (time_state TQ) table U} `{!Apart K table U}.
Context `{!Memory U} `{!MemoryApart Event U} `{!MemoryApart (time_state TQ) U} `{!MemoryApart K U} `{!MemoryApart table U}.

(** C6: the server serves its connections independently. Let the handler be
    right alone on each connection: no undefined step, the promise [G] about
    what it sends, [E] when it returns. Then the process that runs
    [Server::start] until [shutdown] after the connections [conns], however
    their handlers, the waits of [accept], the reports of the kernel and the
    clock interleave, makes no undefined step and never ends early, keeps [G]
    on every connection at all times, and when the event loop returns every
    one of the connections has been handled to the end. It always can go on
    until then when the kernel can report every registered descriptor. *)
Theorem server_serves_each_connection (G : Z → bytes → Prop) (E : Z → sock → Prop) (stop : prog U)
    (fuel : nat) (lfd : Z) (handler : Z → prog U) (conns : list Z) (later : list bool) (u : U) epfd e0 l :
  let fn := start (K := K) stop later fuel lfd handler (λ _, Ret) in
  true :: later = replicate (length conns) true ++ [false] →
  0 ≤ lfd < 2 ^ 31 → NoDup conns → lfd ∉ conns → arrivals conns (calls (view (T := table) u lfd)) →
  (length (calls (view (T := table) u lfd)) < fuel)%nat → grants (K := K) →
  tame (K := K) (TQ := TQ) false true stop → (∀ fd, tame (K := K) (TQ := TQ) false true (handler fd)) →
  (∀ fd, fd ∈ conns → safe (K := K) G E {[fd]} (handler fd) (cells (K := K) u) ∧ G fd (sent (view (T := table) u fd))) →
  fresh_loop (K := K) (TQ := TQ) u epfd e0 →
  loop_reachable (K := K) (TQ := TQ) (run fn u) l → last_cid (mach l) < 2 ^ 31 →
  (∀ r, loop_step (K := K) (TQ := TQ) l r → ∃ l', r = Ok l') ∧
  (∀ fd, fd ∈ conns → G fd (sent (view (T := table) (globals (mach l)) fd))) ∧
  (ph l = Returned → ∀ fd, fd ∈ conns → E fd (view (T := table) (globals (mach l)) fd)) ∧
  (Progress.reports (K := K) → Progress.can_return (K := K) (TQ := TQ) l).
Proof.
  intros fn Hruns Hlfd Hnd Hn Ha Hf Hgr Hst Hh Hs Hu Hr Hc.
  destruct (start_serves G E stop fuel lfd handler conns later u epfd e0 l Hruns Hlfd Hnd Hn Ha Hf Hgr Hst Hh Hs Hu Hr Hc) as (H1 & H2 & H3 & H4).
  split; [exact H1|]. split; [|split; [|exact H4]]; [intros fd Hin|intros Hph fd Hin]; [apply H2|apply (H3 Hph)]; by apply elem_of_list_to_set.
Qed.
End server_loop_properties.

(** ** Example: two connections *)
Module ServerLoopExample.
Import ServerLoop ServerLoopFacts SocketLoop SocketLoopFacts EventExample SocketLoopExample OwnershipExample.

Definition listener : sock := mkSock 5 0 [] [] [CallOk 7; CallOk 8] [] [] [] false.
Definition net2 : net := mkNet start (λ fd, if fd =? 5 then listener else quiet_peer).
Definition greet (fd : Z) : prog net := conn_send (K := simple_kernel) Ret 2 fd [1; 2; 3] 3 (λ _, Ret).

Lemma simple_grants : Ownership.grants (K := simple_kernel).
Proof. intros fd ev k Hk. cbn in *. rewrite Hk. by eexists. Qed.

Lemma greet_safe fd : fd ∈ [7; 8] →
  Ownership.safe (K := simple_kernel) (λ _ _, True) all_sent {[fd]} (greet fd) (Ownership.cells (K := simple_kernel) net2).
Proof.
  intros Hfd. unfold greet, conn_send.
  assert (Hv : valid_fd fd = true ∧ (Ownership.cells (K := simple_kernel) net2 fd).1 = (quiet_peer, None)).
  { apply elem_of_cons in Hfd as [->|Hfd]; [done|]. by apply list_elem_of_singleton in Hfd as ->. }
  destruct Hv as [-> Hc].
  eapply (Ownership.safe_leads _ all_sent _ fd); [apply (send_refined _ _ _ _ _ _ quiet_peer); [lia|by vm_compute|cbn; lia]|set_solver|by intros|exact Hc|].
  intros p s bs (r & -> & Hr) _. destruct (Hr [] []) as (wd & H). vm_compute in H. injection H as _ _ _ _ _ _ Hs _.
  apply Ownership.safe_ret. intros fd' ->%elem_of_singleton. rewrite Ownership.upd_eq. by symmetry.
Qed.

Lemma greet_tame fd : EventFacts.tame (K := simple_kernel) (TQ := queue) false true (greet fd).
Proof. apply conn_send_tame; [constructor|lia|by vm_compute|intros; constructor]. Qed.

Lemma server_serves_each_connection_witness :
  let l := LoopRun.after (K := simple_kernel) (TQ := queue) (ServerLoop.start (K := simple_kernel) Ret [true; false] 3 5 greet (λ _, Ret)) net2 80 in
  EventLoop.ph l = EventLoop.Returned ∧
  ∀ fd, fd ∈ [7; 8] → all_sent fd (view (T := table) (globals (EventLoop.mach l)) fd).
Proof.
  intros l. assert (Hp : EventLoop.ph l = EventLoop.Returned) by (vm_compute; reflexivity). split; [exact Hp|].
  assert (Hc : (last_cid (EventLoop.mach l) <? 2 ^ 31) = true) by (vm_compute; reflexivity).
  assert (Hnd : bool_decide (NoDup [7; 8] ∧ 5 ∉ [7; 8]) = true) by (vm_compute; reflexivity).
  apply bool_decide_eq_true in Hnd as [Hnd Hn].
  assert (Ha : arrivals [7; 8] (calls (view (T := table) net2 5))).
  { apply (arrivals_some 0 7 [8]); [lia|]. apply (arrivals_some 0 8 []); [lia|]. constructor. }
  destruct (server_serves_each_connection (K := simple_kernel) (TQ := queue) (λ _ _, True) all_sent Ret 3 5 greet [7; 8] [true; false]
    net2 3 (mkEvent 0 None 0) l eq_refl ltac:(lia) Hnd Hn Ha ltac:(cbn; lia) simple_grants ltac:(constructor) greet_tame
    (λ fd Hfd, conj (greet_safe fd Hfd) Logic.I) start_fresh (LoopRun.after_reachable _ _ _) (proj1 (Z.ltb_lt _ _) Hc))
    as (_ & _ & H & _).
  exact (H Hp).
Defined.
End ServerLoopExample.
