(* ===== verification/Examples.v ===== *)
(** * Examples: the programs of examples/coroutine that only create coroutines
    (create.cc) or serve connections (server/server.cc)

    They run on the scheduler's machine under the event loop, from
    [coroutine::run] on, with the library as the other files model it. *)

From S2P Require Import Prelude Words CoSocket Http Timer Coroutine Waiters Sleep Event Progress SocketLoop Ownership ServerLoop.
From stdpp Require Import gmap.
#[local] Open Scope Z_scope.

(** ** examples/coroutine/create.cc *)

(** What the process writes to the standard output. *)
Record output := mkOutput { written : bytes }.

Module CreateExample.
Import Sched EventLoop.
Section create.
Context {U K TQ : Type} `{!PQueue co_timer CompareTimerPointer TQ} `{!Epoll K}.
Context `{!Part Event U} `{!Part (time_state TQ) U} `{!Part K U} `{!Part output U}.

(** [std::cout << s << std::endl] *)
Definition cout (s : bytes) (k : prog U) : prog U :=
  Act (λ u, let o : output := view u in Ok (set_view (mkOutput (written o ++ s ++ [10])) u, k)).

Definition task1 (p1 : Z) : prog U := cout (to_string p1) Ret.
Definition task2 (p1 : Z) (p2 : bytes) : prog U := cout (to_string p1) (cout p2 Ret).

(** The function that [main] gives to [run]. *)
Definition body : prog U := Create (task1 1) (λ _, Create (task2 1 (str "hello")) (λ _, Ret)).

Definition main (u : U) : loop := run body u.

End create.
End CreateExample.

(** ** examples/coroutine/server/server.cc *)
Module PlainServerExample.
Section server.
Context {U K TQ : Type} `{!PQueue co_timer CompareTimerPointer TQ} `{!Epoll K}.
Context `{!Part Event U} `{!Part (time_state TQ) U} `{!Part K U} `{!Part table U}.
Variable stop : prog U.

Definition response_str : bytes :=
  str "HTTP/1.1 200 OK" ++ Response.crlf ++ str "Content-Type: text/html" ++ Response.crlf ++
  str "Connection: close" ++ Response.crlf ++ str "Content-Length: 11" ++ Response.crlf ++ Response.crlf ++
  str "hello world" ++ Response.crlf.

(** [handler(args)], [conn] being the [Socket] for [connfd]; the warnings and
    the end of [conn] leave nothing behind. *)
Definition handler (fuel : nat) (connfd : Z) : prog U :=
  ServerLoop.conn_recv (K := K) stop fuel connfd (replicate 1024 0) 1023 (λ ret buf,
    Act (λ u, _ ← mem_write buf ret [0];
      Ok (u, ServerLoop.conn_send (K := K) stop fuel connfd response_str (zlen response_str) (λ _, Ret)))).

(** The function that [main] gives to [run], from [serv->start()] on. *)
Definition body (fuel : nat) (later : list bool) (lfd : Z) : prog U :=
  ServerLoop.start (K := K) stop later fuel lfd (handler fuel) (λ _, Ret).

End server.
End PlainServerExample.

(** ** What the example server does with a connection *)
Module PlainServerFacts.
Import SocketLoop SocketLoopFacts ServerLoop ServerLoopFacts Ownership PlainServerExample.

(** The peer's side of a connection: before any failure there are bytes or the
    end; and what the kernel takes of [len] bytes in one call of [send] that
    is repeated while it takes none. *)
Fixpoint request_comes (l : list rx_answer) : bool :=
  match l with
  | RxError e :: l => (e =? EAGAIN) && request_comes l
  | _ => true
  end.

Fixpoint taken (l : list tx_answer) (len : Z) : Z :=
  match l with
  | [] => len
  | TxAccept n :: _ => Z.min (Z.max 0 n) len
  | TxError e :: l => if e =? EAGAIN then taken l len else 0
  end.

Lemma recv_request w fuel off len : 0 ≤ off → 0 ≤ len → (∀ r, -1 ≤ r ≤ len → w r = r) → ∀ s bs wd buf ret buf' s',
  all_true bs → off + len ≤ zlen buf → request_comes (rx s) = true →
  CoSocket.recv_loop w fuel (scripted s bs wd) buf off len = Some (Ok (ret, buf', s')) →
  0 ≤ ret ∧ sent s' = sent s ∧ tx s' = tx s.
Proof.
  intros Ho Hl Hw. induction fuel as [|fuel IH]; intros s bs wd buf ret buf' s' Hbs Hb Hr; [done|]. cbn [CoSocket.recv_loop].
  rewrite recv_scripted. unfold Socket.recv. destruct (rx s) as [|[d|e] l] eqn:Erx.
  - rewrite outcome_bind_ok. cbv zeta. rewrite Hw by lia. change (0 <? 0) with false. cbn [andb]. by intros [= <- <- <-].
  - cbv zeta. set (g := take (Z.to_nat len) d). pose proof (zlen_nonneg g).
    assert (zlen g ≤ len) by (unfold g, zlen; rewrite length_take; lia).
    rewrite mem_write_ok, !outcome_bind_ok by lia. rewrite Hw by lia. rewrite (proj2 (Z.ltb_ge _ _)) by lia. cbn [andb].
    by intros [= <- <- <-].
  - cbn [request_comes] in Hr. apply andb_true_iff in Hr as [He Hr]. apply Z.eqb_eq in He as ->.
    rewrite outcome_bind_ok. cbv zeta. rewrite Hw by lia. change (-1 <? 0) with true. cbn [andb errno scripted set_errno].
    rewrite Z.eqb_refl. destruct (wait_true FSW_EVENT_READ (set_errno EAGAIN (set_rx l s)) bs wd Hbs) as (bs' & Hbs' & ->).
    intros H. by apply IH in H.
Qed.

Lemma send_taken fuel ev buf len : 0 ≤ len < 2 ^ 31 → len ≤ zlen buf → ∀ s bs wd ret s',
  all_true bs → CoSocket.send_loop i32 fuel ev (scripted s bs wd) buf 0 len = Some (Ok (ret, s')) →
  Z.max 0 ret = taken (tx s) len.
Proof.
  intros Hl Hb. induction fuel as [|fuel IH]; intros s bs wd ret s' Hbs; [done|]. cbn [CoSocket.send_loop].
  rewrite send_scripted. unfold Socket.send.
  assert (Hz : ∀ n, 0 ≤ n ≤ len → zlen (take (Z.to_nat n) (drop (Z.to_nat 0) buf)) = n).
  { intros n Hn. apply zlen_take. change (drop (Z.to_nat 0) buf) with buf. lia. }
  destruct (tx s) as [|[n|e] l] eqn:Et; cbn [taken].
  - rewrite mem_read_ok, !outcome_bind_ok by lia. cbv zeta. rewrite Hz, i32_id by lia.
    rewrite (proj2 (Z.ltb_ge _ _)) by lia. cbn [andb]. intros [= <- _]. lia.
  - rewrite mem_read_ok, !outcome_bind_ok by lia. cbv zeta. rewrite Hz, i32_id by lia.
    rewrite (proj2 (Z.ltb_ge _ _)) by lia. cbn [andb]. intros [= <- _]. lia.
  - rewrite outcome_bind_ok. cbv zeta. change (i32 (-1)) with (-1). change (-1 <? 0) with true. cbn [andb errno scripted set_errno].
    destruct (e =? EAGAIN).
    + destruct (wait_true ev (set_errno e (set_tx l [] s)) bs wd Hbs) as (bs' & Hbs' & ->). intros H. by apply IH in H.
    + by intros [= <- _].
Qed.

Section facts.
Context {U K TQ : Type} `{!PQueue co_timer CompareTimerPointer TQ} `{!Epoll K}.
Context `{!Part Event U} `{!Part (time_state TQ) U} `{!Part K U} `{!Part table U}.
Context `{!Apart Event (time_state TQ) U} `{!Apart Event K U} `{!Apart (time_state TQ) Event U}.
Context `{!Apart (time_state TQ) K U} `{!Apart K Event U} `{!Apart K (time_state TQ) U}.
Context `{!Apart table Event U} `{!Apart table (time_state TQ) U} `{!Apart table K U}.
Context `{!Apart Event table U} `{!Apart (time_state TQ) table U} `{!Apart K table U}.
Context `{!Memory U} `{!MemoryApart Event U} `{!MemoryApart (time_state TQ) U} `{!MemoryApart K U} `{!MemoryApart table U}.

Lemma handler_tame (stop : prog U) fuel fd :
  EventFacts.tame (K := K) (TQ := TQ) false true stop →
  EventFacts.tame (K := K) (TQ := TQ) false true (handler (K := K) stop fuel fd).
Proof.
  intros Hstop. apply conn_recv_tame; [done|lia|by vm_compute|]. intros ret buf _. apply EventFacts.tame_act; [done|].
  intros u u' p H. apply outcome_bind_inv in H as (b & _ & H). injection H as <- <-. split_and!; [done..|].
  apply conn_send_tame; [done|by vm_compute|lia|intros; constructor].
Qed.

(** What may have been sent to a connection that was in the state [t fd], and
    what has been when its handler has returned. *)
Definition answering (t : table) (fd : Z) (b : bytes) : Prop := ∃ k, b = sent (t fd) ++ take k response_str.
Definition answered (t : table) (fd : Z) (s : sock) : Prop :=
  sent s = sent (t fd) ++ take (Z.to_nat (taken (tx (t fd)) (zlen response_str))) response_str.

(** A connection whose peer sends its request before it fails. *)
Definition good_peer (fuel : nat) (s : sock) : Prop :=
  request_comes (rx s) = true ∧ (length (rx s) < fuel)%nat ∧ (length (tx s) < fuel)%nat.

Lemma zlen_response : zlen response_str = 96.
Proof. vm_compute. reflexivity. Qed.

Lemma handler_safe (stop : prog U) fuel fd (t : table) c :
  grants (K := K) → 0 ≤ fd < 2 ^ 31 → good_peer fuel (t fd) → (c fd).1 = (t fd, None) →
  safe (K := K) (answering t) (answered t) {[fd]} (handler (K := K) stop fuel fd) c.
Proof.
  intros Hgr Hfd (Hreq & Hrx & Htx) Hc. unfold handler, conn_recv, conn_send, SocketLoop.recv, SocketLoop.send.
  assert (Hv : valid_fd fd = true) by (unfold valid_fd; apply andb_true_iff; lia). rewrite Hv.
  assert (Hz : zlen (replicate 1024 0) = 1024) by (vm_compute; reflexivity).
  eapply (safe_leads (answering t) (answered t) {[fd]} fd); [|by apply elem_of_singleton|apply quiet_keeps|exact Hc|].
  { apply recv_loop_leads; [lia|lia|intros r Hx; apply i32_id; lia|rewrite Hz; lia|exact Hrx]. }
  intros p s bs (ret & buf & -> & Hle & Hzb & _ & _ & Hr) Hbs. specialize (Hbs Hgr). rewrite Hz in Hzb.
  destruct (Hr [] []) as (wd & H). rewrite app_nil_r in H.
  apply recv_request in H as (Hret & Hs & Ht); [|lia|lia|intros r Hx; apply i32_id; lia|done|rewrite Hz; lia|done].
  cbn [sent tx scripted] in Hs, Ht.
  assert (Hcs : ∀ c', agree {[fd]} c' (upd fd s c) → (c' fd).1 = (s, None)).
  { intros c' Ha. rewrite (Ha fd) by (by apply elem_of_singleton). by rewrite upd_eq, Hc. }
  assert (Hw : ∃ b, mem_write buf ret [0] = Ok b).
  { eexists. apply mem_write_ok; [lia|]. change (zlen [0]) with 1. lia. }
  destruct Hw as (b & Hw). apply safe_act.
  - intros u _ _. cbv beta. by rewrite Hw.
  - intros u u' p _ _. cbv beta. rewrite Hw, outcome_bind_ok. intros [= <- <-]. split; [done|]. by intros fd' _.
  - intros u u' p Ha _. cbv beta. rewrite Hw, outcome_bind_ok. intros [= <- <-]. specialize (Hcs _ Ha). clear Ha.
    eapply (safe_leads (answering t) (answered t) {[fd]} fd); [|by apply elem_of_singleton| |exact Hcs|].
    { apply send_loop_leads with (base := sent (t fd)); rewrite ?zlen_response; [lia|lia|lia|intros r Hx; apply i32_id; lia| |congruence].
      by rewrite take_0, app_nil_r. }
    { intros s1 s2 (k & k' & _ & ->) _. by exists k'. }
    intros p s2 bs2 (r & -> & _ & Hsent & _ & _ & Hr2) Hbs2. specialize (Hbs2 Hgr).
    destruct (Hr2 [] []) as (wd2 & H2). rewrite app_nil_r in H2.
    apply send_taken in H2; rewrite ?zlen_response; [|lia|lia|done].
    apply safe_ret. intros fd' ->%elem_of_singleton. rewrite upd_eq. cbn [fst]. unfold answered.
    rewrite Hsent, H2, Ht. rewrite ?zlen_response. by rewrite Z.add_0_l.
Qed.
End facts.
End PlainServerFacts.

(** ** The properties *)
Section plain_server_properties.
Import EventLoop EventFacts SocketLoop ServerLoopFacts Ownership PlainServerExample PlainServerFacts.
Context {U K TQ : Type} `{!PQueue co_timer CompareTimerPointer TQ} `{!Epoll K}.
Context `{!Part Event U} `{!Part (time_state TQ) U} `{!Part K U} `{!Part table U}.
Context `{!Apart Event (time_state TQ) U} `{!Apart Event K U} `{!Apart (time_state TQ) Event U}.
Context `{!Apart (time_state TQ) K U} `{!Apart K Event U} `{!Apart K (time_state TQ) U}.
Context `{!Apart table Event U} `{!Apart table (time_state TQ) U} `{!Apart table K U}.
Context `{!Apart Event table U} `{!Apart (time_state TQ) table U} `{!Apart K table U}.
Context `{!Memory U} `{!MemoryApart Event U} `{!MemoryApart (time_state TQ) U} `{!MemoryApart K U} `{!MemoryApart table U}.

(** C14: the example server, from the program to the wire. Any number of
    clients connect, each sends bytes, or closes, before its connection fails,
    and the kernel grants the registrations. Then, whatever the kernel reports
    when, and however the coroutines of the connections interleave, the process
    makes no undefined step; at all times each client has been sent a beginning
    of the response and nothing else; and once [shutdown] has ended the loop
    and all coroutines are done, each has been sent as much of it as the kernel
    took in the one call of [send]. From every state that end can be reached
    when the kernel can report every registered descriptor. *)
Theorem example_server_answers (stop : prog U) (fuel : nat) (lfd : Z) (conns : list Z) (later : list bool) (u : U) epfd e0 l :
  let t : table := view u in
  true :: later = replicate (length conns) true ++ [false] →
  0 ≤ lfd < 2 ^ 31 → NoDup conns → lfd ∉ conns → arrivals conns (calls (t lfd)) → (length (calls (t lfd)) < fuel)%nat →
  (∀ fd, fd ∈ conns → 0 ≤ fd < 2 ^ 31 ∧ good_peer fuel (t fd)) → grants (K := K) →
  tame (K := K) (TQ := TQ) false true stop → fresh_loop (K := K) (TQ := TQ) u epfd e0 →
  loop_reachable (K := K) (TQ := TQ) (run (PlainServerExample.body (K := K) stop fuel later lfd) u) l →
  last_cid (mach l) < 2 ^ 31 →
  let t' : table := view (globals (mach l)) in
  (∀ r, loop_step (K := K) (TQ := TQ) l r → ∃ l', r = Ok l') ∧
  (∀ fd, fd ∈ conns → ∃ k, sent (t' fd) = sent (t fd) ++ take k response_str) ∧
  (ph l = Returned → ∀ fd, fd ∈ conns →
     sent (t' fd) = sent (t fd) ++ take (Z.to_nat (taken (tx (t fd)) (zlen response_str))) response_str) ∧
  (Progress.reports (K := K) → Progress.can_return (K := K) (TQ := TQ) l).
Proof.
  intros t Hruns Hlfd Hnd Hn Ha Hf Hp Hgr Hst Hu Hr Hc t'.
  assert (Hs : ∀ fd, fd ∈ conns → safe (K := K) (answering t) (answered t) {[fd]} (handler (K := K) stop fuel fd) (cells (K := K) u) ∧
    answering t fd (sent (t fd))).
  { intros fd Hin. destruct (Hp fd Hin) as [Hfd Hg]. split.
    - apply handler_safe; [done|done|done|]. unfold cells. destruct Hu as (_ & _ & _ & ->). by rewrite lookup_empty.
    - exists 0%nat. by rewrite take_0, app_nil_r. }
  destruct (start_serves (answering t) (answered t) stop fuel lfd (handler (K := K) stop fuel) conns later u epfd e0 l
    Hruns Hlfd Hnd Hn Ha Hf Hgr Hst (λ fd, handler_tame stop fuel fd Hst) Hs Hu Hr Hc) as (H1 & H2 & H3 & H4).
  split; [exact H1|]. split; [|split; [|exact H4]]; [intros fd Hin|intros Hph fd Hin]; [apply H2|apply (H3 Hph)]; by apply elem_of_list_to_set.
Qed.
End plain_server_properties.

(** Two clients, of which the second is slow to read. *)
Module PlainServerRun.
Import SocketLoop ServerLoopFacts EventExample SocketLoopExample OwnershipExample ServerLoopExample PlainServerFacts.

Definition browser (tx : list tx_answer) : sock := mkSock 0 0 [RxData (str "GET / HTTP/1.1")] tx [] [] [] [] false.
Definition net3 : net := mkNet start (λ fd,
  if fd =? 5 then listener else if fd =? 7 then browser [] else browser [TxAccept 15]).

Lemma good_7 : good_peer 3 (browser []).
Proof. split; [reflexivity|]. split; cbn [rx tx browser length]; lia. Qed.
Lemma good_8 : good_peer 3 (browser [TxAccept 15]).
Proof. split; [reflexivity|]. split; cbn [rx tx browser length]; lia. Qed.

Lemma peers_good fd : fd ∈ [7; 8] → 0 ≤ fd < 2 ^ 31 ∧ good_peer 3 (view (T := table) net3 fd).
Proof.
  intros [->|Hin]%elem_of_cons; [split; [lia|exact good_7]|].
  apply elem_of_cons in Hin as [->|Hin]; [split; [lia|exact good_8]|by apply elem_of_nil in Hin].
Qed.

Lemma example_server_answers_witness :
  let l := LoopRun.after (K := simple_kernel) (TQ := queue) (PlainServerExample.body (K := simple_kernel) Ret 3 [true; false] 5) net3 90 in
  EventLoop.ph l = EventLoop.Returned ∧
  let t : table := view (globals (EventLoop.mach l)) in
  sent (t 7) = PlainServerExample.response_str ∧ sent (t 8) = str "HTTP/1.1 200 OK".
Proof.
  intros l. assert (Hp : EventLoop.ph l = EventLoop.Returned) by (vm_compute; reflexivity). split; [exact Hp|].
  assert (Hc : (last_cid (EventLoop.mach l) <? 2 ^ 31) = true) by (vm_compute; reflexivity).
  assert (Hnd : bool_decide (NoDup [7; 8] ∧ 5 ∉ [7; 8]) = true) by (vm_compute; reflexivity).
  apply bool_decide_eq_true in Hnd as [Hnd Hn].
  assert (Ha : arrivals [7; 8] (calls (view (T := table) net3 5))).
  { apply (arrivals_some 0 7 [8]); [lia|]. apply (arrivals_some 0 8 []); [lia|]. constructor. }
  destruct (example_server_answers (K := simple_kernel) (TQ := queue) Ret 3 5 [7; 8] [true; false] net3 3 (mkEvent 0 None 0) l
    eq_refl ltac:(lia) Hnd Hn Ha ltac:(cbn; lia) peers_good simple_grants ltac:(constructor) start_fresh
    (LoopRun.after_reachable _ _ _) (proj1 (Z.ltb_lt _ _) Hc)) as (_ & _ & H & _).
  split.
  - rewrite (H Hp 7); [vm_compute; reflexivity|left].
  - rewrite (H Hp 8); [vm_compute; reflexivity|right; left].
Defined.
End PlainServerRun.

(** ** What the program of create.cc writes *)
Module CreateFacts.
Import Sched EventLoop CreateExample.
Section facts.
Context {U K TQ : Type} `{!PQueue co_timer CompareTimerPointer TQ} `{!Epoll K}.
Context `{!Part Event U} `{!Part (time_state TQ) U} `{!Part K U} `{!Part output U}.
Context `{!Apart Event (time_state TQ) U} `{!Apart (time_state TQ) Event U} `{!Apart Event output U}.
Context `{!Apart (time_state TQ) output U} `{!Apart output Event U} `{!Apart output (time_state TQ) U}.
Implicit Types (u : U) (l : loop (U := U)).

Abbreviation out u := (written (view (T := output) u)).

(** The machine after [i] steps, but for the rest of the state; what the next
    step writes, and what has been written before it. *)
Definition stage (i : nat) u : machine U :=
  match steps i (boot (Create body (λ _, Ret)) u) with Ok m => set_globals u m | _ => boot Ret u end.
Definition line (i : nat) : option bytes :=
  match i with 2%nat | 6%nat => Some (str "1") | 7%nat => Some (str "hello") | _ => None end.
Definition printed (i : nat) : bytes :=
  concat (map (λ j, match line j with Some s => s ++ [10] | None => [] end) (seq 0 i)).
Definition expected : bytes := str "1" ++ [10] ++ str "1" ++ [10] ++ str "hello" ++ [10].
Definition emit (i : nat) u : U :=
  match line i with Some s => set_view (mkOutput (out u ++ s ++ [10])) u | None => u end.

Lemma stage_step i u : (i < 12)%nat → step (stage i u) = Ok (Some (stage (S i) (emit i u))) ∧ ¬ at_rest (stage i u).
Proof.
  intros Hi. do 12 (destruct i as [|i]; [split; [vm_compute; reflexivity|intros [Hc Hs]; vm_compute in Hc, Hs; congruence]|]). lia.
Qed.

Lemma stage_rest u : at_rest (stage 12 u).
Proof. by split; vm_compute. Qed.

Lemma stage_globals i u u' : (i ≤ 12)%nat → with_globals u' (stage i u) = stage i u' ∧ globals (stage i u) = u.
Proof. intros Hi. do 12 (destruct i as [|i]; [by split; vm_compute|]). assert (i = 0)%nat as -> by lia. by split; vm_compute. Qed.

Lemma stage_with i m u : (i ≤ 12)%nat → m = stage i (globals m) → with_globals u m = stage i u ∧ globals (stage i u) = u.
Proof.
  intros Hi Hm. destruct (stage_globals i (globals m) u Hi) as [Hg _]. destruct (stage_globals i u u Hi) as [_ Hg'].
  rewrite <- Hm in Hg. done.
Qed.

Lemma printed_step i u : out (emit i u) = out u ++ (match line i with Some s => s ++ [10] | None => [] end).
Proof. unfold emit. destruct (line i); [by rewrite view_set|by rewrite app_nil_r]. Qed.

Lemma printed_prefix i : (i ≤ 12)%nat → ∃ rest, expected = printed i ++ rest.
Proof.
  intros Hi. exists (drop (length (printed i)) expected).
  do 12 (destruct i as [|i]; [vm_compute; reflexivity|]). assert (i = 0)%nat as -> by lia. vm_compute. reflexivity.
Qed.

(** Nothing waits. *)
Definition idle u : Prop :=
  running (view (T := Event) u) = 1 ∧ pq_elems (timers (view (T := time_state TQ) u)) = [] ∧
  ∃ pl, poll (view (T := Event) u) = Some pl ∧ event_num pl = 0.

Lemma idle_wait_head u : idle u → wait_head (TQ := TQ) u = Ok (None, set_view (mkEvent 0 (poll (view (T := Event) u)) (num (view (T := Event) u))) u).
Proof.
  intros (Hr & Ht & pl & Hp & Hn). unfold wait_head. rewrite Hr, Hp, Hn. change (0 <? 1) with true. cbv beta iota zeta.
  assert (TimerManager.get_next_timeout (clock (view u)) (timers (view u)) = -1) as ->; [|done].
  unfold TimerManager.get_next_timeout. destruct (pq_top _) as [t|] eqn:E; [|done].
  apply pq_top_pop in E. rewrite Ht in E. by apply Permutation_nil_l in E.
Qed.

Lemma idle_emit i u : idle u → idle (emit i u).
Proof. unfold idle, emit. destruct (line i); [|done]. by rewrite !apart. Qed.

Definition cinv l : Prop :=
  ∃ i, (i ≤ 12)%nat ∧ mach l = stage i (globals (mach l)) ∧ out (globals (mach l)) = printed i ∧
    match ph l with
    | InMain => idle (globals (mach l))
    | InWait => idle (globals (mach l)) ∧ i = 12%nat
    | Returned => i = 12%nat
    | _ => False
    end.

Lemma cinv_rest l i : mach l = stage i (globals (mach l)) → (i ≤ 12)%nat → at_rest (mach l) → i = 12%nat.
Proof.
  intros Hm Hi Hr. destruct (decide (i = 12%nat)) as [|Hn]; [done|].
  destruct (stage_step i (globals (mach l)) ltac:(lia)) as [_ []]. by rewrite <- Hm.
Qed.

Lemma cinv_step l r : cinv l → loop_step (K := K) (TQ := TQ) l r → ∃ l', r = Ok l' ∧ cinv l'.
Proof.
  intros (i & Hi & Hm & Ho & Hph) Hst. pose proof (cinv_rest l i Hm Hi) as Hrest'.
  destruct Hst as [m q r Hn Hst|m q t t' ->|m Hrest|m u Hrest Hw|m Hrest Hw
    |m timeout u r k' Hrest Hw -> Hrep|m j cid Hrest Hn|m j t Hrest Hn ->|m j Hrest Hn|m now y u Hrest Hn|m now Hrest Hn];
    cbn [mach ph] in *; try done.
  - assert (Hlt : (i < 12)%nat).
    { destruct (decide (i = 12%nat)) as [->|]; [|lia]. destruct Hn. rewrite Hm. apply stage_rest. }
    destruct (stage_step i (globals m) Hlt) as [Hs _]. rewrite <- Hm, Hst in Hs. subst r. rewrite Hs.
    eexists. split; [reflexivity|]. exists (S i). destruct (stage_globals (S i) (emit i (globals m)) (globals m) ltac:(lia)) as [_ Hg].
    cbn [mach ph]. rewrite Hg. split_and!; [lia|done| |].
    + rewrite printed_step, Ho. unfold printed. rewrite seq_S, map_app, concat_app. cbn [map concat]. by rewrite app_nil_r.
    + destruct q; try done; [by apply idle_emit|destruct Hph as [_ ->]; lia|lia].
  - eexists. split; [reflexivity|]. exists i. cbn [mach ph].
    destruct (stage_with i m (set_view (mkTime t' (timers (view (globals m)))) (globals m)) Hi Hm) as [-> ->].
    rewrite !apart. split_and!; [done|done|done|].
    unfold idle in *. rewrite !apart, !view_set. cbn [timers]. by destruct q.
  - eexists. split; [reflexivity|]. exists i. cbn [mach ph]. split_and!; [done..|by apply Hrest'].
  - destruct Hph as [Hid ->]. rewrite (idle_wait_head _ Hid) in Hw. injection Hw as <-.
    eexists. split; [reflexivity|]. exists 12%nat. cbn [mach ph].
    destruct (stage_with 12 m (set_view (mkEvent 0 (poll (view (globals m))) (num (view (globals m)))) (globals m)) ltac:(lia) Hm) as [-> ->].
    split_and!; [lia|done|by rewrite apart|done].
  - destruct Hph as [Hid _]. by rewrite (idle_wait_head _ Hid) in Hw.
  - destruct Hph as [Hid _]. by rewrite (idle_wait_head _ Hid) in Hw.
Qed.

Lemma cinv_reachable l0 l : cinv l0 → loop_reachable (K := K) (TQ := TQ) l0 l → cinv l.
Proof.
  intros H0 Hr. induction Hr as [|l l' _ IH Hst]; [done|]. by destruct (cinv_step l (Ok l') IH Hst) as (l2 & [= <-] & H).
Qed.

(** It can always be run to the end. *)
Lemma cinv_finishes l : cinv l → ∃ l', loop_reachable (K := K) (TQ := TQ) l l' ∧ ph l' = Returned.
Proof.
  assert (Htrans : ∀ l l' l2, loop_step (K := K) (TQ := TQ) l (Ok l') → loop_reachable (K := K) (TQ := TQ) l' l2 → loop_reachable (K := K) (TQ := TQ) l l2).
  { intros l1 l' l2 Hst Hr. induction Hr as [|l2 l3 _ IH H3]; [eapply loop_next; [apply loop_start|done]|by eapply loop_next]. }
  assert (Hend : ∀ m, idle (globals m) → at_rest m → ∃ l', loop_reachable (K := K) (TQ := TQ) (mkLoop m InWait) l' ∧ ph l' = Returned).
  { intros m Hid Hr. eexists. split; [eapply loop_next; [apply loop_start|]; apply step_return; [done|by apply idle_wait_head]|done]. }
  intros (i & Hi & Hm & Ho & Hph). destruct l as [m q]. cbn [mach ph] in *. destruct q; try done.
  - remember (12 - i)%nat as n eqn:En. revert i m Hi Hm Ho Hph En. induction n as [|n IH]; intros i m Hi Hm Ho Hid En.
    + assert (i = 12%nat) as -> by lia. assert (Hr : at_rest m) by (rewrite Hm; apply stage_rest).
      destruct (Hend m Hid Hr) as (l' & Hl' & Hp). exists l'. split; [|done]. eapply Htrans; [by apply step_wait|done].
    + destruct (stage_step i (globals m) ltac:(lia)) as [Hs Hn]. rewrite <- Hm in Hs, Hn.
      destruct (stage_globals (S i) (emit i (globals m)) (globals m) ltac:(lia)) as [_ Hg].
      destruct (cinv_step (mkLoop m InMain) _ ltac:(by exists i) (step_code m InMain _ Hn Hs)) as (l' & [= <-] & _).
      destruct (IH (S i) (stage (S i) (emit i (globals m)))) as (l' & Hl' & Hp); [lia|by rewrite Hg| | |lia|].
      * rewrite Hg, printed_step, Ho. unfold printed. rewrite seq_S, map_app, concat_app. cbn [map concat]. by rewrite app_nil_r.
      * rewrite Hg. by apply idle_emit.
      * exists l'. split; [|done]. eapply Htrans; [exact (step_code m InMain _ Hn Hs)|done].
  - destruct Hph as [Hid ->]. apply Hend; [done|]. rewrite Hm. apply stage_rest.
  - eexists. split; [apply loop_start|done].
Qed.

Lemma cinv_start u epfd e0 : EventFacts.fresh_loop (K := K) (TQ := TQ) u epfd e0 → out u = [] → cinv (main u).
Proof.
  intros (He & Hfd & Ht & _) Ho. exists 0%nat. cbn [mach ph main run globals boot]. split_and!; [lia|done|done|].
  split_and!; [by rewrite He; unfold EventLoop.make, init_Poll; destruct (_ <? _)|done|].
  rewrite He. unfold EventLoop.make, init_Poll. rewrite (proj2 (Z.ltb_ge _ _)) by lia. by eexists.
Qed.
End facts.
End CreateFacts.

Section create_properties.
Import EventLoop CreateExample CreateFacts.
Context {U K TQ : Type} `{!PQueue co_timer CompareTimerPointer TQ} `{!Epoll K}.
Context `{!Part Event U} `{!Part (time_state TQ) U} `{!Part K U} `{!Part output U}.
Context `{!Apart Event (time_state TQ) U} `{!Apart (time_state TQ) Event U} `{!Apart Event output U}.
Context `{!Apart (time_state TQ) output U} `{!Apart output Event U} `{!Apart output (time_state TQ) U}.

(** The program of create.cc. In every state the process can get to, what
    it has written is a beginning of the three lines, in this order; no
    transition is undefined or ends it early; it can always go on to the return
    of the event loop; and there the three lines have been written. *)
Theorem create_example_writes (u : U) epfd e0 l :
  EventFacts.fresh_loop (K := K) (TQ := TQ) u epfd e0 → written (view (T := output) u) = [] →
  loop_reachable (K := K) (TQ := TQ) (main u) l →
  (∃ rest, expected = written (view (T := output) (globals (mach l))) ++ rest) ∧
  (∀ r, loop_step (K := K) (TQ := TQ) l r → ∃ l', r = Ok l') ∧
  (∃ l', loop_reachable (K := K) (TQ := TQ) l l' ∧ ph l' = Returned) ∧
  (ph l = Returned → written (view (T := output) (globals (mach l))) = expected).
Proof.
  intros Hu Ho Hr. pose proof (cinv_reachable _ l (cinv_start u epfd e0 Hu Ho) Hr) as Hl.
  split; [|split; [|split]].
  - destruct Hl as (i & Hi & _ & -> & _). by apply printed_prefix.
  - intros r Hst. destruct (cinv_step l r Hl Hst) as (l' & -> & _). by exists l'.
  - by apply cinv_finishes.
  - intros Hph. destruct Hl as (i & _ & _ & -> & Hi). rewrite Hph in Hi. subst i. vm_compute. reflexivity.
Qed.
End create_properties.

Module CreateRun.
Import EventExample.

(** The standard output of the example process of Event. *)
#[global] Instance world_output : Part output world := {|
  view u := mkOutput (out u); set_view o u := mkWorld (ev_part u) (time_part u) (kern_part u) (written o);
  view_set o u := match o with mkOutput _ => eq_refl end |}.
#[global] Instance apart_eo : Apart Event output world. Proof. done. Qed.
#[global] Instance apart_to : Apart (time_state queue) output world. Proof. done. Qed.
#[global] Instance apart_oe : Apart output Event world. Proof. done. Qed.
#[global] Instance apart_ot : Apart output (time_state queue) world. Proof. done. Qed.

Lemma nothing_written : written (view (T := output) start) = [].
Proof. reflexivity. Qed.

Lemma create_example_writes_witness :
  let l := LoopRun.after (K := simple_kernel) (TQ := queue) CreateExample.body start 14 in
  EventLoop.ph l = EventLoop.Returned ∧ out (globals (EventLoop.mach l)) = CreateFacts.expected.
Proof.
  intros l. assert (Hp : EventLoop.ph l = EventLoop.Returned) by (vm_compute; reflexivity). split; [exact Hp|].
  destruct (create_example_writes (K := simple_kernel) (TQ := queue) start 3 (mkEvent 0 None 0) l start_fresh nothing_written
    (LoopRun.after_reachable _ _ _)) as (_ & _ & _ & H). exact (H Hp).
Defined.
End CreateRun.
