(* ===== verification/WebExamples.v ===== *)
(** * WebExamples: the server of examples/coroutine/http/server/server.cc

    Its two handlers on the context of a connection, and the routes its [main]
    registers. [websocket_handler] is a loop without an end: [websocket_round]
    is its body up to the sleep and [websocket_rounds] the first rounds of it;
    the sleep, as the connection sees it, does nothing. *)

From S2P Require Import Prelude Words CString Buffer StdMap WebsocketFrame CoSocket Http HttpCalm HttpServer.
#[local] Open Scope Z_scope.

Module WebExample.
Section handlers.
Context {P : Type}.
Implicit Types (ctx : Ctx P).

Definition response_body : bytes := str "hello world".

(** [http_handler]: [append] gets the array with its NUL and its size less one. *)
Definition http_handler ctx : outcome (Ctx P) :=
  buffer ← Buffer.append_raw (Buffer.make 1024) (response_body ++ [0]) (zlen response_body);
  let ctx := Response.set_response_header (str "Content-Type") (str "text/html") ctx in
  Response.end_response (Some buffer) 0 ctx.

(** What the uninitialised [frame] and the header array of [encode] hold. *)
Variables (frame0 : Frame) (junk16 : bytes).

Definition data : bytes := str "hello websocket".

(** The body of the loop; the result is what it writes to the standard output
    without the end of the line. [frame.payload] points into the read buffer. *)
Definition websocket_round ctx : outcome (bytes * Ctx P) :=
  '(frame, ctx) ← Response.recv_frame frame0 ctx;
  recv_data ← mem_read (_buffer (CoSocket.get_read_buf (conn ctx)).1) (payload frame) (payload_length frame);
  send_data ← Buffer.append_str (Buffer.make (zlen data)) data;
  ctx ← Response.send_frame junk16 send_data 1 1 ctx;
  Ok (recv_data, ctx).

Fixpoint websocket_rounds (n : nat) ctx : outcome (list bytes * Ctx P) :=
  match n with
  | O => Ok ([], ctx)
  | S n =>
      '(recv_data, ctx) ← websocket_round ctx;
      '(l, ctx) ← websocket_rounds n ctx;
      Ok (recv_data :: l, ctx)
  end.

(** What [main] registers; [websocket_handler] is the handler the loop above
    is the beginning of. *)
Definition site (websocket_handler : Server.handler) : server (Server.handler (P := P)) :=
  Server.set_websocket_handler (str "/websocket") (Some websocket_handler)
    (Server.set_http_handler (str "/index") (Some http_handler)
      (mkServer (StdMap.assign (str "document_root") (str "/var/www/html") []) [] [] false)).

End handlers.
End WebExample.

(** ** What a client of the WebSocket hears *)
Module WebTalk.
Import HttpFacts CalmFacts FrameFacts WebExample.

(** A frame of the client: its first octet, its masking key and its payload. *)
Record client_frame := mkClient { first : Z; key : bytes; text : bytes }.
Definition wire (f : client_frame) : bytes := Rfc6455.frame (first f) (Some (key f)) (text f).
Definition frame_ok (f : client_frame) : Prop :=
  is_byte (first f) ∧ bytes_ok (key f) ∧ length (key f) = 4%nat ∧ bytes_ok (text f) ∧ zlen (wire f) ≤ READ_BUF_MAX_SIZE.

(** What the kernel answers to [recv]: it has to be asked again some times
    before each frame, and some times before the end of the stream. *)
Fixpoint talk (fs : list (nat * client_frame)) (quiet : nat) : list rx_answer :=
  match fs with
  | [] => replicate quiet (RxError EAGAIN)
  | (n, f) :: fs => replicate n (RxError EAGAIN) ++ RxData (wire f) :: talk fs quiet
  end.

(** The frame each round sends. *)
Definition answer : bytes := Rfc6455.frame 129 None data.

(** The payload of the last frame, masked once more each time. *)
Fixpoint garbled (m : nat) (k d : bytes) : list bytes :=
  match m with
  | O => []
  | S m => Rfc6455.mask k d :: garbled m k (Rfc6455.mask k d)
  end.

Lemma wire_pos f : 0 < zlen (wire f).
Proof. unfold zlen, wire, Rfc6455.frame, Rfc6455.head. cbn [app length]. lia. Qed.

Lemma text_short f : frame_ok f → zlen (text f) ≤ READ_BUF_MAX_SIZE.
Proof.
  intros (_ & _ & _ & _ & H). etrans; [|exact H]. unfold wire, Rfc6455.frame. rewrite !zlen_app. unfold Rfc6455.mask.
  rewrite zlen_mask_from. pose proof (zlen_nonneg (Rfc6455.head (first f) true (zlen (text f)))). pose proof (zlen_nonneg (key f)). lia.
Qed.

(** *** The socket *)
Section talk.
Context {P : Type}.
Implicit Types (ctx : Ctx P).
Context (frame0 : Frame) (junk16 : bytes).
Context (Hjunk : length junk16 = 16%nat) (Hjunkb : bytes_ok junk16).

(** The frame lies unmasked at the start of the read buffer. *)
Definition holds (f : client_frame) ctx : Prop :=
  ∃ n rest, cread_buf (conn ctx) = Some (mkBuffer READ_BUF_MAX_SIZE n
    (Rfc6455.head (first f) true (zlen (text f)) ++ key f ++ text f ++ rest)).

(** *** The answer *)
Lemma send_websocket_frame_ok (d : buffer) ctx :
  Buffer.wf d → _size d < 2 ^ 62 → let w := Rfc6455.frame 129 None (Buffer.contents d) in
  zlen w ≤ WRITE_BUF_MAX_SIZE → talk_ok ctx →
  ∃ n ctx', Response.send_frame junk16 d 1 1 ctx = Ok ctx' ∧ talk_ok ctx' ∧ cread_buf (conn ctx') = cread_buf (conn ctx) ∧
    rx (sk (conn ctx')) = rx (sk (conn ctx)) ∧ sent (sk (conn ctx')) = sent (sk (conn ctx)) ++ take n w ∧
    (tx (sk (conn ctx)) = [] → take n w = w ∧ tx (sk (conn ctx')) = []).
Proof.
  intros Hd Hsd w Hw (Hok & Hrd & Hwt & Htx). unfold Response.send_frame.
  destruct (clear_write_buf_ok ctx Hok) as (c1 & -> & (_ & _ & _ & _ & Hr1 & Hok1) & K1 & C1). rewrite outcome_bind_ok.
  assert (Hwr : writes (λ b, Frame.encode junk16 b d 1 1) w).
  { intros b Hb Hs _. by apply (encode_ok junk16 b d 1 1). }
  pose proof (with_write_buf_ok _ w c1 Hwr) as H. rewrite C1 in H. unfold WRITE_BUF_MAX_SIZE in *.
  specialize (H ltac:(lia) Hok1). change (@zlen Z []) with 0 in H. rewrite (proj2 (Z.ltb_ge _ _)) in H by lia.
  destruct H as (c2 & -> & (_ & _ & _ & _ & Hr2 & Hok2) & K2 & C2). rewrite outcome_bind_ok. cbn [app] in C2.
  destruct (send_response_ok c2 Hok2) as (ret & c3 & E3 & (_ & _ & _ & _ & Hr3 & Hok3) & Hret & Hs & Hrx & Hall & _); [congruence|].
  rewrite E3, outcome_bind_ok. rewrite K2, K1, C2 in *.
  destruct (send_response_calm c2 ret c3 E3) as (Hw3 & Ht3 & Hn3); [congruence..|]. rewrite K2 in Hn3.
  assert (Hrb : cread_buf (conn c3) = cread_buf (conn ctx)) by congruence.
  exists (Z.to_nat ret), c3. split; [reflexivity|]. split; [|split; [exact Hrb|]].
  - split; [done|]. split; [unfold read_ok; by rewrite Hrb|by split].
  - split; [done|]. split; [done|]. intros Hnil. split; [|by apply Hn3]. rewrite (Hall Hnil). apply take_ge. unfold zlen. lia.
Qed.

Lemma answer_frame : ∃ d, Buffer.append_str (Buffer.make (zlen data)) data = Ok d ∧ Buffer.wf d ∧ _size d < 2 ^ 62 ∧
  Rfc6455.frame 129 None (Buffer.contents d) = answer ∧ zlen answer ≤ WRITE_BUF_MAX_SIZE.
Proof.
  assert (Hz : zlen data = 15) by (vm_compute; reflexivity).
  destruct (Buffer.make_wf (zlen data)) as [Hm Hc]; [rewrite Hz; unfold SIZE_MAX; lia|].
  pose proof (Buffer.append_str_ok (Buffer.make (zlen data)) data Hm (bytes_ok_str _)) as H.
  change (_length (Buffer.make (zlen data))) with 0 in H. change (_size (Buffer.make (zlen data))) with (zlen data) in H.
  rewrite Hz in H at 1. specialize (H ltac:(lia)). rewrite (proj2 (Z.ltb_ge _ _)) in H by lia.
  destruct H as (d & Hd & Hwf & Hs & Hcd). exists d. split_and!; [exact Hd|done|rewrite Hs, Hz; lia| |by vm_compute].
  rewrite Hcd. cbn [Buffer.make] in Hc. rewrite Hc. done.
Qed.

(** *** The question *)
Lemma clear_any (b : buffer) :
  0 ≤ _size b < SIZE_MAX → zlen (_buffer b) = _size b + 1 → bytes_ok (_buffer b) →
  ∃ b', Buffer.clear b = Ok b' ∧ Buffer.wf b' ∧ _size b' = _size b ∧ Buffer.contents b' = [] ∧ _length b' = 0 ∧
    _buffer b' = 0 :: drop 1 (_buffer b).
Proof.
  intros Hs Hm Hb. unfold Buffer.clear. rewrite mem_write_ok by (change (zlen [0]) with 1; lia).
  rewrite outcome_bind_ok. eexists. split; [reflexivity|]. change (Z.to_nat (0 + zlen [0])) with 1%nat. cbn [take app Z.to_nat].
  assert (H : Buffer.shape (mkBuffer (_size b) 0 (0 :: drop 1 (_buffer b))) [] (drop 1 (_buffer b))).
  { split_and!; [done|done| |constructor|by apply Forall_drop]. cbn [_size]. rewrite zlen_nil.
    change 1%nat with (Z.to_nat 1). rewrite zlen_drop by lia. lia. }
  apply Buffer.shape_wf in H as [Hw Hc]; [|cbn [_size]; lia]. by split_and!.
Qed.

Lemma read_buf_clear (c : cosocket) : read_ok c → ∃ b', Buffer.clear (CoSocket.get_read_buf c).1 = Ok b' ∧
  Buffer.wf b' ∧ _size b' = READ_BUF_MAX_SIZE ∧ Buffer.contents b' = [] ∧ _length b' = 0 ∧
  _buffer b' = 0 :: drop 1 (_buffer (CoSocket.get_read_buf c).1).
Proof.
  intros Hc. assert (H : _size (CoSocket.get_read_buf c).1 = READ_BUF_MAX_SIZE ∧
    zlen (_buffer (CoSocket.get_read_buf c).1) = READ_BUF_MAX_SIZE + 1 ∧ bytes_ok (_buffer (CoSocket.get_read_buf c).1)).
  { unfold CoSocket.get_read_buf. destruct (cread_buf c) as [b|] eqn:E; [by apply Hc|].
    cbn [fst]. destruct (Buffer.make_wf READ_BUF_MAX_SIZE) as [Hm _]; [by unfold READ_BUF_MAX_SIZE, SIZE_MAX; lia|].
    split_and!; [done|by apply Buffer.wf_mem in Hm|by apply Buffer.wf_bytes in Hm]. }
  destruct H as (Hs & Hm & Hb). destruct (clear_any (CoSocket.get_read_buf c).1) as (b' & H); rewrite ?Hs; [by unfold READ_BUF_MAX_SIZE, SIZE_MAX; lia|done|done|].
  exists b'. by rewrite Hs in H.
Qed.
(** The frame at the start of the read buffer is unmasked in its place. *)
Definition shown (f : client_frame) fr ctx : Prop :=
  mem_read (_buffer (CoSocket.get_read_buf (conn ctx)).1) (payload fr) (payload_length fr) = Ok (text f) ∧ holds f ctx.

Lemma decoded (f : client_frame) (rb : buffer) rest (c : cosocket) ctx :
  bytes_ok (key f) → length (key f) = 4%nat → bytes_ok (text f) → is_byte (first f) → _buffer rb = wire f ++ rest → bytes_ok rest →
  _size rb = READ_BUF_MAX_SIZE → zlen (_buffer rb) = READ_BUF_MAX_SIZE + 1 →
  ∃ fr rb', Frame.decode frame0 rb = Ok (fr, rb') ∧ read_ok (CoSocket.set_read_buf rb' c) ∧
    shown f fr (Parse.set_conn (CoSocket.set_read_buf rb' c) ctx).
Proof.
  intros Hk Hkl Ht Hf Hm Hr Hs Hz.
  assert (Hlen : zlen (wire f) = zlen (Rfc6455.head (first f) true (zlen (text f)) ++ key f ++ text f)).
  { unfold wire, Rfc6455.frame, Rfc6455.mask. rewrite !zlen_app. by rewrite zlen_mask_from. }
  assert (Hsmall : zlen (text f) < 2 ^ 63).
  { rewrite Hm, zlen_app, Hlen, !zlen_app in Hz. unfold READ_BUF_MAX_SIZE in Hz. pose proof (zlen_nonneg rest).
    pose proof (zlen_nonneg (key f)). pose proof (zlen_nonneg (Rfc6455.head (first f) true (zlen (text f)))). lia. }
  destruct (decode_frame_ok frame0 rb (first f) (Some (key f)) (text f) rest Ht Hsmall ltac:(by intros k [= <-]) Hm)
    as (fr & hd & Hdec & _ & Hpl & Hp & _ & _ & Hhd). cbn [from_option id] in Hhd.
  exists fr. eexists. split; [exact Hdec|]. subst hd. split; [|split].
  - intros b Hb. apply (inj Some) in Hb as <-. pose proof (head_bytes_ok (first f) true (zlen (text f)) Hf (zlen_nonneg _)) as Hh.
    clear Hdec Hp. set (h := Rfc6455.head _ _ _) in *. clearbody h. split_and!; [done| |].
    + cbn [_buffer]. rewrite <- Hz, Hm, !zlen_app, Hlen, !zlen_app. lia.
    + by repeat apply Forall_app_2.
  - cbn [conn Parse.set_conn CoSocket.get_read_buf CoSocket.set_read_buf cread_buf fst _buffer]. rewrite Hp, Hpl.
    by apply mem_read_split.
  - cbn [conn Parse.set_conn CoSocket.set_read_buf]. exists (_length rb), rest. cbn [cread_buf]. by rewrite Hs, <- app_assoc.
Qed.

(** The state of the connection but for the read buffer and what is received. *)
Definition received ctx l ctx' : Prop :=
  talk_ok ctx' ∧ rx (sk (conn ctx')) = l ∧ sent (sk (conn ctx')) = sent (sk (conn ctx)) ∧ tx (sk (conn ctx')) = tx (sk (conn ctx)).

Lemma received_ok ctx l (c : cosocket) s rb : talk_ok ctx → read_ok (CoSocket.set_read_buf rb (CoSocket.set_sk s c)) →
  cwrite_buf c = cwrite_buf (conn ctx) → rx s = l → waits s = [] → tx s = tx (sk (conn ctx)) → sent s = sent (sk (conn ctx)) →
  received ctx l (Parse.set_conn (CoSocket.set_read_buf rb (CoSocket.set_sk s c)) ctx).
Proof.
  intros (Hok & _ & _ & Htx) Hr Hw H1 H2 H3 H4. split; [|by split_and!]. split; [|split; [done|split; [done|]]].
  - intros b Hb. apply Hok. by rewrite <- Hw.
  - cbn [conn Parse.set_conn CoSocket.set_read_buf CoSocket.set_sk sk]. by rewrite H3.
Qed.

Lemma recv_frame_data n f l ctx :
  talk_ok ctx → frame_ok f → rx (sk (conn ctx)) = replicate n (RxError EAGAIN) ++ RxData (wire f) :: l →
  ∃ fr ctx', Response.recv_frame frame0 ctx = Ok (fr, ctx') ∧ shown f fr ctx' ∧ received ctx l ctx'.
Proof.
  intros Ht (Hf & Hk & Hkl & Htext & Hw) Hrx. pose proof Ht as (_ & Hrd & Hwt & _). unfold Response.recv_frame.
  destruct (get_read_buf_cread (conn ctx) Hrd) as (_ & _ & Hsk & Hwb). destruct (read_buf_clear (conn ctx) Hrd) as (b & Hb & Hwf & Hs & Hc & Hl & _).
  destruct (CoSocket.get_read_buf (conn ctx)) as [rb c]. cbn [fst snd] in *. rewrite Hb, outcome_bind_ok. rewrite <- Hsk in Hrx, Hwt.
  destruct (conn_recv_data c n (wire f) l (_buffer (Buffer.make READ_BUF_MAX_SIZE)) READ_BUF_MAX_SIZE Hrx Hwt Hw)
    as (s & -> & H1 & H2 & H3 & H4); [by vm_compute|done|]. rewrite outcome_bind_ok. pose proof (wire_pos f).
  assert (Hwb2 : bytes_ok (wire f)).
  { apply Forall_app_2; [apply head_bytes_ok; [done|apply zlen_nonneg]|]. apply Forall_app_2; [done|]. by apply mask_from_bytes_ok. }
  assert (Hu : u64 (zlen (wire f)) = zlen (wire f)) by (apply u64_id; unfold READ_BUF_MAX_SIZE in *; lia).
  pose proof (Buffer.append_raw_ok b (wire f ++ drop (length (wire f)) (_buffer (Buffer.make READ_BUF_MAX_SIZE))) (zlen (wire f)) Hwf) as Ha.
  rewrite Hl, Hs, Hu in *.
  destruct (READ_BUF_MAX_SIZE <? 0 + zlen (wire f)) eqn:E; [apply Z.ltb_lt in E; lia|].
  destruct Ha as (b2 & -> & Hwf2 & Hs2 & Hc2).
  { apply Forall_app_2; [done|]. apply Forall_drop. by apply bytes_ok_check. }
  { rewrite zlen_app. pose proof (zlen_nonneg (drop (length (wire f)) (_buffer (Buffer.make READ_BUF_MAX_SIZE)))). lia. }
  { unfold READ_BUF_MAX_SIZE in *. lia. }
  rewrite outcome_bind_ok, Hc, app_nil_l in *. rewrite take_zlen_app in Hc2.
  destruct (Buffer.wf_shape b2 Hwf2) as (tail & _ & Hm & _ & _ & Htl). rewrite Hc2 in Hm.
  destruct (decoded f b2 (0 :: tail) (CoSocket.set_sk s c) ctx Hk Hkl Htext Hf Hm) as (fr & rb' & -> & Hrd' & Hsh);
    [by constructor|congruence|rewrite (Buffer.wf_mem b2 Hwf2); congruence|].
  rewrite outcome_bind_ok. exists fr. eexists. split; [reflexivity|]. split; [exact Hsh|].
  apply received_ok; [done|done|done|done|done|congruence|congruence].
Qed.

(** The stream has ended: the old frame is looked at again, with the first
    octet cleared, and is masked once more. *)
Definition again (f : client_frame) : client_frame := mkClient 0 (key f) (Rfc6455.mask (key f) (text f)).

Lemma append_nothing (b : buffer) s t :
  _length b = 0 → 0 ≤ _size b → _buffer b = 0 :: t → Buffer.append_raw b s 0 = Ok b.
Proof.
  intros Hl Hs Hm. pose proof (zlen_nonneg s). pose proof (zlen_nonneg t). unfold Buffer.append_raw. rewrite Hl.
  change (u64 (0 + 0)) with 0. rewrite (proj2 (Z.ltb_ge _ _)) by lia.
  rewrite mem_read_ok, outcome_bind_ok by lia. change (take (Z.to_nat 0) _) with (@nil Z).
  rewrite (mem_write_ok _ 0 []), outcome_bind_ok by (try change (@zlen Z []) with 0; rewrite ?Hm, ?zlen_cons; lia). cbv zeta.
  change (take (Z.to_nat 0) (_buffer b) ++ [] ++ drop (Z.to_nat (0 + zlen [])) (_buffer b)) with (_buffer b).
  rewrite mem_write_ok by (try change (zlen [0]) with 1; rewrite ?Hm, ?zlen_cons; lia).
  rewrite outcome_bind_ok. change (take (Z.to_nat 0) (_buffer b) ++ [0] ++ drop (Z.to_nat (0 + zlen [0])) (_buffer b)) with (0 :: drop 1 (_buffer b)).
  rewrite Hm. cbn [drop].
  destruct b as [sz l m]. cbn in *. by subst.
Qed.

Lemma recv_frame_end n f ctx :
  talk_ok ctx → bytes_ok (key f) → length (key f) = 4%nat → bytes_ok (text f) → holds f ctx →
  rx (sk (conn ctx)) = replicate n (RxError EAGAIN) →
  ∃ fr ctx', Response.recv_frame frame0 ctx = Ok (fr, ctx') ∧ shown (again f) fr ctx' ∧ received ctx [] ctx'.
Proof.
  intros Ht Hk Hkl Htext (len & rest & Hh) Hrx. pose proof Ht as (_ & Hrd & Hwt & _). unfold Response.recv_frame.
  destruct (get_read_buf_cread (conn ctx) Hrd) as (_ & _ & Hsk & Hwb). destruct (read_buf_clear (conn ctx) Hrd) as (b & Hb & Hwf & Hs & Hc & Hl & Hm).
  destruct (Hrd _ Hh) as (_ & Hz & Hbytes). cbn [_buffer] in Hz, Hbytes.
  assert (Hg : (CoSocket.get_read_buf (conn ctx)).1 =
    mkBuffer READ_BUF_MAX_SIZE len (Rfc6455.head (first f) true (zlen (text f)) ++ key f ++ text f ++ rest)).
  { unfold CoSocket.get_read_buf. by rewrite Hh. }
  rewrite Hg in Hm. cbn [_buffer] in Hm.
  assert (Hw : _buffer b = wire (again f) ++ rest).
  { rewrite Hm. unfold wire, Rfc6455.frame, again. cbn [first key text]. unfold Rfc6455.mask.
    rewrite zlen_mask_from, mask_from_involutive, <- !app_assoc. done. }
  destruct (CoSocket.get_read_buf (conn ctx)) as [rb c]. cbn [fst snd] in *. rewrite Hb, outcome_bind_ok. rewrite <- Hsk in Hrx, Hwt.
  destruct (conn_recv_end c n (_buffer (Buffer.make READ_BUF_MAX_SIZE)) READ_BUF_MAX_SIZE Hrx Hwt) as (s & -> & H1 & H2 & H3 & H4).
  rewrite outcome_bind_ok. pose proof (Buffer.wf_mem b Hwf) as Hzb.
  change (u64 0) with 0. rewrite (append_nothing b _ _ Hl ltac:(by rewrite Hs) Hm), outcome_bind_ok.
  assert (Hrest : bytes_ok rest). { apply Forall_app in Hbytes as [_ Hbytes]. apply Forall_app in Hbytes as [_ Hbytes]. by apply Forall_app in Hbytes as [_ ?]. }
  destruct (decoded (again f) b rest (CoSocket.set_sk s c) ctx) as (fr & rb' & -> & Hrd' & Hsh); try done.
  { by apply mask_from_bytes_ok. }
  { rewrite Hzb. by rewrite Hs. }
  rewrite outcome_bind_ok. exists fr. eexists. split; [reflexivity|]. split; [exact Hsh|].
  apply received_ok; [done|done|done|done|done|congruence|congruence].
Qed.

(** *** Rounds *)

(** [k] answers have been sent, each of them as far as the kernel took it. *)
Definition answered (k : nat) ctx ctx' : Prop :=
  (∃ ns, length ns = k ∧ sent (sk (conn ctx')) = sent (sk (conn ctx)) ++ concat (map (λ n, take n answer) ns)) ∧
  (tx (sk (conn ctx)) = [] → tx (sk (conn ctx')) = [] ∧
     sent (sk (conn ctx')) = sent (sk (conn ctx)) ++ concat (replicate k answer)).

Lemma answered_none ctx : answered 0 ctx ctx.
Proof. split; [exists []|intros H; split; [done|]]; by rewrite ?app_nil_r. Qed.

Lemma answered_more k ctx ctx1 ctx2 : answered 1 ctx ctx1 → answered k ctx1 ctx2 → answered (S k) ctx ctx2.
Proof.
  intros [(ns & Hn & Hs) Hall] [(ms & Hm & Ht) Hall2]. split.
  - destruct ns as [|n [|]]; [done| |done]. exists (n :: ms). cbn [map concat length] in *. rewrite app_nil_r in Hs.
    split; [lia|]. by rewrite Ht, Hs, app_assoc.
  - intros Hx. destruct (Hall Hx) as [Hx1 H1]. destruct (Hall2 Hx1) as [Hx2 H2]. split; [done|].
    rewrite H2, H1. cbn [replicate concat]. by rewrite app_nil_r, app_assoc.
Qed.

Lemma round_shown f fr ctx ctx1 l :
  Response.recv_frame frame0 ctx = Ok (fr, ctx1) → shown f fr ctx1 → received ctx l ctx1 →
  ∃ ctx', websocket_round frame0 junk16 ctx = Ok (text f, ctx') ∧ holds f ctx' ∧ talk_ok ctx' ∧
    rx (sk (conn ctx')) = l ∧ answered 1 ctx ctx'.
Proof.
  intros Hr [Hm (len & rest & Hh)] (Ht & Hrx & Hs & Htx). unfold websocket_round.
  rewrite Hr, outcome_bind_ok, Hm, outcome_bind_ok.
  destruct answer_frame as (d & -> & Hd & Hsd & Ha & Hz). rewrite outcome_bind_ok.
  destruct (send_websocket_frame_ok d ctx1 Hd Hsd) as (n & ctx' & -> & Ht' & Hrb & Hrx' & Hs' & Hall); [by rewrite Ha|done|].
  rewrite outcome_bind_ok. rewrite Ha in *. exists ctx'. split; [done|]. split; [exists len, rest; congruence|].
  split; [done|]. split; [congruence|]. rewrite Hs, Htx in *. split.
  - exists [n]. cbn [map concat length]. by rewrite app_nil_r.
  - intros Hx. destruct (Hall Hx) as [Hn Hx']. split; [done|]. cbn [replicate concat]. by rewrite Hs', Hn, app_nil_r.
Qed.

Lemma rounds_step n ctx ctx1 d : websocket_round frame0 junk16 ctx = Ok (d, ctx1) →
  ∀ l ctx2, websocket_rounds frame0 junk16 n ctx1 = Ok (l, ctx2) → websocket_rounds frame0 junk16 (S n) ctx = Ok (d :: l, ctx2).
Proof. intros H l ctx2 H2. cbn [websocket_rounds]. by rewrite H, outcome_bind_ok, H2, outcome_bind_ok. Qed.

(** The rounds after the end of the stream. *)
Lemma rounds_end m : ∀ quiet f ctx, talk_ok ctx → bytes_ok (key f) → length (key f) = 4%nat → bytes_ok (text f) → holds f ctx →
  rx (sk (conn ctx)) = replicate quiet (RxError EAGAIN) →
  ∃ ctx', websocket_rounds frame0 junk16 m ctx = Ok (garbled m (key f) (text f), ctx') ∧ answered m ctx ctx'.
Proof.
  induction m as [|m IH]; intros quiet f ctx Ht Hk Hkl Htext Hh Hrx.
  { exists ctx. split; [done|apply answered_none]. }
  destruct (recv_frame_end quiet f ctx Ht Hk Hkl Htext Hh Hrx) as (fr & ctx1 & Hr & Hsh & Hrc).
  destruct (round_shown (again f) fr ctx ctx1 [] Hr Hsh Hrc) as (ctx2 & H2 & Hh2 & Ht2 & Hrx2 & Ha2).
  destruct (IH 0%nat (again f) ctx2) as (ctx3 & H3 & Ha3); try done; [by apply mask_from_bytes_ok|].
  exists ctx3. split; [|by eapply answered_more]. cbn [garbled]. by apply (rounds_step m ctx ctx2).
Qed.

Lemma rounds_ok quiet m n f pre : ∀ ctx, talk_ok ctx → Forall (λ x, frame_ok x.2) pre → frame_ok f →
  rx (sk (conn ctx)) = talk (pre ++ [(n, f)]) quiet →
  ∃ ctx', websocket_rounds frame0 junk16 (length pre + S m) ctx =
      Ok (map (λ x, text x.2) (pre ++ [(n, f)]) ++ garbled m (key f) (text f), ctx') ∧
    answered (length pre + S m) ctx ctx'.
Proof.
  induction pre as [|[n1 f1] pre IH]; intros ctx Ht Hpre Hf Hrx; cbn [app talk length map Nat.add] in *.
  - destruct (recv_frame_data n f _ ctx Ht Hf Hrx) as (fr & ctx1 & Hr & Hsh & Hrc).
    destruct (round_shown f fr ctx ctx1 _ Hr Hsh Hrc) as (ctx2 & H2 & Hh2 & Ht2 & Hrx2 & Ha2).
    destruct Hf as (_ & Hk & Hkl & Htext & _).
    destruct (rounds_end m quiet f ctx2 Ht2 Hk Hkl Htext Hh2 Hrx2) as (ctx3 & H3 & Ha3).
    exists ctx3. split; [by apply (rounds_step m ctx ctx2)|by eapply answered_more].
  - apply Forall_cons_1 in Hpre as [Hf1 Hpre]. cbn [snd] in Hf1.
    destruct (recv_frame_data n1 f1 _ ctx Ht Hf1 Hrx) as (fr & ctx1 & Hr & Hsh & Hrc).
    destruct (round_shown f1 fr ctx ctx1 _ Hr Hsh Hrc) as (ctx2 & H2 & Hh2 & Ht2 & Hrx2 & Ha2).
    destruct (IH ctx2 Ht2 Hpre Hf Hrx2) as (ctx3 & H3 & Ha3).
    exists ctx3. split; [by apply (rounds_step _ ctx ctx2)|by eapply answered_more].
Qed.
End talk.
End WebTalk.

(** ** What the site answers *)
Module SiteFacts.
Import HttpFacts CalmFacts WebExample WebTalk.
Section site.
Context {P : Type}.
Implicit Types (ctx : Ctx P).

Lemma site_document (ws : Server.handler (P := P)) stat p :
  stat (str "/var/www/html" ++ p) < 0 → Server.get_document_absolute_path stat p (site ws) = [].
Proof.
  intros H. unfold Server.get_document_absolute_path. change (settings (site ws)) with (StdMap.assign (str "document_root") (str "/var/www/html") []).
  change (StdMap.find _ _) with (Some (str "/var/www/html")). cbv beta iota zeta. by rewrite (proj2 (Z.ltb_lt _ _)).
Qed.

Lemma route_one {H} (name p : bytes) (h : H) : 0 ∉ p → lowercase name = name →
  Routes.get_handler p [(name, Some h)] = if decide (lowercase p = name) then Some h else None.
Proof.
  intros Hp Hn. cbn [Routes.get_handler]. pose proof (RouteFacts.matches_spec name p Hp) as Hm. rewrite Hn in Hm.
  destruct (Routes.matches name p), (decide (lowercase p = name)) as [E|E]; try done.
  - destruct E. by symmetry; apply Hm.
  - symmetry in E. by apply Hm in E.
Qed.

Lemma site_http (ws : Server.handler (P := P)) p : 0 ∉ p →
  Server.get_http_handler p (site ws) = if decide (lowercase p = str "/index") then Some http_handler else None.
Proof. intros Hp. exact (route_one (str "/index") p http_handler Hp eq_refl). Qed.

Lemma site_websocket (ws : Server.handler (P := P)) p : 0 ∉ p →
  Server.get_websocket_handler p (site ws) = if decide (lowercase p = str "/websocket") then Some ws else None.
Proof. intros Hp. exact (route_one (str "/websocket") p ws Hp eq_refl). Qed.

(** *** The page *)
Definition page (status : bytes) (keep : bool) : bytes :=
  HttpSpec.render status [(str "Content-Type", str "text/html")] keep 11 (Some response_body).

Lemma page_fits status keep : zlen status ≤ 100 → zlen (page status keep) ≤ WRITE_BUF_MAX_SIZE.
Proof.
  intros H. unfold page, HttpSpec.render. rewrite !zlen_app.
  destruct keep; repeat match goal with |- context [zlen ?l] => lazymatch l with status => fail | _ => let z := eval vm_compute in (zlen l) in change (zlen l) with z end end;
    unfold WRITE_BUF_MAX_SIZE; lia.
Qed.

Lemma http_handler_ok ctx :
  conn_ok ctx → res_header (response ctx) = [] → tx_ok (tx (sk (conn ctx))) →
  let text := page (Response.get_status_message (response ctx)) (keep_alive ctx) in
  ∃ ctx', http_handler ctx = Ok ctx' ∧ keep_alive ctx' = keep_alive ctx ∧
    sent (sk (conn ctx')) = sent (sk (conn ctx)) ++ HttpSpec.delivered (sk (conn ctx)) text.
Proof.
  intros Hok Hh Htx text. unfold http_handler.
  destruct (Buffer.make_wf 1024) as [Hm Hc]; [unfold SIZE_MAX; lia|].
  pose proof (Buffer.append_str_ok (Buffer.make 1024) response_body Hm (bytes_ok_str _)) as H.
  change (_length (Buffer.make 1024)) with 0 in H. change (_size (Buffer.make 1024)) with 1024 in H.
  change (zlen response_body) with 11 in H. specialize (H ltac:(lia)). change (1024 <? 0 + 11) with false in H.
  destruct H as (d & Hd & Hwf & Hs & Hcd). unfold Buffer.append_str in Hd. rewrite Hd, outcome_bind_ok. cbv zeta.
  rewrite Hc, app_nil_l in Hcd.
  assert (Hl : _length d = 11) by (rewrite <- (Buffer.zlen_contents d Hwf), Hcd; reflexivity).
  set (ctx1 := Response.set_response_header _ _ ctx).
  assert (Er : Response.get_status_message (response ctx1) = Response.get_status_message (response ctx) ∧
    res_header (response ctx1) = [(str "Content-Type", str "text/html")]).
  { unfold ctx1, Response.set_response_header, Response.with_response, Parse.set_response.
    cbn [response Response.set_header res_header]. by rewrite Hh. }
  assert (Ek : keep_alive ctx1 = keep_alive ctx) by reflexivity. assert (Ec : conn ctx1 = conn ctx) by reflexivity.
  clearbody ctx1. destruct Er as [Em Eh].
  assert (Ei : wire_image (Some d) 0 (response ctx1) (keep_alive ctx1) = text).
  { unfold wire_image, announced. rewrite Em, Eh, Ek, Hl. cbn [fmap option_fmap option_map]. by rewrite Hcd. }
  assert (Hhd : headers_ok (response ctx1)).
  { unfold headers_ok. rewrite Eh. apply Forall_cons_2; [split; apply bytes_ok_str|constructor]. }
  pose proof (end_response_ok (Some d) 0 ctx1 ltac:(by intros d' [= <-])) as H. unfold conn_ok in H at 1. rewrite Ei, Ec in H. cbv zeta in H.
  pose proof (page_fits _ (keep_alive ctx) (status_short (response ctx))) as Hfit. fold text in Hfit.
  assert (Hlt : zlen text < 2 ^ 62) by (eapply Z.le_lt_trans; [exact Hfit|done]).
  specialize (H Hok Hhd Htx Hlt). rewrite (proj2 (Z.ltb_ge _ _)) in H by exact Hfit.
  destruct H as (ctx' & H1 & (_ & _ & _ & S4 & _) & H3 & _). exists ctx'. split_and!; [done|congruence|done].
Qed.

End site.
End SiteFacts.

Section site_properties.
Import CalmFacts WebExample WebTalk SiteFacts.
Context {P : Type}.
Implicit Types (ctx : Ctx P).

(** C24: the example site, when the document root has no such file. A request
    for /index (in any case) is answered with the page, behind the status line
    of the status that the response has, unless it asks for a WebSocket, which
    is refused and ends the connection; one for /websocket runs the handler of
    WebSockets exactly after an opening handshake, on the context whose 101 was
    sent and whose connection is as it was otherwise, and is refused with its
    reason if it is none; all others get a 404. Each answer goes out as far as
    its one [send] gets: whole, when the kernel takes what it is given. *)
Theorem example_site_answers execute (SHA1 : bytes → bytes) (j3 j4 : bytes) (stat : bytes → Z) open_file junk
    (websocket_handler : Server.handler (P := P)) (recved : Z) ctx ctx1 (p : bytes) :
  (∀ d, bytes_ok d → bytes_ok (SHA1 d) ∧ length (SHA1 d) = 20%nat) → length j3 = 3%nat → length j4 = 4%nat →
  Parse.parse execute recved ctx = Ok ctx1 → path (request ctx1) = Some (p ++ [0]) → 0 ∉ p →
  stat (str "/var/www/html" ++ p) < 0 →
  talk_ok ctx1 → res_header (response ctx1) = [] →
  bytes_ok (Request.get_header (str "sec-websocket-key") (request ctx1)) →
  let r := Server.handle_request execute SHA1 j3 j4 stat open_file junk (site websocket_handler) recved ctx in
  let sends answer ctx' :=
    sent (sk (conn ctx')) = sent (sk (conn ctx1)) ++ HttpSpec.delivered (sk (conn ctx1)) answer ∧
    (tx (sk (conn ctx1)) = [] → sent (sk (conn ctx')) = sent (sk (conn ctx1)) ++ answer) in
  if decide (lowercase p = str "/index") then
    if Request.has_sec_websocket_key (request ctx1) then ∃ ctx', r = Ok (false, ctx') ∧
      sends (HttpSpec.bad_request (keep_alive ctx1) (str "no support websocket")) ctx'
    else ∃ ctx', r = Ok (keep_alive ctx1, ctx') ∧
      sends (page (Response.get_status_message (response ctx1)) (keep_alive ctx1)) ctx'
  else if decide (lowercase p = str "/websocket") then
    match HttpSpec.refusal (request ctx1) with
    | None => HttpSpec.opening_handshake (request ctx1) ∧ ∃ ctx2,
       r = (ctx ← websocket_handler ctx2; Ok (keep_alive ctx, if keep_alive ctx then Context.clear ctx else ctx)) ∧
       sends (HttpSpec.switching_protocols (keep_alive ctx1)
         (SHA1 (Request.get_header (str "sec-websocket-key") (request ctx1) ++ HttpSpec.guid))) ctx2 ∧
       talk_ok ctx2 ∧ rx (sk (conn ctx2)) = rx (sk (conn ctx1))
    | Some why => ¬ HttpSpec.opening_handshake (request ctx1) ∧ ∃ ctx', r = Ok (false, ctx') ∧
       sends (HttpSpec.refused (keep_alive ctx1) why) ctx'
    end
  else ∃ ctx', r = Ok (keep_alive ctx1, ctx') ∧
    sends (HttpSpec.render (str "404 Not Found") [] (keep_alive ctx1) 0 None) ctx'.
Proof.
  intros Hsha Hj3 Hj4 Hparse Hpath Hp Hfile Htalk Hres Hkey r sends. pose proof Htalk as (Hok & Hrd & Hwt & Htx).
  assert (Hr : r = _) by exact (ConnectionFacts.handle_request_routed execute SHA1 j3 j4 stat open_file junk (site websocket_handler)
    recved ctx ctx1 p Hparse Hpath Hp (site_document websocket_handler stat p Hfile)).
  rewrite Hr. clear Hr r. unfold ConnectionFacts.routed. rewrite site_http, site_websocket by done.
  assert (Hsends : ∀ answer ctx',
    sent (sk (conn ctx')) = sent (sk (conn ctx1)) ++ HttpSpec.delivered (sk (conn ctx1)) answer → sends answer ctx').
  { intros answer ctx' E. split; [exact E|]. intros E'. by rewrite E, HttpSpec.delivered_all. }
  clearbody sends.
  destruct (decide (lowercase p = str "/index")) as [_|_]; [|destruct (decide (lowercase p = str "/websocket")) as [_|_]].
  - unfold Server.call_http_handler. destruct (Request.has_sec_websocket_key (request ctx1)).
    + destruct (ConnectionFacts.refused_ok ctx1 Hok Hres Htx) as (c & -> & _ & Hs).
      rewrite !outcome_bind_ok. eexists. split; [reflexivity|]. by apply Hsends.
    + destruct (http_handler_ok ctx1 Hok Hres Htx) as (c & -> & Hk & Hs). rewrite !outcome_bind_ok.
      cbn [andb]. rewrite Hk. eexists. split; [reflexivity|]. apply Hsends. by destruct (keep_alive ctx1).
  - unfold Server.call_websocket_handler. rewrite outcome_bind_assoc. pose proof (HttpSpec.refusal_none (request ctx1)) as Hno.
    pose proof (UpgradeFacts.upgrade_ok SHA1 j3 j4 Hsha Hj3 Hj4 ctx1 Hok Hres Htx Hkey) as H.
    destruct (HttpSpec.refusal (request ctx1)) as [why|].
    + destruct H as (c & -> & _ & Hs & _). split; [rewrite <- Hno; done|]. rewrite !outcome_bind_ok. cbn [negb].
      exists c. rewrite outcome_bind_ok. split; [done|by apply Hsends].
    + destruct H as (c & Hup & _ & Hs & (Hok2 & _ & Hrx & Hrb)). split; [rewrite <- Hno; done|].
      pose proof (upgrade_calm _ _ _ _ _ _ Hup (conj Hwt Htx)) as [Hw2 Ht2].
      rewrite Hup, !outcome_bind_ok. cbn [negb]. exists c. split; [by destruct (websocket_handler c)|].
      split; [by apply Hsends|]. split; [|done]. split; [done|]. split; [|done]. intros b Hb. apply Hrd. by rewrite <- Hrb.
  - destruct (HttpFacts.not_found_ok ctx1 Hok Hres Htx) as (c & -> & _ & Hk & Hs).
    rewrite !outcome_bind_ok. cbn [andb]. rewrite Hk. eexists. split; [reflexivity|]. apply Hsends.
    by destruct (keep_alive ctx1).
Qed.

(** C25: the WebSocket of the example, after the handshake. However often a
    read has to be repeated, each masked frame of the client that arrives as
    one piece is shown as its payload, in order, and is answered with the frame
    of the example's text, each as far as the kernel takes it. When the client
    has closed, the loop does not end: the last frame is shown again, masked
    once more each time, and is answered as before. *)
Theorem websocket_example_talks (frame0 : Frame) (junk16 : bytes) (pre : list (nat * client_frame)) (k : nat)
    (f : client_frame) (quiet m : nat) ctx :
  length junk16 = 16%nat → bytes_ok junk16 →
  Forall (λ x, frame_ok x.2) (pre ++ [(k, f)]) → talk_ok ctx → rx (sk (conn ctx)) = talk (pre ++ [(k, f)]) quiet →
  let rounds := (length pre + S m)%nat in
  ∃ ctx', websocket_rounds frame0 junk16 rounds ctx =
      Ok (map (λ x, text x.2) (pre ++ [(k, f)]) ++ garbled m (key f) (text f), ctx') ∧
    (∃ ns, length ns = rounds ∧ sent (sk (conn ctx')) = sent (sk (conn ctx)) ++ concat (map (λ n, take n answer) ns)) ∧
    (tx (sk (conn ctx)) = [] → sent (sk (conn ctx')) = sent (sk (conn ctx)) ++ concat (replicate rounds answer)).
Proof.
  intros Hj Hjb Hfs Ht Hrx rounds. apply Forall_app in Hfs as [Hpre Hf]. apply Forall_cons_1 in Hf as [Hf _].
  destruct (rounds_ok frame0 junk16 Hj Hjb quiet m k f pre ctx Ht Hpre Hf Hrx) as (ctx' & H & Hns & Hall).
  exists ctx'. split; [exact H|]. split; [exact Hns|]. intros Hx. by destruct (Hall Hx).
Qed.
End site_properties.

(** ** Runs *)
Module SiteRun.
Import CalmFacts WebExample WebTalk SiteFacts.

(** A parser that takes the first six characters for the path and keeps the
    connection, and a handler of WebSockets that is never left. *)
Definition execute (p : unit) (d : bytes) : unit * list callback := (p, [OnUrl 0 6; OnHeadersComplete 1 1 HTTP_GET true]).
Definition no_file (path : bytes) : Z := -1.
Definition never (ctx : Ctx unit) : outcome (Ctx unit) := Ok ctx.

Definition browser (rx : list rx_answer) : cosocket := CoSocket.make (mkSock 7 0 rx [] [] [] [] [] false) 0.
Definition start (c : cosocket) : Ctx unit := Context.make c tt (Request.make 101 0 0) (Response.make 101) None 0 false.

Definition asked : Ctx unit := start (CoSocket.set_read_buf (mkBuffer 1024 0 (str "/INDEX" ++ replicate 1019 0)) (browser [])).
Definition parsed : Ctx unit := match Parse.parse execute 6 asked with Ok ctx => ctx | _ => asked end.

Lemma parsed_ok : talk_ok parsed.
Proof.
  split; [intros b Hb; vm_compute in Hb; discriminate Hb|]. split; [|split; [vm_compute; reflexivity|vm_compute; constructor]].
  intros b Hb. assert (E : cread_buf (conn parsed) = Some (mkBuffer 1024 0 (str "/INDEX" ++ replicate 1019 0))) by (vm_compute; reflexivity).
  rewrite E in Hb. apply (inj Some) in Hb as <-. split; [reflexivity|]. split; [vm_compute; reflexivity|by apply bytes_ok_check].
Qed.

(** The status of an earlier answer stays with the connection: the page is
    found, and is sent as a 404. *)
Example kept_connection_keeps_status :
  match Server.on_accept_loop execute HttpExample.digest [1; 2; 3] [4; 5; 6; 7] no_file (λ _, None) 0 4 (site never)
          (start (browser [RxData (str "/other"); RxData (str "/index")])) with
  | Some (Ok ctx) => sent (sk (conn ctx)) =
      HttpSpec.render (str "404 Not Found") [] true 0 None ++ page (str "404 Not Found") true
  | _ => False
  end.
Proof. vm_compute. reflexivity. Qed.

(** Two frames, the second after a pause, then the end. *)
Definition word (s : string) : client_frame := mkClient 129 [1; 2; 3; 4] (str s).
Definition visitor : Ctx unit := start (browser (talk [(0%nat, word "hello"); (1%nat, word "fsw")] 2)).

Lemma visitor_ok : talk_ok visitor.
Proof.
  split; [intros b [=]|]. split; [intros b [=]|]. by split; [|constructor].
Qed.

Lemma word_ok s : zlen (wire (word s)) ≤ READ_BUF_MAX_SIZE → frame_ok (word s).
Proof. intros H. split; [by vm_compute|]. split; [by apply bytes_ok_check|]. split; [done|]. split; [apply bytes_ok_str|done]. Qed.
End SiteRun.

Lemma example_site_answers_witness :
  ∃ ctx', Server.handle_request SiteRun.execute HttpExample.digest [1; 2; 3] [4; 5; 6; 7] SiteRun.no_file (λ _, None) 0
      (WebExample.site SiteRun.never) 6 SiteRun.asked = Ok (true, ctx') ∧
    sent (sk (conn ctx')) = SiteFacts.page (str "200 OK") true.
Proof.
  assert (Hparse : Parse.parse SiteRun.execute 6 SiteRun.asked = Ok SiteRun.parsed) by (vm_compute; reflexivity).
  assert (Hpath : path (request SiteRun.parsed) = Some (str "/INDEX" ++ [0])) by (vm_compute; reflexivity).
  assert (Hz : bool_decide (0 ∉ str "/INDEX") = true) by (vm_compute; reflexivity). apply bool_decide_eq_true in Hz.
  assert (Hres : res_header (response SiteRun.parsed) = []) by (vm_compute; reflexivity).
  assert (Hkey : bytes_ok (Request.get_header (str "sec-websocket-key") (request SiteRun.parsed))) by (vm_compute; constructor).
  pose proof (example_site_answers SiteRun.execute HttpExample.digest [1; 2; 3] [4; 5; 6; 7] SiteRun.no_file (λ _, None) 0 SiteRun.never
    6 _ _ _ HttpExample.digest_ok eq_refl eq_refl Hparse Hpath Hz ltac:(by vm_compute) SiteRun.parsed_ok Hres Hkey) as H.
  cbv zeta in H. rewrite decide_True in H by (vm_compute; reflexivity).
  assert (Hw : Request.has_sec_websocket_key (request SiteRun.parsed) = false) by (vm_compute; reflexivity).
  assert (Hk : keep_alive SiteRun.parsed = true) by (vm_compute; reflexivity).
  assert (Hst : Response.get_status_message (response SiteRun.parsed) = str "200 OK") by (vm_compute; reflexivity).
  assert (Hs : sent (sk (conn SiteRun.parsed)) = []) by (vm_compute; reflexivity).
  assert (Ht : tx (sk (conn SiteRun.parsed)) = []) by (vm_compute; reflexivity).
  rewrite Hw, Hk, Hst, Hs in H. destruct H as (ctx' & H & _ & Hall). exists ctx'. split; [exact H|].
  rewrite (Hall Ht). reflexivity.
Defined.

Lemma websocket_example_talks_witness :
  ∃ ctx', WebExample.websocket_rounds frame0 ws_junk 4 SiteRun.visitor =
      Ok ([str "hello"; str "fsw"; Rfc6455.mask [1; 2; 3; 4] (str "fsw"); str "fsw"], ctx') ∧
    sent (sk (conn ctx')) = concat (replicate 4 (Rfc6455.frame 129 None (str "hello websocket"))).
Proof.
  destruct (websocket_example_talks frame0 ws_junk [(0%nat, SiteRun.word "hello")] 1 (SiteRun.word "fsw") 2 2 SiteRun.visitor)
    as (ctx' & H & _ & Hs).
  - reflexivity.
  - by apply bytes_ok_check.
  - repeat (apply Forall_cons_2; [apply SiteRun.word_ok; by vm_compute|]). constructor.
  - exact SiteRun.visitor_ok.
  - reflexivity.
  - exists ctx'. split; [|exact (Hs eq_refl)]. etransitivity; [exact H|]. reflexivity.
Defined.
