(* ===== verification/HttpLoop.v ===== *)
(** * HttpLoop: the HTTP server on the event loop
    (src/coroutine/http/server.cc, src/coroutine/http/http.cc)

    Http and HttpServer describe what a connection does as a function of the
    answers of the kernel. Here the same code is a program of the scheduler's
    machine: each [recv] and [send] may suspend the coroutine, and the other
    connections go on. The parts between two calls are the functions of Http.
    The theorem: on the machine, with any number of connections and under any
    interleaving, each connection is sent what the function says. *)

From S2P Require Import Prelude Words CString Buffer StdMap WebsocketFrame CoSocket Http HttpCalm HttpServer.
From S2P Require Import Timer Coroutine Waiters Sleep Event Progress SocketLoop Ownership ServerLoop.
From stdpp Require Import gmap.
#[local] Open Scope Z_scope.

Module HttpLoop.
Section http_loop.
Context {U K TQ : Type} `{!PQueue co_timer CompareTimerPointer TQ} `{!Epoll K}.
Context `{!Part Event U} `{!Part (time_state TQ) U} `{!Part K U} `{!Part table U}.
Context {P : Type}.
Implicit Types (ctx : Ctx P) (k : Ctx P → prog U).

(** The bound on the turns of each loop of a socket, and what is left when it
    is used up. *)
Variables (stop : prog U) (fuel : nat).

(** Code between two calls. *)
Definition compute {A} (o : outcome A) (k : A → prog U) : prog U := Act (λ u, a ← o; Ok (u, k a)).

(** The connection's descriptor. *)
Definition get_fd ctx : Z := fd (sk (conn ctx)).

(** ** Responses *)
Definition send_response ctx (k : Z → Ctx P → prog U) : prog U :=
  let '(b, c) := CoSocket.get_write_buf (conn ctx) in
  ServerLoop.conn_send (K := K) stop fuel (get_fd ctx) (_buffer b) (_length b) (λ ret, k ret (Parse.set_conn c ctx)).

(** What [end] does before [send_response]. *)
Definition build_response (data : option buffer) (size : Z) ctx : outcome (Ctx P) :=
  ctx ← Response.clear_write_buf ctx;
  let body_length := match data with Some d => _length d | None => size end in
  ctx ← Response.build_http_status_line ctx;
  ctx ← Response.build_http_header (i32 body_length) ctx;
  Response.build_http_body data ctx.

Definition end_response (data : option buffer) (size : Z) ctx k : prog U :=
  compute (build_response data size ctx) (λ ctx, send_response ctx (λ _ ctx, k ctx)).

Definition send_not_found_response ctx k : prog U :=
  end_response None 0 (Response.with_response (Response.set_status 404) ctx) k.

Definition send_bad_request_response (text : bytes) ctx k : prog U :=
  compute (Buffer.append_str (Buffer.make (zlen text)) text) (λ bad_body,
    end_response (Some bad_body) 0 (Response.with_response (Response.set_status 400) ctx) k).

(** ** WebSocket *)
Variable SHA1 : bytes → bytes.
Variables (j3 j4 junk16 : bytes).

Definition check_websocket_upgrade (sec_websocket_key : bytes) ctx (k : bool → Ctx P → prog U) : prog U :=
  let fail (why : string) := send_bad_request_response (Response.bad_handshake ++ str why) ctx (k false) in
  if negb (bool_decide (method (request ctx) = str "GET")) then fail "request method is not GET"
  else if negb (Request.header_contain_value (str "connection") (str "upgrade") (request ctx)) then
    fail "'upgrade' token not found in 'Connection' header"
  else if negb (Request.header_contain_value (str "upgrade") (str "websocket") (request ctx)) then
    fail "'websocket' token not found in 'Upgrade' header"
  else if negb (Request.header_contain_value (str "sec-websocket-version") (str "13") (request ctx)) then
    fail "websocket: unsupported version: 13 not found in 'Sec-Websocket-Version' header"
  else if bool_decide (sec_websocket_key = []) then
    fail "'Sec-WebSocket-Key' header is missing or blank"
  else k true ctx.

Definition upgrade ctx (k : bool → Ctx P → prog U) : prog U :=
  let sec_websocket_key := Request.get_header (str "sec-websocket-key") (request ctx) in
  check_websocket_upgrade sec_websocket_key ctx (λ ok ctx,
    if negb ok then k false ctx
    else
      let ctx := Response.with_response (Response.set_status 101) ctx in
      let ctx := Response.set_response_header (str "Upgrade") (str "websocket") ctx in
      let ctx := Response.set_response_header (str "Connection") (str "Upgrade") ctx in
      compute (Response.compute_accept_key SHA1 j3 j4 sec_websocket_key) (λ accept_key,
        end_response None 0 (Response.set_response_header (str "Sec-WebSocket-Accept") accept_key ctx) (k true))).

Definition recv_frame (f : Frame) ctx (k : Frame → Ctx P → prog U) : prog U :=
  let buf := Buffer.make READ_BUF_MAX_SIZE in
  let '(rb, c) := CoSocket.get_read_buf (conn ctx) in
  compute (Buffer.clear rb) (λ rb,
    ServerLoop.conn_recv (K := K) stop fuel (get_fd ctx) (_buffer buf) READ_BUF_MAX_SIZE (λ recved mem,
      compute (rb ← Buffer.append_raw rb mem (u64 recved); Frame.decode f rb) (λ '(f, rb),
        k f (Parse.set_conn (CoSocket.set_read_buf rb c) ctx)))).

Definition send_frame (data : buffer) (op finish : Z) ctx k : prog U :=
  compute (ctx ← Response.clear_write_buf ctx; Response.with_write_buf (λ b, Frame.encode junk16 b data op finish) ctx)
    (λ ctx, send_response ctx (λ _ ctx, k ctx)).

(** ** A connection *)
Definition handler : Type := Ctx P → (Ctx P → prog U) → prog U.
Implicit Types (s : server handler).

Variable http_parser_execute : P → bytes → P * list Http.callback.
Variable stat : bytes → Z.
Variable open_file : bytes → option bytes.
Variable junk : Z.

Definition call_http_handler (h : handler) ctx (k : bool → Ctx P → prog U) : prog U :=
  if Request.has_sec_websocket_key (request ctx) then
    send_bad_request_response (str "no support websocket") ctx (k false)
  else h ctx (k true).

Definition call_websocket_handler (h : handler) ctx (k : bool → Ctx P → prog U) : prog U :=
  upgrade ctx (λ ok ctx, if negb ok then k false ctx else h ctx (k true)).

(** [sendfile] blocks, if it blocks, with the process. *)
Definition serve_file (static_file : bytes) ctx k : prog U :=
  match open_file static_file with
  | Some data =>
      end_response None (zlen data) ctx (λ ctx,
        SocketLoop.on_socket (get_fd ctx) (λ s : sock, Ok (tt, Server.sendfile data (zlen data) s)) (λ _ _, k ctx))
  | None => end_response None junk ctx k
  end.

(** The choice of what to do with a request for [path]. *)
Definition dispatch s (path : bytes) ctx (k : bool → Ctx P → prog U) : prog U :=
  let static_file := Server.get_document_absolute_path stat path s in
  if negb (bool_decide (static_file = [])) then serve_file static_file ctx (k true)
  else match Server.get_http_handler path s with
  | Some h => call_http_handler h ctx k
  | None =>
      match Server.get_websocket_handler path s with
      | Some h => call_websocket_handler h ctx k
      | None => send_not_found_response ctx (k true)
      end
  end.

Definition handle_request s (recved : Z) ctx (k : bool → Ctx P → prog U) : prog U :=
  compute (Parse.parse http_parser_execute recved ctx) (λ ctx,
    compute (match path (request ctx) with None => UB | Some p => c_str p end) (λ path,
      dispatch s path ctx (λ go ctx,
        if negb go then k false ctx
        else if negb (keep_alive ctx) then k false ctx
        else k true (Context.clear ctx)))).

Definition recv_request ctx (k : Z → Ctx P → prog U) : prog U :=
  let '(b, c) := CoSocket.get_read_buf (conn ctx) in
  ServerLoop.conn_recv (K := K) stop fuel (get_fd ctx) (_buffer b) READ_BUF_MAX_SIZE (λ recved mem,
    k recved (Parse.set_conn (CoSocket.set_read_buf (mkBuffer (_size b) (_length b) mem) c) ctx)).

(** The loop of [on_accept]; [turns] bounds the requests. *)
Fixpoint on_accept_loop (turns : nat) s ctx k : prog U :=
  match turns with
  | O => stop
  | S turns =>
      recv_request ctx (λ recved ctx,
        if recved =? 0 then k ctx
        else handle_request s recved ctx (λ go ctx, if go : bool then on_accept_loop turns s ctx k else k ctx))
  end.

(** [conn->check_client_close()] *)
Fixpoint check_client_close (turns : nat) (connfd : Z) (buf : bytes) (k : bytes → prog U) : prog U :=
  match turns with
  | O => stop
  | S turns =>
      ServerLoop.conn_recv (K := K) stop fuel connfd buf READ_BUF_MAX_SIZE (λ ret buf,
        if 0 <? ret then check_client_close turns connfd buf k else k buf)
  end.

(** [~Ctx()]; [shutdown_result] is what [::shutdown] returns. *)
Definition destroy (turns : nat) ctx (k : cosocket → prog U) (shutdown_result : Z) : prog U :=
  SocketLoop.on_socket (get_fd ctx) (λ s : sock, Ok (tt, set_shut s)) (λ _ e,
    let c := conn ctx in
    let c := if Socket.shutdown shutdown_result then c else CoSocket.set_err (CoSocket.set_sk (set_errno e (sk c)) c) in
    compute (match cread_buf c with Some b => Ok b | None => UB end) (λ b,
      check_client_close turns (get_fd ctx) (_buffer b) (λ mem,
        k (CoSocket.set_read_buf (mkBuffer (_size b) (_length b) mem) c)))).

(** [on_accept(conn)]: the loop on a fresh context, then the destructor, which
    is the deferred task of the coroutine. *)
Definition on_accept (turns : nat) (shutdown_result : Z) s (c : cosocket) (p0 : P) (req : Request) (res : Response)
    (name : option Z) (n : Z) (keep : bool) : prog U :=
  on_accept_loop turns s (Context.make c p0 req res name n keep) (λ ctx, destroy turns ctx (λ _, Ret) shutdown_result).

End http_loop.
End HttpLoop.

(** ** What the programs do is what the functions say *)
Module HttpLoopFacts.
Import SocketLoop SocketLoopFacts Ownership HttpLoop.

(** *** Calls of the functional model: what they can change *)
Lemma recv_changes s buf off len r b s1 : Socket.recv s buf off len = Ok (r, b, s1) →
  sent s1 = sent s ∧ tx s1 = tx s ∧ (length (rx s1) ≤ length (rx s))%nat.
Proof.
  unfold Socket.recv. destruct (rx s) as [|[d|e] l] eqn:Er.
  - intros [= _ _ <-]. by rewrite Er.
  - cbv zeta. intros H. apply outcome_bind_inv in H as (b' & _ & [= _ _ <-]). split_and!; [done..|].
    cbn [set_rx rx]. destruct (drop _ d); cbn [length]; lia.
  - intros [= _ _ <-]. split_and!; [done..|]. cbn [set_errno set_rx rx length]. lia.
Qed.

Lemma send_changes s buf off len r s1 : Socket.send s buf off len = Ok (r, s1) →
  sent s `prefix_of` sent s1 ∧ rx s1 = rx s ∧ (length (tx s1) ≤ length (tx s))%nat.
Proof.
  unfold Socket.send. destruct (tx s) as [|[n|e] l] eqn:Et; intros H.
  - apply outcome_bind_inv in H as (d & _ & [= _ <-]). split_and!; [by eexists|done|cbn; lia].
  - apply outcome_bind_inv in H as (d & _ & [= _ <-]). split_and!; [by eexists|done|cbn; lia].
  - injection H as _ <-. split_and!; [|done|cbn; lia]. cbn. by rewrite app_nil_r.
Qed.

Lemma send_loop_changes w ev buf off len : ∀ fuel s r t,
  CoSocket.send_loop w fuel ev s buf off len = Some (Ok (r, t)) →
  sent s `prefix_of` sent t ∧ rx t = rx s ∧ (length (tx t) ≤ length (tx s))%nat.
Proof.
  induction fuel as [|fuel IH]; intros s r t; [done|]. cbn [CoSocket.send_loop].
  destruct (Socket.send s buf off len) as [[r1 s1]| |] eqn:E; [|done..]. apply send_changes in E as (H1 & H2 & H3).
  cbv zeta. destruct (_ && _); [|by intros [= _ <-]].
  unfold CoSocket.wait_event. destruct (CoSocket.waits s1) as [|[] l]; [| |by intros [= _ <-]];
    intros H; apply IH in H as (I1 & I2 & I3); cbn [set_waits sent rx tx] in *; (split_and!; [by etrans|congruence|lia]).
Qed.

Lemma scripted_id s : CoSocket.waits s = [] → s = scripted s [] (waited s).
Proof. destruct s. cbn. by intros ->. Qed.

Lemma wait_scripted ev s wd : CoSocket.wait_event ev (scripted s [] wd) = (true, scripted s [] (wd ++ [ev])).
Proof. done. Qed.

Section facts.
Context {U K TQ : Type} `{!PQueue co_timer CompareTimerPointer TQ} `{!Epoll K}.
Context `{!Part Event U} `{!Part (time_state TQ) U} `{!Part K U} `{!Part table U}.
Context `{!Apart Event (time_state TQ) U} `{!Apart Event K U} `{!Apart (time_state TQ) Event U}.
Context `{!Apart (time_state TQ) K U} `{!Apart K Event U} `{!Apart K (time_state TQ) U}.
Context `{!Apart table Event U} `{!Apart table (time_state TQ) U} `{!Apart table K U}.
Context `{!Apart Event table U} `{!Apart (time_state TQ) table U} `{!Apart K table U}.
Context `{!Memory U} `{!MemoryApart Event U} `{!MemoryApart (time_state TQ) U} `{!MemoryApart K U} `{!MemoryApart table U}.

(** One connection: its descriptor, and what will have been sent on it. *)
Variables (G : Z → bytes → Prop) (E : Z → sock → Prop) (stop : prog U) (connfd : Z) (total : bytes).
Context (Hgrant : grants (K := K)) (Hfd : 0 ≤ connfd < 2 ^ 31) (HG : ∀ b, b `prefix_of` total → G connfd b).
Abbreviation safe := (safe (K := K) G E {[connfd]}).
Implicit Types (s : sock) (c : Z → cell).

Lemma safe_here p c c' : safe p c → c connfd = c' connfd → safe p c'.
Proof. intros Hs Hc. eapply safe_agree; [exact Hs|]. by intros fd' ->%elem_of_singleton. Qed.

(** A call of the socket that keeps to what will have been sent. *)
Lemma safe_call {A} (f : sock → outcome (A * sock)) k c s a s' :
  (c connfd).1 = (s, None) → f s = Ok (a, s') → sent s' `prefix_of` total →
  (∀ c', (c' connfd).1 = (s', None) → safe (k a (errno s')) c') → safe (on_socket connfd f k) c.
Proof.
  intros Hc Hf Hp Hk. eapply safe_on_socket; [by apply elem_of_singleton|by rewrite Hc|intros _; by apply HG|].
  apply Hk. by rewrite upd_eq, Hc.
Qed.

Lemma safe_wait write (k : bool → prog U) c s :
  (c connfd).1 = (s, None) → (∀ c', (c' connfd).1 = (s, None) → safe (k true) c') → safe (EventLoop.wait_event (K := K) connfd write k) c.
Proof.
  intros Hc Hk. apply safe_wait_event; [by apply elem_of_singleton|by rewrite Hc|]. intros [|] Hok; [by apply Hk|].
  by destruct (Hok eq_refl).
Qed.

Lemma recv_loop_safe w off len : ∀ fuel' fuel s wd buf ret buf' t (k : Z → bytes → prog U) c,
  CoSocket.recv_loop w fuel' (scripted s [] wd) buf off len = Some (Ok (ret, buf', t)) → (fuel' ≤ fuel)%nat → (c connfd).1 = (s, None) →
  sent s `prefix_of` total →
  (∀ s' wd' c', t = scripted s' [] wd' → sent s' = sent s → tx s' = tx s → (length (rx s') ≤ length (rx s))%nat →
     (c' connfd).1 = (s', None) → safe (k ret buf') c') →
  safe (SocketLoop.recv_loop (K := K) stop w fuel connfd buf off len k) c.
Proof.
  induction fuel' as [|fuel' IH]; intros fuel s wd buf ret buf' t k c H Hf Hc Hp Hk; [done|].
  destruct fuel as [|fuel]; [lia|]. cbn [CoSocket.recv_loop SocketLoop.recv_loop] in *. rewrite recv_scripted in H.
  destruct (Socket.recv s buf off len) as [[[r b] s1]| |] eqn:Er; [|done..]. rewrite outcome_bind_ok in H.
  pose proof (recv_changes _ _ _ _ _ _ _ Er) as (H1 & H2 & H3). cbv zeta in H. rewrite wait_scripted in H. cbn [errno scripted] in H.
  eapply safe_call; [exact Hc|by rewrite Er|by rewrite H1|]. intros c' Hc'. cbv beta iota zeta.
  destruct (_ && _) eqn:Eb.
  - eapply safe_wait; [exact Hc'|]. intros c2 Hc2. cbv iota. eapply IH; [exact H|lia|exact Hc2|by rewrite H1|].
    intros s' wd' c3 Ht Hs Htx Hrx Hc3. by eapply Hk; [exact Ht|congruence|congruence|lia|].
  - injection H as <- <- <-. by eapply Hk.
Qed.

Lemma send_loop_safe w ev buf off len : ∀ fuel' fuel s wd ret t (k : Z → prog U) c,
  CoSocket.send_loop w fuel' ev (scripted s [] wd) buf off len = Some (Ok (ret, t)) → (fuel' ≤ fuel)%nat → (c connfd).1 = (s, None) →
  sent t `prefix_of` total →
  (∀ s' wd' c', t = scripted s' [] wd' → rx s' = rx s → (length (tx s') ≤ length (tx s))%nat →
     (c' connfd).1 = (s', None) → safe (k ret) c') →
  safe (SocketLoop.send_loop (K := K) stop w fuel ev connfd buf off len k) c.
Proof.
  induction fuel' as [|fuel' IH]; intros fuel s wd ret t k c H Hf Hc Hp Hk; [done|].
  destruct fuel as [|fuel]; [lia|]. cbn [CoSocket.send_loop SocketLoop.send_loop] in *. rewrite send_scripted in H.
  destruct (Socket.send s buf off len) as [[r s1]| |] eqn:Er; [|done..]. rewrite outcome_bind_ok in H.
  pose proof (send_changes _ _ _ _ _ _ Er) as (H1 & H2 & H3). cbv zeta in H. rewrite wait_scripted in H. cbn [errno scripted] in H.
  assert (Hp1 : sent s1 `prefix_of` total).
  { destruct (_ && _); [|by injection H as _ <-]. apply send_loop_changes in H as (I1 & _). by etrans. }
  eapply safe_call; [exact Hc|by rewrite Er|exact Hp1|]. intros c' Hc'. cbv beta iota zeta.
  destruct (_ && _) eqn:Eb.
  - eapply safe_wait; [exact Hc'|]. intros c2 Hc2. cbv iota. eapply IH; [exact H|lia|exact Hc2|done|].
    intros s' wd' c3 Ht Hrx Htx Hc3. by eapply Hk; [exact Ht|congruence|lia|].
  - injection H as <- <-. by eapply Hk.
Qed.

(** *** A step of a connection

    The machine's context is the function's but for the socket, which is in the
    table of descriptors. *)
Context {P : Type} (fuel : nat).
Implicit Types (ctx : Ctx P).

Definition at_ s ctx : Ctx P := Parse.set_conn (CoSocket.set_sk s (conn ctx)) ctx.

Record linked ctxm ctx c : Prop := {
  link_ctx : ctxm = at_ (sk (conn ctxm)) ctx;
  link_fd : get_fd ctxm = connfd;
  link_sock : ∃ s wd, (c connfd).1 = (s, None) ∧ sk (conn ctx) = scripted s [] wd ∧
    (length (rx s) < fuel)%nat ∧ (length (tx s) < fuel)%nat
}.

(** The function goes from [ctx] to [ctx'] with the result [a], and sends; the
    program does the same on the machine. *)
Definition leads_to {A} ctx (a : A) ctx' (m : Ctx P → (A → Ctx P → prog U) → prog U) : Prop :=
  sent (sk (conn ctx)) `prefix_of` sent (sk (conn ctx')) ∧
  (sent (sk (conn ctx')) `prefix_of` total → ∀ ctxm c k, linked ctxm ctx c →
     (∀ ctxm' c', linked ctxm' ctx' c' → safe (k a ctxm') c') → safe (m ctxm k) c).

(** The operations without a result. *)
Definition plain (m : Ctx P → (Ctx P → prog U) → prog U) : Ctx P → (unit → Ctx P → prog U) → prog U :=
  λ ctx k, m ctx (k tt).

Lemma leads_done {A} ctx (a : A) : leads_to ctx a ctx (λ ctxm k, k a ctxm).
Proof. split; [done|]. intros _ ctxm c k Hl Hk. by apply Hk. Qed.

Lemma leads_then {A B} ctx (a : A) ctx1 (b : B) ctx2 m1 m2 :
  leads_to ctx a ctx1 m1 → leads_to ctx1 b ctx2 (m2 a) → leads_to ctx b ctx2 (λ ctxm k, m1 ctxm (λ a ctxm, m2 a ctxm k)).
Proof.
  intros [P1 H1] [P2 H2]. split; [by etrans|]. intros Hp ctxm c k Hl Hk. apply H1; [by etrans|done|].
  intros ctxm' c' Hl'. by apply H2.
Qed.

Lemma safe_compute {A} (o : outcome A) a (k : A → prog U) c : o = Ok a → safe (k a) c → safe (compute o k) c.
Proof.
  intros -> Hk. apply safe_act.
  - by intros u _ _.
  - intros u u' p _ _ [= <- <-]. split; [done|]. by intros fd' _.
  - intros u u' p Ha _ [= <- <-]. eapply safe_here; [exact Hk|]. symmetry. by apply Ha, elem_of_singleton.
Qed.

(** Code that does not look at the socket. *)
Definition blind (F : Ctx P → outcome (Ctx P)) : Prop := ∀ s ctx, F (at_ s ctx) = at_ s <$> F ctx.

Lemma at_id ctx : at_ (sk (conn ctx)) ctx = ctx.
Proof. by destruct ctx as [[] ? ? ? ? ? ?]. Qed.

Lemma blind_sk F ctx ctx' : blind F → F ctx = Ok ctx' → sk (conn ctx') = sk (conn ctx).
Proof. intros HF H. pose proof (HF (sk (conn ctx)) ctx) as E1. rewrite at_id, H in E1. by injection E1 as ->. Qed.

Lemma blind_bind F1 F2 : blind F1 → blind F2 → blind (λ ctx, ctx ← F1 ctx; F2 ctx).
Proof. intros H1 H2 s ctx. rewrite H1. destruct (F1 ctx); [|done..]. apply H2. Qed.

Lemma linked_same ctxm ctx c ctxm' ctx' :
  linked ctxm ctx c → ctxm' = at_ (sk (conn ctxm)) ctx' → sk (conn ctx') = sk (conn ctx) → linked ctxm' ctx' c.
Proof.
  intros [H1 H2 H3] -> Hs. split; [done|done|]. by rewrite Hs.
Qed.

Lemma linked_blind F ctxm ctx ctx' c : blind F → F ctx = Ok ctx' → linked ctxm ctx c → ∃ ctxm', F ctxm = Ok ctxm' ∧ linked ctxm' ctx' c.
Proof.
  intros HF H Hl. rewrite (link_ctx _ _ _ Hl), HF, H. eexists. split; [reflexivity|].
  by eapply linked_same; [exact Hl| |eapply blind_sk].
Qed.

Lemma leads_compute F ctx ctx' : blind F → F ctx = Ok ctx' → leads_to ctx tt ctx' (plain (λ ctxm, compute (F ctxm))).
Proof.
  intros HF H. split; [by rewrite (blind_sk F ctx ctx' HF H)|]. intros _ ctxm c k Hl Hk.
  destruct (linked_blind F ctxm ctx ctx' c HF H Hl) as (ctxm' & Hm & Hl'). eapply safe_compute; [exact Hm|]. by apply Hk.
Qed.

(** A change of the context that leaves the socket alone. *)
Lemma leads_map {A} (f : Ctx P → Ctx P) ctx (a : A) ctx' m :
  (∀ s ctx, f (at_ s ctx) = at_ s (f ctx)) → leads_to (f ctx) a ctx' m → leads_to ctx a ctx' (λ ctxm k, m (f ctxm) k).
Proof.
  intros Hf [H1 H2]. assert (Hb : blind (λ ctx, Ok (f ctx))) by (intros s ctx0; by rewrite Hf).
  pose proof (blind_sk _ ctx (f ctx) Hb eq_refl) as Hs. split; [by rewrite <- Hs|]. intros Hp ctxm c k Hl Hk.
  destruct (linked_blind _ ctxm ctx (f ctx) c Hb eq_refl Hl) as (? & [= <-] & Hl'). by apply H2.
Qed.

Lemma leads_compute_in {A B} (o : outcome B) b ctx (a : A) ctx' m :
  o = Ok b → leads_to ctx a ctx' (m b) → leads_to ctx a ctx' (λ ctxm k, compute o (λ b, m b ctxm k)).
Proof. intros Ho [H1 H2]. split; [done|]. intros Hp ctxm c k Hl Hk. eapply safe_compute; [exact Ho|]. by apply H2. Qed.

(** *** Responses *)
Lemma get_write_buf_at s (c : cosocket) : CoSocket.get_write_buf (CoSocket.set_sk s c) =
  ((CoSocket.get_write_buf c).1, CoSocket.set_sk s (CoSocket.get_write_buf c).2).
Proof. unfold CoSocket.get_write_buf. cbn [cwrite_buf CoSocket.set_sk]. by destruct (cwrite_buf c). Qed.
Lemma get_read_buf_at s (c : cosocket) : CoSocket.get_read_buf (CoSocket.set_sk s c) =
  ((CoSocket.get_read_buf c).1, CoSocket.set_sk s (CoSocket.get_read_buf c).2).
Proof. unfold CoSocket.get_read_buf. cbn [cread_buf CoSocket.set_sk]. by destruct (cread_buf c). Qed.

Lemma blind_write_buf f : blind (Response.with_write_buf f).
Proof.
  intros s ctx. unfold Response.with_write_buf, at_ at 1. cbn [conn Parse.set_conn]. rewrite get_write_buf_at.
  destruct (CoSocket.get_write_buf (conn ctx)) as [b c]. cbn [fst snd]. by destruct (f b).
Qed.

(** Functions of the response see the response, not the socket. *)
Lemma blind_response (F : Response → bool → buffer → outcome buffer) :
  blind (λ ctx, Response.with_write_buf (F (response ctx) (keep_alive ctx)) ctx).
Proof. intros s ctx. exact (blind_write_buf _ s ctx). Qed.

Lemma blind_build data size : blind (build_response data size).
Proof.
  unfold build_response, Response.clear_write_buf, Response.build_http_status_line, Response.build_http_header, Response.build_http_body.
  apply blind_bind; [apply blind_write_buf|]. apply (blind_bind (λ ctx, Response.with_write_buf _ ctx)).
  { exact (blind_response (λ r _ b, b ← Buffer.append_str b (str "HTTP/1.1 "); b ← Buffer.append_str b (Response.get_status_message r);
      Buffer.append_str b Response.crlf)). }
  apply (blind_bind (λ ctx, Response.with_write_buf _ ctx)); [|apply blind_write_buf].
  intros s ctx. exact (blind_write_buf _ s ctx).
Qed.

Lemma linked_moves ctxm ctx c ctxm' ctx' s wd c' :
  linked ctxm ctx c → ctxm' = at_ (sk (conn ctxm)) ctx' → sk (conn ctx') = scripted s [] wd → (c' connfd).1 = (s, None) →
  (length (rx s) < fuel)%nat → (length (tx s) < fuel)%nat → linked ctxm' ctx' c'.
Proof. intros [H1 H2 _] -> Hs Hc Hr Ht. split; [done|done|]. by exists s, wd. Qed.

Lemma link_cases ctxm ctx c : linked ctxm ctx c → ∃ sm, ctxm = at_ sm ctx ∧ fd sm = connfd ∧ ∃ s wd, (c connfd).1 = (s, None) ∧
  sk (conn ctx) = scripted s [] wd ∧ (length (rx s) < fuel)%nat ∧ (length (tx s) < fuel)%nat.
Proof. intros [H1 H2 H3]. by exists (sk (conn ctxm)). Qed.

Lemma leads_send_response ctx ret ctx' :
  Response.send_response ctx = Ok (ret, ctx') → leads_to ctx ret ctx' (send_response (K := K) stop fuel).
Proof.
  unfold Response.send_response. pose proof (CalmFacts.get_write_buf_sk (conn ctx)) as Hsk.
  destruct (CoSocket.get_write_buf (conn ctx)) as [b c0] eqn:Eb. cbn [snd] in Hsk. intros H.
  apply outcome_bind_inv in H as ([r c1] & H & [= <- <-]). unfold Response.conn_send, CoSocket.send in H. rewrite Hsk in H.
  destruct (CoSocket.send_loop _ _ _ _ _ _ _) as [[[r1 t]| |]|] eqn:El; try done.
  rewrite outcome_bind_ok in H. injection H as <- <-. pose proof (send_loop_changes _ _ _ _ _ _ _ _ _ El) as (H1 & H2 & H3).
  cbn [conn Parse.set_conn CoSocket.set_sk sk]. split; [done|]. intros Hp ctxm c k Hl Hk.
  destruct (link_cases _ _ _ Hl) as (sm & -> & Hf & s & wd & Hc & Hs & Hrx & Htx). unfold send_response. rewrite (link_fd _ _ _ Hl).
  cbn [conn Parse.set_conn at_]. rewrite get_write_buf_at, Eb. cbn [fst snd]. unfold ServerLoop.conn_send, SocketLoop.send.
  assert (ServerLoop.valid_fd connfd = true) as ->. { unfold ServerLoop.valid_fd. apply andb_true_iff. lia. }
  rewrite Hs in El, H1, H2, H3. eapply send_loop_safe; [exact El|cbn [tx scripted]; lia|exact Hc|exact Hp|].
  intros s' wd' c' -> Hr' Ht' Hc'. apply Hk. eapply linked_moves; [exact Hl|done|reflexivity|exact Hc'|by rewrite Hr'|lia].
Qed.

Lemma leads_end_response data size ctx ctx' :
  Response.end_response data size ctx = Ok ctx' → leads_to ctx tt ctx' (plain (end_response (K := K) stop fuel data size)).
Proof.
  intros H. assert (Hb : ∃ ctx1 ret, build_response data size ctx = Ok ctx1 ∧ Response.send_response ctx1 = Ok (ret, ctx')).
  { unfold Response.end_response in H. do 4 (apply outcome_bind_inv in H as (? & ? & H)).
    apply outcome_bind_inv in H as ([ret c] & Hs & [= <-]). eexists _, ret. split; [|exact Hs]. unfold build_response.
    by repeat match goal with E1 : ?m = Ok _ |- context [?m] => rewrite E1, outcome_bind_ok end. }
  destruct Hb as (ctx1 & ret & H1 & H2).
  exact (leads_then ctx tt ctx1 tt ctx' _ (λ _ ctxm k, send_response (K := K) stop fuel ctxm (λ _ ctx, k tt ctx))
    (leads_compute _ _ _ (blind_build data size) H1)
    (leads_then ctx1 ret ctx' tt ctx' _ (λ _ ctxm k, k tt ctxm) (leads_send_response _ _ _ H2) (leads_done ctx' tt))).
Qed.

(** A program is given by what it does on the contexts that are linked. *)
Lemma leads_ext {A} ctx (a : A) ctx' m m' :
  (∀ s k, m (at_ s ctx) k = m' (at_ s ctx) k) → leads_to ctx a ctx' m' → leads_to ctx a ctx' m.
Proof.
  intros Hm [H1 H2]. split; [done|]. intros Hp ctxm c k Hl Hk. destruct (link_cases _ _ _ Hl) as (s & -> & _).
  rewrite Hm. by eapply H2.
Qed.

(** The end of an operation with a result that is known. *)
Lemma leads_result {A} ctx (a : A) ctx' m : leads_to ctx tt ctx' (plain m) → leads_to ctx a ctx' (λ ctxm k, m ctxm (k a)).
Proof. intros [H1 H2]. split; [done|]. intros Hp ctxm c k Hl Hk. exact (H2 Hp ctxm c (λ _, k a) Hl Hk). Qed.

Lemma leads_not_found ctx ctx' : Response.send_not_found_response ctx = Ok ctx' →
  leads_to ctx tt ctx' (plain (send_not_found_response (K := K) stop fuel)).
Proof.
  intros H. exact (leads_map (Response.with_response (Response.set_status 404)) ctx tt ctx' (plain (end_response (K := K) stop fuel None 0))
    (λ _ _, eq_refl) (leads_end_response _ _ _ _ H)).
Qed.

Lemma leads_bad_request text ctx ctx' : Response.send_bad_request_response text ctx = Ok ctx' →
  leads_to ctx tt ctx' (plain (send_bad_request_response (K := K) stop fuel text)).
Proof.
  intros H. apply outcome_bind_inv in H as (b & Hb & H).
  exact (leads_compute_in _ b ctx tt ctx' (λ b ctxm k, plain (end_response (K := K) stop fuel (Some b) 0)
      (Response.with_response (Response.set_status 400) ctxm) k) Hb
    (leads_map (Response.with_response (Response.set_status 400)) ctx tt ctx' (plain (end_response (K := K) stop fuel (Some b) 0))
      (λ _ _, eq_refl) (leads_end_response _ _ _ _ H))).
Qed.

Section handlers.
Variables (SHA1 : bytes → bytes) (j3 j4 : bytes).

Lemma leads_check key ctx ok ctx' : Response.check_websocket_upgrade key ctx = Ok (ok, ctx') →
  leads_to ctx ok ctx' (check_websocket_upgrade (K := K) stop fuel key).
Proof.
  unfold Response.check_websocket_upgrade. cbv zeta.
  assert (Hfail : ∀ why : string, (ctx ← Response.send_bad_request_response (Response.bad_handshake ++ str why) ctx; Ok (false, ctx)) = Ok (ok, ctx') →
    leads_to ctx ok ctx' (λ ctxm k, send_bad_request_response (K := K) stop fuel (Response.bad_handshake ++ str why) ctxm (k false))).
  { intros why H. apply outcome_bind_inv in H as (c & H & [= <- <-]). by apply leads_result, leads_bad_request. }
  intros H. unfold check_websocket_upgrade.
  repeat match type of H with (if ?b then _ else _) = _ =>
    let Eb := fresh "Eb" in destruct b eqn:Eb;
      [eapply leads_ext; [|exact (Hfail _ H)]; intros s k; cbn [request at_ Parse.set_conn];
       repeat match goal with E1 : _ = _ :> bool |- _ => rewrite E1; clear E1 end; reflexivity|] end.
  injection H as <- <-. eapply leads_ext; [|apply leads_done].
  intros s k. cbn [request at_ Parse.set_conn]. by repeat match goal with E1 : _ = _ :> bool |- _ => rewrite E1; clear E1 end.
Qed.

Lemma leads_upgrade ctx ok ctx' : Response.upgrade SHA1 j3 j4 ctx = Ok (ok, ctx') →
  leads_to ctx ok ctx' (upgrade (K := K) stop fuel SHA1 j3 j4).
Proof.
  unfold Response.upgrade. cbv zeta. intros H. apply outcome_bind_inv in H as ([ok1 c1] & H1 & H).
  set (key := Request.get_header (str "sec-websocket-key") (request ctx)) in *.
  set (switch := λ (a : bytes) (c : Ctx P), Response.set_response_header (str "Sec-WebSocket-Accept") a
    (Response.set_response_header (str "Connection") (str "Upgrade")
      (Response.set_response_header (str "Upgrade") (str "websocket") (Response.with_response (Response.set_status 101) c)))).
  set (rest := λ (ok : bool) (ctxm : Ctx P) (k : bool → Ctx P → prog U), if negb ok then k false ctxm else
    compute (Response.compute_accept_key SHA1 j3 j4 key) (λ a, end_response (K := K) stop fuel None 0 (switch a ctxm) (k true))).
  apply (leads_ext _ _ _ _ (λ ctxm k, check_websocket_upgrade (K := K) stop fuel key ctxm (λ ok ctxm, rest ok ctxm k))); [done|].
  apply (leads_then ctx ok1 c1 ok ctx' _ rest (leads_check _ _ _ _ H1)). unfold rest.
  destruct ok1; cbn [negb] in *; [|injection H as <- <-; apply leads_done].
  apply outcome_bind_inv in H as (a & Ha & H). apply outcome_bind_inv in H as (c2 & H2 & [= <- <-]).
  apply (leads_compute_in _ a c1 true c2 (λ a ctxm k, end_response (K := K) stop fuel None 0 (switch a ctxm) (k true)) Ha).
  apply (leads_result c1 true c2 (λ ctxm k, end_response (K := K) stop fuel None 0 (switch a ctxm) k)).
  exact (leads_map (switch a) c1 tt c2 (plain (end_response (K := K) stop fuel None 0)) (λ _ _, eq_refl) (leads_end_response _ _ _ _ H2)).
Qed.


(** *** A connection *)
Variables (execute : P → bytes → P * list Http.callback) (stat : bytes → Z) (open_file : bytes → option bytes) (junk : Z).

(** A handler of the machine does what a function does. *)
Definition simulates (hm : handler (U := U) (P := P)) (h : Server.handler (P := P)) : Prop :=
  ∀ ctx ctx', h ctx = Ok ctx' → leads_to ctx tt ctx' (plain hm).

(** Two servers with the same routes. *)
Record corresponds (sm : server (handler (U := U) (P := P))) (s : server (Server.handler (P := P))) : Prop := {
  same_settings : settings sm = settings s;
  same_http p : match Server.get_http_handler p sm, Server.get_http_handler p s with
    | Some hm, Some h => simulates hm h | None, None => True | _, _ => False end;
  same_websocket p : match Server.get_websocket_handler p sm, Server.get_websocket_handler p s with
    | Some hm, Some h => simulates hm h | None, None => True | _, _ => False end
}.

Lemma leads_call_http hm h ctx go ctx' : simulates hm h → Server.call_http_handler h ctx = Ok (go, ctx') →
  leads_to ctx go ctx' (call_http_handler (K := K) stop fuel hm).
Proof.
  intros Hh H. unfold Server.call_http_handler in H.
  destruct (Request.has_sec_websocket_key (request ctx)) eqn:Eb; apply outcome_bind_inv in H as (c & H & [= <- <-]).
  - eapply leads_ext; [|exact (leads_result _ false _ _ (leads_bad_request _ _ _ H))].
    intros s k. unfold call_http_handler. cbn [request at_ Parse.set_conn]. by rewrite Eb.
  - eapply leads_ext; [|exact (leads_result _ true _ _ (Hh _ _ H))].
    intros s k. unfold call_http_handler. cbn [request at_ Parse.set_conn]. by rewrite Eb.
Qed.

Lemma leads_call_websocket hm h ctx go ctx' : simulates hm h → Server.call_websocket_handler SHA1 j3 j4 h ctx = Ok (go, ctx') →
  leads_to ctx go ctx' (call_websocket_handler (K := K) stop fuel SHA1 j3 j4 hm).
Proof.
  intros Hh H. apply outcome_bind_inv in H as ([ok c] & H1 & H).
  apply (leads_then ctx ok c go ctx' _ (λ ok ctxm k, if negb ok then k false ctxm else hm ctxm (k true)) (leads_upgrade _ _ _ H1)).
  destruct ok; cbn [negb] in *; [|injection H as <- <-; apply leads_done].
  apply outcome_bind_inv in H as (c2 & H & [= <- <-]). exact (leads_result _ true _ _ (Hh _ _ H)).
Qed.

Lemma sendfile_scripted data n s wd : Server.sendfile data n (scripted s [] wd) = scripted (Server.sendfile data n s) [] wd.
Proof. unfold Server.sendfile. cbn [tx scripted]. by destruct (tx s) as [|[]]. Qed.

Lemma sendfile_changes data n s : sent s `prefix_of` sent (Server.sendfile data n s) ∧ rx (Server.sendfile data n s) = rx s ∧
  (length (tx (Server.sendfile data n s)) ≤ length (tx s))%nat.
Proof.
  unfold Server.sendfile. destruct (tx s) as [|[m|e] l] eqn:Et; cbn [sent rx tx set_tx set_errno length];
    (split_and!; [|done|lia]); [by eexists|by eexists|by rewrite app_nil_r].
Qed.

Lemma leads_sendfile data ctx :
  leads_to ctx tt (Parse.set_conn (CoSocket.set_sk (Server.sendfile data (zlen data) (sk (conn ctx))) (conn ctx)) ctx)
    (plain (λ ctxm k, on_socket (get_fd ctxm) (λ s : sock, Ok (tt, Server.sendfile data (zlen data) s)) (λ _ _, k ctxm))).
Proof.
  destruct (sendfile_changes data (zlen data) (sk (conn ctx))) as (H1 & _). split; [done|]. intros Hp ctxm c k Hl Hk.
  destruct (link_cases _ _ _ Hl) as (sm & -> & Hf & s & wd & Hc & Hs & Hrx & Htx). unfold plain. rewrite (link_fd _ _ _ Hl).
  destruct (sendfile_changes data (zlen data) s) as (_ & H2 & H3). cbn [conn Parse.set_conn CoSocket.set_sk sk] in Hp.
  rewrite Hs, sendfile_scripted in *. eapply safe_call; [exact Hc|reflexivity|exact Hp|]. intros c' Hc'. apply Hk.
  eapply linked_moves; [exact Hl|done|reflexivity|exact Hc'|by rewrite H2|lia].
Qed.

Lemma leads_serve_file f ctx ctx' : Server.serve_file open_file junk f ctx = Ok ctx' →
  leads_to ctx tt ctx' (plain (serve_file (K := K) stop fuel open_file junk f)).
Proof.
  unfold Server.serve_file, plain, serve_file. destruct (open_file f) as [data|]; [|apply leads_end_response].
  intros H. apply outcome_bind_inv in H as (c & H & [= <-]).
  exact (leads_then ctx tt c tt _ (plain (end_response (K := K) stop fuel None (zlen data)))
    (λ _, plain (λ ctxm k, on_socket (get_fd ctxm) (λ s : sock, Ok (tt, Server.sendfile data (zlen data) s)) (λ _ _, k ctxm)))
    (leads_end_response _ _ _ _ H) (leads_sendfile data c)).
Qed.

Section server.
Context (sm : server (handler (U := U) (P := P))) (s : server (Server.handler (P := P))) (Hserver : corresponds sm s).

Lemma leads_dispatch path ctx go ctx' :
  (if negb (bool_decide (Server.get_document_absolute_path stat path s = [])) then
     ctx ← Server.serve_file open_file junk (Server.get_document_absolute_path stat path s) ctx; Ok (true, ctx)
   else match Server.get_http_handler path s with
   | Some h => Server.call_http_handler h ctx
   | None =>
       match Server.get_websocket_handler path s with
       | Some h => Server.call_websocket_handler SHA1 j3 j4 h ctx
       | None => ctx ← Response.send_not_found_response ctx; Ok (true, ctx)
       end
   end) = Ok (go, ctx') →
  leads_to ctx go ctx' (dispatch (K := K) stop fuel SHA1 j3 j4 stat open_file junk sm path).
Proof.
  unfold dispatch. assert (Server.get_document_absolute_path stat path sm = Server.get_document_absolute_path stat path s) as ->.
  { unfold Server.get_document_absolute_path. by rewrite (same_settings _ _ Hserver). }
  cbv zeta. destruct (negb _).
  { intros H. apply outcome_bind_inv in H as (c & H & [= <- <-]). exact (leads_result _ true _ _ (leads_serve_file _ _ _ H)). }
  pose proof (same_http _ _ Hserver path) as H1. pose proof (same_websocket _ _ Hserver path) as H2.
  destruct (Server.get_http_handler path sm) as [hm|], (Server.get_http_handler path s) as [h|]; try done; [by apply leads_call_http|].
  destruct (Server.get_websocket_handler path sm) as [hm|], (Server.get_websocket_handler path s) as [h|]; try done;
    [by apply leads_call_websocket|].
  intros H. apply outcome_bind_inv in H as (c & H & [= <- <-]). exact (leads_result _ true _ _ (leads_not_found _ _ H)).
Qed.

Lemma blind_parse recved : blind (Parse.parse execute recved).
Proof.
  intros x ctx. unfold Parse.parse, at_ at 1. cbn [conn Parse.set_conn]. rewrite get_read_buf_at.
  destruct (CoSocket.get_read_buf (conn ctx)) as [b c]. cbn [fst snd].
  change (parser (at_ x ctx)) with (parser ctx). destruct (mem_read _ _ _) as [d| |]; [|done..]. rewrite !outcome_bind_ok.
  destruct (execute (parser ctx) d) as [p cbs].
  assert (Hcb : ∀ cb, blind (Parse.run_callback (_buffer b) cb)).
  { intros cb y ctx0. destruct cb; cbn [Parse.run_callback]; try done.
    - unfold Parse.http_request_on_url. by destruct (Parse.copy_string _ _ _).
    - unfold Parse.http_request_on_header_value. cbn [at_ current_header_name current_header_name_len Parse.set_conn].
      destruct (current_header_name ctx0); [|done].
      repeat match goal with |- context [mem_read ?a ?b ?c] => destruct (mem_read a b c); [rewrite !outcome_bind_ok|done..] end.
      done.
    - unfold Parse.http_request_on_headers_complete, Parse.set_http_method, Parse.set_http_version.
      cbn [fmap outcome_fmap]. f_equal. by repeat match goal with |- context [if ?b then _ else _] => destruct b end.
    - unfold Parse.http_request_on_body. by destruct (Parse.copy_string _ _ _). }
  assert (Hcbs : ∀ cbs, blind (Parse.run_callbacks (_buffer b) cbs)).
  { intros l. induction l as [|cb l IH]; [done|]. exact (blind_bind _ _ (Hcb cb) IH). }
  apply (Hcbs cbs x (Parse.set_parser p (Parse.set_conn c ctx))).
Qed.

Lemma leads_handle_request recved ctx go ctx' :
  Server.handle_request execute SHA1 j3 j4 stat open_file junk s recved ctx = Ok (go, ctx') →
  leads_to ctx go ctx' (handle_request (K := K) stop fuel SHA1 j3 j4 execute stat open_file junk sm recved).
Proof.
  unfold Server.handle_request. intros H. apply outcome_bind_inv in H as (c1 & H1 & H).
  apply outcome_bind_inv in H as (p & Hpath & H). cbv zeta in H. apply outcome_bind_inv in H as ([g c2] & H2 & H).
  set (after := λ (go : bool) (ctxm : Ctx P) (k : bool → Ctx P → prog U),
    if negb go then k false ctxm else if negb (keep_alive ctxm) then k false ctxm else k true (Context.clear ctxm)).
  apply (leads_then ctx tt c1 go ctx' (plain (λ ctxm, compute (Parse.parse execute recved ctxm)))
    (λ _ ctxm k, compute (match path (request ctxm) with None => UB | Some p => c_str p end)
      (λ p, dispatch (K := K) stop fuel SHA1 j3 j4 stat open_file junk sm p ctxm (λ go ctxm, after go ctxm k)))
    (leads_compute _ _ _ (blind_parse recved) H1)).
  apply (leads_ext _ _ _ _ (λ ctxm k, compute (match path (request c1) with None => UB | Some p => c_str p end)
      (λ p, dispatch (K := K) stop fuel SHA1 j3 j4 stat open_file junk sm p ctxm (λ go ctxm, after go ctxm k)))); [done|].
  apply (leads_compute_in _ p c1 go ctx' (λ p ctxm k, dispatch (K := K) stop fuel SHA1 j3 j4 stat open_file junk sm p ctxm
    (λ go ctxm, after go ctxm k)) Hpath).
  apply (leads_then c1 g c2 go ctx' _ after (leads_dispatch _ _ _ _ H2)). unfold after.
  destruct g; cbn [negb] in *; [|injection H as <- <-; apply leads_done].
  destruct (keep_alive c2) eqn:Ek; cbn [negb] in H; injection H as <- <-.
  - eapply leads_ext; [|exact (leads_map Context.clear c2 true (Context.clear c2) (λ ctxm k, k true ctxm) (λ _ _, eq_refl) (leads_done _ _))].
    intros x k. cbn [keep_alive at_ Parse.set_conn]. by rewrite Ek.
  - eapply leads_ext; [|apply leads_done]. intros x k. cbn [keep_alive at_ Parse.set_conn]. by rewrite Ek.
Qed.

Lemma recv_loop_changes w off len : ∀ n x buf r b t, CoSocket.recv_loop w n x buf off len = Some (Ok (r, b, t)) →
  sent t = sent x.
Proof.
  intros n. induction n as [|n IH]; intros x buf r b t; [done|]. cbn [CoSocket.recv_loop].
  destruct (Socket.recv x buf off len) as [[[r1 b1] s1]| |] eqn:Er; [|done..]. apply recv_changes in Er as (H1 & _).
  cbv zeta. destruct (_ && _); [|by intros [= _ _ <-]].
  unfold CoSocket.wait_event. destruct (CoSocket.waits s1) as [|[] l]; [| |by intros [= _ _ <-]]; intros H; apply IH in H;
    cbn [sent set_waits] in H; congruence.
Qed.

Lemma valid_connfd : ServerLoop.valid_fd connfd = true.
Proof. unfold ServerLoop.valid_fd. apply andb_true_iff. lia. Qed.

Lemma leads_recv_request ctx recved ctx' :
  Server.recv_request ctx = Ok (recved, ctx') → leads_to ctx recved ctx' (recv_request (K := K) stop fuel).
Proof.
  unfold Server.recv_request. pose proof (CalmFacts.get_read_buf_sk (conn ctx)) as Hsk.
  destruct (CoSocket.get_read_buf (conn ctx)) as [b c0] eqn:Eb. cbn [snd] in Hsk. intros H.
  apply outcome_bind_inv in H as ([[r mem] c1] & H & [= <- <-]). unfold Response.conn_recv, CoSocket.recv in H. rewrite Hsk in H.
  destruct (CoSocket.recv_loop _ _ _ _ _ _) as [[[[r1 m1] t]| |]|] eqn:El; try done.
  rewrite outcome_bind_ok in H. injection H as <- <- <-. pose proof (recv_loop_changes _ _ _ _ _ _ _ _ _ El) as H1.
  split; cbn [conn Parse.set_conn CoSocket.set_read_buf CoSocket.set_sk sk]; [by rewrite H1|]. intros Hp ctxm c k Hl Hk.
  destruct (link_cases _ _ _ Hl) as (x & -> & Hf & y & wd & Hc & Hs & Hrx & Htx). unfold recv_request. rewrite (link_fd _ _ _ Hl).
  cbn [conn Parse.set_conn at_]. rewrite get_read_buf_at, Eb. cbn [fst snd]. unfold ServerLoop.conn_recv, SocketLoop.recv.
  rewrite valid_connfd. rewrite Hs in El, H1. rewrite H1 in Hp.
  eapply recv_loop_safe; [exact El|cbn [rx scripted]; lia|exact Hc|exact Hp|].
  intros s' wd' c' -> Hs' Htx' Hr' Hc'. apply Hk. eapply linked_moves; [exact Hl|done|reflexivity|exact Hc'|lia|by rewrite Htx'].
Qed.

Lemma leads_on_accept_loop n : ∀ turns ctx ctx', (n ≤ turns)%nat →
  Server.on_accept_loop execute SHA1 j3 j4 stat open_file junk n s ctx = Some (Ok ctx') →
  leads_to ctx tt ctx' (plain (on_accept_loop (K := K) stop fuel SHA1 j3 j4 execute stat open_file junk turns sm)).
Proof.
  induction n as [|n IH]; intros turns ctx ctx' Ht H; [done|]. destruct turns as [|turns]; [lia|].
  cbn [Server.on_accept_loop] in H. destruct (Server.recv_request ctx) as [[recved c1]| |] eqn:E1; [|done..].
  set (next := λ (go : bool) (ctxm : Ctx P) (k : unit → Ctx P → prog U), if go then
    on_accept_loop (K := K) stop fuel SHA1 j3 j4 execute stat open_file junk turns sm ctxm (k tt) else k tt ctxm).
  apply (leads_then ctx recved c1 tt ctx' _ (λ recved ctxm k, if recved =? 0 then k tt ctxm else
    handle_request (K := K) stop fuel SHA1 j3 j4 execute stat open_file junk sm recved ctxm (λ go ctxm, next go ctxm k)) (leads_recv_request _ _ _ E1)).
  destruct (recved =? 0); [injection H as <-; apply leads_done|].
  destruct (Server.handle_request _ _ _ _ _ _ _ s recved c1) as [[go c2]| |] eqn:E2; [|done..].
  apply (leads_then c1 go c2 tt ctx' _ next (leads_handle_request _ _ _ _ E2)). unfold next.
  destruct go; [by apply IH; [lia|]|injection H as <-; apply leads_done].
Qed.
End server.

(** *** The end of a connection *)
Lemma close_safe n : ∀ turns x wd buf mem t (k : bytes → prog U) c,
  CoSocket.check_client_close n (scripted x [] wd) buf = Some (Ok (mem, t)) → (n ≤ turns)%nat → (n ≤ fuel)%nat →
  (c connfd).1 = (x, None) → sent x `prefix_of` total →
  (∀ x' wd' c', t = scripted x' [] wd' → (c' connfd).1 = (x', None) → safe (k mem) c') →
  safe (check_client_close (K := K) stop fuel turns connfd buf k) c.
Proof.
  induction n as [|n IH]; intros turns x wd buf mem t k c H Ht Hf Hc Hp Hk; [done|]. destruct turns as [|turns]; [lia|].
  cbn [CoSocket.check_client_close check_client_close] in *. unfold CoSocket.recv in H.
  destruct (CoSocket.recv_loop _ _ _ _ _ _) as [[[[r b] t1]| |]|] eqn:El; try done.
  unfold ServerLoop.conn_recv, SocketLoop.recv. rewrite valid_connfd.
  eapply recv_loop_safe; [exact El|lia|exact Hc|exact Hp|]. intros x' wd' c' -> Hs' _ _ Hc'. cbv beta.
  destruct (0 <? r); [|injection H as <- <-; by eapply Hk].
  eapply IH; [exact H|lia|lia|exact Hc'|by rewrite Hs'|exact Hk].
Qed.

Lemma check_client_close_changes n : ∀ x buf mem t, CoSocket.check_client_close n x buf = Some (Ok (mem, t)) → sent t = sent x.
Proof.
  induction n as [|n IH]; intros x buf mem t; [done|]. cbn [CoSocket.check_client_close]. unfold CoSocket.recv.
  destruct (CoSocket.recv_loop _ _ _ _ _ _) as [[[[r b] t1]| |]|] eqn:El; try done. apply recv_loop_changes in El.
  destruct (0 <? r); [intros H; apply IH in H; congruence|by intros [= _ <-]].
Qed.

Lemma destroy_safe n turns r ctx ctxm c (c' : cosocket) :
  Context.destroy n r ctx = Some (Ok c') → sent (sk c') = total → (n ≤ turns)%nat → (n ≤ fuel)%nat → linked ctxm ctx c →
  (∀ x, sent x = total → E connfd x) →
  safe (destroy (K := K) stop fuel turns ctxm (λ _, Ret) r) c.
Proof.
  intros H Htot Ht Hf Hl HE. unfold Context.destroy, CoSocket.shutdown, CoSocket.checked in H.
  set (c1 := CoSocket.set_sk (set_shut (sk (conn ctx))) (conn ctx)) in *.
  set (c2 := if Socket.shutdown r then c1 else CoSocket.set_err c1) in *.
  assert (Hc2 : cread_buf c2 = cread_buf (conn ctx) ∧ sk c2 = set_shut (sk (conn ctx))) by (unfold c2; by destruct (Socket.shutdown r)).
  destruct Hc2 as [Hr2 Hs2]. rewrite Hr2 in H. destruct (cread_buf (conn ctx)) as [b|] eqn:Eb; [|done].
  destruct (CoSocket.check_client_close _ _ _) as [[[mem t]| |]|] eqn:El; try done. injection H as <-.
  cbn [sk CoSocket.set_read_buf CoSocket.set_sk] in Htot. rewrite Hs2 in El.
  destruct (link_cases _ _ _ Hl) as (x & -> & Hx & y & wd & Hc & Hs & _). rewrite Hs in El.
  pose proof (check_client_close_changes _ _ _ _ _ El) as Hsent. cbn [sent set_shut scripted] in Hsent.
  unfold destroy. rewrite (link_fd _ _ _ Hl).
  eapply safe_call; [exact Hc|reflexivity|cbn [sent set_shut]; by rewrite <- Hsent, Htot|]. intros c3 Hc3. cbv beta zeta.
  eapply safe_compute.
  { assert (cread_buf (if Socket.shutdown r then conn (at_ x ctx) else CoSocket.set_err (CoSocket.set_sk (set_errno (errno (set_shut y))
      (sk (conn (at_ x ctx)))) (conn (at_ x ctx)))) = Some b) as ->; [|reflexivity]. by destruct (Socket.shutdown r). }
  change (scripted (set_shut y) [] wd) with (set_shut (scripted y [] wd)) in *.
  eapply (close_safe n turns (set_shut y) wd); [exact El|done|done|exact Hc3|cbn [sent set_shut]; by rewrite <- Hsent, Htot|].
  intros x' wd' c4 -> Hc4. apply safe_ret. intros fd' ->%elem_of_singleton. rewrite Hc4. by apply HE.
Qed.
(** *** WebSocket frames, for the handlers *)
Lemma leads_send_frame junk16 data op finish ctx ctx' :
  Response.send_frame junk16 data op finish ctx = Ok ctx' →
  leads_to ctx tt ctx' (plain (send_frame (K := K) stop fuel junk16 data op finish)).
Proof.
  intros H. apply outcome_bind_inv in H as (c1 & H1 & H). apply outcome_bind_inv in H as (c2 & H2 & H).
  apply outcome_bind_inv in H as ([ret c3] & H3 & [= <-]).
  apply (leads_then ctx tt c2 tt c3 (plain (λ ctxm, compute (ctx ← Response.clear_write_buf ctxm;
      Response.with_write_buf (λ b, Frame.encode junk16 b data op finish) ctx)))
    (λ _ ctxm k, send_response (K := K) stop fuel ctxm (λ _, k tt))).
  - apply (leads_compute (λ ctxm, ctx ← Response.clear_write_buf ctxm; Response.with_write_buf (λ b, Frame.encode junk16 b data op finish) ctx)).
    + apply blind_bind; apply blind_write_buf.
    + by rewrite H1, outcome_bind_ok.
  - exact (leads_then c2 ret c3 tt c3 _ (λ _ ctxm k, k tt ctxm) (leads_send_response _ _ _ H3) (leads_done _ _)).
Qed.

Lemma leads_recv_frame f ctx g ctx' :
  Response.recv_frame f ctx = Ok (g, ctx') → leads_to ctx g ctx' (recv_frame (K := K) stop fuel f).
Proof.
  unfold Response.recv_frame. cbv zeta. pose proof (CalmFacts.get_read_buf_sk (conn ctx)) as Hsk.
  destruct (CoSocket.get_read_buf (conn ctx)) as [b c0] eqn:Eb. cbn [snd] in Hsk. intros H.
  apply outcome_bind_inv in H as (b1 & Hb1 & H). apply outcome_bind_inv in H as ([[r mem] c1] & H & H').
  apply outcome_bind_inv in H' as (b2 & Hb2 & H'). apply outcome_bind_inv in H' as ([g1 b3] & Hb3 & [= <- <-]).
  unfold Response.conn_recv, CoSocket.recv in H. rewrite Hsk in H.
  destruct (CoSocket.recv_loop _ _ _ _ _ _) as [[[[r1 m1] t]| |]|] eqn:El; try done.
  rewrite outcome_bind_ok in H. injection H as <- <- <-. pose proof (recv_loop_changes _ _ _ _ _ _ _ _ _ El) as H1.
  split; cbn [conn Parse.set_conn CoSocket.set_read_buf CoSocket.set_sk sk]; [by rewrite H1|]. intros Hp ctxm c k Hl Hk.
  destruct (link_cases _ _ _ Hl) as (x & -> & Hf & y & wd & Hc & Hs & Hrx & Htx). unfold recv_frame. rewrite (link_fd _ _ _ Hl).
  cbn [conn Parse.set_conn at_]. rewrite get_read_buf_at, Eb. cbn [fst snd]. cbv zeta.
  eapply safe_compute; [exact Hb1|]. unfold ServerLoop.conn_recv, SocketLoop.recv.
  rewrite valid_connfd. rewrite Hs in El, H1. rewrite H1 in Hp.
  eapply recv_loop_safe; [exact El|cbn [rx scripted]; lia|exact Hc|exact Hp|].
  intros s' wd' c' -> Hs' Htx' Hr' Hc'. eapply safe_compute; [rewrite Hb2, outcome_bind_ok; exact Hb3|]. cbv beta iota.
  apply Hk. eapply linked_moves; [exact Hl|done|reflexivity|exact Hc'|lia|by rewrite Htx'].
Qed.

(** A connection with a server that corresponds to the function's. *)
Lemma on_accept_safe sm (s : server (Server.handler (P := P))) n turns r made (p0 : P) req res name hl keep (s0 : sock) (c' : cosocket) c :
  corresponds sm s →
  Server.on_accept execute SHA1 j3 j4 stat open_file junk n r s (CoSocket.set_sk (scripted s0 [] []) made) p0 req res name hl keep
    = Some (Ok c') →
  sent (sk c') = total → fd (sk made) = connfd → (c connfd).1 = (s0, None) →
  (n ≤ turns)%nat → (n ≤ fuel)%nat → (length (rx s0) < fuel)%nat → (length (tx s0) < fuel)%nat →
  (∀ x, sent x = total → E connfd x) →
  sent s0 `prefix_of` total ∧
  safe (on_accept (K := K) stop fuel SHA1 j3 j4 execute stat open_file junk turns r sm made p0 req res name hl keep) c.
Proof.
  intros Hcor H Htot Hm Hc Ht Hf Hrx Htx HE. unfold Server.on_accept in H.
  destruct (Server.on_accept_loop _ _ _ _ _ _ _ n s _) as [[ctx'| |]|] eqn:El; try done.
  assert (Hlast : sent (sk (conn ctx')) = total).
  { unfold Context.destroy, CoSocket.shutdown, CoSocket.checked in H. rewrite <- Htot.
    set (c2 := if Socket.shutdown r then _ else _) in H.
    assert (sent (sk c2) = sent (sk (conn ctx'))) as <- by (unfold c2; by destruct (Socket.shutdown r)).
    destruct (cread_buf c2); [|done]. destruct (CoSocket.check_client_close _ _ _) as [[[mem t]| |]|] eqn:Ec; try done.
    injection H as <-. apply check_client_close_changes in Ec. cbn [sk CoSocket.set_read_buf CoSocket.set_sk]. by rewrite Ec. }
  destruct (leads_on_accept_loop sm s Hcor n turns _ ctx' Ht El) as [Hpre Hl]. rewrite Hlast in Hpre. split; [exact Hpre|].
  unfold plain in Hl. unfold on_accept.
  apply Hl with (k := λ _ ctx, destroy (K := K) stop fuel turns ctx (λ _, Ret) r); [by rewrite Hlast| |].
  - split; [by destruct made|exact Hm|]. by exists s0, [].
  - intros ctxm c1 Hl1. by eapply destroy_safe.
Qed.
End handlers.
End facts.

(** *** The programs are tame *)
Section tame.
Context {U K TQ : Type} `{!PQueue co_timer CompareTimerPointer TQ} `{!Epoll K}.
Context `{!Part Event U} `{!Part (time_state TQ) U} `{!Part K U} `{!Part table U}.
Context `{!Apart table Event U} `{!Apart table (time_state TQ) U} `{!Apart table K U}.
Context {P : Type} (stop : prog U) (fuel : nat).
Implicit Types (ctx : Ctx P).
Abbreviation tame := (EventFacts.tame (K := K) (TQ := TQ) false true).
Context (Hstop : tame stop).

Lemma on_socket_tame {A} fd (f : sock → outcome (A * sock)) k : (∀ a e, tame (k a e)) → tame (on_socket fd f k).
Proof.
  intros Hk. apply EventFacts.tame_act; [done|]. intros u u' p H. cbv beta zeta in H.
  apply outcome_bind_inv in H as ([a s'] & _ & [= <- <-]). rewrite !apart. by split_and!.
Qed.

Lemma compute_tame {A} (o : outcome A) k : (∀ a, tame (k a)) → tame (compute o k).
Proof. intros Hk. apply EventFacts.tame_act; [done|]. intros u u' p H. by apply outcome_bind_inv in H as (a & _ & [= <- <-]). Qed.

Lemma conn_recv_tame' fd buf len (k : Z → bytes → prog U) :
  (∀ ret mem, tame (k ret mem)) → tame (ServerLoop.conn_recv (K := K) stop fuel fd buf len k).
Proof.
  intros Hk. unfold ServerLoop.conn_recv, ServerLoop.valid_fd. destruct (_ && _) eqn:Ev; [|by apply Hk]. zify_bools.
  unfold SocketLoop.recv. generalize i32 as w, 0 as off. intros w off. revert buf.
  induction fuel as [|n IH]; intros buf; [done|]. cbn [SocketLoop.recv_loop]. apply on_socket_tame. intros [ret b] e. cbv zeta.
  destruct (_ && _); [|by apply Hk]. apply EventFacts.tame_wait; [lia|]. intros [|]; [apply IH|by apply Hk].
Qed.

Lemma conn_send_tame' fd buf len (k : Z → prog U) :
  (∀ ret, tame (k ret)) → tame (ServerLoop.conn_send (K := K) stop fuel fd buf len k).
Proof.
  intros Hk. unfold ServerLoop.conn_send, ServerLoop.valid_fd. destruct (_ && _) eqn:Ev; [|by apply Hk]. zify_bools.
  unfold SocketLoop.send. generalize i32 as w, 0 as off. intros w off.
  induction fuel as [|n IH]; [done|]. cbn [SocketLoop.send_loop]. apply on_socket_tame. intros ret e. cbv zeta.
  destruct (_ && _); [|by apply Hk]. apply EventFacts.tame_wait; [lia|]. intros [|]; [apply IH|by apply Hk].
Qed.

Lemma send_response_tame ctx (k : Z → Ctx P → prog U) : (∀ ret ctx, tame (k ret ctx)) → tame (send_response (K := K) stop fuel ctx k).
Proof. intros Hk. unfold send_response. destruct (CoSocket.get_write_buf (conn ctx)) as [b c]. apply conn_send_tame'. by intros ret. Qed.

Lemma end_response_tame data size ctx k : (∀ ctx, tame (k ctx)) → tame (end_response (K := K) stop fuel data size ctx k).
Proof. intros Hk. apply compute_tame. intros c. by apply send_response_tame. Qed.

Lemma bad_request_tame text ctx k : (∀ ctx, tame (k ctx)) → tame (send_bad_request_response (K := K) stop fuel text ctx k).
Proof. intros Hk. apply compute_tame. intros b. by apply end_response_tame. Qed.

Context (SHA1 : bytes → bytes) (j3 j4 : bytes).

Lemma upgrade_tame ctx (k : bool → Ctx P → prog U) : (∀ ok ctx, tame (k ok ctx)) → tame (upgrade (K := K) stop fuel SHA1 j3 j4 ctx k).
Proof.
  intros Hk. unfold upgrade, check_websocket_upgrade. cbv zeta.
  assert (Hif : ∀ (b : bool) text p, tame p → tame (if b then send_bad_request_response (K := K) stop fuel text ctx (λ ctx, k false ctx) else p)).
  { intros [|] text p Hp; [|done]. by apply bad_request_tame. }
  repeat apply Hif. cbn [negb]. apply compute_tame. intros a. by apply end_response_tame.
Qed.

Lemma recv_frame_tame f ctx (k : Frame → Ctx P → prog U) : (∀ f ctx, tame (k f ctx)) → tame (recv_frame (K := K) stop fuel f ctx k).
Proof.
  intros Hk. unfold recv_frame. destruct (CoSocket.get_read_buf (conn ctx)) as [b c]. apply compute_tame. intros rb.
  apply conn_recv_tame'. intros recved mem. apply compute_tame. by intros [g b1].
Qed.

Lemma send_frame_tame junk16 data op finish ctx k : (∀ ctx, tame (k ctx)) → tame (send_frame (K := K) stop fuel junk16 data op finish ctx k).
Proof. intros Hk. apply compute_tame. intros c. by apply send_response_tame. Qed.

Context (execute : P → bytes → P * list Http.callback) (stat : bytes → Z) (open_file : bytes → option bytes) (junk : Z).

(** A handler that leaves the event loop to the library. *)
Definition tame_handler (h : handler (U := U) (P := P)) : Prop := ∀ ctx k, (∀ ctx, tame (k ctx)) → tame (h ctx k).
Context (s : server (handler (U := U) (P := P))).
Context (Hhttp : ∀ p h, Server.get_http_handler p s = Some h → tame_handler h).
Context (Hwebsocket : ∀ p h, Server.get_websocket_handler p s = Some h → tame_handler h).

Lemma serve_file_tame f ctx k : (∀ ctx, tame (k ctx)) → tame (serve_file (K := K) stop fuel open_file junk f ctx k).
Proof.
  intros Hk. unfold serve_file. destruct (open_file f); apply end_response_tame; [|done]. intros c. by apply on_socket_tame.
Qed.

Lemma dispatch_tame path ctx (k : bool → Ctx P → prog U) : (∀ go ctx, tame (k go ctx)) →
  tame (dispatch (K := K) stop fuel SHA1 j3 j4 stat open_file junk s path ctx k).
Proof.
  intros Hk. unfold dispatch. destruct (negb _); [by apply serve_file_tame|].
  destruct (Server.get_http_handler path s) as [h|] eqn:E1.
  { unfold call_http_handler. destruct (Request.has_sec_websocket_key _); [by apply bad_request_tame|by eapply Hhttp]. }
  destruct (Server.get_websocket_handler path s) as [h|] eqn:E2; [|by apply end_response_tame].
  apply upgrade_tame. intros [|] c; [by eapply Hwebsocket|apply Hk].
Qed.

Lemma on_accept_loop_tame turns : ∀ ctx k, (∀ ctx, tame (k ctx)) →
  tame (on_accept_loop (K := K) stop fuel SHA1 j3 j4 execute stat open_file junk turns s ctx k).
Proof.
  induction turns as [|turns IH]; intros ctx k Hk; [done|]. cbn [on_accept_loop]. unfold recv_request.
  destruct (CoSocket.get_read_buf (conn ctx)) as [b c]. apply conn_recv_tame'. intros recved mem.
  destruct (recved =? 0); [apply Hk|]. apply compute_tame. intros c1. apply compute_tame. intros p. apply dispatch_tame.
  intros [|] c2; cbn [negb]; [|apply Hk]. destruct (keep_alive c2); cbn [negb]; [by apply IH|apply Hk].
Qed.

Lemma check_client_close_tame turns fd : ∀ buf k, (∀ mem, tame (k mem)) → tame (check_client_close (K := K) stop fuel turns fd buf k).
Proof.
  induction turns as [|turns IH]; intros buf k Hk; [done|]. cbn [check_client_close]. apply conn_recv_tame'.
  intros ret mem. destruct (0 <? ret); [by apply IH|apply Hk].
Qed.

Lemma on_accept_tame turns r made p0 req res name hl keep :
  tame (on_accept (K := K) stop fuel SHA1 j3 j4 execute stat open_file junk turns r s made p0 req res name hl keep).
Proof.
  apply on_accept_loop_tame. intros ctx. apply on_socket_tame. intros _ e. apply compute_tame. intros b.
  apply check_client_close_tame. intros mem. constructor.
Qed.
End tame.
End HttpLoopFacts.

(** ** The property *)
Section http_loop_properties.
Import EventLoop SocketLoop SocketLoopFacts Ownership ServerLoop ServerLoopFacts HttpLoopFacts.
Context {U K TQ : Type} `{!PQueue co_timer CompareTimerPointer TQ} `{!Epoll K}.
Context `{!Part Event U} `{!Part (time_state TQ) U} `{!Part K U} `{!Part table U}.
Context `{!Apart Event (time_state TQ) U} `{!Apart Event K U} `{!Apart (time_state TQ) Event U}.
Context `{!Apart (time_state TQ) K U} `{!Apart K Event U} `{!Apart K (time_state TQ) U}.
Context `{!Apart table Event U} `{!Apart table (time_state TQ) U} `{!Apart table K U}.
Context `{!Apart Event table U} `{!Apart (time_state TQ) table U} `{!Apart K table U}.
Context `{!Memory U} `{!MemoryApart Event U} `{!MemoryApart (time_state TQ) U} `{!MemoryApart K U} `{!MemoryApart table U}.

(** The parser, the digest, the files, and what a connection starts with. *)
Context {P : Type} (SHA1 : bytes → bytes) (j3 j4 : bytes) (execute : P → bytes → P * list Http.callback).
Context (stat : bytes → Z) (open_file : bytes → option bytes) (junk : Z).
Context (made : Z → cosocket) (p0 : P) (req : Request) (res : Response) (name : option Z) (hl : Z) (keep : bool) (shut : Z).

(** What [on_accept] sends on a connection according to HttpServer. *)
Definition alone (turns : nat) (s : server (Server.handler (P := P))) (t : table) (fd : Z) : option bytes :=
  match Server.on_accept execute SHA1 j3 j4 stat open_file junk turns shut s
          (CoSocket.set_sk (scripted (t fd) [] []) (made fd)) p0 req res name hl keep with
  | Some (Ok c) => Some (sent (sk c))
  | _ => None
  end.

(** C7: the HTTP server on the event loop sends each of its connections what
    [on_accept] alone sends it. Let the handlers of the server be programs that
    do what the handlers of the functional model do. Then the process that runs
    [Server::start] until [shutdown] after the connections [conns], however
    their reads, writes and waits, the waits of [accept], the reports of the
    kernel and the clock interleave, makes no undefined step and never ends
    early; what a connection has been sent is at all times a beginning of what
    the function says, and it is all of it when the event loop returns, which it
    always can when the kernel can report every registered descriptor. *)
Theorem http_server_serves_as_alone (stop : prog U) (fuel turns : nat) (lfd : Z) (conns : list Z) (later : list bool)
    (sm : server (HttpLoop.handler (U := U) (P := P))) (s : server (Server.handler (P := P)))
    (total : Z → bytes) (u : U) epfd e0 l :
  let t : table := view u in
  let handler fd := HttpLoop.on_accept (K := K) stop fuel SHA1 j3 j4 execute stat open_file junk turns shut sm
                      (made fd) p0 req res name hl keep in
  true :: later = replicate (length conns) true ++ [false] →
  0 ≤ lfd < 2 ^ 31 → NoDup conns → lfd ∉ conns → arrivals conns (calls (t lfd)) →
  (length (calls (t lfd)) < fuel)%nat → (turns ≤ fuel)%nat → grants (K := K) →
  EventFacts.tame (K := K) (TQ := TQ) false true stop →
  (∀ p h, Server.get_http_handler p sm = Some h → tame_handler (K := K) (TQ := TQ) h) →
  (∀ p h, Server.get_websocket_handler p sm = Some h → tame_handler (K := K) (TQ := TQ) h) →
  (∀ x, x ∈ conns → 0 ≤ x < 2 ^ 31 ∧ fd (sk (made x)) = x ∧ (length (rx (t x)) < fuel)%nat ∧ (length (tx (t x)) < fuel)%nat ∧
     alone turns s t x = Some (total x) ∧
     corresponds (K := K) (λ fd b, b `prefix_of` total fd) (λ fd k, sent k = total fd) x (total x) fuel sm s) →
  EventFacts.fresh_loop (K := K) (TQ := TQ) u epfd e0 →
  loop_reachable (K := K) (TQ := TQ) (run (start (K := K) stop later fuel lfd handler (λ _, Ret)) u) l →
  last_cid (mach l) < 2 ^ 31 →
  let t' : table := view (globals (mach l)) in
  (∀ r, loop_step (K := K) (TQ := TQ) l r → ∃ l', r = Ok l') ∧
  (∀ x, x ∈ conns → sent (t' x) `prefix_of` total x) ∧
  (ph l = Returned → ∀ x, x ∈ conns → sent (t' x) = total x) ∧
  (Progress.reports (K := K) → Progress.can_return (K := K) (TQ := TQ) l).
Proof.
  intros t handler Hruns Hl Hnd Hn Ha Hf Ht Hg Hst Hh Hw Hc Hu Hr Hid t'.
  destruct (start_serves (λ fd b, b `prefix_of` total fd) (λ fd k, sent k = total fd) stop fuel lfd handler conns later u epfd e0 l)
    as (H1 & H2 & H3 & H4); [done|done|done|done|done|done|done|done| | |done|done|done|].
  - intros x. apply on_accept_tame; done.
  - intros x Hx. destruct (Hc x Hx) as (Hx1 & Hx2 & Hx3 & Hx4 & Halone & Hcor). unfold alone in Halone.
    destruct (Server.on_accept _ _ _ _ _ _ _ _ _ _ _ _ _ _ _ _ _) as [[c'| |]|] eqn:Ha1; try done. injection Halone as Htot.
    apply and_comm. eapply on_accept_safe; [exact Hg|exact Hx1|done|exact Hcor|exact Ha1|exact Htot|exact Hx2| |done|lia|done|done|done].
    unfold cells. subst t. f_equal. destruct Hu as (_ & _ & _ & Hm). by rewrite Hm, lookup_empty.
  - split; [exact H1|]. split; [intros x Hx; by apply H2, elem_of_list_to_set|]. split; [|exact H4].
    intros Hph x Hx. by apply (H3 Hph), elem_of_list_to_set.
Qed.
End http_loop_properties.

(** ** Example: two connections of one HTTP server *)
Module HttpLoopExample.
Import SocketLoop SocketLoopFacts ServerLoopFacts HttpLoopFacts EventExample SocketLoopExample OwnershipExample ServerLoopExample.

(** The peer on 7 asks for two pages, with a pause; the kernel takes 20 bytes of
    the answer on 8. *)
Definition peer7 : sock := mkSock 7 0 [RxData (str "/abc"); RxError EAGAIN; RxData (str "/xyz")] [] [] [] [] [] false.
Definition peer8 : sock := mkSock 8 0 [RxData (str "/abc")] [TxError EAGAIN; TxAccept 20] [] [] [] [] false.
Definition net4 : net := mkNet start (λ fd, if fd =? 5 then listener else if fd =? 7 then peer7 else peer8).
Definition made (fd : Z) : cosocket := CoSocket.make (mkSock fd 0 [] [] [] [] [] [] false) 0.

Definition hello : server (HttpLoop.handler (U := net) (P := unit)) :=
  Server.set_http_handler (str "/abc") (Some (HttpLoop.end_response (K := simple_kernel) Ret 13 None 0)) (mkServer [] [] [] true).

Definition answers (fd : Z) : bytes :=
  if fd =? 7 then HttpSpec.render (str "200 OK") [] true 0 None ++ HttpSpec.render (str "404 Not Found") [] true 0 None
  else take 20 (HttpSpec.render (str "200 OK") [] true 0 None).

Definition handle (fd : Z) : prog net :=
  HttpLoop.on_accept (K := simple_kernel) Ret 13 HttpExample.digest [1; 2; 3] [4; 5; 6; 7] ServerExample.execute ServerExample.stat
    ServerExample.open_file 0 13 0 hello (made fd) tt (Request.make 0 0 0) (Response.make 0) None 0 false.

(** The route of [hello], in whatever form the handler is. *)
Lemma hello_route {H} (h : H) p :
  Server.get_http_handler p (Server.set_http_handler (str "/abc") (Some h) (mkServer [] [] [] true)) =
  if Routes.matches (str "/abc") p then Some h else None.
Proof. done. Qed.

Lemma hello_corresponds G E fd total : (∀ b, b `prefix_of` total → G fd b) → 0 ≤ fd < 2 ^ 31 →
  corresponds (K := simple_kernel) G E fd total 13 hello ServerExample.hello.
Proof.
  intros HG Hfd. split; [done| |done]. intros p. unfold hello, ServerExample.hello. rewrite !hello_route.
  destruct (Routes.matches _ _); [|done]. intros ctx ctx' H. apply leads_end_response; [exact simple_grants|done|done|exact H].
Qed.

Lemma hello_tame p h : Server.get_http_handler p hello = Some h → tame_handler (K := simple_kernel) (TQ := queue) h.
Proof.
  unfold hello. rewrite hello_route. destruct (Routes.matches _ _); [|done]. intros [= <-] ctx k Hk.
  apply end_response_tame; [constructor|done].
Qed.

Lemma peers_fine x : x ∈ [7; 8] → 0 ≤ x < 2 ^ 31 ∧ fd (sk (made x)) = x ∧
  (length (rx (view (T := table) net4 x)) < 13)%nat ∧ (length (tx (view (T := table) net4 x)) < 13)%nat ∧
  alone HttpExample.digest [1; 2; 3] [4; 5; 6; 7] ServerExample.execute ServerExample.stat ServerExample.open_file 0
    made tt (Request.make 0 0 0) (Response.make 0) None 0 false 0 13 ServerExample.hello (view net4) x = Some (answers x) ∧
  corresponds (K := simple_kernel) (λ fd b, b `prefix_of` answers fd) (λ fd k, sent k = answers fd) x (answers x) 13
    hello ServerExample.hello.
Proof.
  intros Hfd. assert (Hr : 0 ≤ x < 2 ^ 31).
  { apply elem_of_cons in Hfd as [->|Hfd]; [lia|]. apply list_elem_of_singleton in Hfd as ->. lia. }
  split_and!; [lia|lia|done| | | |by apply hello_corresponds];
    (apply elem_of_cons in Hfd as [->|Hfd]; [|apply list_elem_of_singleton in Hfd as ->]); vm_compute; (reflexivity || lia).
Qed.

Lemma http_server_serves_as_alone_witness :
  let l := LoopRun.after_with (K := simple_kernel) (TQ := queue) report_all (ServerLoop.start (K := simple_kernel) Ret [true; false] 13 5 handle (λ _, Ret)) net4 200 in
  EventLoop.ph l = EventLoop.Returned ∧
  ∀ fd, fd ∈ [7; 8] → sent (view (T := table) (globals (EventLoop.mach l)) fd) = answers fd.
Proof.
  intros l. assert (Hp : EventLoop.ph l = EventLoop.Returned) by (vm_compute; reflexivity). split; [exact Hp|].
  assert (Hc : (last_cid (EventLoop.mach l) <? 2 ^ 31) = true) by (vm_compute; reflexivity).
  assert (Hnd : bool_decide (NoDup [7; 8] ∧ 5 ∉ [7; 8]) = true) by (vm_compute; reflexivity).
  apply bool_decide_eq_true in Hnd as [Hnd Hn].
  assert (Ha : arrivals [7; 8] (calls (view (T := table) net4 5))).
  { apply (arrivals_some 0 7 [8]); [lia|]. apply (arrivals_some 0 8 []); [lia|]. constructor. }
  destruct (http_server_serves_as_alone (K := simple_kernel) (TQ := queue) HttpExample.digest [1; 2; 3] [4; 5; 6; 7]
    ServerExample.execute ServerExample.stat ServerExample.open_file 0 made tt (Request.make 0 0 0) (Response.make 0) None 0 false 0
    Ret 13 13 5 [7; 8] [true; false] hello ServerExample.hello answers net4 3 (mkEvent 0 None 0) l eq_refl ltac:(lia) Hnd Hn Ha
    ltac:(cbn; lia) ltac:(lia) simple_grants ltac:(constructor) hello_tame ltac:(intros p h Hh; discriminate Hh) peers_fine start_fresh
    (LoopRun.after_with_reachable _ report_all_ok _ _ _) (proj1 (Z.ltb_lt _ _) Hc)) as (_ & _ & H & _).
  exact (H Hp).
Defined.
End HttpLoopExample.
