(* ===== verification/Http2Loop.v ===== *)
(** * Http2Loop: the frames of HTTP/2 clients on the event loop
    (src/coroutine/http2/client.cc)

    Every client of the process builds its frames in one array, that of the
    global scratch buffer [FswG.buffer_stack], and sends them from there. In
    Http2Client the array is a field of the client, which is right while nothing
    else runs. Here the sending operations are programs of the scheduler's
    machine, the array is a part of the shared state, and each call of [send]
    reads what it holds at that time. Two theorems: a frame is sent as built
    when the others leave its bytes in the array while the operation waits; and
    two coroutines that each write to a connection of their own do not leave
    them there, the peer gets the header and the first bytes of one frame with
    the rest of the other. *)

From S2P Require Import Prelude Words StdMap Buffer CoSocket Http2Frame Http2Client Http2Session.
From S2P Require Import Timer Coroutine Waiters Sleep Event SocketLoop HttpLoop.
From stdpp Require Import gmap.
#[local] Open Scope Z_scope.

(** The array of [FswG.buffer_stack]. *)
Record scratch := mkScratch { stack_mem : bytes }.

Module Http2Loop.
Section http2_loop.
Context {U K TQ : Type} `{!PQueue co_timer CompareTimerPointer TQ} `{!Epoll K}.
Context `{!Part Event U} `{!Part (time_state TQ) U} `{!Part K U} `{!Part table U} `{!Part scratch U}.
Context {D I : Type}.
Implicit Types (c : client D I).

(** The bound on the turns of each loop of a socket, and what is left when it
    is used up. *)
Variables (stop : prog U) (fuel : nat).

(** Code between two calls: the client's [buffer_stack] is the shared array. *)
Definition on_scratch {A} (f : client D I → outcome (A * client D I)) c (k : A → client D I → prog U) : prog U :=
  Act (λ u, '(a, c) ← f (Client.set_stack (stack_mem (view u)) c); Ok (set_view (mkScratch (buffer_stack c)) u, k a c)).

(** [::send(fd, buf + off, len)] where [buf] is at [pos] of the shared array. *)
Definition send_stack (pos fd off len : Z) (k : Z → Z → prog U) : prog U :=
  Act (λ u, let t : table := view u in
    '(ret, s) ← Socket.send (t fd) (drop (Z.to_nat pos) (stack_mem (view u))) off len;
    Ok (set_view (put fd s t) u, k ret (errno s))).

(** The loops of [send_all] from there. *)
Fixpoint send_loop (fuel : nat) (pos fd off len : Z) (k : Z → prog U) : prog U :=
  match fuel with
  | O => stop
  | S fuel =>
      send_stack pos fd off len (λ ret errno,
        if (ret <? 0) && (errno =? EAGAIN) then
          EventLoop.wait_event (K := K) fd (FSW_EVENT_READ =? FSW_EVENT_WRITE)
            (λ again, if again then send_loop fuel pos fd off len k else k ret)
        else k ret)
  end.

Fixpoint send_all_loop (fuel : nat) (pos fd total len : Z) (k : Z → prog U) : prog U :=
  match fuel with
  | O => stop
  | S fuel =>
      send_loop fuel pos fd total (u64 (len - total)) (λ ret,
        if ret <=? 0 then k (if total =? 0 then ret else total)
        else
          let total := total + ret in
          if u64 total =? len then k total else send_all_loop fuel pos fd total len k)
  end.

(** [send_frame(frame)], whose payload lies in the shared array. *)
Definition send_frame (f : Http2Frame.frame) c (k : bool → client D I → prog U) : prog U :=
  match sock c with
  | None => Act (λ _, UB)
  | Some s =>
      let len := FSW_HTTP2_FRAME_HEADER_SIZE + payload_length f in
      send_all_loop fuel (payload f - FSW_HTTP2_FRAME_HEADER_SIZE) (fd (sk s)) 0 len (λ ret, k (ret =? i64 len) c)
  end.

(** What [write_data] does before [send_frame]. *)
Definition build_data_frame (id : Z) (data : bytes) (data_len : Z) (end_stream : bool) c : outcome (Http2Frame.frame * client D I) :=
  let pos := FSW_HTTP2_FRAME_HEADER_SIZE in
  data ← mem_read data 0 data_len;
  mem ← mem_write (buffer_stack c) pos data;
  let f := mkFrame pos (i64 data_len) FSW_HTTP2_TYPE_DATA (if end_stream then FSW_HTTP2_FLAG_END_STREAM else 0) (u32 id) in
  mem ← Codec.build_frame_header mem f;
  Ok (f, Client.set_stack mem c).

(** [write_data(stream_id, data, data_len, end_stream)] *)
Definition write_data (id : Z) (data : bytes) (data_len : Z) (end_stream : bool) c (k : Z → client D I → prog U) : prog U :=
  on_scratch (build_data_frame id data data_len end_stream) c (λ f c, send_frame f c (λ _ c, k id c)).

(** nghttp2, and what an uninitialised response holds. *)
Variable deflate_bound : D → list nv → Z.
Variable deflate_hd : D → Z → list nv → Z * bytes * D.
Variable fresh_response : response.

(** What [send_http_header_frame] does before [send_frame]: the frame and its
    stream, unless the encoding is empty. *)
Definition build_header_frame (req : request) c : outcome (option (Http2Frame.frame * nat) * client D I) :=
  let '(stream, c) := Client.new_stream (Stream.make (next_stream_id c) (pipeline req) fresh_response) c in
  let pos := FSW_HTTP2_FRAME_HEADER_SIZE in
  '(len, c) ← Client.build_http_header deflate_bound deflate_hd pos req c;
  if len <=? 0 then Ok (None, c)
  else
    let st_flags := if pipeline req then FSW_HTTP2_STREAM_PIPELINE_REQUEST else FSW_HTTP2_STREAM_NORMAL in
    let end_stream := (if rq_body req is Some _ then false else true)
                      && (Z.land st_flags FSW_HTTP2_STREAM_PIPELINE_REQUEST =? 0) in
    let flags := if end_stream then Z.lor FSW_HTTP2_FLAG_END_HEADERS FSW_HTTP2_FLAG_END_STREAM
                 else FSW_HTTP2_FLAG_END_HEADERS in
    let f := mkFrame pos len FSW_HTTP2_TYPE_HEADERS flags (next_stream_id c) in
    mem ← Codec.build_frame_header (buffer_stack c) f;
    Ok (Some (f, stream), Client.emplace (next_stream_id c) stream (Client.set_stack mem c)).

(** [send_http_header_frame(frame, req)] *)
Definition send_http_header_frame (req : request) c (k : bool → option (Http2Frame.frame * nat) → client D I → prog U) : prog U :=
  on_scratch (build_header_frame req) c (λ o c,
    match o with
    | None => k false None c
    | Some (f, stream) => send_frame f c (λ ok c, k ok (Some (f, stream)) c)
    end).

(** What [send_http_body_frame] does before [send_frame]. *)
Definition build_body_frame (f : Http2Frame.frame) (stream : nat) (req : request) c : outcome (Http2Frame.frame * client D I) :=
  let pos := FSW_HTTP2_FRAME_HEADER_SIZE in
  data ← mem_read (match rq_body req with Some b => b | None => [] end) 0 (rq_body_length req);
  mem ← mem_write (buffer_stack c) pos data;
  let c := Client.set_stack mem c in
  st ← Client.deref (Some stream) c;
  let flags := if Z.land (st_flags st) FSW_HTTP2_STREAM_PIPELINE_REQUEST =? 0 then FSW_HTTP2_FLAG_END_STREAM else 0 in
  let f := mkFrame pos (i64 (rq_body_length req)) FSW_HTTP2_TYPE_DATA flags (stream_id f) in
  mem ← Codec.build_frame_header mem f;
  Ok (f, Client.set_stack mem c).

(** [send_http_body_frame(frame, req)] *)
Definition send_http_body_frame (f : Http2Frame.frame) (stream : nat) (req : request) c (k : bool → Http2Frame.frame → client D I → prog U) : prog U :=
  on_scratch (build_body_frame f stream req) c (λ f c, send_frame f c (λ ok c, k ok f c)).

(** The end of [send_request]. *)
Definition end_request (stream : nat) c : outcome (Z * client D I) :=
  let c := Client.set_ids (u32 (next_stream_id c + 2)) (last_stream_id c) c in
  st ← Client.deref (Some stream) c;
  Ok (i32 (st_id st), c).

(** [send_request(req)] *)
Definition send_request (req : request) c (k : Z → client D I → prog U) : prog U :=
  send_http_header_frame req c (λ _ o c,
    match o with
    | None => Act (λ _, UB)
    | Some (f, stream) => send_http_body_frame f stream req c (λ _ _ c, on_scratch (end_request stream) c k)
    end).
End http2_loop.
End Http2Loop.

(** ** Facts *)
Module Http2LoopFacts.
Import Http2Loop SocketLoopFacts Session.

(** The first [n] bytes of the array are the same. *)
Definition keeps (n : Z) (mem mem' : bytes) : Prop :=
  zlen mem' = zlen mem ∧ ∀ i : nat, Z.of_nat i < n → mem' !! i = mem !! i.

Lemma keeps_refl n mem : keeps n mem mem.
Proof. done. Qed.
Lemma keeps_sym n mem mem' : keeps n mem mem' → keeps n mem' mem.
Proof. intros [H1 H2]. split; [done|]. intros i Hi. by rewrite H2. Qed.
Lemma keeps_trans n a b c : keeps n a b → keeps n b c → keeps n a c.
Proof. intros [H1 H2] [H3 H4]. split; [congruence|]. intros i Hi. by rewrite H4, H2. Qed.

Lemma keeps_take n mem mem' k : keeps n mem mem' → k ≤ n → take (Z.to_nat k) mem' = take (Z.to_nat k) mem.
Proof.
  intros [_ H] Hk. apply list_eq. intros i. destruct (decide (i < Z.to_nat k)%nat); [|by rewrite !lookup_take_ge by lia].
  rewrite !lookup_take_lt by done. apply H. lia.
Qed.

Lemma keeps_read n mem mem' off len : keeps n mem mem' → 0 ≤ off → 0 ≤ len → off + len ≤ n ≤ zlen mem →
  mem_read mem' off len = mem_read mem off len.
Proof.
  intros [Hz Hi] Ho Hl Hn. rewrite !mem_read_ok by lia. f_equal. apply list_eq. intros i.
  destruct (decide (i < Z.to_nat len)%nat); [|by rewrite !lookup_take_ge by lia].
  rewrite !lookup_take_lt, !lookup_drop by done. apply Hi. lia.
Qed.

Lemma write_lookup mem off data r i : mem_write mem off data = Ok r →
  r !! i = if (off <=? Z.of_nat i) && (Z.of_nat i <? off + zlen data) then data !! (i - Z.to_nat off)%nat else mem !! i.
Proof.
  intros (Ho & Hb & ->)%mem_write_inv. pose proof (zlen_nonneg data). unfold zlen in *.
  assert (Hl : length (take (Z.to_nat off) mem) = Z.to_nat off) by (rewrite length_take; lia).
  destruct (_ && _) eqn:E; zify_bools.
  - rewrite lookup_app_r, Hl by lia. apply lookup_app_l. lia.
  - destruct (decide (i < Z.to_nat off)%nat); [rewrite lookup_app_l, lookup_take_lt by lia; done|].
    rewrite lookup_app_r, Hl, lookup_app_r, lookup_drop by lia. f_equal. lia.
Qed.

(** A store in both. *)
Lemma keeps_store n mem mem' off data r : keeps n mem mem' → mem_write mem off data = Ok r →
  ∃ r', mem_write mem' off data = Ok r' ∧ keeps n r r'.
Proof.
  intros [Hz Hi] H. pose proof (mem_write_inv _ _ _ _ H) as (Ho & Hb & _).
  destruct (mem_write mem' off data) as [r'| |] eqn:E'.
  2,3: by rewrite mem_write_ok in E' by lia.
  exists r'. split; [done|]. split; [by rewrite (mem_write_zlen _ _ _ _ H), (mem_write_zlen _ _ _ _ E')|].
  intros i Hn. rewrite (write_lookup _ _ _ _ i H), (write_lookup _ _ _ _ i E'), Hi by done. done.
Qed.

Lemma keeps_header n mem mem' f r : keeps n mem mem' → Codec.build_frame_header mem f = Ok r →
  ∃ r', Codec.build_frame_header mem' f = Ok r' ∧ keeps n r r'.
Proof.
  intros Hk H. unfold Codec.build_frame_header in *. apply outcome_bind_inv in H as (w & Hw & H).
  destruct (keeps_store n _ _ _ _ _ Hk Hw) as (w' & -> & Hk'). rewrite outcome_bind_ok. by apply (keeps_store n w).
Qed.

(** [answers l q q']: when the results of the waits are [l], the script [q] of
    CoSocket gives them too, and [q'] is left of it; an empty script gives
    [true]. *)
Inductive answers : list bool → list bool → list bool → Prop :=
| answers_nil q : answers [] q q
| answers_cons b l q q' : answers l q q' → answers (b :: l) (b :: q) q'
| answers_granted l q' : answers l [] q' → answers (true :: l) [] q'.

Lemma answers_wait ev (s : CoSocket.sock) b l q q' wd : answers (b :: l) q q' →
  ∃ q1, answers l q1 q' ∧ CoSocket.wait_event ev (scripted s q wd) = (b, scripted s q1 (wd ++ [ev])).
Proof. inversion 1; subst; by eexists. Qed.

Lemma answers_split l1 l2 q q' : answers (l1 ++ l2) q q' → ∃ q1, answers l1 q q1 ∧ answers l2 q1 q'.
Proof.
  revert q. induction l1 as [|b l1 IH]; intros q; cbn [app]; [intros H; exists q; split; [constructor|done]|].
  inversion 1 as [|? ? ? ? H1|? ? H1]; subst; destruct (IH _ H1) as (q1 & ? & ?); exists q1; (split; [by constructor|done]).
Qed.

Lemma answers_own l q : answers l (l ++ q) q.
Proof. induction l; by constructor. Qed.

Lemma answers_true l : Forall (λ b, b = true) l → answers l [] [].
Proof. induction 1; subst; by constructor. Qed.

Section facts.
Context {U K TQ : Type} `{!PQueue co_timer CompareTimerPointer TQ} `{!Epoll K}.
Context `{!Part Event U} `{!Part (time_state TQ) U} `{!Part K U} `{!Part table U} `{!Part scratch U}.
Context {D I : Type}.
Implicit Types (c : client D I) (p : prog U) (s : CoSocket.sock) (mem : bytes).
(** The results a wait may have. *)
Context (W : bool → Prop).

(** [leads fd M n p s mem Q]: as in SocketLoop, for a program that uses the
    shared array, which is [mem] at the start; a wait has one of the results
    [W], and meanwhile the rest of the process does what it wants with the
    array, but for its first [n] bytes. *)
Inductive leads (fd : Z) (M : CoSocket.sock → CoSocket.sock → Prop) (n : Z) :
    prog U → CoSocket.sock → bytes → (prog U → CoSocket.sock → bytes → list bool → Prop) → Prop :=
| leads_done p s mem (Q : prog U → CoSocket.sock → bytes → list bool → Prop) : Q p s mem [] → leads fd M n p s mem Q
| leads_build {A} (f : client D I → outcome (A * client D I)) c k s mem a c' Q :
    f (Client.set_stack mem c) = Ok (a, c') → leads fd M n (k a c') s (buffer_stack c') Q →
    leads fd M n (on_scratch f c k) s mem Q
| leads_send pos off len k s mem ret s' Q :
    Socket.send s (drop (Z.to_nat pos) mem) off len = Ok (ret, s') → M s s' →
    leads fd M n (k ret (errno s')) s' mem Q → leads fd M n (send_stack pos fd off len k) s mem Q
| leads_compute {A} (o : outcome A) k s mem a Q :
    o = Ok a → leads fd M n (k a) s mem Q → leads fd M n (HttpLoop.compute o k) s mem Q
| leads_call {A} (f : CoSocket.sock → outcome (A * CoSocket.sock)) k s mem a s' Q :
    f s = Ok (a, s') → M s s' → leads fd M n (k a (errno s')) s' mem Q → leads fd M n (SocketLoop.on_socket fd f k) s mem Q
| leads_wait write k s mem (Q : prog U → CoSocket.sock → bytes → list bool → Prop) :
    (∀ ok mem', W ok → keeps n mem mem' → leads fd M n (k ok) s mem' (λ p s' mem' l, Q p s' mem' (ok :: l))) →
    leads fd M n (EventLoop.wait_event (K := K) fd write k) s mem Q.

Lemma frames_bind fd (M M' : CoSocket.sock → CoSocket.sock → Prop) n p s mem Q R :
  (∀ s s', M s s' → M' s s') → leads fd M n p s mem Q →
  (∀ p' s' mem' l, Q p' s' mem' l → leads fd M' n p' s' mem' (λ p2 s2 m2 l2, R p2 s2 m2 (l ++ l2))) →
  leads fd M' n p s mem R.
Proof.
  intros HM H. revert R. induction H as [p s mem Q H|A f c k s mem a c' Q Hf _ IH|pos off len k s mem ret s' Q Hs Hm _ IH
    |A o k s mem a Q Ho _ IH|A f k s mem a s' Q Hf Hm _ IH|write k s mem Q _ IH]; intros R HR.
  - exact (HR p s mem [] H).
  - eapply leads_build; [exact Hf|by apply IH].
  - eapply leads_send; [exact Hs|by apply HM|by apply IH].
  - eapply leads_compute; [exact Ho|by apply IH].
  - eapply leads_call; [exact Hf|by apply HM|by apply IH].
  - apply leads_wait. intros ok mem' Hw Hk. apply (IH ok mem' Hw Hk). intros p' s' m l Hl. exact (HR p' s' m (ok :: l) Hl).
Qed.

(** The results of the waits are among them. *)
Lemma leads_granted fd M n p s mem Q :
  leads fd M n p s mem Q → leads fd M n p s mem (λ p' s' mem' l, Q p' s' mem' l ∧ Forall W l).
Proof.
  induction 1 as [p s mem Q H|A f c k s mem a c' Q Hf _ IH|pos off len k s mem ret s' Q Hs Hm _ IH
    |A o k s mem a Q Ho _ IH|A f k s mem a s' Q Hf Hm _ IH|write k s mem Q _ IH].
  - by apply leads_done.
  - by eapply leads_build.
  - by eapply leads_send.
  - by eapply leads_compute.
  - by eapply leads_call.
  - apply leads_wait. intros ok mem' Hw Hk. eapply frames_bind; [done|by apply (IH ok mem')|].
    intros p' s' m l [HQ Hl]. apply leads_done. rewrite app_nil_r. split; [done|by constructor].
Qed.

(** A call of [send] reads the same from two arrays that agree. *)
Lemma send_keeps n buf mem s off len : keeps n buf mem → 0 ≤ off → 0 ≤ len → off + len ≤ n ≤ zlen buf →
  Socket.send s mem off len = Socket.send s buf off len.
Proof. intros Hk Ho Hl Hn. unfold Socket.send. destruct (tx s) as [|[m|e] l]; [..|done]; by rewrite (keeps_read n buf mem) by (done || lia). Qed.

(** The kernel's answers are used up. *)
Definition shorter (s s' : CoSocket.sock) : Prop :=
  (length (tx s') ≤ length (tx s))%nat ∧ (length (rx s') ≤ length (rx s))%nat.
Lemma shorter_trans s1 s2 s3 : shorter s1 s2 → shorter s2 s3 → shorter s1 s3.
Proof. unfold shorter. lia. Qed.
Lemma shorter_tx a b : shorter a b → (length (tx b) ≤ length (tx a))%nat.
Proof. by intros [? _]. Qed.
Lemma send_shorter s buf off len ret s' : Socket.send s buf off len = Ok (ret, s') → shorter s s'.
Proof.
  unfold Socket.send, shorter. intros H. destruct (tx s) as [|[m|e] l]; [..|by injection H as _ <-; cbn; lia];
    apply outcome_bind_inv in H as (d & _ & H); injection H as _ <-; cbn; lia.
Qed.

Lemma sends_within base buf L off off' (s s' : CoSocket.sock) : 0 ≤ off ≤ L → 0 ≤ off' ≤ L →
  sent s = base ++ take (Z.to_nat off) buf → sent s' = base ++ take (Z.to_nat off') buf →
  sends base (take (Z.to_nat L) buf) s s'.
Proof. intros H H' Hs Hs'. exists (Z.to_nat off), (Z.to_nat off'). rewrite !take_take, !Nat.min_l by lia. done. Qed.

Lemma send_stack_loop_leads stop fd n k base off len L buf : 0 ≤ off → 0 ≤ len → off + len ≤ L → off + len ≤ n ≤ zlen buf →
  ∀ fuel s mem, keeps n buf mem → sent s = base ++ take (Z.to_nat off) buf → (length (tx s) < fuel)%nat →
  leads fd (sends base (take (Z.to_nat L) buf)) n (send_loop (K := K) stop fuel 0 fd off len k) s mem (λ p s' mem' l, ∃ ret,
    p = k ret ∧ -1 ≤ ret ≤ len ∧ keeps n buf mem' ∧ sent s' = base ++ take (Z.to_nat (off + Z.max 0 ret)) buf ∧
    shorter s s' ∧ (ret < len → (length (tx s') < length (tx s))%nat) ∧
    ∀ turns q q' wd, answers l q q' → (length (tx s) < turns)%nat → ∃ wd',
      CoSocket.send_loop (λ r, r) turns FSW_EVENT_READ (scripted s q wd) buf off len =
        Some (Ok (ret, scripted s' q' wd'))).
Proof.
  intros Ho Hl HL Hb. induction fuel as [|fuel IH]; intros s mem Hk Hs Hf; [lia|]. cbn [send_loop].
  destruct (send_cases s buf off len Ho Hl ltac:(lia)) as (ret & s' & E & Hret & HM & Hle & Hlt).
  destruct (sends_at s s' base buf off ret Ho ltac:(lia) Hs HM) as [_ Hs'].
  pose proof (send_shorter _ _ _ _ _ _ E) as Hsh.
  pose proof (sends_within base buf L off (off + Z.max 0 ret) s s' ltac:(lia) ltac:(lia) Hs Hs') as HM'.
  eapply leads_send; [by rewrite drop_0, (send_keeps n buf)|exact HM'|]. cbv beta.
  assert (Hstep : ∀ turns l wd, CoSocket.send_loop (λ r, r) (S turns) FSW_EVENT_READ (scripted s l wd) buf off len =
    if (ret <? 0) && (errno s' =? EAGAIN) then
      let '(again, s) := CoSocket.wait_event FSW_EVENT_READ (scripted s' l wd) in
      if again then CoSocket.send_loop (λ r, r) turns FSW_EVENT_READ s buf off len else Some (Ok (ret, s))
    else Some (Ok (ret, scripted s' l wd))).
  { intros turns l wd. cbn [CoSocket.send_loop]. by rewrite send_scripted, E. }
  destruct ((ret <? 0) && (errno s' =? EAGAIN)) eqn:Ee.
  - apply andb_true_iff in Ee as [E0 _]. zify_bools. assert (ret = -1) as -> by lia. rewrite Z.add_0_r in Hs'.
    apply leads_wait. intros [|] mem' Hok Hk'; pose proof (keeps_trans n _ _ _ Hk Hk') as Hk2.
    + eapply frames_bind; [done|apply (IH s'); [done|done|lia]|]. intros p' s2 m2 l (ret & Hp & Hr & Hm & H0 & H1 & H2 & H3).
      apply leads_done. rewrite app_nil_r. exists ret. split_and!; [done|lia|lia|done|done|by eapply shorter_trans|lia|].
      intros [|turns] q q' wd Ha Ht; [lia|]. destruct (answers_wait FSW_EVENT_READ s' _ _ _ _ wd Ha) as (q1 & Ha1 & Hw).
      destruct (H3 turns q1 q' (wd ++ [FSW_EVENT_READ]) Ha1 ltac:(lia)) as (wd' & H4). exists wd'. by rewrite Hstep, Hw.
    + apply leads_done. exists (-1). split_and!; [done|lia|lia|done|by rewrite Z.add_0_r|done|lia|].
      intros [|turns] q q' wd Ha Ht; [lia|]. destruct (answers_wait FSW_EVENT_READ s' _ _ _ _ wd Ha) as (q1 & Ha1 & Hw).
      inversion Ha1; subst. eexists. by rewrite Hstep, Hw.
  - apply leads_done. exists ret. split_and!; [done|lia|lia|done|done|done|done|].
    intros [|turns] q q' wd Ha Ht; [lia|]. inversion Ha; subst. exists wd. apply Hstep.
Qed.

Lemma send_frame_loop_leads stop fd n k base len buf : 0 ≤ len < 2 ^ 64 → len ≤ n ≤ zlen buf →
  ∀ fuel total s mem, 0 ≤ total ≤ len → keeps n buf mem → sent s = base ++ take (Z.to_nat total) buf → (length (tx s) < fuel)%nat →
  leads fd (sends base (take (Z.to_nat len) buf)) n (send_all_loop (K := K) stop (S fuel) 0 fd total len k) s mem (λ p s' mem' l, ∃ ret,
    p = k ret ∧ keeps n buf mem' ∧ shorter s s' ∧
    (∃ i, sent s' = base ++ take i (take (Z.to_nat len) buf)) ∧
    ∀ turns q q' wd, answers l q q' → (length (tx s) < turns)%nat → ∃ wd',
      CoSocket.send_all_loop (S turns) (scripted s q wd) buf total len = Some (Ok (ret, scripted s' q' wd'))).
Proof.
  intros Hl Hb. induction fuel as [|fuel IH]; intros total s mem Ht Hk Hs Hf; [lia|].
  remember (S fuel) as m eqn:En. cbn [send_all_loop]. rewrite u64_id by lia.
  eapply frames_bind; [done|apply send_stack_loop_leads; [lia|lia|lia|lia|done|done|lia]|].
  intros p s1 mem1 l1 (ret & -> & Hr & Hk1 & H0 & H1 & H2 & H3). cbv beta.
  assert (Hi : ∃ i, sent s1 = base ++ take i (take (Z.to_nat len) buf)).
  { exists (Z.to_nat (total + Z.max 0 ret)). rewrite take_take, Nat.min_l by lia. done. }
  destruct (ret <=? 0) eqn:E0; [|destruct (u64 (total + ret) =? len) eqn:E1]; zify_bools.
  - apply leads_done. eexists _. split; [reflexivity|]. split; [done|]. split; [done|]. split; [eauto|]. rewrite app_nil_r. intros turns q q' wd Ha Hn.
    destruct (H3 turns q q' wd Ha Hn) as (wd' & H4). exists wd'. cbn [CoSocket.send_all_loop]. rewrite u64_id, H4 by lia. by rewrite (proj2 (Z.leb_le _ _)) by lia.
  - apply leads_done. eexists _. split; [reflexivity|]. split; [done|]. split; [done|]. split; [eauto|]. rewrite app_nil_r. intros turns q q' wd Ha Hn.
    destruct (H3 turns q q' wd Ha Hn) as (wd' & H4). exists wd'. cbn [CoSocket.send_all_loop]. rewrite u64_id, H4 by lia. rewrite (proj2 (Z.leb_gt _ _)) by lia.
    cbv zeta. by rewrite (proj2 (Z.eqb_eq _ _)).
  - pose proof (shorter_tx _ _ H1) as H1'.
    assert (ret < len - total). { destruct (decide (ret = len - total)) as [->|]; [|lia]. rewrite u64_id in E1 by lia. lia. }
    rewrite Z.max_r in H0 by lia.
    subst m. eapply frames_bind; [done|apply IH; [lia|done|done|lia]|]. intros p s2 mem2 l2 (ret2 & -> & Hk2 & H5 & Hi2 & H6).
    apply leads_done. exists ret2. split; [done|]. split; [done|]. split; [by eapply shorter_trans|]. split; [done|]. rewrite app_nil_r. intros [|turns] q q' wd Ha Hn; [lia|].
    destruct (answers_split _ _ _ _ Ha) as (q1 & Ha1 & Ha2).
    destruct (H3 (S turns) q q1 wd Ha1 Hn) as (wd1 & H4). destruct (H6 turns q1 q' wd1 Ha2 ltac:(lia)) as (wd2 & H7). exists wd2.
    rewrite <- H7. remember (S turns) as m. cbn [CoSocket.send_all_loop]. rewrite u64_id, H4 by lia.
    rewrite (proj2 (Z.leb_gt _ _)) by lia. cbv zeta. by rewrite (proj2 (Z.eqb_neq _ _)).
Qed.

(** The client as Http2Client has it: its descriptor is [s] and its array is
    [mem]. *)
Definition as_seen (s : CoSocket.sock) mem c : client D I :=
  mkClient (CoSocket.set_sk s <$> sock c) (local_settings c) (remote_settings c) (inflater c) (deflater c) (next_stream_id c)
    (last_stream_id c) (streams c) (heap c) mem.

Lemma send_frame_leads stop fuel fd n f c cs k buf s mem :
  sock c = Some cs → CoSocket.fd (sk cs) = fd → payload f = 9 → 0 ≤ payload_length f →
  9 + payload_length f ≤ n ≤ zlen buf → n < 2 ^ 63 → keeps n buf mem → (length (tx s) < fuel)%nat →
  leads fd (sends (sent s) (take (Z.to_nat (9 + payload_length f)) buf)) n (send_frame (K := K) stop (S fuel) f c k) s mem
    (λ p s' mem' l, ∃ ok, p = k ok c ∧ keeps n buf mem' ∧ shorter s s' ∧
      (∃ i, sent s' = sent s ++ take i (take (Z.to_nat (9 + payload_length f)) buf)) ∧
      ∀ m q q' wd, answers l q q' → ∃ wd', Client.send_frame buf f (as_seen (scripted s q wd) m c) =
        Ok (ok, as_seen (scripted s' q' wd') m c)).
Proof.
  intros Hs Hfd Hp Hl Hn Hm Hk Hf. unfold send_frame. rewrite Hs, Hfd, Hp. change (9 - FSW_HTTP2_FRAME_HEADER_SIZE) with 0.
  change FSW_HTTP2_FRAME_HEADER_SIZE with 9.
  eapply frames_bind; [done|apply (send_frame_loop_leads _ _ _ _ (sent s) _ buf); [lia|lia|lia|done|by rewrite app_nil_r|done]|].
  intros p s' mem' l (ret & -> & Hk' & Ht & Hi & H). apply leads_done. eexists. split; [reflexivity|]. split; [done|]. split; [done|]. split; [done|].
  rewrite app_nil_r. intros m q q' wd Ha. destruct (H (S (length (tx s))) q q' wd Ha ltac:(lia)) as (wd' & H'). exists wd'.
  unfold Client.send_frame, Client.send, as_seen. rewrite Hs, Hp. change (9 - FSW_HTTP2_FRAME_HEADER_SIZE) with 0.
  change FSW_HTTP2_FRAME_HEADER_SIZE with 9. rewrite drop_0.
  cbn [sock Client.set_sock fmap option_fmap option_map sk CoSocket.set_sk]. unfold CoSocket.send_all.
  change (tx (scripted s q wd)) with (tx s). rewrite H'. done.
Qed.

(** What is built does not depend on the descriptor. *)
Lemma data_frame_seen id data len (e : bool) c mem s : zlen mem = FSW_STACK_BUFFER_SIZE + 1 →
  0 ≤ len ≤ FSW_STACK_BUFFER_SIZE - 8 → len ≤ zlen data →
  let f := mkFrame 9 len FSW_HTTP2_TYPE_DATA (if e then FSW_HTTP2_FLAG_END_STREAM else 0) (u32 id) in
  ∃ tail, let mem' := wire_frame FSW_HTTP2_TYPE_DATA (flags f) (u32 id) (take (Z.to_nat len) data) ++ tail in
    build_data_frame id data len e (Client.set_stack mem c) = Ok (f, Client.set_stack mem' c) ∧
    build_data_frame id data len e (as_seen s mem c) = Ok (f, as_seen s mem' c) ∧ zlen mem' = FSW_STACK_BUFFER_SIZE + 1.
Proof.
  intros Hz Hl Hd f. unfold build_data_frame. rewrite mem_read_ok, outcome_bind_ok by lia. set (x := take _ _).
  assert (Hx : zlen x = len) by (apply zlen_take; change (drop (Z.to_nat 0) data) with data; lia).
  destruct (RequestFacts.put_payload mem x Hz) as (h & t & Hw & Hh & Hzz); [unfold FSW_STACK_BUFFER_SIZE in *; lia|].
  exists t. pose proof (CodecFacts.build_frame_header_ok [] h (x ++ t) f eq_refl Hh) as Hb. cbn [app] in Hb.
  unfold wire_frame. rewrite <- app_assoc. change (take (Z.to_nat len) data) with x. rewrite Hx.
  change FSW_HTTP2_FRAME_HEADER_SIZE with 9. cbn [buffer_stack as_seen Client.set_stack].
  rewrite Hw, !outcome_bind_ok, i64_id by (unfold FSW_STACK_BUFFER_SIZE in *; lia). cbv zeta. fold f. rewrite Hb, !outcome_bind_ok.
  split; [done|]. split; [by rewrite Hw, outcome_bind_ok, Hb|]. rewrite (zlen_app h) in Hzz. rewrite zlen_app. change (zlen (Rfc9113.frame_header _ _ _ _)) with 9. lia.
Qed.

(** The operations of Http2Client in these parts. *)
Lemma write_data_parts id data len e c :
  Client.write_data id data len e c =
    ('(f, c) ← build_data_frame id data len e c; '(_, c) ← Client.send_frame (buffer_stack c) f c; Ok (id, c)).
Proof.
  unfold Client.write_data, build_data_frame. destruct (mem_read data 0 len); [|done..]. rewrite !outcome_bind_ok.
  destruct (mem_write _ _ _); [|done..]. rewrite !outcome_bind_ok. cbv zeta. by destruct (Codec.build_frame_header _ _).
Qed.

Context (deflate_bound : D → list nv → Z) (deflate_hd : D → Z → list nv → Z * bytes * D) (fresh_response : response).

Lemma send_header_parts req c :
  Client.send_http_header_frame deflate_bound deflate_hd fresh_response req c =
    ('(o, c) ← build_header_frame deflate_bound deflate_hd fresh_response req c;
     match o with
     | None => Ok (false, None, c)
     | Some (f, stream) => '(ok, c) ← Client.send_frame (buffer_stack c) f c; Ok (ok, Some (f, stream), c)
     end).
Proof.
  unfold Client.send_http_header_frame, build_header_frame. destruct (Client.new_stream _ _) as [p c1].
  destruct (Client.build_http_header _ _ _ _ _) as [[n c2]| |]; [|done..]. rewrite !outcome_bind_ok. cbv beta iota zeta.
  destruct (n <=? 0); [done|]. destruct (Codec.build_frame_header _ _) as [m| |]; [|done..]. rewrite !outcome_bind_ok.
  unfold Client.emplace. by destruct (_ !! _).
Qed.

Lemma send_body_parts f stream req c :
  Client.send_http_body_frame f stream req c =
    ('(f, c) ← build_body_frame f stream req c; '(ok, c) ← Client.send_frame (buffer_stack c) f c; Ok (ok, f, c)).
Proof.
  unfold Client.send_http_body_frame, build_body_frame. destruct (mem_read _ 0 _); [|done..]. rewrite !outcome_bind_ok.
  destruct (mem_write _ _ _) as [m| |]; [|done..]. rewrite !outcome_bind_ok. destruct (Client.deref _ _); [|done..].
  rewrite !outcome_bind_ok. cbv zeta. by destruct (Codec.build_frame_header _ _).
Qed.

Lemma send_request_parts req c :
  Client.send_request deflate_bound deflate_hd fresh_response req c =
    ('(_, o, c) ← Client.send_http_header_frame deflate_bound deflate_hd fresh_response req c;
     match o with
     | None => UB
     | Some (f, stream) => '(_, _, c) ← Client.send_http_body_frame f stream req c; end_request stream c
     end).
Proof. done. Qed.

(** Code between two calls of [send] does the same to the client of
    Http2Client, whose array agrees up to [n]. *)
Definition mild {A} n (f : client D I → outcome (A * client D I)) : Prop :=
  ∀ c mem mem' a c', keeps n mem mem' → f (Client.set_stack mem' c) = Ok (a, c') →
    sock c' = sock c ∧
    ∃ m, keeps n m (buffer_stack c') ∧ ∀ s, f (as_seen s mem c) = Ok (a, as_seen s m c').

Lemma mild_data n id data len e : mild n (build_data_frame id data len e).
Proof.
  intros c mem mem' a c' Hk%keeps_sym H. unfold build_data_frame in *.
  apply outcome_bind_inv in H as (d & Hd & H). apply outcome_bind_inv in H as (w' & Hw & H).
  apply outcome_bind_inv in H as (x' & Hx & H). injection H as <- <-.
  destruct (keeps_store n _ _ _ _ _ Hk Hw) as (w & E & Hk'). destruct (keeps_header n _ _ _ _ Hk' Hx) as (x & Ex & Hkx%keeps_sym).
  split; [done|]. exists x. split; [done|]. intros s. rewrite Hd, outcome_bind_ok. cbn [buffer_stack as_seen].
  by rewrite E, outcome_bind_ok, Ex, outcome_bind_ok.
Qed.

Lemma mild_header n req : mild n (build_header_frame deflate_bound deflate_hd fresh_response req).
Proof.
  intros c mem mem' a c' Hk%keeps_sym H. unfold build_header_frame, Client.build_http_header in *. cbn [Client.new_stream] in *.
  apply outcome_bind_inv in H as ([len c1] & H1 & H). apply outcome_bind_inv in H1 as (h & Hh & H1).
  apply outcome_bind_inv in H1 as (l & Hl & H1).
  cbn [deflater buffer_stack as_seen Client.set_stack Client.set_streams] in *. cbv zeta in *.
  destruct (deflate_hd (deflater c) (deflate_bound (deflater c) l) l) as [[rv out] d'] eqn:Ed. destruct (rv <? 0) eqn:E0; [done|].
  apply outcome_bind_inv in H1 as (w' & Hw & H1). injection H1 as <- <-.
  destruct (keeps_store n _ _ _ _ _ Hk Hw) as (w & E & Hk').
  destruct (rv <=? 0) eqn:E1.
  { injection H as <- <-. split; [done|]. exists w. split; [by apply keeps_sym|]. intros s.
    by rewrite Hh, outcome_bind_ok, Hl, outcome_bind_ok, Ed, E0, E, !outcome_bind_ok, E1. }
  apply outcome_bind_inv in H as (x' & Hx & H). injection H as <- <-. cbn in Hx.
  destruct (keeps_header n _ _ _ _ Hk' Hx) as (x & Ex & Hkx%keeps_sym). unfold Client.emplace.
  split; [by destruct (_ !! _)|]. exists x. split; [by destruct (_ !! _)|]. intros s.
  rewrite Hh, outcome_bind_ok, Hl, outcome_bind_ok, Ed, E0, E, !outcome_bind_ok, E1. cbn. rewrite Ex, outcome_bind_ok.
  by destruct (_ !! _).
Qed.

Lemma mild_body n f stream req : mild n (build_body_frame f stream req).
Proof.
  intros c mem mem' a c' Hk%keeps_sym H. unfold build_body_frame in *.
  apply outcome_bind_inv in H as (d & Hd & H). apply outcome_bind_inv in H as (w' & Hw & H).
  apply outcome_bind_inv in H as (st & Hst & H). apply outcome_bind_inv in H as (x' & Hx & H). injection H as <- <-.
  destruct (keeps_store n _ _ _ _ _ Hk Hw) as (w & E & Hk'). destruct (keeps_header n _ _ _ _ Hk' Hx) as (x & Ex & Hkx%keeps_sym).
  split; [done|]. exists x. split; [done|]. intros s. rewrite Hd, outcome_bind_ok. cbn [buffer_stack as_seen].
  unfold Client.deref in *. cbn in Hst |- *. by rewrite E, outcome_bind_ok, Hst, outcome_bind_ok, Ex, outcome_bind_ok.
Qed.

Lemma keeps_zlen n a b : keeps n a b → zlen b = zlen a.
Proof. by intros [? _]. Qed.

(** A part and the frame it built, sent. *)
Lemma part_leads {A} stop fuel fd n (f : Http2Frame.frame) (g : client D I → outcome (A * client D I)) c cs
    (j : A → client D I → prog U) (k : bool → client D I → prog U) s mem mem0 a c' :
  mild n g → keeps n mem0 mem → g (Client.set_stack mem c) = Ok (a, c') → j a c' = send_frame (K := K) stop (S fuel) f c' k →
  sock c = Some cs → CoSocket.fd (sk cs) = fd → payload f = 9 → 0 ≤ payload_length f →
  9 + payload_length f ≤ n ≤ zlen (buffer_stack c') → n < 2 ^ 63 → (length (tx s) < fuel)%nat →
  let x := take (Z.to_nat (9 + payload_length f)) (buffer_stack c') in
  ∃ m, keeps n m (buffer_stack c') ∧ (∀ s, g (as_seen s mem0 c) = Ok (a, as_seen s m c')) ∧ sock c' = Some cs ∧
    leads fd (sends (sent s) x) n (on_scratch g c j) s mem
      (λ p s' mem' l, ∃ ok, p = k ok c' ∧ keeps n m mem' ∧ shorter s s' ∧
        (∃ i, sent s' = sent s ++ take i x) ∧
        ∀ q q' wd, answers l q q' → ∃ wd', Client.send_frame m f (as_seen (scripted s q wd) m c') =
          Ok (ok, as_seen (scripted s' q' wd') m c')).
Proof.
  intros Hg Hk H Hj Hs Hfd Hp Hl Hn Hn' Hf x. destruct (Hg c mem0 mem a c' Hk H) as (Hs' & m & Hkm & Hm).
  assert (x = take (Z.to_nat (9 + payload_length f)) m) as -> by (unfold x; apply (keeps_take n); [done|lia]).
  exists m. split; [done|]. split; [exact Hm|]. split; [congruence|]. eapply leads_build; [exact H|]. rewrite Hj.
  eapply frames_bind; [done|apply (send_frame_leads stop fuel fd n f c' cs _ m); [congruence|done|done|done| |done|done|done]|].
  { by rewrite (keeps_zlen n m (buffer_stack c')) in Hn. }
  intros p s' mem' l (ok & -> & Hk' & Ht & Hi & Hsend). apply leads_done. exists ok. split_and!; [done|done|done|done|].
  rewrite app_nil_r. intros q q' wd. apply Hsend.
Qed.

Lemma write_data_leads stop fuel fd n id data len (e : bool) c cs (k : Z → client D I → prog U) s mem :
  sock c = Some cs → CoSocket.fd (sk cs) = fd → zlen mem = FSW_STACK_BUFFER_SIZE + 1 →
  0 ≤ len ≤ FSW_STACK_BUFFER_SIZE - 8 → len ≤ zlen data → 9 + len ≤ n ≤ FSW_STACK_BUFFER_SIZE + 1 → (length (tx s) < fuel)%nat →
  leads fd (sends (sent s) (wire_frame FSW_HTTP2_TYPE_DATA (if e then FSW_HTTP2_FLAG_END_STREAM else 0) (u32 id) (take (Z.to_nat len) data))) n
    (write_data (K := K) stop (S fuel) id data len e c k) s mem (λ p s' _ l, ∃ c', p = k id c' ∧
      ∀ q q' wd, answers l q q' → ∃ m wd', Client.write_data id data len e (as_seen (scripted s q wd) mem c) =
        Ok (id, as_seen (scripted s' q' wd') m c')).
Proof.
  intros Hs Hfd Hz Hl Hd Hn Hf. set (x := take (Z.to_nat len) data).
  destruct (data_frame_seen id data len e c mem s Hz Hl Hd) as (t & Hb & _ & Hz'). cbv zeta in Hb, Hz'.
  cbn [flags] in *. fold x in Hb, Hz'. set (w := wire_frame _ _ _ x) in *. set (f := mkFrame _ _ _ _ _) in *.
  assert (Hw : zlen w = 9 + len). { unfold w, wire_frame. rewrite zlen_app. unfold x. by rewrite (zlen_take len) by lia. }
  destruct (part_leads stop fuel fd n f (build_data_frame id data len e) c cs (λ f c, send_frame (K := K) stop (S fuel) f c (λ _ c, k id c))
    (λ _ c, k id c) s mem mem f _ (mild_data n id data len e) (keeps_refl n mem) Hb eq_refl Hs Hfd eq_refl) as (m & Hm & Hg & _ & HL);
    [cbn; lia|cbn [payload_length f buffer_stack Client.set_stack]; lia|unfold FSW_STACK_BUFFER_SIZE in *; lia|done|].
  unfold write_data. cbn [payload_length f buffer_stack Client.set_stack] in HL. rewrite <- Hw, take_zlen_app in HL.
  eapply frames_bind; [done|exact HL|]. intros p s' mem' l (ok & -> & _ & _ & _ & Hsend). apply leads_done.
  eexists. split; [reflexivity|]. rewrite app_nil_r. intros q q' wd Ha. destruct (Hsend q q' wd Ha) as (wd' & E). exists m, wd'.
  rewrite write_data_parts, Hg, outcome_bind_ok.
  change (buffer_stack (as_seen ?a ?b ?c)) with b. by rewrite E, outcome_bind_ok.
Qed.

(** The header frame of a request. *)
Lemma header_frame_built req c mem block d' : zlen mem = FSW_STACK_BUFFER_SIZE + 1 → RequestFacts.headers_fit req →
  let nvs := RequestFacts.request_nvs req in
  deflate_hd (deflater c) (deflate_bound (deflater c) nvs) nvs = (zlen block, block, d') →
  0 < zlen block ≤ FSW_STACK_BUFFER_SIZE - 8 →
  let f := mkFrame 9 (zlen block) FSW_HTTP2_TYPE_HEADERS (RequestFacts.header_flags req) (next_stream_id c) in
  ∃ c1, build_header_frame deflate_bound deflate_hd fresh_response req (Client.set_stack mem c) = Ok (Some (f, length (heap c)), c1) ∧
    (∃ t, buffer_stack c1 = wire_frame FSW_HTTP2_TYPE_HEADERS (flags f) (next_stream_id c) block ++ t) ∧
    zlen (buffer_stack c1) = FSW_STACK_BUFFER_SIZE + 1 ∧
    heap c1 !! length (heap c) = Some (Some (Stream.make (next_stream_id c) (pipeline req) fresh_response)).
Proof.
  intros Hz Hfit nvs Hdef Hb f. unfold build_header_frame, Client.build_http_header. cbn [Client.new_stream].
  rewrite RequestFacts.request_headers_ok, outcome_bind_ok, RequestFacts.entries_ok, outcome_bind_ok by done.
  cbn [deflater buffer_stack Client.set_stack Client.set_streams]. cbv zeta. fold nvs. rewrite Hdef. rewrite (proj2 (Z.ltb_ge _ _)) by lia.
  change FSW_HTTP2_FRAME_HEADER_SIZE with 9.
  destruct (RequestFacts.put_payload mem block Hz) as (h & t & Hw & Hh & Hzz); [unfold FSW_STACK_BUFFER_SIZE in *; lia|].
  rewrite Hw, !outcome_bind_ok. rewrite (proj2 (Z.leb_gt _ _)) by lia. cbn [buffer_stack Client.set_deflater Client.set_remote Client.set_stack].
  assert (Hfl : (Z.land (if pipeline req then FSW_HTTP2_STREAM_PIPELINE_REQUEST else FSW_HTTP2_STREAM_NORMAL)
      FSW_HTTP2_STREAM_PIPELINE_REQUEST =? 0) = negb (pipeline req)) by (by destruct (pipeline req)).
  rewrite Hfl. fold (RequestFacts.header_flags req). cbn [next_stream_id Client.set_deflater Client.set_remote Client.set_streams Client.set_stack]. fold f.
  pose proof (CodecFacts.build_frame_header_ok [] h (block ++ t) f eq_refl Hh) as Hbuild.
  cbn [app] in Hbuild. rewrite Hbuild, outcome_bind_ok. eexists. split; [reflexivity|].
  unfold Client.emplace, wire_frame. rewrite (zlen_app h) in Hzz. destruct (_ !! _); cbn [buffer_stack heap Client.set_stack Client.set_streams
    Client.set_deflater Client.set_remote next_stream_id];
    (split; [exists t; by rewrite <- app_assoc|]; split; [rewrite zlen_app; change (zlen (Rfc9113.frame_header _ _ _ _)) with 9; lia|by rewrite list_lookup_middle]).
Qed.

(** The body frame, of the stream of the request. *)
Lemma body_frame_built f1 sp id r req c mem : zlen mem = FSW_STACK_BUFFER_SIZE + 1 → body_fits req →
  heap c !! sp = Some (Some (Stream.make id (pipeline req) r)) →
  let f := mkFrame 9 (rq_body_length req) FSW_HTTP2_TYPE_DATA (RequestFacts.body_flags req) (stream_id f1) in
  ∃ c2, build_body_frame f1 sp req (Client.set_stack mem c) = Ok (f, c2) ∧
    (∃ t, buffer_stack c2 = wire_frame FSW_HTTP2_TYPE_DATA (flags f) (stream_id f1) (body_bytes req) ++ t) ∧
    zlen (buffer_stack c2) = FSW_STACK_BUFFER_SIZE + 1 ∧ heap c2 = heap c.
Proof.
  intros Hz Hfit Hst f. pose proof (body_read req Hfit) as [Hd Hx]. destruct Hfit as [Hl _]. unfold build_body_frame.
  rewrite Hd, outcome_bind_ok. set (x := body_bytes req) in *.
  destruct (RequestFacts.put_payload mem x Hz) as (h & t & Hw & Hh & Hzz); [unfold FSW_STACK_BUFFER_SIZE in *; lia|].
  change FSW_HTTP2_FRAME_HEADER_SIZE with 9. cbn [buffer_stack Client.set_stack]. rewrite Hw, outcome_bind_ok.
  unfold Client.deref. cbn [mbind option_bind heap Client.set_stack]. rewrite Hst, outcome_bind_ok.
  assert (Hfl : (if Z.land (st_flags (Stream.make id (pipeline req) r)) FSW_HTTP2_STREAM_PIPELINE_REQUEST =? 0
      then FSW_HTTP2_FLAG_END_STREAM else 0) = RequestFacts.body_flags req) by (unfold RequestFacts.body_flags; by destruct (pipeline req)).
  rewrite Hfl, i64_id by (unfold FSW_STACK_BUFFER_SIZE in *; lia). cbv zeta. fold f.
  pose proof (CodecFacts.build_frame_header_ok [] h (x ++ t) f eq_refl Hh) as Hbuild.
  cbn [app] in Hbuild. rewrite Hbuild, outcome_bind_ok. eexists. split; [reflexivity|].
  rewrite (zlen_app h) in Hzz. cbn [buffer_stack heap Client.set_stack]. unfold wire_frame. rewrite Hx.
  split; [exists t; by rewrite <- app_assoc|]. split; [rewrite zlen_app; change (zlen (Rfc9113.frame_header _ _ _ _)) with 9; lia|done].
Qed.

Lemma body_frame_leads stop fuel fd n f1 sid id r0 req c cs (k : Z → client D I → prog U) s mem mem0 :
  sock c = Some cs → CoSocket.fd (sk cs) = fd → zlen mem = FSW_STACK_BUFFER_SIZE + 1 → keeps n mem0 mem → body_fits req →
  heap c !! sid = Some (Some (Stream.make id (pipeline req) r0)) →
  9 + rq_body_length req ≤ n ≤ FSW_STACK_BUFFER_SIZE + 1 → (length (tx s) < fuel)%nat →
  leads fd (sends (sent s) (wire_frame FSW_HTTP2_TYPE_DATA (RequestFacts.body_flags req) (stream_id f1) (body_bytes req))) n
    (send_http_body_frame (K := K) stop (S fuel) f1 sid req c (λ _ _ c, on_scratch (end_request sid) c k)) s mem
    (λ p s' _ l, ∃ r c', p = k r c' ∧ sock c' = Some cs ∧ shorter s s' ∧ ∀ q q' wd, answers l q q' → ∃ m wd',
      ('(_, _, c) ← Client.send_http_body_frame f1 sid req (as_seen (scripted s q wd) mem0 c); end_request sid c) =
        Ok (r, as_seen (scripted s' q' wd') m c')).
Proof.
  intros Hs Hfd Hz Hk Hbf Hst Hn Hf. pose proof (body_read req Hbf) as [_ Hbl]. destruct Hbf as [Hl Hl2].
  destruct (body_frame_built f1 sid id r0 req c mem Hz (conj Hl Hl2) Hst) as (c2 & Hb & (t & Hm) & Hz2 & Hh).
  set (y := wire_frame _ _ _ _) in *. set (f := mkFrame _ _ _ _ _) in *. unfold send_http_body_frame.
  destruct (part_leads stop fuel fd n f _ c cs (λ f c, send_frame (K := K) stop (S fuel) f c (λ ok c, on_scratch (end_request sid) c k))
    (λ _ c, on_scratch (end_request sid) c k) s mem mem0 _ c2 (mild_body n f1 sid req) Hk Hb eq_refl Hs Hfd eq_refl)
    as (m & Hkm & Hg & Hs2 & HL); [cbn; lia|rewrite Hz2; cbn; lia|unfold FSW_STACK_BUFFER_SIZE in *; lia|done|].
  assert (Hy : zlen y = 9 + payload_length f) by (unfold y, wire_frame; by rewrite zlen_app, Hbl).
  rewrite Hm, <- Hy, take_zlen_app in HL.
  eapply frames_bind; [done|exact HL|]. intros p s' mem' l (ok & -> & _ & Hsh & _ & Hsend).
  assert (He : ∀ c', heap c' = heap c2 → end_request sid c' =
    Ok (i32 (st_id (Stream.make id (pipeline req) r0)), Client.set_ids (u32 (next_stream_id c' + 2)) (last_stream_id c') c')).
  { intros c' E. unfold end_request, Client.deref. cbn [mbind option_bind heap Client.set_ids]. by rewrite E, Hh, Hst, outcome_bind_ok. }
  eapply leads_build; [by rewrite He|]. apply leads_done. eexists _, _. split; [reflexivity|]. split; [done|]. split; [done|].
  rewrite app_nil_r. intros q q' wd Ha. destruct (Hsend q q' wd Ha) as (wd' & E). exists m, wd'.
  rewrite send_body_parts, Hg, outcome_bind_ok. change (buffer_stack (as_seen ?a ?b ?c)) with b.
  by rewrite E, !outcome_bind_ok, He.
Qed.

(** What a request sends: a beginning of its header frame, and of its body
    frame. *)
Definition sends_two (base x y : bytes) (s s' : CoSocket.sock) : Prop :=
  ∃ i j, sent s' = base ++ take i x ++ take j y.

Lemma send_request_leads stop fuel fd n req c cs (k : Z → client D I → prog U) s mem block d' :
  sock c = Some cs → CoSocket.fd (sk cs) = fd → zlen mem = FSW_STACK_BUFFER_SIZE + 1 →
  RequestFacts.headers_fit req → body_fits req →
  deflate_hd (deflater c) (deflate_bound (deflater c) (RequestFacts.request_nvs req)) (RequestFacts.request_nvs req) = (zlen block, block, d') →
  0 < zlen block ≤ FSW_STACK_BUFFER_SIZE - 8 → 9 + Z.max (zlen block) (rq_body_length req) ≤ n ≤ FSW_STACK_BUFFER_SIZE + 1 →
  (length (tx s) < fuel)%nat →
  leads fd (sends_two (sent s) (wire_frame FSW_HTTP2_TYPE_HEADERS (RequestFacts.header_flags req) (next_stream_id c) block)
      (wire_frame FSW_HTTP2_TYPE_DATA (RequestFacts.body_flags req) (next_stream_id c) (body_bytes req))) n
    (send_request (K := K) stop (S fuel) deflate_bound deflate_hd fresh_response req c k) s mem (λ p s' _ l, ∃ r c', p = k r c' ∧ sock c' = Some cs ∧ shorter s s' ∧
      ∀ q q' wd, answers l q q' → ∃ m wd', Client.send_request deflate_bound deflate_hd fresh_response req (as_seen (scripted s q wd) mem c) =
        Ok (r, as_seen (scripted s' q' wd') m c')).
Proof.
  intros Hs Hfd Hz Hfit Hbf Hdef Hb Hn Hf.
  destruct (header_frame_built req c mem block d' Hz Hfit Hdef Hb) as (c1 & Hb1 & (t & Hm) & Hz1 & Hst).
  set (x := wire_frame FSW_HTTP2_TYPE_HEADERS _ _ _) in *. set (f := mkFrame _ _ _ _ _) in *. set (sid := length (heap c)) in *.
  destruct (part_leads stop fuel fd n f _ c cs (λ o c, match o with
    | None => Act (λ _, UB)
    | Some (f, stream) => send_frame (K := K) stop (S fuel) f c (λ ok c, send_http_body_frame (K := K) stop (S fuel) f stream req c (λ _ _ c, on_scratch (end_request stream) c k))
    end) (λ _ c, send_http_body_frame (K := K) stop (S fuel) f sid req c (λ _ _ c, on_scratch (end_request sid) c k))
    s mem mem _ c1 (mild_header n req) (keeps_refl n mem) Hb1 eq_refl Hs Hfd eq_refl) as (m1 & Hk1 & Hg1 & Hs1 & HL1);
    [cbn; lia|cbn [payload_length f]; rewrite Hz1; lia|unfold FSW_STACK_BUFFER_SIZE in *; lia|done|].
  assert (Hx : zlen x = 9 + payload_length f) by (unfold x, wire_frame; by rewrite zlen_app).
  rewrite Hm, <- Hx, take_zlen_app in HL1. eapply frames_bind; [|exact HL1|].
  { intros a b (i & j & _ & E). exists j, 0%nat. by rewrite E, take_0, app_nil_r. }
  intros p s1 mem1 l1 (ok1 & -> & Hk2 & Ht1 & (i1 & Hi1) & Hsend1).
  eapply frames_bind; [|apply (body_frame_leads stop fuel fd n f sid (next_stream_id c) fresh_response req c1 cs k s1 mem1 m1); [done|done| |done|done|exact Hst|lia|apply shorter_tx in Ht1; lia]|].
  { intros a b (i & j & _ & E). exists i1, j. by rewrite E, Hi1, <- app_assoc. }
  { by rewrite (keeps_zlen _ _ _ Hk2), <- (keeps_zlen _ _ _ Hk1). }
  intros p s' mem' l (r & c' & -> & Hc' & Hsh & H). apply leads_done. exists r, c'. split; [done|]. split; [done|].
  split; [by eapply shorter_trans|]. rewrite app_nil_r. intros q q' wd Ha.
  destruct (answers_split _ _ _ _ Ha) as (q1 & Ha1 & Ha2). destruct (Hsend1 q q1 wd Ha1) as (wd1 & E1). destruct (H q1 q' wd1 Ha2) as (m & wd' & E2). exists m, wd'.
  rewrite send_request_parts, send_header_parts, Hg1, !outcome_bind_ok. change (buffer_stack (as_seen ?a ?b ?c)) with b.
  by rewrite E1, !outcome_bind_ok.
Qed.
End facts.
End Http2LoopFacts.

(** ** The properties *)
Section http2_loop_properties.
Import Http2Loop Http2LoopFacts SocketLoopFacts Session.
Context {U K TQ : Type} `{!PQueue co_timer CompareTimerPointer TQ} `{!Epoll K}.
Context `{!Part Event U} `{!Part (time_state TQ) U} `{!Part K U} `{!Part table U} `{!Part scratch U}.
Context {D I : Type}.

(** C11: an HTTP/2 client sends its frames intact as long as the others leave
    them in the scratch buffer. Whatever the rest of the process does with the
    array beyond its first [n] bytes while [write_data] or [send_request] wait,
    with [n] at least the length of the frames: they make no undefined step,
    what they have put on the wire is at any time a beginning of the frames of
    the operation, and for every result of the waits they end with the result
    and the client that Http2Client gives. *)
Theorem http2_sends_intact (stop : prog U) (fuel : nat) (fd n : Z) (c : client D I) cs s mem
    (id len : Z) (data : bytes) (e : bool) (req : request) (block : bytes) (d' : D)
    (deflate_bound : D → list nv → Z) (deflate_hd : D → Z → list nv → Z * bytes * D) (fresh_response : response)
    (k : Z → client D I → prog U) :
  let nvs := RequestFacts.request_nvs req in
  sock c = Some cs → CoSocket.fd (sk cs) = fd → zlen mem = FSW_STACK_BUFFER_SIZE + 1 → (length (tx s) < fuel)%nat →
  n ≤ FSW_STACK_BUFFER_SIZE + 1 →
  (0 ≤ len ≤ n - 9 → len ≤ zlen data →
   leads (D := D) (I := I) (λ _, True) fd (sends (sent s) (wire_frame FSW_HTTP2_TYPE_DATA (if e then FSW_HTTP2_FLAG_END_STREAM else 0) (u32 id) (take (Z.to_nat len) data))) n
     (write_data (K := K) stop (S fuel) id data len e c k) s mem (λ p s' _ l, ∃ c', p = k id c' ∧
       ∀ q q' wd, answers l q q' → ∃ m wd', Client.write_data id data len e (as_seen (scripted s q wd) mem c) =
         Ok (id, as_seen (scripted s' q' wd') m c'))) ∧
  (RequestFacts.headers_fit req → body_fits req → rq_body_length req ≤ n - 9 →
   deflate_hd (deflater c) (deflate_bound (deflater c) nvs) nvs = (zlen block, block, d') → 0 < zlen block ≤ n - 9 →
   leads (D := D) (I := I) (λ _, True) fd (sends_two (sent s) (wire_frame FSW_HTTP2_TYPE_HEADERS (RequestFacts.header_flags req) (next_stream_id c) block)
       (wire_frame FSW_HTTP2_TYPE_DATA (RequestFacts.body_flags req) (next_stream_id c) (body_bytes req))) n
     (send_request (K := K) stop (S fuel) deflate_bound deflate_hd fresh_response req c k) s mem (λ p s' _ l, ∃ r c', p = k r c' ∧
       ∀ q q' wd, answers l q q' → ∃ m wd', Client.send_request deflate_bound deflate_hd fresh_response req (as_seen (scripted s q wd) mem c) =
         Ok (r, as_seen (scripted s' q' wd') m c'))).
Proof.
  intros nvs Hs Hfd Hz Hf Hn. split; intros.
  - apply (write_data_leads _ _ _ _ _ _ _ _ _ _ cs); (done || lia).
  - eapply Http2LoopFacts.frames_bind; [done|eapply (Http2LoopFacts.send_request_leads _ _ _ _ _ _ _ _ _ _ cs); (done || lia)|].
    intros p s' mem' l (r & c' & -> & _ & _ & H'). apply Http2LoopFacts.leads_done. exists r, c'. by rewrite app_nil_r.
Qed.
End http2_loop_properties.

(** ** Two clients *)
Module Http2LoopExample.
Import Http2Loop SocketLoop SocketLoopFacts EventExample SocketLoopExample.

(** The process of the examples, with the scratch buffer. *)
Record net2 := mkNet2 { net_of : net; stack_of : scratch }.
#[global] Instance net2_part {T} `{!Part T net} : Part T net2 | 10.
Proof. refine {| view u := view (net_of u); set_view t u := mkNet2 (set_view t (net_of u)) (stack_of u) |}. intros t u. apply view_set. Defined.
#[global] Instance net2_scratch : Part scratch net2 | 0 := {|
  view := stack_of; set_view t u := mkNet2 (net_of u) t; view_set _ _ := eq_refl |}.

(** The kernel takes [m] bytes on 7 and then is busy. *)
Definition slow (m : Z) : CoSocket.sock := mkSock 7 0 [] [TxAccept m; TxError EAGAIN] [] [] [] [] false.
Definition fast : CoSocket.sock := mkSock 8 0 [] [] [] [] [] [] false.
Definition zeros : bytes := replicate (Z.to_nat (FSW_STACK_BUFFER_SIZE + 1)) 0.
Definition peers (m : Z) : table := λ fd, if fd =? 7 then slow m else fast.
Definition two_peers (m : Z) : net2 := mkNet2 (mkNet start (peers m)) (mkScratch zeros).

(** The clients, connected through these. *)
Definition client_of (s : CoSocket.sock) : client unit unit := Client.set_sock (CoSocket.make s 0) (Client.make tt tt zeros).

(** Two coroutines; each sends its bytes in stream 1 of its own connection. *)
Definition writer (s : CoSocket.sock) (data : bytes) : prog net2 :=
  Http2Loop.write_data (K := simple_kernel) Ret 5 1 data (zlen data) false (client_of s) (λ _ _, Ret).
Definition writers (m : Z) (dA dB : bytes) : prog net2 := Create (writer (slow m) dA) (λ _, Create (writer fast dB) (λ _, Ret)).
Definition alone (m : Z) (data : bytes) : option bytes :=
  match Client.write_data 1 data (zlen data) false (client_of (slow m)) with
  | Ok (_, c) => sent ∘ sk <$> sock c
  | _ => None
  end.
Definition frame_of (data : bytes) : bytes := Session.wire_frame FSW_HTTP2_TYPE_DATA 0 1 data.

(** The process with this code on the CPU, and with these descriptors and this
    array. *)
Definition at_code (p : prog net2) (l : EventLoop.loop) : EventLoop.loop :=
  EventLoop.mkLoop (Sched.set_cpu (Prog p) (EventLoop.mach l)) (EventLoop.ph l).
Definition of_code (t : table) (s : scratch) (l : EventLoop.loop) : EventLoop.loop :=
  EventLoop.mkLoop (Sched.set_globals (mkNet2 (mkNet (base (net_of (globals (EventLoop.mach l)))) t) s) (EventLoop.mach l)) (EventLoop.ph l).

(** [acts p t s p' t' s']: [p] comes to [p'] without a call of the scheduler
    and leaves the table and the array so. *)
Inductive acts : prog net2 → table → scratch → prog net2 → table → scratch → Prop :=
| acts_done p t s : acts p t s p t s
| acts_act f t s p1 t1 s1 p' t' s' :
    (∀ w, f (mkNet2 (mkNet w t) s) = Ok (mkNet2 (mkNet w t1) s1, p1)) →
    acts p1 t1 s1 p' t' s' → acts (Act f) t s p' t' s'.

Abbreviation reaches := (EventLoop.loop_reachable (K := simple_kernel) (TQ := queue) (U := net2)).

Lemma acts_reaches p t s p' t' s' l0 l : acts p t s p' t' s' →
  globals (EventLoop.mach l) = mkNet2 (mkNet (base (net_of (globals (EventLoop.mach l)))) t) s →
  cpu (EventLoop.mach l) = Prog p → reaches l0 l → reaches l0 (at_code p' (of_code t' s' l)).
Proof.
  intros H. revert l. induction H as [p t s|f t s p1 t1 s1 p' t' s' Hf _ IH]; intros [m q] Hg Hc Hr.
  - destruct m; cbn in *. subst. unfold at_code, of_code, Sched.set_cpu, Sched.set_globals. cbn in *. rewrite Hg in *. cbn. exact Hr.
  - cbn in *. set (w := base (net_of (globals m))) in *.
    specialize (IH (at_code p1 (of_code t1 s1 (EventLoop.mkLoop m q))) eq_refl eq_refl). apply IH.
    eapply EventLoop.loop_next; [exact Hr|].
    pose proof (EventLoop.step_code (K := simple_kernel) (TQ := queue) m q (Sched.step m)) as Hs.
    assert (E : Sched.step m = Ok (Some (Sched.set_cpu (Prog p1) (Sched.set_globals (mkNet2 (mkNet w t1) s1) m)))).
    { unfold Sched.step. rewrite Hc, Hg, Hf. reflexivity. }
    rewrite E in Hs. apply Hs; [|done]. intros [Hx _]. congruence.
Qed.

(** A process in which the first coroutine waits once and the second does not,
    for any code of theirs. *)
Lemma one_waits_one_runs pA pB kA t0 s0 t1 s1 t2 s2 t3 s3 :
  acts pA t0 s0 (EventLoop.wait_event (K := simple_kernel) 7 false kA) t1 s1 →
  acts pB t1 s1 Ret t2 s2 → acts (kA true) t2 s2 Ret t3 s3 →
  ∃ l, reaches (EventLoop.run (Create pA (λ _, Create pB (λ _, Ret))) (mkNet2 (mkNet start t0) s0)) l ∧
    EventLoop.ph l = EventLoop.Returned ∧
    net_of (globals (EventLoop.mach l)) = mkNet (base (net_of (globals (EventLoop.mach l)))) t3 ∧ stack_of (globals (EventLoop.mach l)) = s3.
Proof.
  intros HA HB HC. set (l0 := EventLoop.run _ _).
  set (it n := LoopRun.iterate (K := simple_kernel) (TQ := queue) report_all (U := net2) n).
  assert (Hit : ∀ n l, reaches l0 l → reaches l0 (it n l)) by (intros n l; apply LoopRun.iterate_reachable, report_all_ok).
  pose proof (Hit 2%nat l0 ltac:(constructor)) as H1.
  apply (acts_reaches _ _ _ _ _ _ _ _ HA) in H1; [|vm_compute; reflexivity..].
  apply (Hit 6%nat) in H1.
  apply (acts_reaches _ _ _ _ _ _ _ _ HB) in H1; [|vm_compute; reflexivity..].
  apply (Hit 9%nat) in H1.
  apply (acts_reaches _ _ _ _ _ _ _ _ HC) in H1; [|vm_compute; reflexivity..].
  apply (Hit 30%nat) in H1.
  eexists. split; [exact H1|]. split_and!; vm_compute; reflexivity.
Qed.
Lemma zeros_len : zlen zeros = FSW_STACK_BUFFER_SIZE + 1.
Proof. unfold zeros. rewrite zlen_replicate, Z2Nat.id; by vm_compute. Qed.

Lemma frame_zlen d : zlen (frame_of d) = 9 + zlen d.
Proof. unfold frame_of, Session.wire_frame. by rewrite zlen_app. Qed.

(** What [write_data] leaves in the array. *)
Definition written (d mem : bytes) : bytes := frame_of d ++ drop (length (frame_of d)) mem.

Lemma written_zlen d mem : zlen d ≤ FSW_STACK_BUFFER_SIZE - 8 → zlen mem = FSW_STACK_BUFFER_SIZE + 1 →
  zlen (written d mem) = FSW_STACK_BUFFER_SIZE + 1.
Proof.
  intros Hd Hz. pose proof (frame_zlen d). unfold written, FSW_STACK_BUFFER_SIZE in *. rewrite zlen_app.
  unfold zlen in *. rewrite length_drop. lia.
Qed.

Lemma data_frame_written d mem (c : client unit unit) : zlen d ≤ FSW_STACK_BUFFER_SIZE - 8 → zlen mem = FSW_STACK_BUFFER_SIZE + 1 →
  build_data_frame 1 d (zlen d) false (Client.set_stack mem c) =
    Ok (mkFrame 9 (zlen d) FSW_HTTP2_TYPE_DATA 0 1, Client.set_stack (written d mem) c).
Proof.
  intros Hd Hz. pose proof (zlen_nonneg d). pose proof (frame_zlen d) as Hf. unfold FSW_STACK_BUFFER_SIZE in *.
  unfold build_data_frame. rewrite mem_read_ok, outcome_bind_ok by lia. change (drop (Z.to_nat 0) d) with d.
  rewrite take_ge by (unfold zlen in *; lia). cbn [buffer_stack Client.set_stack]. change FSW_HTTP2_FRAME_HEADER_SIZE with 9.
  rewrite mem_write_ok, outcome_bind_ok, i64_id by lia. cbv zeta.
  pose proof (CodecFacts.build_frame_header_ok [] (take (Z.to_nat 9) mem) (d ++ drop (Z.to_nat (9 + zlen d)) mem)
    (mkFrame 9 (zlen d) FSW_HTTP2_TYPE_DATA 0 (u32 1)) eq_refl) as Hb.
  cbn [app] in Hb. rewrite Hb, outcome_bind_ok by (apply zlen_take; lia). unfold written. rewrite <- Hf.
  replace (Z.to_nat (zlen (frame_of d))) with (length (frame_of d)) by (unfold zlen; lia).
  unfold frame_of at 2, Session.wire_frame. by rewrite <- app_assoc.
Qed.

Section two_writers.
Context (m : Z) (dA dB : bytes).
Context (HA : zlen dA ≤ FSW_STACK_BUFFER_SIZE - 8) (HB : zlen dB ≤ FSW_STACK_BUFFER_SIZE - 8).
Context (Hm : 0 < m < 9 + zlen dA).

(** The sockets on the way. *)
Definition begun : CoSocket.sock := set_tx [TxError EAGAIN] (take (Z.to_nat m) (frame_of dA)) (slow m).
Definition busy : CoSocket.sock := set_errno EAGAIN (set_tx [] [] begun).
Definition served (mem : bytes) : CoSocket.sock :=
  set_tx [] (take (Z.to_nat (9 + zlen dA - m)) (drop (Z.to_nat m) mem)) busy.
Definition served_fast : CoSocket.sock := set_tx [] (frame_of dB) fast.
Abbreviation t1 := (put 7 busy (put 7 begun (peers m))).
Abbreviation waiting k := (EventLoop.wait_event (K := simple_kernel) 7 false k).
Abbreviation memA := (written dA zeros).
Abbreviation memB := (written dB memA).

Lemma send_read (s : CoSocket.sock) buf off len data : mem_read buf off len = Ok data → tx s = [] →
  Socket.send s buf off len = Ok (zlen data, set_tx [] data s).
Proof. intros H Ht. unfold Socket.send. by rewrite Ht, H. Qed.

Lemma acts_send pos fd off len k (t : table) mem ret s' p' t' x :
  Socket.send (t fd) (drop (Z.to_nat pos) mem) off len = Ok (ret, s') →
  acts (k ret (errno s')) (put fd s' t) (mkScratch mem) p' t' x →
  acts (send_stack pos fd off len k) t (mkScratch mem) p' t' x.
Proof.
  intros Hs H. eapply acts_act; [|exact H]. intros w.
  change (view (T := table) (mkNet2 (mkNet w t) (mkScratch mem))) with t. cbn [view net2_scratch stack_of stack_mem].
  rewrite Hs, outcome_bind_ok. reflexivity.
Qed.

Lemma acts_build d s t p' t' x mem : zlen d ≤ FSW_STACK_BUFFER_SIZE - 8 → zlen mem = FSW_STACK_BUFFER_SIZE + 1 →
  acts (Http2Loop.send_all_loop (K := simple_kernel) Ret 5 0 (CoSocket.fd s) 0 (9 + zlen d) (λ _, Ret)) t (mkScratch (written d mem)) p' t' x →
  acts (writer s d) t (mkScratch mem) p' t' x.
Proof.
  intros Hd Hz H. pose proof (data_frame_written d mem (client_of s) Hd Hz) as Hb. eapply acts_act; [|exact H]. intros w. cbn [view net2_scratch stack_of stack_mem]. by rewrite Hb.
Qed.

(** The coroutine of the first client after the wait. *)
Definition resumed : bool → prog net2 := λ again,
  let total := 0 + m in
  let after ret := if ret <=? 0 then Ret else if u64 (total + ret) =? 9 + zlen dA then Ret
    else Http2Loop.send_all_loop (K := simple_kernel) Ret 3 0 7 (total + ret) (9 + zlen dA) (λ _, Ret) in
  if again then Http2Loop.send_loop (K := simple_kernel) Ret 2 0 7 total (u64 (9 + zlen dA - total)) after else Ret.

(** The three parts of the run: the first client up to its wait, the second,
    the rest of the first. *)
Lemma first_waits : acts (writer (slow m) dA) (peers m) (mkScratch zeros) (waiting resumed) t1 (mkScratch memA).
Proof.
  pose proof (frame_zlen dA) as Hf. pose proof (written_zlen dA zeros HA zeros_len) as Hz.
  assert (Hr : mem_read memA 0 m = Ok (take (Z.to_nat m) (frame_of dA))).
  { rewrite mem_read_ok by (unfold FSW_STACK_BUFFER_SIZE in *; lia). f_equal. change (drop (Z.to_nat 0) ?x) with x. unfold written. rewrite take_app_le by (unfold zlen in *; lia). done. }
  apply acts_build; [done|exact zeros_len|]. cbn [Http2Loop.send_all_loop Http2Loop.send_loop].
  eapply acts_send.
  { change (drop (Z.to_nat 0) ?x) with x. change (peers m (CoSocket.fd (slow m))) with (slow m).
    unfold Socket.send. cbn [tx slow]. rewrite u64_id, (Z.max_r 0 m), Z.min_l, Hr, outcome_bind_ok by (unfold FSW_STACK_BUFFER_SIZE in *; lia). reflexivity. }
  rewrite zlen_take by lia. rewrite (proj2 (Z.ltb_ge m 0)), (proj2 (Z.leb_gt m 0)) by lia. cbn [andb].
  rewrite u64_id, (proj2 (Z.eqb_neq m _)) by (unfold FSW_STACK_BUFFER_SIZE in *; lia). 
  eapply acts_send; [reflexivity|]. apply acts_done.
Qed.

Lemma second_runs : acts (writer fast dB) t1 (mkScratch memA) Ret (put 8 served_fast t1) (mkScratch memB).
Proof.
  pose proof (frame_zlen dB) as Hf. pose proof (zlen_nonneg dB).
  pose proof (written_zlen dA zeros HA zeros_len) as HzA. pose proof (written_zlen dB memA HB HzA) as HzB.
  apply acts_build; [done..|]. cbn [Http2Loop.send_all_loop Http2Loop.send_loop].
  unfold FSW_STACK_BUFFER_SIZE in *. eapply acts_send.
  { change (drop (Z.to_nat 0) ?x) with x. change (t1 (CoSocket.fd fast)) with fast. apply send_read; [|done].
    rewrite u64_id, mem_read_ok by lia. change (drop (Z.to_nat 0) ?x) with x. rewrite Z.sub_0_r, <- Hf. unfold written at 1. by rewrite take_zlen_app. }
  rewrite Hf, (proj2 (Z.ltb_ge _ 0)), (proj2 (Z.leb_gt _ 0)) by lia. cbn [andb]. rewrite u64_id, (proj2 (Z.eqb_eq _ _)) by lia.
  apply acts_done.
Qed.

Lemma first_ends : acts (resumed true) (put 8 served_fast t1) (mkScratch memB) Ret (put 7 (served memB) (put 8 served_fast t1)) (mkScratch memB).
Proof.
  pose proof (zlen_nonneg dB).
  pose proof (written_zlen dA zeros HA zeros_len) as HzA. pose proof (written_zlen dB memA HB HzA) as HzB.
  unfold resumed. cbn [Http2Loop.send_loop]. unfold FSW_STACK_BUFFER_SIZE in *. rewrite Z.add_0_l, (u64_id (_ - _)) by lia.
  assert (Hr : mem_read memB m (9 + zlen dA - m) = Ok (take (Z.to_nat (9 + zlen dA - m)) (drop (Z.to_nat m) memB))) by (apply mem_read_ok; lia).
  eapply acts_send.
  { change (drop (Z.to_nat 0) ?x) with x. change (put 8 served_fast t1 7) with busy. by apply send_read. }
  rewrite zlen_take by (rewrite zlen_drop; lia).
  rewrite (proj2 (Z.ltb_ge _ 0)), (proj2 (Z.leb_gt _ 0)) by lia. cbn [andb]. rewrite u64_id, (proj2 (Z.eqb_eq _ _)) by lia.
  apply acts_done.
Qed.

(** Of the array only the two frames have been sent. *)
Lemma mixed_tail : take (Z.to_nat (9 + zlen dA - m)) (drop (Z.to_nat m) memB) =
  take (Z.to_nat (9 + zlen dA - m)) (drop (Z.to_nat m) (frame_of dB ++ drop (length (frame_of dB)) (frame_of dA))).
Proof.
  pose proof (frame_zlen dA) as Hf. rewrite !take_drop_commute. f_equal. unfold written.
  replace (Z.to_nat m + Z.to_nat (9 + zlen dA - m))%nat with (length (frame_of dA)) by (unfold zlen in *; lia).
  rewrite !take_app. f_equal. destruct (decide (length (frame_of dB) ≤ length (frame_of dA))%nat).
  - rewrite !take_drop_commute. f_equal.
    replace (length (frame_of dB) + (length (frame_of dA) - length (frame_of dB)))%nat with (length (frame_of dA)) by lia.
    by rewrite take_app_length, take_ge by done.
  - by replace (length (frame_of dA) - length (frame_of dB))%nat with 0%nat by lia.
Qed.

Lemma alone_intact : alone m dA = Some (frame_of dA).
Proof.
  pose proof (zlen_nonneg dA). unfold alone. rewrite Http2LoopFacts.write_data_parts.
  pose proof (data_frame_written dA zeros (client_of (slow m)) HA zeros_len) as Hb.
  change (Client.set_stack zeros (client_of (slow m))) with (client_of (slow m)) in Hb. rewrite Hb, outcome_bind_ok.
  destruct (RequestFacts.send_frame_ok (Client.set_stack memA (client_of (slow m))) (CoSocket.make (slow m) 0) dA (drop (length (frame_of dA)) zeros)
    FSW_HTTP2_TYPE_DATA 0 1 [] []) as (s' & E & Hok); [done| |unfold FSW_STACK_BUFFER_SIZE in *; lia|].
  { split; [by vm_compute|constructor 1|repeat constructor; lia|done|done]. }
  change (buffer_stack (Client.set_stack memA (client_of (slow m)))) with memA. change (Session.wire_frame FSW_HTTP2_TYPE_DATA 0 1 dA ++ drop _ zeros) with memA in E. rewrite E, outcome_bind_ok. cbn.
  f_equal. apply Hok.
Qed.
End two_writers.
End Http2LoopExample.

Section http2_mixing.
Import Http2LoopExample SocketLoopExample.

(** C12: the frames of two clients are mixed. Two coroutines write [dA] and
    [dB], of any lengths that fit in the array, to connections of their own.
    The kernel takes the first [m] bytes of the frame of [dA], any number that
    is not the whole frame, and has the first coroutine wait. Then in a run of
    the process in which [wait] returns, the peer of the first has got these
    [m] bytes, and for the rest of the frame what the array holds at its place
    once the second coroutine has built its own frame there: the bytes of the
    frame of [dB], followed by those of [dA] when that is the longer one. The
    second has sent its frame. In Http2Client, where nothing else runs, the
    first sends its own to the same peer. *)
Theorem frames_are_mixed (m : Z) (dA dB : bytes) :
  zlen dA ≤ FSW_STACK_BUFFER_SIZE - 8 → zlen dB ≤ FSW_STACK_BUFFER_SIZE - 8 → 0 < m < 9 + zlen dA →
  let frameA := frame_of dA in
  let frameB := frame_of dB in
  let rest := take (Z.to_nat (9 + zlen dA - m)) (drop (Z.to_nat m) (frameB ++ drop (length frameB) frameA)) in
  (∃ l, EventLoop.loop_reachable (K := simple_kernel) (TQ := EventExample.queue) (EventLoop.run (writers m dA dB) (two_peers m)) l ∧
     EventLoop.ph l = EventLoop.Returned ∧
     let on_wire fd := sent (view (T := table) (globals (EventLoop.mach l)) fd) in
     on_wire 7 = take (Z.to_nat m) frameA ++ rest ∧ on_wire 8 = frameB) ∧
  alone m dA = Some frameA.
Proof.
  intros HA HB Hm frameA frameB rest. split; [|by apply alone_intact].
  edestruct one_waits_one_runs as (l & Hr & Hp & Hg & _); [by apply (first_waits m dA)|by apply (second_runs m dA dB)|by apply (first_ends m dA dB)|].
  exists l. split; [exact Hr|]. split; [exact Hp|]. cbv zeta. change (view (T := table) ?u) with (descriptors (net_of u)). rewrite Hg.
  cbn. split; [|done]. rewrite app_nil_r. f_equal. by apply mixed_tail.
Qed.
End http2_mixing.

Section http2_loop_examples.
Import Http2LoopExample Http2LoopFacts SocketLoopFacts EventExample.

Definition post_frames : CoSocket.sock → CoSocket.sock → Prop :=
  sends_two [] (Session.wire_frame FSW_HTTP2_TYPE_HEADERS 4 1 (str ":methodPOST:path/form:schemehttp:authority127.0.0.1user-agfsw/1.0"))
    (Session.wire_frame FSW_HTTP2_TYPE_DATA 1 1 (str "hello")).

Lemma http2_sends_intact_witness :
  leads (K := simple_kernel) (D := unit) (I := unit) (λ _, True) 7 (sends [] (frame_of [1; 2; 3; 4; 5])) 80 (writer (slow 12) [1; 2; 3; 4; 5]) (slow 12) zeros
    (λ p s' _ l, ∃ c', p = Ret ∧ ∀ q q' wd, answers l q q' → ∃ m wd',
      Client.write_data 1 [1; 2; 3; 4; 5] 5 false (as_seen (scripted (slow 12) q wd) zeros (client_of (slow 12))) =
        Ok (1, as_seen (scripted s' q' wd') m c')) ∧
  leads (K := simple_kernel) (D := unit) (I := unit) (λ _, True) 7 post_frames 80
    (Http2Loop.send_request (K := simple_kernel) Ret 5 plain_bound plain_encode blank post (client_of (slow 12)) (λ _ _, Ret : prog net2)) (slow 12) zeros
    (λ p s' _ l, ∃ (r : Z) c', p = Ret ∧ ∀ q q' wd, answers l q q' → ∃ m wd',
      Client.send_request plain_bound plain_encode blank post (as_seen (scripted (slow 12) q wd) zeros (client_of (slow 12))) =
        Ok (r, as_seen (scripted s' q' wd') m c')).
Proof.
  destruct (http2_sends_intact (K := simple_kernel) Ret 4 7 80 (client_of (slow 12)) (CoSocket.make (slow 12) 0) (slow 12) zeros 1 5 [1; 2; 3; 4; 5] false post
    (str ":methodPOST:path/form:schemehttp:authority127.0.0.1user-agfsw/1.0") tt plain_bound plain_encode blank (λ _ _, Ret : prog net2)
    eq_refl eq_refl zeros_len) as [H1 H2]; [cbn; lia|by vm_compute|].
  split.
  - apply H1; [lia|by vm_compute].
  - apply H2; [apply Forall_singleton; split; by vm_compute|split; [split|]; by vm_compute|by vm_compute|reflexivity|split; by vm_compute].
Defined.

Lemma frames_are_mixed_witness :
  ∃ l, EventLoop.loop_reachable (K := simple_kernel) (TQ := queue) (EventLoop.run (writers 12 (str "first") (str "other")) (two_peers 12)) l ∧
    sent (view (T := table) (globals (EventLoop.mach l)) 7) = take 12 (frame_of (str "first")) ++ str "er".
Proof.
  destruct (frames_are_mixed 12 (str "first") (str "other")) as [(l & H1 & _ & H2 & _) _]; [by vm_compute..|].
  exists l. split; [exact H1|exact H2].
Defined.
End http2_loop_examples.
