(* ===== verification/Http2Exchange.v ===== *)
(** * Http2Exchange: requests and responses of an HTTP/2 client on the event loop
    (src/coroutine/http2/client.cc)

    The rest of the client as programs of the scheduler's machine: connecting,
    and receiving a response, whose [recv]s may suspend the coroutine and whose
    settings frames are acknowledged with sends that may. What is between two
    calls are the functions of Http2Client. The client of Http2Client that the
    kernel answers as it answers the program ends as the program does; with
    Http2Loop and Http2Session a client connects and exchanges a request and its
    response on the machine as the protocol says. The client object is passed
    along from call to call, so one coroutine uses it at a time, as the programs
    of examples/ do. *)

From S2P Require Import Prelude Words StdMap Buffer CoSocket Http2Frame Http2Client Http2Session.
From S2P Require Import Timer Coroutine Waiters Sleep Event SocketLoop HttpLoop Http2Loop.
From stdpp Require Import gmap.
#[local] Open Scope Z_scope.

Module Http2Exchange.
Section http2_exchange.
Context {U K TQ : Type} `{!PQueue co_timer CompareTimerPointer TQ} `{!Epoll K}.
Context `{!Part Event U} `{!Part (time_state TQ) U} `{!Part K U} `{!Part table U} `{!Part scratch U}.
Context {D I : Type}.
Implicit Types (c : client D I).
Variables (stop : prog U) (fuel : nat).
Abbreviation compute := HttpLoop.compute.

(** [send(buf, len)] *)
Definition send (buf : bytes) (len : Z) c (k : bool → client D I → prog U) : prog U :=
  match sock c with
  | None => Act (λ _, UB)
  | Some s => SocketLoop.send_all (K := K) stop fuel (fd (sk s)) buf len (λ ret, k (ret =? i64 len) c)
  end.

(** [set_err()] of a socket: [errno] is the descriptor's. *)
Definition set_err (s : cosocket) (k : cosocket → prog U) : prog U :=
  SocketLoop.on_socket (fd (sk s)) (λ t, Ok (tt, t)) (λ _ errno, k (mkCoSocket (sk s) errno (cread_buf s) (cwrite_buf s))).

(** What [connect] does after its call of [connect]. *)
Definition greet c (k : bool → client D I → prog U) : prog U :=
  send FSW_HTTP2_PRI_STRING (strl_literal FSW_HTTP2_PRI_STRING) c (λ ok c,
    if negb ok then k false c
    else match sock c with
    | None => Act (λ _, UB)
    | Some s =>
        let '(b, s) := CoSocket.get_write_buf s in
        compute (Codec.build_setting_frame (local_settings c) (_buffer b)) (λ '(f, mem),
          send (drop (Z.to_nat (payload f - FSW_HTTP2_FRAME_HEADER_SIZE)) mem)
            (FSW_HTTP2_FRAME_HEADER_SIZE + payload_length f)
            (Client.set_sock (CoSocket.set_write_buf (mkBuffer (_size b) (_length b) mem) s) c) k)
    end).

(** [connect(host, port)]: [made] is the new socket and [pton] what
    [inet_pton] returns. *)
Definition connect (made : cosocket) (pton : Z) c (k : bool → client D I → prog U) : prog U :=
  match sock c with
  | Some _ => k true c
  | None =>
      if pton =? 0 then Act (λ _, Exit)
      else
        SocketLoop.connect_loop (K := K) stop fuel (fd (sk made)) (λ ret,
          if ret <? 0 then set_err made (λ s, k false (Client.set_sock s c))
          else if negb (ret =? 0) then k false (Client.set_sock made c)
          else greet (Client.set_sock made c) k)
  end.

(** [sock->recv(buf + off, len)] on the array of the read buffer. *)
Definition recv_at (off len : Z) (s : cosocket) (k : Z → cosocket → prog U) : prog U :=
  let '(b, s) := CoSocket.get_read_buf s in
  SocketLoop.recv_loop (K := K) stop i32 fuel (fd (sk s)) (_buffer b) off len (λ ret mem,
    k ret (CoSocket.set_read_buf (mkBuffer (_size b) (_length b) mem) s)).

(** [recv_frame(frame)] *)
Definition recv_frame c (k : Http2Frame.frame → option nat → client D I → prog U) : prog U :=
  match sock c with
  | None => Act (λ _, UB)
  | Some s =>
      recv_at 0 FSW_HTTP2_FRAME_HEADER_SIZE s (λ _ s,
        compute (Codec.get_payload_length (Client.read_array s)) (λ payload_length,
          recv_at FSW_HTTP2_FRAME_HEADER_SIZE payload_length s (λ _ s,
            compute (Codec.fetch_frame (Client.read_array s) payload_length) (λ f,
              k f (Client.get_stream (stream_id f) c) (Client.set_sock s c)))))
  end.

(** nghttp2, and what the array of the acknowledgement holds. *)
Variable change_table_size : D → Z → Z * D.
Variable inflate_hd : I → bytes → Z * option (bytes * bytes) * bool * I.
Variable inflate_end_headers : I → I.
Variable ack_buf : bytes.

(** [parse_setting_frame(frame)] *)
Definition parse_setting_frame (f : Http2Frame.frame) c (k : Z → client D I → prog U) : prog U :=
  match Codec.parse_settings change_table_size (S (Z.to_nat (payload_length f))) (Client.frame_memory c)
          (payload f) (payload_length f) 0 (deflater c) (remote_settings c) with
  | None => Act (λ _, UB)
  | Some r =>
      compute r (λ '(value, ok, d, remote),
        let c := Client.set_remote remote d c in
        if negb ok then k FSW_ERR c
        else
          compute (Codec.set_frame_header ack_buf FSW_HTTP2_TYPE_SETTINGS 0 FSW_HTTP2_FLAG_ACK (stream_id f)) (λ ack,
            send ack FSW_HTTP2_FRAME_HEADER_SIZE c (λ sent c, k (if negb sent then FSW_ERR else i32 value) c)))
  end.

(** [parse_frame(frame)]: the settings may wait; the other frames are left
    alone, or parsed as in Http2Client. *)
Definition parse_frame (turns : nat) (f : Http2Frame.frame) (p : option nat) c
    (k : fswReturn_code → client D I → prog U) : prog U :=
  let noted := if last_stream_id c <? next_stream_id c then Client.set_ids (next_stream_id c) (next_stream_id c) c else c in
  if type f =? FSW_HTTP2_TYPE_SETTINGS then parse_setting_frame f noted (λ _ c, k FSW_CONTINUE c)
  else if Client.ignored (type f) then k FSW_CONTINUE noted
  else
    match Client.parse_frame change_table_size inflate_hd inflate_end_headers ack_buf turns f p c with
    | Some r => compute r (λ '(ret, c), k ret c)
    | None => stop
    end.

(** [recv_reponse()] *)
Fixpoint recv_reponse (turns : nat) c (k : response → client D I → prog U) : prog U :=
  match turns with
  | O => stop
  | S turns =>
      recv_frame c (λ f p c,
        parse_frame turns f p c (λ ret c,
          if bool_decide (ret = FSW_READY) then compute (Client.deref p c) (λ st, k (st_response st) c)
          else recv_reponse turns c k))
  end.
End http2_exchange.
End Http2Exchange.

(** ** What the programs reach when the waits are granted *)
Module Http2ExchangeFacts.
Import SocketLoop SocketLoopFacts Http2LoopFacts Http2Exchange.
Section facts.
Context {U K TQ : Type} `{!PQueue co_timer CompareTimerPointer TQ} `{!Epoll K}.
Context `{!Part Event U} `{!Part (time_state TQ) U} `{!Part K U} `{!Part table U} `{!Part scratch U}.
Context {D I : Type}.
Implicit Types (c : client D I) (p : prog U) (s : CoSocket.sock) (mem : bytes).
Variables (stop : prog U) (fuel : nat) (fd n : Z).

(** [p] gets to [q], the descriptor to [s'], and the array keeps its first [n]
    bytes. *)
Definition reaches p s mem q s' : Prop :=
  leads (K := K) (D := D) (I := I) (λ b, b = true) fd (λ _ _, True) n p s mem (λ p' s1 mem' _, p' = q ∧ s1 = s' ∧ keeps n mem mem').

Lemma reaches_refl p s mem : reaches p s mem p s.
Proof. by apply leads_done. Qed.

Lemma reaches_trans p s mem q s' q2 s2 :
  reaches p s mem q s' → (∀ mem', reaches q s' mem' q2 s2) → reaches p s mem q2 s2.
Proof.
  intros H H2. eapply frames_bind; [done|exact H|]. intros p' s1 mem' l (-> & -> & Hk).
  eapply frames_bind; [done|apply H2|]. intros p' s3 mem2 l2 (-> & -> & Hk2). apply leads_done.
  split_and!; [done|done|by eapply keeps_trans].
Qed.

Lemma reaches_compute {A} (o : outcome A) k a s mem q s' :
  o = Ok a → reaches (k a) s mem q s' → reaches (HttpLoop.compute o k) s mem q s'.
Proof. intros E H. by eapply leads_compute. Qed.

Lemma reaches_call {A} (f : CoSocket.sock → outcome (A * CoSocket.sock)) k s mem a s1 q s' :
  f s = Ok (a, s1) → reaches (k a (errno s1)) s1 mem q s' → reaches (on_socket fd f k) s mem q s'.
Proof. intros E H. by eapply leads_call. Qed.

Lemma reaches_wait w k s mem q s' :
  (∀ mem', reaches (k true) s mem' q s') → reaches (EventLoop.wait_event (K := K) fd w k) s mem q s'.
Proof.
  intros H. apply leads_wait. intros ok mem' -> Hk. eapply frames_bind; [done|apply H|].
  intros p s1 m l (-> & -> & Hk'). apply leads_done. split_and!; [done|done|by eapply keeps_trans].
Qed.

(** A wait of CoSocket with nothing in the script. *)
Lemma granted ev s wd : CoSocket.wait_event ev (scripted s [] wd) = (true, scripted s [] (wd ++ [ev])).
Proof. done. Qed.

Lemma recv_shorter s buf off len ret buf' s' : Socket.recv s buf off len = Ok (ret, buf', s') → shorter s s'.
Proof.
  unfold Socket.recv, shorter. intros H. destruct (rx s) as [|[d|e] l] eqn:E; [injection H as _ _ <-; rewrite E; lia| |injection H as _ _ <-; cbn; lia].
  cbv zeta in H. apply outcome_bind_inv in H as (b & _ & H). injection H as _ _ <-. cbn. destruct (drop _ d); cbn; lia.
Qed.

(** What CoSocket returns from a descriptor, the programs reach: the form of
    the statements below. *)
Definition runs (s : CoSocket.sock) (s2 : CoSocket.sock) p q : Prop :=
  ∃ s' wd, s2 = scripted s' [] wd ∧ shorter s s' ∧ ∀ mem, reaches p s mem q s'.

Lemma runs_done s wd p : runs s (scripted s [] wd) p p.
Proof. exists s, wd. split; [done|]. split; [done|]. intros mem. apply reaches_refl. Qed.

Lemma runs_step {A} (f : CoSocket.sock → outcome (A * CoSocket.sock)) k s a s1 s2 q :
  f s = Ok (a, s1) → shorter s s1 → runs s1 s2 (k a (errno s1)) q → runs s s2 (on_socket fd f k) q.
Proof.
  intros E Hsh (s' & wd & -> & Hsh' & H). exists s', wd. split; [done|]. split; [by eapply shorter_trans|].
  intros mem. by eapply reaches_call.
Qed.

Lemma runs_wait w k s s2 q : runs s s2 (k true) q → runs s s2 (EventLoop.wait_event (K := K) fd w k) q.
Proof.
  intros (s' & wd & -> & Hsh & H). exists s', wd. split; [done|]. split; [done|]. intros mem. by apply reaches_wait.
Qed.

Lemma recv_loop_runs w off len k : ∀ turns fuel s wd buf ret buf' s2, (turns ≤ fuel)%nat →
  CoSocket.recv_loop w turns (scripted s [] wd) buf off len = Some (Ok (ret, buf', s2)) →
  runs s s2 (recv_loop (K := K) stop w fuel fd buf off len k) (k ret buf').
Proof.
  induction turns as [|turns IH]; intros [|fuel'] s wd buf ret buf' s2 Hf H; [done|done|lia|]. cbn [CoSocket.recv_loop recv_loop] in *.
  rewrite recv_scripted in H. destruct (Socket.recv s buf off len) as [[[r b] s1]| |] eqn:E; [|done..]. rewrite outcome_bind_ok in H.
  cbv zeta in H. cbn [errno scripted] in H.
  eapply runs_step; [by rewrite E|by eapply recv_shorter|]. cbv beta iota zeta.
  destruct ((w r <? 0) && (errno s1 =? EAGAIN)).
  - apply runs_wait. rewrite granted in H. by eapply IH; [lia|].
  - injection H as <- <- <-. apply runs_done.
Qed.

Lemma send_loop_runs w ev buf off len k : ∀ turns fuel s wd ret s2, (turns ≤ fuel)%nat →
  CoSocket.send_loop w turns ev (scripted s [] wd) buf off len = Some (Ok (ret, s2)) →
  runs s s2 (send_loop (K := K) stop w fuel ev fd buf off len k) (k ret).
Proof.
  induction turns as [|turns IH]; intros [|fuel'] s wd ret s2 Hf H; [done|done|lia|]. cbn [CoSocket.send_loop send_loop] in *.
  rewrite send_scripted in H. destruct (Socket.send s buf off len) as [[r s1]| |] eqn:E; [|done..]. rewrite outcome_bind_ok in H.
  cbv zeta in H. cbn [errno scripted] in H.
  eapply runs_step; [by rewrite E|by eapply send_shorter|]. cbv beta iota zeta.
  destruct ((w r <? 0) && (errno s1 =? EAGAIN)).
  - apply runs_wait. rewrite granted in H. by eapply IH; [lia|].
  - injection H as <- <-. apply runs_done.
Qed.

Lemma runs_then s s1 s2 p q r :
  runs s s1 p q → (∀ s' wd, s1 = scripted s' [] wd → runs s' s2 q r) → runs s s2 p r.
Proof.
  intros (s' & wd' & E & Hsh & H) H2. destruct (H2 s' wd' E) as (s3 & wd3 & -> & Hsh3 & H3).
  exists s3, wd3. split; [done|]. split; [by eapply shorter_trans|]. intros mem. eapply reaches_trans; [apply H|exact H3].
Qed.

Lemma send_all_loop_runs buf len k : ∀ turns fuel total s wd ret s2, (turns ≤ fuel)%nat →
  CoSocket.send_all_loop turns (scripted s [] wd) buf total len = Some (Ok (ret, s2)) →
  runs s s2 (send_all_loop (K := K) stop fuel fd buf total len k) (k ret).
Proof.
  induction turns as [|turns IH]; intros [|fuel'] total s wd ret s2 Hf H; [done|done|lia|]. cbn [CoSocket.send_all_loop send_all_loop] in *.
  destruct (CoSocket.send_loop _ turns _ _ _ _ _) as [[[r s1]| |]|] eqn:E; [|done..].
  eapply runs_then; [by eapply send_loop_runs; [|exact E]; lia|]. intros s' wd' ->. cbv beta zeta in *.
  destruct (r <=? 0); [injection H as <- <-; apply runs_done|].
  destruct (u64 (total + r) =? len); [injection H as <- <-; apply runs_done|]. by eapply IH; [lia|].
Qed.

Lemma call_shorter s : shorter s (Socket.call s).2.
Proof. unfold Socket.call, shorter. destruct (calls s) as [|[r|e] l]; cbn; lia. Qed.

Lemma call_loop_runs pending ev k : ∀ turns fuel s wd ret s2, (turns ≤ fuel)%nat →
  call_script pending ev turns (scripted s [] wd) = Some (ret, s2) →
  runs s s2 (call_loop (K := K) stop pending ev fuel fd k) (k ret).
Proof.
  induction turns as [|turns IH]; intros [|fuel'] s wd ret s2 Hf H; [done|done|lia|]. cbn [call_script call_loop] in *.
  rewrite call_scripted in H. pose proof (call_shorter s) as Hsh.
  destruct (Socket.call s) as [r s1] eqn:E. cbn [fst snd errno scripted] in *.
  eapply runs_step; [by rewrite E|done|]. cbv beta iota zeta. destruct ((r <? 0) && (errno s1 =? pending)).
  - apply runs_wait. rewrite granted in H. by eapply IH; [lia|].
  - injection H as <- <-. apply runs_done.
Qed.

(** ** The client

    The same for an operation of a client whose socket is the descriptor: [c2]
    is what Http2Client makes of the client. *)
Definition on_fd c : Prop := ∃ cs, sock c = Some cs ∧ CoSocket.fd (sk cs) = fd.
Definition enough s : Prop := (S (S (length (tx s))) ≤ fuel)%nat ∧ (S (length (rx s)) ≤ fuel)%nat.
Lemma enough_shorter s s' : enough s → shorter s s' → enough s'.
Proof. unfold enough, shorter. lia. Qed.

Definition client_runs s (c2 : client D I) p (q : client D I → prog U) : Prop :=
  ∃ c' s' wd m, c2 = as_seen (scripted s' [] wd) m c' ∧ on_fd c' ∧ shorter s s' ∧ ∀ mem, reaches p s mem (q c') s'.

Lemma client_runs_done c s wd m (q : client D I → prog U) : on_fd c → client_runs s (as_seen (scripted s [] wd) m c) (q c) q.
Proof. intros H. exists c, s, wd, m. split; [done|]. split; [done|]. split; [done|]. intros mem. apply reaches_refl. Qed.

Lemma client_runs_then s c1 c2 p q r :
  client_runs s c1 p q →
  (∀ c s' wd m, c1 = as_seen (scripted s' [] wd) m c → on_fd c → shorter s s' → client_runs s' c2 (q c) r) →
  client_runs s c2 p r.
Proof.
  intros (c' & s' & wd' & m & E & Hfd & Hsh & H) H2.
  destruct (H2 c' s' wd' m E Hfd Hsh) as (c3 & s3 & wd3 & m3 & -> & Hfd3 & Hsh3 & H3).
  exists c3, s3, wd3, m3. split; [done|]. split; [done|]. split; [by eapply shorter_trans|].
  intros mem. eapply reaches_trans; [apply H|exact H3].
Qed.

Lemma client_runs_compute {A} (o : outcome A) k a s c2 q :
  o = Ok a → client_runs s c2 (k a) q → client_runs s c2 (HttpLoop.compute o k) q.
Proof.
  intros E (c' & s' & wd' & m & -> & Hfd & Hsh & H). exists c', s', wd', m. split; [done|]. split; [done|]. split; [done|].
  intros mem. by eapply reaches_compute.
Qed.

Lemma send_runs buf len c s wd m ok c2 k : on_fd c → enough s →
  Client.send buf len (as_seen (scripted s [] wd) m c) = Ok (ok, c2) →
  client_runs s c2 (send (K := K) stop fuel buf len c k) (k ok).
Proof.
  intros (cs & Hs & Hfd) [Hf _] H. unfold Client.send, as_seen in H. rewrite Hs in H. cbn [sock fmap option_fmap option_map sk CoSocket.set_sk tx scripted] in H.
  destruct (CoSocket.send_all _ _ buf len) as [o|] eqn:E; [|done]. apply outcome_bind_inv in H as ([ret k2] & -> & H). injection H as <- <-.
  unfold send. rewrite Hs, Hfd. destruct (send_all_loop_runs buf len (λ ret, k (ret =? i64 len) c) _ fuel 0 s wd ret k2 Hf E) as (s' & wd' & -> & Hsh & HL).
  exists c, s', wd', m. split; [unfold as_seen; by rewrite Hs|]. split; [by exists cs|]. by split.
Qed.

Lemma read_buf_seen s cs :
  CoSocket.get_read_buf (CoSocket.set_sk s cs) = ((CoSocket.get_read_buf cs).1, CoSocket.set_sk s (CoSocket.get_read_buf cs).2).
Proof. unfold CoSocket.get_read_buf. cbn. by destruct (cread_buf cs). Qed.
Lemma write_buf_seen s cs :
  CoSocket.get_write_buf (CoSocket.set_sk s cs) = ((CoSocket.get_write_buf cs).1, CoSocket.set_sk s (CoSocket.get_write_buf cs).2).
Proof. unfold CoSocket.get_write_buf. cbn. by destruct (cwrite_buf cs). Qed.

Lemma recv_at_runs off len cs s wd ret cs2 (k : Z → cosocket → prog U) : CoSocket.fd (sk cs) = fd → enough s →
  Client.recv_at off len (CoSocket.set_sk (scripted s [] wd) cs) = Ok (ret, cs2) →
  ∃ cs' s' wd', cs2 = CoSocket.set_sk (scripted s' [] wd') cs' ∧ CoSocket.fd (sk cs') = fd ∧ shorter s s' ∧
    ∀ mem, reaches (recv_at (K := K) stop fuel off len cs k) s mem (k ret cs') s'.
Proof.
  intros Hfd [_ Hf] H. unfold Client.recv_at, recv_at in *. rewrite read_buf_seen in H.
  assert (Hfd' : CoSocket.fd (sk (CoSocket.get_read_buf cs).2) = fd) by (unfold CoSocket.get_read_buf; by destruct (cread_buf cs)).
  destruct (CoSocket.get_read_buf cs) as [b cs1]. cbn [fst snd sk CoSocket.set_sk] in *. rewrite Hfd'.
  change (rx (scripted s [] wd)) with (rx s) in H.
  destruct (CoSocket.recv_loop _ _ _ _ _ _) as [o|] eqn:E; [|done]. apply outcome_bind_inv in H as ([[ret2 mem2] k2] & -> & H). injection H as <- <-.
  destruct (recv_loop_runs i32 off len (λ ret mem, k ret (CoSocket.set_read_buf (mkBuffer (_size b) (_length b) mem) cs1)) _ fuel s wd _ _ _ _ Hf E)
    as (s' & wd' & -> & Hsh & HL).
  eexists _, s', wd'. split; [|split; [|split; [exact Hsh|exact HL]]]; done.
Qed.

(** What a pure function does to the client, it does whatever the descriptor and
    the array are. *)
Lemma memory_seen s m c : Client.frame_memory (as_seen s m c) = Client.frame_memory c.
Proof. unfold Client.frame_memory, as_seen. cbn [sock]. by destruct (sock c). Qed.

Lemma recv_frame_runs c s wd m f sp c2 (k : Http2Frame.frame → option nat → client D I → prog U) : on_fd c → enough s →
  Client.recv_frame (as_seen (scripted s [] wd) m c) = Ok (f, sp, c2) →
  client_runs s c2 (recv_frame (K := K) stop fuel c k) (k f sp).
Proof.
  intros (cs & Hs & Hfd) Hf H. unfold Client.recv_frame, as_seen, recv_frame in *. rewrite Hs in H. cbn [sock fmap option_fmap option_map] in H. rewrite Hs.
  apply outcome_bind_inv in H as ([r1 cs1] & H1 & H). apply outcome_bind_inv in H as (pl & Hpl & H).
  apply outcome_bind_inv in H as ([r2 cs2] & H2 & H). apply outcome_bind_inv in H as (f' & Hff & H). injection H as <- <- <-.
  set (kf := λ x, HttpLoop.compute (Codec.fetch_frame (Client.read_array x) pl) (λ f, k f (Client.get_stream (stream_id f) c) (Client.set_sock x c))).
  destruct (recv_at_runs 0 FSW_HTTP2_FRAME_HEADER_SIZE cs s wd r1 cs1
    (λ _ x, HttpLoop.compute (Codec.get_payload_length (Client.read_array x)) (λ payload_length,
          recv_at (K := K) stop fuel FSW_HTTP2_FRAME_HEADER_SIZE payload_length x (λ _ x,
            HttpLoop.compute (Codec.fetch_frame (Client.read_array x) payload_length) (λ f,
              k f (Client.get_stream (stream_id f) c) (Client.set_sock x c))))) Hfd Hf H1) as (ca & sa & wda & -> & Hfa & Hsha & HLa).
  destruct (recv_at_runs FSW_HTTP2_FRAME_HEADER_SIZE pl ca sa wda r2 cs2 (λ _, kf) Hfa (enough_shorter _ _ Hf Hsha) H2)
    as (cb & sb & wdb & -> & Hfb & Hshb & HLb).
  eexists (Client.set_sock cb c), sb, wdb, m. split; [done|]. split; [by exists cb|]. split; [by eapply shorter_trans|].
  intros mem. eapply reaches_trans; [apply HLa|]. intros mem'. eapply reaches_compute; [exact Hpl|].
  eapply reaches_trans; [apply HLb|]. intros mem2. unfold kf. eapply reaches_compute; [exact Hff|]. apply reaches_refl.
Qed.

Context (change_table_size : D → Z → Z * D) (inflate_hd : I → bytes → Z * option (bytes * bytes) * bool * I).
Context (inflate_end_headers : I → I) (ack_buf : bytes).

Lemma parse_setting_frame_runs f c s wd m r c2 (k : Z → client D I → prog U) : on_fd c → enough s →
  Client.parse_setting_frame change_table_size ack_buf f (as_seen (scripted s [] wd) m c) = Ok (r, c2) →
  client_runs s c2 (parse_setting_frame (K := K) stop fuel change_table_size ack_buf f c k) (k r).
Proof.
  intros Hfd Hf H. unfold Client.parse_setting_frame, parse_setting_frame in *. rewrite memory_seen in H.
  cbn [deflater remote_settings as_seen] in H. destruct (Codec.parse_settings _ _ _ _ _ _ _ _) as [o|]; [|done].
  apply outcome_bind_inv in H as ([[[value ok] d] remote] & -> & H). eapply client_runs_compute; [done|]. cbv beta iota zeta in *.
  destruct (negb ok); [injection H as <- <-; apply (client_runs_done (Client.set_remote remote d c)); exact Hfd|].
  apply outcome_bind_inv in H as (ack & Ha & H). eapply client_runs_compute; [exact Ha|]. apply outcome_bind_inv in H as ([sent c3] & H1 & H). injection H as <- <-.
  eapply client_runs_then; [eapply (send_runs _ _ (Client.set_remote remote d c)); [exact Hfd|exact Hf|exact H1]|].
  intros c' s' wd' m' -> Hfd' _. apply client_runs_done. exact Hfd'.
Qed.

(** [F], with a result or without, does to the client what it does to the
    client as seen. *)
Definition blind {A} (F : client D I → outcome (A * client D I)) : Prop :=
  ∀ c s m r c2, F (as_seen s m c) = Ok (r, c2) → ∃ c1, F c = Ok (r, c1) ∧ c2 = as_seen s m c1 ∧ sock c1 = sock c.

Lemma update_seen sp g s m c : Client.update_stream sp g (as_seen s m c) = as_seen s m (Client.update_stream sp g c).
Proof. by destruct sp. Qed.
Lemma update_sock sp g c : sock (Client.update_stream sp g c) = sock c.
Proof. by destruct sp. Qed.

Lemma parse_payload_blind f sp : blind (λ c, c ← Client.parse_payload f sp c; Ok (tt, c)).
Proof.
  intros c s m [] c2 H. apply outcome_bind_inv in H as (c3 & H & H3). injection H3 as <-. unfold Client.parse_payload in *.
  apply outcome_bind_inv in H as (st & Hst & H). change (Client.deref sp c = Ok st) in Hst. rewrite Hst, outcome_bind_ok. cbv zeta in *.
  rewrite memory_seen in H. destruct (0 <? payload_length f).
  - apply outcome_bind_inv in H as (b & Hb & H). rewrite Hb, !outcome_bind_ok. injection H as <-.
    eexists. split; [reflexivity|]. split; [|by rewrite update_sock]. exact (update_seen sp _ s m (Client.set_local _ c)).
  - injection H as <-. rewrite outcome_bind_ok. eexists. split; [reflexivity|]. split; [apply update_seen|apply update_sock].
Qed.

Lemma end_of_stream_blind f sp value : blind (Client.end_of_stream f sp value).
Proof.
  intros c s m r c2 H. unfold Client.end_of_stream in *. apply outcome_bind_inv in H as (st & Hst & H).
  change (Client.deref sp c = Ok st) in Hst. rewrite Hst, outcome_bind_ok. cbv zeta in *.
  destruct (st_buffer _) as [b|]; [destruct (0 <? _length b)|].
  - apply outcome_bind_inv in H as (body & Hb & H). apply outcome_bind_inv in H as (b' & Hb' & H). injection H as <- <-.
    rewrite Hb, outcome_bind_ok, Hb', outcome_bind_ok. eexists. split; [reflexivity|]. split; [apply update_seen|apply update_sock].
  - injection H as <- <-. eexists. split; [reflexivity|]. split; [apply update_seen|apply update_sock].
  - injection H as <- <-. eexists. split; [reflexivity|]. split; [apply update_seen|apply update_sock].
Qed.

Lemma parse_header_seen turns f sp c s m r c2 :
  Client.parse_frame_header inflate_hd inflate_end_headers turns f sp (as_seen s m c) = Some (Ok (r, c2)) →
  ∃ c1, Client.parse_frame_header inflate_hd inflate_end_headers turns f sp c = Some (Ok (r, c1)) ∧ c2 = as_seen s m c1 ∧ sock c1 = sock c.
Proof.
  unfold Client.parse_frame_header. change (Client.deref sp (as_seen s m c)) with (Client.deref sp c). rewrite memory_seen.
  destruct (Client.deref sp c) as [st| |]; [|done..]. cbn [inflater as_seen]. destruct (Client.inflate_loop _ _ _ _ _ _ _ _ _) as [o|]; [|done].
  intros H. injection H as H. apply outcome_bind_inv in H as ([[ret i] r'] & -> & H). injection H as <- <-. by eexists.
Qed.

Lemma parse_frame_seen turns f sp c s m r c2 :
  (type f =? FSW_HTTP2_TYPE_SETTINGS) = false → Client.ignored (type f) = false →
  Client.parse_frame change_table_size inflate_hd inflate_end_headers ack_buf turns f sp (as_seen s m c) = Some (Ok (r, c2)) →
  ∃ c1, Client.parse_frame change_table_size inflate_hd inflate_end_headers ack_buf turns f sp c = Some (Ok (r, c1)) ∧
    c2 = as_seen s m c1 ∧ sock c1 = sock c.
Proof.
  intros Et Ei. unfold Client.parse_frame. rewrite Et, Ei.
  assert (E : (if last_stream_id (as_seen s m c) <? next_stream_id (as_seen s m c)
      then Client.set_ids (next_stream_id (as_seen s m c)) (next_stream_id (as_seen s m c)) (as_seen s m c) else as_seen s m c) =
    as_seen s m (if last_stream_id c <? next_stream_id c then Client.set_ids (next_stream_id c) (next_stream_id c) c else c))
    by (cbn [last_stream_id next_stream_id as_seen]; by destruct (_ <? _)).
  rewrite E. set (c0 := if last_stream_id c <? _ then _ else _). assert (Hc0 : sock c0 = sock c) by (unfold c0; by destruct (_ <? _)).
  rewrite <- Hc0. clearbody c0. clear E Hc0.
  assert (Hend : ∀ c1, sock c1 = sock c0 →
    (if negb (Z.land (flags f) FSW_HTTP2_FLAG_END_STREAM =? 0) || (type f =? FSW_HTTP2_TYPE_RST_STREAM) || (type f =? FSW_HTTP2_TYPE_GOAWAY)
     then Client.end_of_stream f sp 0 (as_seen s m c1) else Ok (FSW_CONTINUE, as_seen s m c1)) = Ok (r, c2) →
    ∃ c3, (if negb (Z.land (flags f) FSW_HTTP2_FLAG_END_STREAM =? 0) || (type f =? FSW_HTTP2_TYPE_RST_STREAM) || (type f =? FSW_HTTP2_TYPE_GOAWAY)
     then Client.end_of_stream f sp 0 c1 else Ok (FSW_CONTINUE, c1)) = Ok (r, c3) ∧ c2 = as_seen s m c3 ∧ sock c3 = sock c0).
  { intros c1 Hs. destruct (_ || _).
    - intros H. apply end_of_stream_blind in H as (c3 & H & -> & H3). exists c3. by rewrite H3.
    - intros [= <- <-]. by exists c1. }
  destruct (type f =? FSW_HTTP2_TYPE_HEADERS); [|destruct (type f =? FSW_HTTP2_TYPE_DATA)].
  - destruct (Client.parse_frame_header _ _ _ _ _ (as_seen _ _ _)) as [[[ret c1]| |]|] eqn:E1; [|done..].
    apply parse_header_seen in E1 as (c3 & -> & -> & Hs). cbn [fmap]. intros H. injection H as H.
    apply Hend in H as (c4 & H & ? & ?); [|done]. exists c4. by rewrite <- H.
  - intros H. injection H as H. apply outcome_bind_inv in H as (c1 & H1 & H).
    destruct (parse_payload_blind f sp c0 s m tt c1) as (c3 & H3 & -> & Hs); [by rewrite H1|].
    apply outcome_bind_inv in H3 as (c4 & -> & H3). injection H3 as <-. rewrite outcome_bind_ok.
    apply Hend in H as (c5 & -> & ? & ?); [|done]. by exists c5.
  - rewrite !outcome_bind_ok. intros H. injection H as H. apply Hend in H as (c5 & -> & ? & ?); [|done]. by exists c5.
Qed.

Lemma parse_frame_runs turns f sp c s wd m r c2 (k : fswReturn_code → client D I → prog U) : on_fd c → enough s →
  Client.parse_frame change_table_size inflate_hd inflate_end_headers ack_buf turns f sp (as_seen (scripted s [] wd) m c) = Some (Ok (r, c2)) →
  client_runs s c2 (parse_frame (K := K) stop fuel change_table_size inflate_hd inflate_end_headers ack_buf turns f sp c k) (k r).
Proof.
  intros Hfd Hf H. unfold parse_frame. cbv zeta.
  destruct (type f =? FSW_HTTP2_TYPE_SETTINGS) eqn:Et; [|destruct (Client.ignored (type f)) eqn:Ei].
  1,2: set (c0 := if last_stream_id c <? _ then _ else _); assert (Hfd0 : on_fd c0) by (unfold c0; by destruct (_ <? _));
    assert (E : (if last_stream_id (as_seen (scripted s [] wd) m c) <? next_stream_id (as_seen (scripted s [] wd) m c)
      then Client.set_ids (next_stream_id (as_seen (scripted s [] wd) m c)) (next_stream_id (as_seen (scripted s [] wd) m c)) (as_seen (scripted s [] wd) m c)
      else as_seen (scripted s [] wd) m c) = as_seen (scripted s [] wd) m c0)
      by (unfold c0; cbn [last_stream_id next_stream_id as_seen]; by destruct (_ <? _));
    unfold Client.parse_frame in H; rewrite Et in H; rewrite ?Ei in H; rewrite E in H; clearbody c0; injection H as H.
  - apply outcome_bind_inv in H as ([v c3] & H & H3). injection H3 as <- <-.
    eapply client_runs_then; [eapply parse_setting_frame_runs; [exact Hfd0|exact Hf|exact H]|].
    intros c' s' wd' m' -> Hfd' _. by apply client_runs_done.
  - subst r c2. by apply client_runs_done.
  - apply parse_frame_seen in H as (c1 & H & -> & Hs); [|done..]. rewrite H. eapply client_runs_compute; [done|].
    apply client_runs_done. destruct Hfd as (cs & Hc & Hcs). exists cs. by rewrite Hs.
Qed.

Lemma recv_reponse_runs (k : response → client D I → prog U) : ∀ turns c s wd m r c2, on_fd c → enough s →
  Client.recv_reponse change_table_size inflate_hd inflate_end_headers ack_buf turns (as_seen (scripted s [] wd) m c) = Some (Ok (r, c2)) →
  client_runs s c2 (recv_reponse (K := K) stop fuel change_table_size inflate_hd inflate_end_headers ack_buf turns c k) (k r).
Proof.
  induction turns as [|turns IH]; intros c s wd m r c2 Hfd Hf H; [done|]. cbn [Client.recv_reponse recv_reponse] in *.
  destruct (Client.recv_frame _) as [[[f sp] c1]| |] eqn:E1; [|done..].
  eapply client_runs_then; [eapply recv_frame_runs; [exact Hfd|exact Hf|exact E1]|]. intros c' s' wd' m' -> Hfd' Hsh. cbv beta.
  pose proof (enough_shorter _ _ Hf Hsh) as Hf'.
  destruct (Client.parse_frame _ _ _ _ _ _ _ _) as [[[ret c3]| |]|] eqn:E2; [|done..].
  eapply client_runs_then; [eapply parse_frame_runs; [exact Hfd'|exact Hf'|exact E2]|]. intros c4 s4 wd4 m4 -> Hfd4 Hsh4. cbv beta.
  destruct (bool_decide (ret = FSW_READY)).
  - injection H as H. apply outcome_bind_inv in H as (st & Hst & H). injection H as <- <-.
    eapply client_runs_compute; [exact Hst|]. by apply client_runs_done.
  - eapply IH; [exact Hfd4|by eapply enough_shorter|exact H].
Qed.

(** Connecting. *)
Lemma greet_runs cs c s wd m ok c2 (k : bool → client D I → prog U) : sock c = Some cs → CoSocket.fd (sk cs) = fd → enough s →
  ('(ok, c) ← Client.send FSW_HTTP2_PRI_STRING (strl_literal FSW_HTTP2_PRI_STRING) (as_seen (scripted s [] wd) m c);
   if negb ok then Ok (false, c)
   else match sock c with
   | None => UB
   | Some s =>
       let '(b, s) := CoSocket.get_write_buf s in
       '(f, mem) ← Codec.build_setting_frame (local_settings c) (_buffer b);
       Client.send_frame mem f (Client.set_sock (CoSocket.set_write_buf (mkBuffer (_size b) (_length b) mem) s) c)
   end) = Ok (ok, c2) →
  client_runs s c2 (greet (K := K) stop fuel c k) (k ok).
Proof.
  intros Hs Hfd Hf H. unfold greet. apply outcome_bind_inv in H as ([ok1 c1] & H1 & H).
  eapply client_runs_then; [eapply send_runs; [by exists cs|exact Hf|exact H1]|].
  intros c' s' wd' m' -> (cs' & Hs' & Hfd') Hsh. cbv beta. destruct (negb ok1); [injection H as <- <-; apply client_runs_done; by exists cs'|].
  rewrite Hs'. unfold as_seen in H. cbn [sock local_settings] in H. rewrite Hs' in H. cbn [fmap option_fmap option_map] in H. rewrite write_buf_seen in H.
  assert (Hfd2 : CoSocket.fd (sk (CoSocket.get_write_buf cs').2) = fd) by (unfold CoSocket.get_write_buf; by destruct (cwrite_buf cs')).
  destruct (CoSocket.get_write_buf cs') as [b cs2]. cbn [fst snd] in *. apply outcome_bind_inv in H as ([f mem] & Hb & H).
  eapply client_runs_compute; [exact Hb|]. cbv beta iota.
  eapply (send_runs _ _ (Client.set_sock _ c')); [by eexists|by eapply enough_shorter|exact H].
Qed.

Lemma client_runs_after s s1 c2 p q r :
  runs s s1 p q → (∀ s' wd, s1 = scripted s' [] wd → shorter s s' → client_runs s' c2 q r) → client_runs s c2 p r.
Proof.
  intros (s' & wd' & E & Hsh & H) H2. destruct (H2 s' wd' E Hsh) as (c3 & s3 & wd3 & m3 & -> & Hfd3 & Hsh3 & H3).
  exists c3, s3, wd3, m3. split; [done|]. split; [done|]. split; [by eapply shorter_trans|].
  intros mem. eapply reaches_trans; [apply H|exact H3].
Qed.

Lemma set_err_runs made c s wd m (k : client D I → prog U) : CoSocket.fd (sk made) = fd →
  client_runs s (as_seen (scripted s [] wd) m (Client.set_sock (CoSocket.set_err (CoSocket.set_sk s made)) c))
    (set_err made (λ x, k (Client.set_sock x c))) k.
Proof.
  intros Hfd. set (x := mkCoSocket (sk made) (errno s) (cread_buf made) (cwrite_buf made)).
  exists (Client.set_sock x c), s, wd, m. split; [done|]. split; [by exists x|]. split; [done|].
  intros mem. unfold set_err. rewrite Hfd. eapply reaches_call; [done|]. apply reaches_refl.
Qed.

Lemma connect_runs made pton c s wd m ok c2 (k : bool → client D I → prog U) :
  sock c = None → CoSocket.fd (sk made) = fd → enough s → (S (length (calls s)) ≤ fuel)%nat →
  Client.connect (CoSocket.set_sk (scripted s [] wd) made) pton (as_seen (scripted s [] wd) m c) = Ok (ok, c2) →
  client_runs s c2 (connect (K := K) stop fuel made pton c k) (k ok).
Proof.
  intros Hs Hfd Hf Hc H. unfold Client.connect, connect in *. rewrite Hs. cbn [sock as_seen] in H. rewrite Hs in H. cbn [fmap option_fmap option_map] in H.
  unfold CoSocket.connect_host in H. destruct (pton =? 0); [done|]. unfold CoSocket.connect in H. rewrite Hfd.
  cbn [sk CoSocket.set_sk calls scripted] in H. rewrite connect_script in H.
  destruct (call_script _ _ _ _) as [[ret s1]|] eqn:E; [|done]. cbn [fmap option_fmap option_map] in H. rewrite outcome_bind_ok in H.
  eapply client_runs_after; [by eapply call_loop_runs|]. intros s' wd' -> Hsh. cbv beta.
  destruct (ret <? 0) eqn:E0.
  { rewrite (proj2 (Z.eqb_neq ret 0)) in H by lia. cbn [negb] in H. injection H as <- <-.
    apply (set_err_runs made c s' wd' m (k false)). exact Hfd. }
  destruct (negb (ret =? 0)).
  { injection H as <- <-. apply (client_runs_done (Client.set_sock made c) s' wd' m (k false)). by exists made. }
  eapply (greet_runs made (Client.set_sock made c)); [done|exact Hfd|by eapply enough_shorter|exact H].
Qed.
End facts.
End Http2ExchangeFacts.

(** ** The property *)
Section http2_exchange_properties.
Import Http2LoopFacts Http2ExchangeFacts Session SessionFacts RequestFacts.
Context {U K TQ : Type} `{!PQueue co_timer CompareTimerPointer TQ} `{!Epoll K}.
Context `{!Part Event U} `{!Part (time_state TQ) U} `{!Part K U} `{!Part table U} `{!Part scratch U}.
Context {D I : Type}.
Implicit Types (c : client D I).
Context (deflate_bound : D → list nv → Z) (deflate_hd : D → Z → list nv → Z * bytes * D).
Context (change_table_size : D → Z → Z * D) (inflate_hd : I → bytes → Z * option (bytes * bytes) * bool * I).
Context (inflate_end_headers : I → I) (ack_buf : bytes) (fresh_response : response).

(** The client sends a request and takes the response. *)
Definition exchange (stop : prog U) (fuel turns : nat) (req : request) c (k : response → client D I → prog U) : prog U :=
  Http2Loop.send_request (K := K) stop fuel deflate_bound deflate_hd fresh_response req c (λ _ c,
    Http2Exchange.recv_reponse (K := K) stop fuel change_table_size inflate_hd inflate_end_headers ack_buf turns c k).

(** The request [req] of a client, which nghttp2 compresses to [block], and the
    reply of the peer, frames [fs] and last data [d], fit: the frames into the
    first [n] bytes of the scratch buffer and into the buffers of the client. *)
Definition exchangeable (n : Z) (turns : nat) c (req : request) (block : bytes) (d' : D) (fs : list in_frame) (d : bytes) : Prop :=
  let id := next_stream_id c in
  let v := mkView (remote_settings c) [] (window_size (local_settings c)) FSW_HTTP2_DEFAULT_WINDOW_SIZE [] in
  headers_fit req ∧ body_fits req ∧ rq_body_length req ≤ n - 9 ∧
  deflate_hd (deflater c) (deflate_bound (deflater c) (request_nvs req)) (request_nvs req) = (zlen block, block, d') ∧
  0 < zlen block ≤ n - 9 ∧ streams c !! id = None ∧ 0 ≤ id < 2 ^ 31 ∧
  all_acceptable v fs ∧ acceptable (foldl receive v fs) (InData d) ∧ (Z.to_nat READ_BUF_MAX_SIZE + length fs < turns)%nat.

(** What the peer sends for it, and what is sent to the peer. *)
Definition reply_wire_of c (fs : list in_frame) (d rest : bytes) : bytes :=
  (fs ≫= wire (next_stream_id c)) ++ wire_frame FSW_HTTP2_TYPE_DATA FSW_HTTP2_FLAG_END_STREAM (next_stream_id c) d ++ rest.
Definition request_wire c (req : request) (block : bytes) : bytes :=
  wire_frame FSW_HTTP2_TYPE_HEADERS (header_flags req) (next_stream_id c) block ++
  wire_frame FSW_HTTP2_TYPE_DATA (body_flags req) (next_stream_id c) (body_bytes req).

(** The coroutine goes on with the response; the peer has got [out], the
    request and the acknowledgements. *)
Definition answered c (out : bytes) (req : request) (block : bytes) (fs : list in_frame) (d : bytes)
    (k : response → client D I → prog U) : prog U → CoSocket.sock → bytes → list bool → Prop :=
  λ p s' _ _, ∃ c', p = k (complete fresh_response ((fs ≫= data_of) ++ d)) c' ∧
    sent s' = out ++ request_wire c req block ++ (fs ≫= ack_of) ∧
    remote_settings c' = foldl Rfc9113.update (remote_settings c) (fs ≫= settings_of).

Lemma acceptable_output v v' f : body v = body v' → acceptable v f → acceptable v' f.
Proof. unfold acceptable. intros E. by destruct f; rewrite ?E. Qed.

Lemma receive_body v v' f : body v = body v' → body (receive v f) = body (receive v' f).
Proof. intros E. by rewrite !(proj1 (receive_one _ f)), E. Qed.

Lemma all_acceptable_output d fs : ∀ v v', body v = body v' → all_acceptable v fs → acceptable (foldl receive v fs) (InData d) →
  all_acceptable v' fs ∧ acceptable (foldl receive v' fs) (InData d).
Proof.
  induction fs as [|f fs IH]; intros v v' E; cbn [all_acceptable foldl].
  - intros _ H. split; [done|by eapply acceptable_output].
  - intros [H1 H2] H. destruct (IH (receive v f) (receive v' f) (receive_body _ _ f E) H2 H) as [H3 H4].
    split; [split; [by eapply acceptable_output|done]|done].
Qed.

Context (Htable : ∀ d v, (change_table_size d v).1 = 0) (Hdecoder : decoder_progress inflate_hd) (Hack : zlen ack_buf = 17).

Lemma exchange_leads (stop : prog U) (fuel turns : nat) (fd n : Z) c cs s wd mem req (out block : bytes) (d' : D) fs (d rest : bytes) k :
  sock c = Some cs → CoSocket.fd (sk cs) = fd →
  sock_ok (CoSocket.set_sk (SocketLoopFacts.scripted s [] wd) cs) (reply_wire_of c fs d rest) out →
  enough (S fuel) s → (length (tx s) < fuel)%nat → zlen mem = FSW_STACK_BUFFER_SIZE + 1 → n ≤ FSW_STACK_BUFFER_SIZE + 1 →
  exchangeable n turns c req block d' fs d →
  leads (K := K) (D := D) (I := I) (λ b, b = true) fd (λ _ _, True) n (exchange stop (S fuel) turns req c k) s mem
    (answered c out req block fs d k).
Proof.
  intros Hs Hfd Hok Hen Hf Hz Hn (Hfit & Hbody & Hbn & Hdef & Hb & Hfresh & Hid & Hall & Hlast & Hturns).
  destruct (λ v' E, all_acceptable_output d fs _ v' E Hall Hlast) with (v' := mkView (remote_settings c) [] (window_size (local_settings c))
    FSW_HTTP2_DEFAULT_WINDOW_SIZE (out ++ request_wire c req block)) as [Hall' Hlast']; [done|].
  set (c0 := as_seen (SocketLoopFacts.scripted s [] []) mem c).
  destruct (request_response_exchange deflate_bound deflate_hd change_table_size inflate_hd inflate_end_headers ack_buf fresh_response
    c0 (CoSocket.set_sk (SocketLoopFacts.scripted s [] []) cs) req out block d' fs d rest turns) as (c1 & c2 & s2 & H1 & H2 & Hs2 & Hok2 & Hr);
    try done; [by unfold c0, as_seen; cbn; rewrite Hs|eapply GreetFacts.sock_ok_as; [exact Hok|by rewrite !array_of_set_sk|done..]|lia|].
  eapply frames_bind; [|apply leads_granted, (send_request_leads _ deflate_bound deflate_hd fresh_response stop fuel fd n req c cs _ s mem block d'); try (done || lia)|]; [done|].
  intros p s' mem' l ((r & c' & -> & Hs' & Hsh & H) & Hl). destruct (H [] [] [] (answers_true l Hl)) as (m & wd' & E).
  fold c0 in E. rewrite H1 in E. injection E as <- ->.
  assert (Hrecv : client_runs fd n s' c2 (Http2Exchange.recv_reponse (K := K) stop (S fuel) change_table_size inflate_hd inflate_end_headers ack_buf turns c' k)
    (k (complete fresh_response ((fs ≫= data_of) ++ d)))).
  { eapply recv_reponse_runs; [by exists cs|by eapply enough_shorter|exact H2]. }
  destruct Hrecv as (c3 & s3 & wd3 & m3 & -> & (cs3 & Hc3 & _) & _ & HL).
  eapply frames_bind; [|apply HL|]; [done|]. intros p s4 mem4 l4 (-> & -> & _). apply leads_done. exists c3. split; [done|].
  cbn [sock as_seen] in Hs2. rewrite Hc3 in Hs2. injection Hs2 as <-. split; [|exact Hr].
  pose proof (so_sent _ _ _ Hok2) as E. cbn [output] in E. rewrite <- !app_assoc in E. unfold request_wire. rewrite <- !app_assoc. exact E.
Qed.

Lemma connect_exchange_leads (stop : prog U) (fuel turns : nat) (fd n : Z) c made pton j more s mem req (out block : bytes) (d' : D) fs (d rest : bytes) k :
  sock c = None → pton ≠ 0 → cwrite_buf made = None → CoSocket.fd (sk made) = fd →
  sock_ok (CoSocket.set_sk (SocketLoopFacts.scripted s [] []) made) (reply_wire_of c fs d rest) out →
  calls s = replicate j (CallError EINPROGRESS) ++ CallOk 0 :: more → (length (calls s) ≤ fuel)%nat →
  enough (S fuel) s → (length (tx s) < fuel)%nat → zlen mem = FSW_STACK_BUFFER_SIZE + 1 → n ≤ FSW_STACK_BUFFER_SIZE + 1 →
  exchangeable n turns c req block d' fs d →
  leads (K := K) (D := D) (I := I) (λ b, b = true) fd (λ _ _, True) n
    (Http2Exchange.connect (K := K) stop (S fuel) made pton c (λ ok c, if ok then exchange stop (S fuel) turns req c k else stop)) s mem
    (answered c (out ++ GreetFacts.greeting (local_settings c)) req block fs d k).
Proof.
  intros Hs Hp Hw Hfd Hok Hc Hcf Hen Hf Hz Hn Hex.
  destruct (GreetFacts.connect_sends (as_seen (SocketLoopFacts.scripted s [] []) mem c) (CoSocket.set_sk (SocketLoopFacts.scripted s [] []) made)
    pton j more (reply_wire_of c fs d rest) out) as (s2 & H2 & Hok2); [cbn; by rewrite Hs|done..|].
  destruct (connect_runs stop (S fuel) fd n made pton c s [] mem true _ (λ ok c, if ok then exchange stop (S fuel) turns req c k else stop) Hs Hfd Hen ltac:(lia) H2)
    as (c' & s' & wd & m & E & (cs & Hcs & Hcfd) & Hsh & HL).
  eapply frames_bind; [|apply HL|]; [done|]. intros p s3 mem' l (-> & -> & Hk).
  injection E as E1 E2 E3 _ E5 E6 _ E8 _ _. rewrite Hcs in E1. injection E1 as ->.
  assert (Hout : answered c' (out ++ GreetFacts.greeting (local_settings c)) req block fs d k = answered c (out ++ GreetFacts.greeting (local_settings c)) req block fs d k)
    by (unfold answered, request_wire; by rewrite E3, E6).
  rewrite <- Hout. refine (exchange_leads stop fuel turns fd n c' cs s' wd mem' req _ block d' fs d rest k Hcs Hcfd _ (enough_shorter _ _ _ Hen Hsh) _ _ Hn _).
  - unfold reply_wire_of in *. rewrite <- E6. exact Hok2.
  - apply shorter_tx in Hsh. lia.
  - by rewrite (keeps_zlen _ _ _ Hk).
  - unfold exchangeable in *. by rewrite <- E2, <- E3, <- E5, <- E6, <- E8.
Qed.

(** C10: requests and responses on the scheduler's machine. A client sends a
    request on a fresh stream and receives the response, with each [recv] and
    [send] a call that may suspend the coroutine; its waits are granted, and
    meanwhile the rest of the process may do everything but change the first
    [n] bytes of the scratch buffer. Whenever the peer's frames arrive, one or
    more at a time, and whatever parts the kernel takes ours in, the coroutine
    goes on with the response whose body is the data of the frames; what it has
    sent are the request's two frames and an acknowledgement of each of the
    settings, and the client has the peer's settings. A client that is not
    connected yet and connects before, at once or after any number of waits,
    has sent the preface of the protocol and its own settings before that. *)
Theorem http2_exchange (stop : prog U) (fuel turns : nat) (fd n : Z) (c : client D I) s mem (req : request)
    (out block : bytes) (d' : D) (fs : list in_frame) (d rest : bytes) (k : response → client D I → prog U) :
  let on_socket cs w := CoSocket.fd (sk cs) = fd ∧ sock_ok (CoSocket.set_sk (SocketLoopFacts.scripted s [] []) cs) w out in
  let reaches p Q := leads (K := K) (D := D) (I := I) (λ b, b = true) fd (λ _ _, True) n p s mem Q in
  enough (S fuel) s → (length (tx s) < fuel)%nat → zlen mem = FSW_STACK_BUFFER_SIZE + 1 → n ≤ FSW_STACK_BUFFER_SIZE + 1 →
  exchangeable n turns c req block d' fs d →
  (∀ cs, sock c = Some cs → on_socket cs (reply_wire_of c fs d rest) →
     reaches (exchange stop (S fuel) turns req c k) (answered c out req block fs d k)) ∧
  (∀ made pton j more, sock c = None → pton ≠ 0 → cwrite_buf made = None → on_socket made (reply_wire_of c fs d rest) →
     calls s = replicate j (CallError EINPROGRESS) ++ CallOk 0 :: more → (length (calls s) ≤ fuel)%nat →
     reaches (Http2Exchange.connect (K := K) stop (S fuel) made pton c (λ ok c, if ok then exchange stop (S fuel) turns req c k else stop))
       (answered c (out ++ GreetFacts.greeting (local_settings c)) req block fs d k)).
Proof.
  intros on_socket reaches Hen Hf Hz Hn Hex. split; [intros cs Hs [Hfd Hok]; by eapply exchange_leads|].
  intros made pton j more Hs Hp Hw [Hfd Hok] Hc Hcf. by eapply connect_exchange_leads.
Qed.
End http2_exchange_properties.

(** ** Example: a connection on the event loop *)
Module Http2ExchangeExample.
Import SocketLoop EventExample SocketLoopExample Http2LoopExample Session SessionFacts Http2LoopFacts Http2ExchangeFacts.

Definition talk (c : client unit unit) : prog net2 :=
  exchange (K := simple_kernel) plain_bound plain_encode keep_table plain_decode keep (replicate 17 0) blank Ret 10 1100 post c (λ _ _, Ret).

(** A client in the middle of a connection, and one before it: the connection
    takes a wait. *)
Definition peer : CoSocket.sock := sk (online reply_rx).
Definition new_client : client unit unit := Client.make tt tt zeros.
Definition first_wire : bytes := reply_wire_of new_client reply (str "lo") [].
Definition first_rx : list rx_answer := arriving (wire_frame FSW_HTTP2_TYPE_SETTINGS 0 0 [0; 4; 0; 0; 19; 136]) (drop 15 first_wire).
Definition new_peer : CoSocket.sock := mkSock 5 0 first_rx [TxAccept 3; TxError EAGAIN] [CallError EINPROGRESS; CallOk 0] [] [] [] false.
Definition connecting : prog net2 :=
  Http2Exchange.connect (K := simple_kernel) Ret 10 (CoSocket.make new_peer 0) 1 new_client (λ ok c, if ok then talk c else Ret).

Definition block_of : bytes := str ":methodPOST:path/form:schemehttp:authority127.0.0.1user-agfsw/1.0".
Definition on_wire (id : Z) : bytes :=
  wire_frame FSW_HTTP2_TYPE_HEADERS 4 id block_of ++
  wire_frame FSW_HTTP2_TYPE_DATA 1 id (str "hello") ++ wire_frame FSW_HTTP2_TYPE_SETTINGS FSW_HTTP2_FLAG_ACK 0 [].
Definition greeting_wire : bytes := str "PRI * HTTP/2.0" ++ [13; 10; 13; 10] ++ str "SM" ++ [13; 10; 13; 10] ++
  wire_frame FSW_HTTP2_TYPE_SETTINGS 0 0 [0; 1; 0; 0; 16; 0; 0; 3; 0; 0; 0; 128; 0; 4; 0; 0; 255; 255].
Definition at_end (p : prog net2) (s : CoSocket.sock) : EventLoop.loop :=
  LoopRun.after_with (K := simple_kernel) (TQ := queue) report_all p (mkNet2 (mkNet start (λ _, s)) (mkScratch zeros)) 200.
Definition got (l : @EventLoop.loop net2) : bytes := sent (Sleep.view (T := table) (globals (EventLoop.mach l)) 5).

Lemma first_held : held first_wire first_rx.
Proof.
  assert (first_wire = wire_frame FSW_HTTP2_TYPE_SETTINGS 0 0 [0; 4; 0; 0; 19; 136] ++ drop 15 first_wire) as -> by (vm_compute; reflexivity).
  apply arriving_held. by vm_compute.
Qed.

Lemma post_exchangeable n (c : client unit unit) : 80 ≤ n → remote_settings c = Settings.init → next_stream_id c = 1 ∨ next_stream_id c = 3 →
  streams c !! next_stream_id c = None → exchangeable plain_bound plain_encode n 1100 c post block_of tt reply (str "lo").
Proof.
  intros Hn Hr Hid Hs. unfold exchangeable. assert (Hb : zlen block_of = 65) by (vm_compute; reflexivity). rewrite Hr. match goal with |- context [all_acceptable ?v _] => destruct (reply_ok v eq_refl) as [H1 H2] end.
  refine (conj _ (conj _ (conj _ (conj eq_refl (conj _ (conj Hs (conj _ (conj H1 (conj H2 _))))))))).
  - apply Forall_singleton; split; by vm_compute.
  - split; [split|]; by vm_compute.
  - change (rq_body_length post) with 5. lia.
  - rewrite Hb. lia.
  - lia.
  - vm_compute. lia.
Qed.

Lemma http2_exchange_witness :
  (leads (K := simple_kernel) (D := unit) (I := unit) (λ b, b = true) 5 (λ _ _, True) 80 (talk (client_on reply_rx)) peer zeros
     (λ p s' _ _, p = Ret ∧ sent s' = on_wire 3) ∧
   EventLoop.ph (at_end (talk (client_on reply_rx)) peer) = EventLoop.Returned ∧
   got (at_end (talk (client_on reply_rx)) peer) = on_wire 3) ∧
  leads (K := simple_kernel) (D := unit) (I := unit) (λ b, b = true) 5 (λ _ _, True) 80 connecting new_peer zeros
    (λ p s' _ _, p = Ret ∧ sent s' = greeting_wire ++ on_wire 1) ∧
  EventLoop.ph (at_end connecting new_peer) = EventLoop.Returned ∧ got (at_end connecting new_peer) = greeting_wire ++ on_wire 1.
Proof.
  pose proof (λ c s, http2_exchange (K := simple_kernel) plain_bound plain_encode keep_table plain_decode keep (replicate 17 0) blank
    (λ d v, eq_refl) ltac:(intros i data rv emit final i' E _; injection E as <- _ <- _; split; [lia|tauto]) eq_refl
    Ret 9 1100 5 80 c s zeros post [] block_of tt reply (str "lo") [] (λ _ _, Ret : prog net2)) as H.
  destruct (H (client_on reply_rx) peer ltac:(split; vm_compute; lia) ltac:(vm_compute; lia) zeros_len ltac:(by vm_compute)
    (post_exchangeable 80 (client_on reply_rx) ltac:(lia) eq_refl (or_intror eq_refl) eq_refl)) as [H1 _].
  destruct (H new_client new_peer ltac:(split; vm_compute; lia) ltac:(vm_compute; lia) zeros_len ltac:(by vm_compute)
    (post_exchangeable 80 new_client ltac:(lia) eq_refl (or_introl eq_refl) eq_refl)) as [_ H2].
  specialize (H1 (online reply_rx) eq_refl (conj eq_refl (online_ok reply_wire reply_rx reply_held))).
  assert (Hok : sock_ok (CoSocket.set_sk (SocketLoopFacts.scripted new_peer [] []) (CoSocket.make new_peer 0)) first_wire [])
    by (split; [by vm_compute|exact first_held|by repeat constructor|reflexivity|reflexivity]).
  specialize (H2 (CoSocket.make new_peer 0) 1 1%nat [] eq_refl ltac:(discriminate) eq_refl (conj eq_refl Hok) eq_refl ltac:(vm_compute; lia)).
  split; split; [|split; vm_compute; reflexivity| |split; vm_compute; reflexivity].
  - eapply frames_bind; [|exact H1|]; [done|]. intros p s' mem' l (c' & -> & Hs & _). apply leads_done.
    split; [reflexivity|]. rewrite Hs. vm_compute. reflexivity.
  - eapply frames_bind; [|exact H2|]; [done|]. intros p s' mem' l (c' & -> & Hs & _). apply leads_done.
    split; [reflexivity|]. rewrite Hs. vm_compute. reflexivity.
Defined.
End Http2ExchangeExample.
