(* ===== verification/Http2Process.v ===== *)
(** * Http2Process: an HTTP/2 client in a process with other coroutines
    (src/coroutine/http2/client.cc, src/core/event.cc)

    Http2Exchange says what a client does when nothing touches its frames in
    the scratch buffer while it waits. Here the scratch buffer is a thing that a
    coroutine owns, as it owns its descriptors (Ownership): a client that owns
    it and its descriptor is right on the event loop, whatever the coroutines
    do that own neither. *)

From S2P Require Import Prelude Words StdMap Buffer CoSocket Http2Frame Http2Client Http2Session.
From S2P Require Import Timer Coroutine Waiters Sleep Event Threads Progress SocketLoop Ownership ServerLoop HttpLoop Http2Loop Http2Exchange.
From stdpp Require Import gmap.
#[local] Open Scope Z_scope.

(** The number that the scratch buffer is owned under; no descriptor has it. *)
Definition stack_name : Z := -1.

Module Http2Process.
Import Sched EventLoop SocketLoop SocketLoopFacts Ownership Http2Loop Http2LoopFacts.

#[local] Instance stack_memory {U} `{!Part scratch U} : Memory U | 0 :=
  λ u fd, if fd =? stack_name then stack_mem (Sleep.view u) else [].
#[local] Instance stack_memory_apart {T U} `{!Part T U} `{!Part scratch U} `{!Apart T scratch U} : MemoryApart T U | 0.
Proof. intros t u fd. unfold memory, stack_memory. by rewrite (apart (T := T) (T' := scratch)). Qed.

Section owner.
Context {U K TQ : Type} `{!PQueue co_timer CompareTimerPointer TQ} `{!Epoll K}.
Context `{!Part Event U} `{!Part (time_state TQ) U} `{!Part K U} `{!Part table U} `{!Part scratch U}.
Context `{!Apart Event (time_state TQ) U} `{!Apart Event K U} `{!Apart (time_state TQ) Event U}.
Context `{!Apart (time_state TQ) K U} `{!Apart K Event U} `{!Apart K (time_state TQ) U}.
Context `{!Apart table Event U} `{!Apart table (time_state TQ) U} `{!Apart table K U}.
Context `{!Apart Event table U} `{!Apart (time_state TQ) table U} `{!Apart K table U}.
Context `{!Apart Event scratch U} `{!Apart (time_state TQ) scratch U} `{!Apart K scratch U} `{!Apart table scratch U}.
Context `{!Apart scratch Event U} `{!Apart scratch (time_state TQ) U} `{!Apart scratch K U} `{!Apart scratch table U}.
Context {D I : Type}.
Implicit Types (c : client D I) (p : prog U) (s : CoSocket.sock) (mem : bytes) (cc : Z → cell).

(** A client owns its descriptor and the scratch buffer. *)
Variables (G : Z → bytes → Prop) (E : Z → CoSocket.sock → Prop) (fd : Z).
Context (Hfd : 0 ≤ fd < 2 ^ 31).
Abbreviation safe := (safe (K := K) G E {[fd; stack_name]}).

Definition holds cc s mem : Prop := (cc fd).1 = (s, None) ∧ (cc stack_name).2 = mem.

Lemma holds_cells u cc s mem : agree {[fd; stack_name]} (cells (K := K) u) cc → holds cc s mem →
  Sleep.view (T := table) u fd = s ∧ stack_mem (Sleep.view u) = mem ∧ holds (cells (K := K) u) s mem.
Proof.
  intros Ha [H1 H2]. unfold holds. rewrite !Ha by set_solver. split_and!; [| |done|done].
  - rewrite <- (Ha fd) in H1 by set_solver. by injection H1.
  - by rewrite <- (Ha stack_name) in H2 by set_solver.
Qed.

Lemma stack_frame u mem fd' : fd' ∉ ({[fd; stack_name]} : gset Z) →
  cells (K := K) (set_view (mkScratch mem) u) fd' = cells (K := K) u fd'.
Proof.
  intros H. unfold cells. rewrite (apart (T := scratch) (T' := table)), (apart (T := scratch) (T' := K)).
  unfold memory, stack_memory. by rewrite (proj2 (Z.eqb_neq fd' stack_name)) by set_solver.
Qed.

Lemma stack_holds u s mem mem' : holds (cells (K := K) u) s mem → holds (cells (K := K) (set_view (mkScratch mem') u)) s mem'.
Proof.
  intros [H1 H2]. unfold holds, cells in *. rewrite (apart (T := scratch) (T' := table)), (apart (T := scratch) (T' := K)). split; [done|].
  unfold memory, stack_memory. by rewrite Z.eqb_refl, view_set.
Qed.

Lemma safe_scratch {A} (f : client D I → outcome (A * client D I)) c k cc s mem a c' :
  holds cc s mem → f (Client.set_stack mem c) = Ok (a, c') → (∀ cc', holds cc' s (buffer_stack c') → safe (k a c') cc') →
  safe (on_scratch f c k) cc.
Proof.
  intros Hc Hf Hk. apply safe_act; intros u; [|intros u' p|intros u' p]; intros Ha _; destruct (holds_cells u cc s mem Ha Hc) as (_ & Hm & Hu);
    rewrite Hm, Hf, outcome_bind_ok; [done| |]; intros [= <- <-].
  - split; [apply stack_frame|]. intros fd' _. unfold cells. by rewrite (apart (T := scratch) (T' := table)).
  - apply Hk. by eapply stack_holds.
Qed.
Lemma put_holds u s s' mem : holds (cells (K := K) u) s mem → holds (cells (K := K) (set_view (put fd s' (Sleep.view (T := table) u)) u)) s' mem.
Proof.
  intros [H1 H2]. unfold holds. rewrite !cells_put. split; [by rewrite upd_eq, H1|]. unfold upd.
  by rewrite (proj2 (Z.eqb_neq stack_name fd)) by (unfold stack_name; lia).
Qed.

Lemma put_frame u s' fd' : fd' ∉ ({[fd; stack_name]} : gset Z) →
  cells (K := K) (set_view (put fd s' (Sleep.view (T := table) u)) u) fd' = cells (K := K) u fd'.
Proof. intros H. rewrite cells_put. unfold upd. by rewrite (proj2 (Z.eqb_neq fd' fd)) by set_solver. Qed.

Lemma put_keeps u s s' mem : holds (cells (K := K) u) s mem → (G fd (sent s) → G fd (sent s')) →
  kept G {[fd; stack_name]} (cells (K := K) u) (cells (K := K) (set_view (put fd s' (Sleep.view (T := table) u)) u)).
Proof.
  intros [H1 _] HG fd' _. rewrite cells_put. unfold upd. destruct (fd' =? fd) eqn:Ef; [|done]. zify_bools. subst fd'. by rewrite H1.
Qed.

(** A call on the descriptor, which may read the buffer. *)
Lemma safe_any_call {A} (f : CoSocket.sock → bytes → outcome (A * CoSocket.sock)) (k : A → Z → prog U) cc s mem a s' :
  holds cc s mem → f s mem = Ok (a, s') → (G fd (sent s) → G fd (sent s')) → (∀ cc', holds cc' s' mem → safe (k a (errno s')) cc') →
  safe (Act (λ u, let t : table := Sleep.view u in '(a, s) ← f (t fd) (stack_mem (Sleep.view u)); Ok (set_view (put fd s t) u, k a (errno s)))) cc.
Proof.
  intros Hc Hf HG Hk. apply safe_act; intros u; [|intros u' p|intros u' p]; intros Ha _; destruct (holds_cells u cc s mem Ha Hc) as (Hs & Hm & Hu);
    cbv zeta; rewrite Hs, Hm, Hf, outcome_bind_ok; [done| |]; intros [= <- <-].
  - split; [by apply put_frame|by eapply put_keeps].
  - apply Hk. by eapply put_holds.
Qed.

Lemma safe_pure {A} (o : outcome A) a (k : A → prog U) cc : o = Ok a → safe (k a) cc → safe (HttpLoop.compute o k) cc.
Proof.
  intros -> Hk. apply safe_act; [done| |]; intros u u' p Ha _ [= <- <-]; [by split; [|intros fd' _]|].
  eapply safe_agree; [exact Hk|]. intros fd' Hin. symmetry. by apply Ha.
Qed.

(** What Http2Loop shows of a program that uses the descriptor and the buffer,
    whose owner leaves them alone, is all there is to show of it. *)
Lemma safe_frames (W : bool → Prop) M n p s mem (Q : prog U → CoSocket.sock → bytes → list bool → Prop) :
  Http2LoopFacts.leads (K := K) (D := D) (I := I) W fd M n p s mem Q →
  (∀ ok, (ok = false → ¬ grants (K := K)) → W ok) → (∀ s s', M s s' → G fd (sent s) → G fd (sent s')) →
  (∀ p' s' mem' l, Q p' s' mem' l → ∀ cc', holds cc' s' mem' → safe p' cc') → ∀ cc, holds cc s mem → safe p cc.
Proof.
  intros H HW HM. induction H as [p s mem Q H|A f c k s mem a c' Q Hf _ IH|pos off len k s mem ret s' Q Hs Hm _ IH
    |A o k s mem a Q Ho _ IH|A f k s mem a s' Q Hf Hm _ IH|write k s mem Q _ IH]; intros HQ cc Hc.
  - by eapply HQ.
  - eapply safe_scratch; [exact Hc|exact Hf|]. by apply IH.
  - apply (safe_any_call (λ s mem, Socket.send s (drop (Z.to_nat pos) mem) off len) k cc s mem ret s'); [done|done|by apply HM|]. by apply IH.
  - eapply safe_pure; [exact Ho|]. by eapply IH.
  - apply (safe_any_call (λ s _, f s) k cc s mem a s'); [done|done|by apply HM|]. by apply IH.
  - pose proof Hc as [H1 _]. apply safe_wait_event; [set_solver|by rewrite H1|]. intros ok Hok.
    eapply (IH ok mem); [by apply HW|apply keeps_refl|intros; by eapply HQ|done].
Qed.
End owner.

(** *** The programs of a client are tame *)
Section tame.
Context {U K TQ : Type} `{!PQueue co_timer CompareTimerPointer TQ} `{!Epoll K}.
Context `{!Part Event U} `{!Part (time_state TQ) U} `{!Part K U} `{!Part table U} `{!Part scratch U}.
Context `{!Apart table Event U} `{!Apart table (time_state TQ) U} `{!Apart table K U}.
Context `{!Apart scratch Event U} `{!Apart scratch (time_state TQ) U} `{!Apart scratch K U}.
Context {D I : Type}.
Implicit Types (c : client D I) (p : prog U).
Variables (stop : prog U) (fuel : nat) (fd : Z).
Abbreviation tame := (EventFacts.tame (K := K) (TQ := TQ) false true).
Abbreviation on_fd := (Http2ExchangeFacts.on_fd fd).
Context (Hstop : tame stop) (Hfd : 0 ≤ fd < 2 ^ 31).

(** What comes next, for every client on the descriptor. *)
Definition tame_next {A} (k : A → client D I → prog U) : Prop := ∀ a c, on_fd c → tame (k a c).

Lemma socket_tame {A} x (f : CoSocket.sock → outcome (A * CoSocket.sock)) k : (∀ a e, tame (k a e)) → tame (on_socket x f k).
Proof. apply HttpLoopFacts.on_socket_tame. Qed.

Lemma scratch_tame {A} (f : client D I → outcome (A * client D I)) c k :
  (∀ mem a c', f (Client.set_stack mem c) = Ok (a, c') → sock c' = sock c) → on_fd c → tame_next k → tame (on_scratch f c k).
Proof.
  intros Hf (cs & Hs & Hcs) Hk. apply EventFacts.tame_act; [done|]. intros u u' p H. cbv beta zeta in H.
  apply outcome_bind_inv in H as ([a c'] & H & [= <- <-]). rewrite !apart. split_and!; [done..|].
  apply Hk. exists cs. by rewrite (Hf _ _ _ H).
Qed.

Lemma send_stack_tame pos fd' off len k : (∀ ret e, tame (k ret e)) → tame (send_stack (U := U) pos fd' off len k).
Proof.
  intros Hk. apply EventFacts.tame_act; [done|]. intros u u' p H. cbv beta zeta in H.
  apply outcome_bind_inv in H as ([ret s'] & _ & [= <- <-]). rewrite !apart. by split_and!.
Qed.

Lemma stack_loop_tame fuel' pos off len k : (∀ ret, tame (k ret)) → tame (Http2Loop.send_loop (K := K) stop fuel' pos fd off len k).
Proof.
  intros Hk. induction fuel' as [|n IH]; [done|]. cbn [Http2Loop.send_loop]. apply send_stack_tame. intros ret e.
  destruct (_ && _); [|by apply Hk]. apply EventFacts.tame_wait; [done|]. intros [|]; [apply IH|by apply Hk].
Qed.

Lemma stack_all_tame fuel' pos len k : (∀ ret, tame (k ret)) → ∀ total, tame (Http2Loop.send_all_loop (K := K) stop fuel' pos fd total len k).
Proof.
  intros Hk. induction fuel' as [|n IH]; intros total; [done|]. cbn [Http2Loop.send_all_loop]. apply stack_loop_tame. intros ret. cbv zeta.
  destruct (_ <=? _); [apply Hk|]. destruct (_ =? _); [apply Hk|apply IH].
Qed.

Lemma stack_frame_tame f c (k : bool → client D I → prog U) : on_fd c → tame_next k → tame (Http2Loop.send_frame (K := K) stop fuel f c k).
Proof.
  intros Hc Hk. pose proof Hc as (cs & Hs & Hcs). unfold Http2Loop.send_frame. rewrite Hs, Hcs. apply stack_all_tame. intros ret. by apply Hk.
Qed.

Lemma mild_sock {A} n (f : client D I → outcome (A * client D I)) c : mild n f →
  ∀ mem a c', f (Client.set_stack mem c) = Ok (a, c') → sock c' = sock c.
Proof. intros Hf mem a c' H. by destruct (Hf c mem mem a c' (keeps_refl n mem) H). Qed.

Section request.
Context (deflate_bound : D → list nv → Z) (deflate_hd : D → Z → list nv → Z * bytes * D) (fresh_response : response).

Lemma send_request_tame req c (k : Z → client D I → prog U) : on_fd c → tame_next k →
  tame (Http2Loop.send_request (K := K) stop fuel deflate_bound deflate_hd fresh_response req c k).
Proof.
  intros Hc Hk. apply scratch_tame; [refine (mild_sock 0 _ _ _); apply mild_header|done|]. clear c Hc.
  assert (Hn : ∀ o c, on_fd c → tame (match o with
    | None => Act (λ _, UB)
    | Some (f, stream) => send_http_body_frame (K := K) stop fuel f stream req c (λ _ _ c, on_scratch (end_request stream) c k)
    end)).
  { intros [[f stream]|] c Hc; [|by apply EventFacts.tame_act]. apply scratch_tame; [refine (mild_sock 0 _ _ _); apply mild_body|done|].
    intros f2 c2 Hc2. apply stack_frame_tame; [done|]. intros ok c3 Hc3. apply scratch_tame; [|done|done].
    intros mem a c' H. unfold end_request in H. cbv zeta in H. apply outcome_bind_inv in H as (st & _ & [= _ <-]). done. }
  intros [[f stream]|] c Hc; [|exact (Hn None c Hc)]. apply stack_frame_tame; [done|]. intros ok c2 Hc2. by apply (Hn (Some (f, stream))).
Qed.
End request.

Lemma send_all_tame buf len k : (∀ ret, tame (k ret)) → tame (SocketLoop.send_all (K := K) stop fuel fd buf len k).
Proof.
  intros Hk. unfold SocketLoop.send_all. generalize 0 as total. induction fuel as [|n IH]; intros total; [done|]. cbn [SocketLoop.send_all_loop].
  assert (Hs : ∀ fuel' w ev off len k, (∀ ret, tame (k ret)) → tame (SocketLoop.send_loop (K := K) stop w fuel' ev fd buf off len k)).
  { intros fuel'. induction fuel' as [|m IHm]; intros w ev off len' k' Hk'; [done|]. cbn [SocketLoop.send_loop]. apply socket_tame.
    intros ret e. cbv zeta. destruct (_ && _); [|apply Hk']. apply EventFacts.tame_wait; [done|]. intros [|]; [by apply IHm|apply Hk']. }
  apply Hs. intros ret. cbv zeta. destruct (_ <=? _); [apply Hk|]. destruct (_ =? _); [apply Hk|apply IH].
Qed.

Lemma send_tame buf len c (k : bool → client D I → prog U) : on_fd c → tame_next k → tame (Http2Exchange.send (K := K) stop fuel buf len c k).
Proof.
  intros Hc Hk. pose proof Hc as (cs & Hs & Hcs). unfold Http2Exchange.send. rewrite Hs, Hcs. apply send_all_tame. intros ret. by apply Hk.
Qed.

Lemma set_sock_on_fd cs c : CoSocket.fd (sk cs) = fd → on_fd (Client.set_sock cs c).
Proof. intros H. by exists cs. Qed.

Lemma connect_tame made pton c (k : bool → client D I → prog U) : sock c = None → CoSocket.fd (sk made) = fd → tame_next k →
  tame (Http2Exchange.connect (K := K) stop fuel made pton c k).
Proof.
  intros Hc Hm Hk. unfold Http2Exchange.connect. rewrite Hc. destruct (pton =? 0); [by apply EventFacts.tame_act|].
  unfold SocketLoop.connect_loop. rewrite Hm. assert (Hl : ∀ n pending ev k, (∀ ret, tame (k ret)) → tame (call_loop (K := K) stop pending ev n fd k)).
  { intros n. induction n as [|n IH]; intros pending ev k' Hk'; [done|]. cbn [call_loop]. apply socket_tame. intros ret e. cbv zeta.
    destruct (_ && _); [|apply Hk']. apply EventFacts.tame_wait; [done|]. intros [|]; [by apply IH|apply Hk']. }
  apply Hl. intros ret. destruct (_ <? _).
  { unfold Http2Exchange.set_err. rewrite Hm. apply socket_tame. intros _ e. apply Hk. by apply set_sock_on_fd. }
  destruct (negb _); [by apply Hk, set_sock_on_fd|]. apply send_tame; [by apply set_sock_on_fd|]. intros ok c1 Hc1.
  destruct (negb ok); [by apply Hk|]. destruct Hc1 as (cs & Hs & Hcs). rewrite Hs.
  destruct (CoSocket.get_write_buf cs) as [b cs2] eqn:Ew. apply HttpLoopFacts.compute_tame. intros [f mem]. apply send_tame; [|done].
  apply set_sock_on_fd. cbn. unfold CoSocket.get_write_buf in Ew. by destruct (cwrite_buf cs); injection Ew as _ <-.
Qed.

Section response.
Context (change_table_size : D → Z → Z * D) (inflate_hd : I → bytes → Z * option (bytes * bytes) * bool * I).
Context (inflate_end_headers : I → I) (ack_buf : bytes).

Lemma recv_at_tame off len cs (k : Z → cosocket → prog U) : CoSocket.fd (sk cs) = fd → (∀ ret cs, CoSocket.fd (sk cs) = fd → tame (k ret cs)) →
  tame (Http2Exchange.recv_at (K := K) stop fuel off len cs k).
Proof.
  intros Hc Hk. unfold Http2Exchange.recv_at. destruct (CoSocket.get_read_buf cs) as [b cs2] eqn:Er.
  assert (Hc2 : CoSocket.fd (sk cs2) = fd) by (unfold CoSocket.get_read_buf in Er; by destruct (cread_buf cs); injection Er as _ <-).
  rewrite Hc2. generalize (_buffer b). generalize i32 as w. intros w. induction fuel as [|n IH]; intros buf; [done|]. cbn [SocketLoop.recv_loop].
  apply socket_tame. intros [ret mem] e. cbv zeta. destruct (_ && _); [|by apply Hk]. apply EventFacts.tame_wait; [done|].
  intros [|]; [apply IH|by apply Hk].
Qed.

Lemma next_frame_tame c (k : Http2Frame.frame → option nat → client D I → prog U) : on_fd c → (∀ f sp c, on_fd c → tame (k f sp c)) →
  tame (Http2Exchange.recv_frame (K := K) stop fuel c k).
Proof.
  intros (cs & Hs & Hcs) Hk. unfold Http2Exchange.recv_frame. rewrite Hs. apply recv_at_tame; [done|]. intros _ cs1 H1.
  apply HttpLoopFacts.compute_tame. intros pl. apply recv_at_tame; [done|]. intros _ cs2 H2. apply HttpLoopFacts.compute_tame. intros f.
  by apply Hk, set_sock_on_fd.
Qed.

Lemma parse_setting_frame_tame f c (k : Z → client D I → prog U) : on_fd c → tame_next k →
  tame (Http2Exchange.parse_setting_frame (K := K) stop fuel change_table_size ack_buf f c k).
Proof.
  intros Hc Hk. unfold Http2Exchange.parse_setting_frame. destruct (Codec.parse_settings _ _ _ _ _ _ _ _) as [r|]; [|by apply EventFacts.tame_act].
  apply HttpLoopFacts.compute_tame. intros [[[value ok] d] remote]. cbv zeta. destruct (negb ok); [by apply Hk|].
  apply HttpLoopFacts.compute_tame. intros ack. apply send_tame; [done|]. intros sent c2 Hc2. by apply Hk.
Qed.

Lemma parse_frame_sock turns f sp c cs r c2 : sock c = Some cs → (type f =? FSW_HTTP2_TYPE_SETTINGS) = false → Client.ignored (type f) = false →
  Client.parse_frame change_table_size inflate_hd inflate_end_headers ack_buf turns f sp c = Some (Ok (r, c2)) → sock c2 = sock c.
Proof.
  intros Hs Et Ei H. assert (E : c = as_seen (sk cs) (buffer_stack c) c).
  { destruct c. cbn in Hs |- *. subst. cbn. unfold as_seen. cbn. by destruct cs. }
  rewrite E in H. apply Http2ExchangeFacts.parse_frame_seen in H as (c1 & _ & -> & H1); [|done..].
  cbn [sock as_seen]. rewrite H1, Hs. cbn. by destruct cs.
Qed.

Lemma parse_frame_tame turns f sp c (k : fswReturn_code → client D I → prog U) : on_fd c → tame_next k →
  tame (Http2Exchange.parse_frame (K := K) stop fuel change_table_size inflate_hd inflate_end_headers ack_buf turns f sp c k).
Proof.
  intros Hc Hk. unfold Http2Exchange.parse_frame. cbv zeta. destruct (type f =? _) eqn:Et.
  { apply parse_setting_frame_tame; [by destruct (_ <? _)|]. intros _ c2 Hc2. by apply Hk. }
  destruct (Client.ignored _) eqn:Ei; [apply Hk; by destruct (_ <? _)|].
  destruct (Client.parse_frame _ _ _ _ _ _ _ _) as [o|] eqn:E; [|done]. destruct Hc as (cs & Hs & Hcs).
  destruct o as [[r c2]| |]; (apply EventFacts.tame_act; [done|]); intros u u' p Hp; [|discriminate Hp..]. injection Hp as <- <-.
  split_and!; [done..|]. apply Hk. exists cs.
  by rewrite (parse_frame_sock _ _ _ _ cs _ _ Hs Et Ei E).
Qed.

Lemma recv_reponse_tame (k : response → client D I → prog U) : tame_next k → ∀ turns c, on_fd c →
  tame (Http2Exchange.recv_reponse (K := K) stop fuel change_table_size inflate_hd inflate_end_headers ack_buf turns c k).
Proof.
  intros Hk turns. induction turns as [|turns IH]; intros c Hc; [done|]. cbn [Http2Exchange.recv_reponse].
  apply next_frame_tame; [done|]. intros f sp c1 H1. apply parse_frame_tame; [done|]. intros ret c2 H2.
  destruct (bool_decide _); [|by apply IH]. apply HttpLoopFacts.compute_tame. intros st. by apply Hk.
Qed.
End response.
End tame.
End Http2Process.

(** ** The property *)
Section http2_process_properties.
Import Sched EventLoop SocketLoop SocketLoopFacts Ownership Http2Process Http2ExchangeFacts Session SessionFacts RequestFacts.
#[local] Existing Instance stack_memory.
#[local] Existing Instance stack_memory_apart.
Context {U K TQ : Type} `{!PQueue co_timer CompareTimerPointer TQ} `{!Epoll K}.
Context `{!Part Event U} `{!Part (time_state TQ) U} `{!Part K U} `{!Part table U} `{!Part scratch U}.
Context `{!Apart Event (time_state TQ) U} `{!Apart Event K U} `{!Apart (time_state TQ) Event U}.
Context `{!Apart (time_state TQ) K U} `{!Apart K Event U} `{!Apart K (time_state TQ) U}.
Context `{!Apart table Event U} `{!Apart table (time_state TQ) U} `{!Apart table K U}.
Context `{!Apart Event table U} `{!Apart (time_state TQ) table U} `{!Apart K table U}.
Context `{!Apart Event scratch U} `{!Apart (time_state TQ) scratch U} `{!Apart K scratch U} `{!Apart table scratch U}.
Context `{!Apart scratch Event U} `{!Apart scratch (time_state TQ) U} `{!Apart scratch K U} `{!Apart scratch table U}.
Context {D I : Type}.
Context (deflate_bound : D → list nv → Z) (deflate_hd : D → Z → list nv → Z * bytes * D).
Context (change_table_size : D → Z → Z * D) (inflate_hd : I → bytes → Z * option (bytes * bytes) * bool * I).
Context (inflate_end_headers : I → I) (ack_buf : bytes) (fresh_response : response).
Context (Htable : ∀ d v, (change_table_size d v).1 = 0) (Hdecoder : decoder_progress inflate_hd) (Hack : zlen ack_buf = 17).
Abbreviation tame := (EventFacts.tame (K := K) (TQ := TQ) false true).

(** The client of the theorem: it connects, sends the request, receives the
    response and goes on as [k]. *)
Definition conversation (stop : prog U) (fuel turns : nat) (made : cosocket) (pton : Z) (req : request) (c : client D I)
    (k : response → client D I → prog U) : prog U :=
  Http2Exchange.connect (K := K) stop fuel made pton c (λ ok c,
    if ok then exchange (K := K) deflate_bound deflate_hd change_table_size inflate_hd inflate_end_headers ack_buf fresh_response stop fuel turns req c k
    else stop).

Lemma conversation_tame stop fuel turns fd made pton req c k : tame stop → 0 ≤ fd < 2 ^ 31 → CoSocket.fd (sk made) = fd → sock c = None →
  (∀ r c, tame (k r c)) → tame (conversation stop fuel turns made pton req c k).
Proof.
  intros Hst Hfd Hm Hc Hk. apply (connect_tame stop fuel fd); [done..|]. intros [|] c1 H1; [|done].
  apply (send_request_tame stop fuel fd); [done..|]. intros _ c2 H2. apply (recv_reponse_tame stop fuel fd); [done|done|by intros r c3 _|done].
Qed.

(** C9: an HTTP/2 client among other coroutines. A process creates a client
    that connects, sends a request and receives the response, and goes on as
    [others], which may create any number of coroutines that own other
    descriptors and not the scratch buffer. Then for every interleaving, report
    of the kernel and clock, the process makes no undefined step and never ends
    early, and keeps the promises of the others at all times. When the event
    loop returns, all coroutines have left their descriptors as promised: the
    client's after the preface, its settings, the two frames of the request and
    the acknowledgements were sent, and after its continuation got the response
    with the data of the peer's frames. It always can go on until then. *)
Theorem http2_client_beside_others (G : Z → bytes → Prop) (E : Z → CoSocket.sock → Prop) (stop : prog U) (fuel turns : nat) (fd : Z)
    (c : client D I) made pton j more (req : request) (out block : bytes) (d' : D) (fs : list in_frame) (d rest : bytes)
    (k : response → client D I → prog U) (others : prog U) (Do : gset Z) (u : U) epfd e0 l :
  let s := Sleep.view (T := table) u fd in
  let wire := (out ++ GreetFacts.greeting (local_settings c)) ++ request_wire c req block ++ (fs ≫= ack_of) in
  0 ≤ fd < 2 ^ 31 → CoSocket.fd (sk made) = fd → sock c = None → pton ≠ 0 → cwrite_buf made = None →
  sock_ok (CoSocket.set_sk (scripted s [] []) made) (reply_wire_of c fs d rest) out →
  calls s = replicate j (CallError EINPROGRESS) ++ CallOk 0 :: more → (length (calls s) ≤ fuel)%nat →
  enough (S fuel) s → (length (tx s) < fuel)%nat → zlen (stack_mem (Sleep.view u)) = FSW_STACK_BUFFER_SIZE + 1 →
  exchangeable deflate_bound deflate_hd (FSW_STACK_BUFFER_SIZE + 1) turns c req block d' fs d →
  (∀ r c, tame (k r c)) → (∀ b, G fd b) → (∀ b, G stack_name b) →
  (∀ c' s' mem cc, sent s' = wire → remote_settings c' = foldl Rfc9113.update (remote_settings c) (fs ≫= settings_of) → holds fd cc s' mem →
     safe (K := K) G E {[fd; stack_name]} (k (complete fresh_response ((fs ≫= data_of) ++ d)) c') cc) →
  tame others → fd ∉ Do → stack_name ∉ Do → safe (K := K) G E Do others (cells (K := K) u) →
  (∀ x, x ∈ Do → G x (sent (Sleep.view (T := table) u x))) →
  tame stop → grants (K := K) → EventFacts.fresh_loop (K := K) (TQ := TQ) u epfd e0 →
  loop_reachable (K := K) (TQ := TQ) (run (Create (conversation stop (S fuel) turns made pton req c k) (λ _, others)) u) l →
  last_cid (mach l) < 2 ^ 31 →
  (∀ r, loop_step (K := K) (TQ := TQ) l r → ∃ l', r = Ok l') ∧
  (∀ x, x ∈ Do → G x (sent (Sleep.view (T := table) (globals (mach l)) x))) ∧
  (ph l = Returned → E fd (Sleep.view (T := table) (globals (mach l)) fd) ∧
     ∀ x, x ∈ Do → E x (Sleep.view (T := table) (globals (mach l)) x)) ∧
  (Progress.reports (K := K) → Progress.can_return (K := K) (TQ := TQ) l).
Proof.
  intros s wire Hfd Hm Hs Hp Hw Hok Hc Hcf Hen Htx Hz Hex Hkt HGf HGs Hk Hot Hof Hon Hos HoG Hst Hgr Hu Hr Hid.
  assert (Hsafe : safe (K := K) G E {[fd; stack_name]} (conversation stop (S fuel) turns made pton req c k) (cells (K := K) u)).
  { eapply (safe_frames G E fd Hfd (λ b, b = true) (λ _ _, True)).
    - by eapply (connect_exchange_leads _ _ _ _ _ _ _ Htable Hdecoder Hack stop fuel turns fd _ c made pton j more s (stack_mem (Sleep.view u))).
    - intros [|] Ho; [done|]. by destruct (Ho eq_refl).
    - intros s1 s2 _ _. apply HGf.
    - intros p' s' mem' l' (c' & -> & Hs' & Hr') cc Hh. by eapply Hk.
    - destruct Hu as (_ & _ & _ & Hi). unfold holds, cells. cbn [fst snd]. unfold memory, stack_memory. by rewrite Hi, lookup_empty. }
  destruct (oinv_adequate G E ({[fd; stack_name]} ∪ Do) (Create (conversation stop (S fuel) turns made pton req c k) (λ _, others)) u epfd e0 l)
    as (H1 & H2 & H3 & H4); [|done| | |done|done|].
  - apply EventFacts.tame_create; [by eapply conversation_tame|done].
  - eapply safe_create; [reflexivity|set_solver|exact Hsafe|done].
  - intros x [[->%elem_of_singleton| ->%elem_of_singleton]%elem_of_union|Hx]%elem_of_union; [apply HGf|apply HGs|by apply HoG].
  - split; [exact H1|]. split; [intros x Hx; apply H2; set_solver|]. split; [|exact H4].
    intros Hph. split; [apply (H3 Hph); set_solver|]. intros x Hx. apply (H3 Hph). set_solver.
Qed.
End http2_process_properties.

(** ** Example: a client and two coroutines that send three bytes each *)
Module Http2ProcessExample.
Import SocketLoop SocketLoopFacts EventExample SocketLoopExample OwnershipExample ServerLoopExample Http2LoopExample Http2ExchangeExample.
Import Ownership Http2Process Session SessionFacts Http2ExchangeFacts.
#[local] Existing Instance stack_memory.
#[local] Existing Instance stack_memory_apart.

#[global] Instance net2_apart_parts {T T'} `{!Part T net} `{!Part T' net} `{!Apart T T' net} : Apart T T' net2 | 10.
Proof. intros t u. exact (apart (T := T) (T' := T') (U := net) t (net_of u)). Qed.
#[global] Instance net2_apart_scratch {T} `{!Part T net} : Apart T scratch net2 | 0.
Proof. done. Qed.
#[global] Instance scratch_apart_net2 {T} `{!Part T net} : Apart scratch T net2 | 0.
Proof. done. Qed.

(** The kernel has the second coroutine wait. *)
Definition busy : CoSocket.sock := mkSock 8 0 [] [TxError EAGAIN] [] [] [] [] false.
Definition sends_three (x : Z) : prog net2 := send (K := simple_kernel) Ret 3 x [1; 2; 3] 3 (λ _, Ret).
Definition the_others : prog net2 := Create (sends_three 8) (λ _, sends_three 9).
Definition three_peers : net2 :=
  mkNet2 (mkNet start (λ x, if x =? 5 then new_peer else if x =? 8 then busy else quiet_peer)) (mkScratch zeros).
Definition as_agreed (x : Z) (s : CoSocket.sock) : Prop :=
  if x =? 5 then sent s = greeting_wire ++ on_wire 1 else if x =? stack_name then True else sent s = [1; 2; 3].
Definition client_main : prog net2 :=
  conversation (K := simple_kernel) plain_bound plain_encode keep_table plain_decode keep (replicate 17 0) blank Ret 10 1100
    (CoSocket.make new_peer 0) 1 post new_client (λ _ _, Ret).
Definition all_three : @EventLoop.loop net2 :=
  LoopRun.after_with (K := simple_kernel) (TQ := queue) report_all (Create client_main (λ _, the_others)) three_peers 300.

Lemma sends_three_safe x s (cc : Z → cell) : 0 ≤ x < 2 ^ 31 → x ≠ 5 → (cc x).1 = (s, None) → s = busy ∨ s = quiet_peer →
  safe (K := simple_kernel) (λ _ _, True) as_agreed {[x]} (sends_three x) cc.
Proof.
  intros Hx Hx5 Hc Hs.
  eapply (safe_leads _ as_agreed _ x); [apply (send_refined _ _ _ _ _ _ s); [lia|by vm_compute|destruct Hs; subst; cbn; lia]|set_solver|by intros|exact Hc|].
  intros p s' bs (r & -> & Hr) Hok. specialize (Hok simple_grants). destruct (Hr [] []) as (wd & H). rewrite app_nil_r in H.
  assert (Hb : bs = replicate (length bs) true) by (clear -Hok; induction Hok as [|b bs -> _ IH]; [done|]; cbn; by f_equal).
  apply safe_ret. intros y ->%elem_of_singleton. rewrite upd_eq. cbn [fst]. unfold as_agreed.
  rewrite (proj2 (Z.eqb_neq x 5)), (proj2 (Z.eqb_neq x stack_name)) by (unfold stack_name; lia).
  rewrite Hb in H. destruct s'. destruct Hs as [-> | ->]; destruct (length bs) as [|[|n]]; vm_compute in H; injection H; cbn; intros; congruence.
Qed.

Lemma others_safe : safe (K := simple_kernel) (λ _ _, True) as_agreed {[8; 9]} the_others (cells (K := simple_kernel) three_peers).
Proof.
  apply (safe_create _ _ _ {[8]} {[9]}); [set_solver|set_solver| |intros _]; eapply sends_three_safe; try lia; [reflexivity|by left|reflexivity|by right].
Qed.

Lemma others_tame : EventFacts.tame (K := simple_kernel) (TQ := queue) false true the_others.
Proof.
  apply EventFacts.tame_create; [|intros _];
    (apply send_loop_client; [constructor|lia|lia|lia|by vm_compute|intros r Hr; rewrite i32_id; lia|intros; constructor]).
Qed.

Lemma others_two (x : Z) : x ∈ ({[8; 9]} : gset Z) → x = 8 ∨ x = 9.
Proof. set_solver. Qed.

Lemma others_apart : (5 ∉ ({[8; 9]} : gset Z)) ∧ (stack_name ∉ ({[8; 9]} : gset Z)).
Proof. apply (bool_decide_unpack _). vm_compute. exact Logic.I. Qed.

Lemma three_fresh : EventFacts.fresh_loop (K := simple_kernel) (TQ := queue) three_peers 3 (mkEvent 0 None 0).
Proof. exact start_fresh. Qed.

Lemma http2_client_beside_others_witness :
  EventLoop.ph all_three = EventLoop.Returned ∧
  got all_three = greeting_wire ++ on_wire 1 ∧
  ∀ x, x ∈ ({[8; 9]} : gset Z) → sent (Sleep.view (T := table) (globals (EventLoop.mach all_three)) x) = [1; 2; 3].
Proof.
  assert (Hok : sock_ok (CoSocket.set_sk (scripted new_peer [] []) (CoSocket.make new_peer 0)) first_wire [])
    by (split; [by vm_compute|exact first_held|by repeat constructor|reflexivity|reflexivity]).
  pose proof (http2_client_beside_others (K := simple_kernel) (TQ := queue) plain_bound plain_encode keep_table plain_decode keep (replicate 17 0) blank
    (λ d v, eq_refl) ltac:(intros i data rv emit final i' E _; injection E as <- _ <- _; split; [lia|tauto]) eq_refl
    (λ _ _, True) as_agreed Ret 9 1100 5 new_client (CoSocket.make new_peer 0) 1 1%nat [] post [] block_of tt reply (str "lo") []
    (λ _ _, Ret) the_others {[8; 9]} three_peers 3 (mkEvent 0 None 0) all_three) as H.
  cbv zeta in H. change (Sleep.view (T := table) three_peers 5) with new_peer in H. change (stack_mem (Sleep.view three_peers)) with zeros in H.
  specialize (H ltac:(lia) eq_refl eq_refl ltac:(discriminate) eq_refl Hok eq_refl ltac:(vm_compute; lia) ltac:(split; vm_compute; lia) ltac:(vm_compute; lia) zeros_len).
  specialize (H (post_exchangeable (FSW_STACK_BUFFER_SIZE + 1) new_client ltac:(vm_compute; discriminate) eq_refl (or_introl eq_refl) eq_refl)).
  specialize (H ltac:(intros; constructor) (λ _, Logic.I) (λ _, Logic.I)).
  specialize (H ltac:(intros c' s' mem cc Hs _ [Hh _]; apply safe_ret; intros x [->%elem_of_singleton| ->%elem_of_singleton]%elem_of_union; [rewrite Hh; exact Hs|exact Logic.I])).
  specialize (H others_tame (proj1 others_apart) (proj2 others_apart) others_safe (λ _ _, Logic.I) ltac:(constructor) simple_grants three_fresh).
  assert (Hp : EventLoop.ph all_three = EventLoop.Returned) by (vm_compute; reflexivity). split; [exact Hp|].
  assert (Hc : (last_cid (EventLoop.mach all_three) <? 2 ^ 31) = true) by (vm_compute; reflexivity).
  destruct (H (LoopRun.after_with_reachable _ report_all_ok _ _ _) (proj1 (Z.ltb_lt _ _) Hc)) as (_ & _ & HE & _).
  destruct (HE Hp) as [H5 H89]. split; [exact H5|]. intros x Hx. pose proof (H89 x Hx) as Hx'. 
  destruct (others_two x Hx) as [-> | ->]; exact Hx'.
Defined.
End Http2ProcessExample.
