(* ===== verification/UnixSocket.v ===== *)
(** * UnixSocket: processes and the pair of sockets between them
    (include/unix_socket.h, src/unix_socket.cc, include/process.h,
    src/process.cc)

    [fsw::UnixSocket] with its two ends, [fsw::Process] on top of it, and the
    system of a parent and a child that write to and read from each other. *)

From S2P Require Import Prelude Words Buffer CoSocket Coroutine.
#[local] Open Scope Z_scope.

(** [enum type] *)
Inductive endpoint := WORKER | MASTER.
#[global] Instance endpoint_eq_dec : EqDecision endpoint.
Proof. solve_decision. Defined.

(** [class UnixSocket]. The two objects are [None] once deleted;
    [current_sock] points to one of them and is uninitialised ([None]) before
    [Process::start] sets it. *)
Record unix_socket := mkUnixSocket {
  worker_fd : Z;
  master_fd : Z;
  worker_sock : option sock;
  master_sock : option sock;
  current_sock : option endpoint;
  uread_buf : option buffer;
  uwrite_buf : option buffer;
  uerr_code : Z;
  err_msg : bytes
}.

Module UnixSocket.
(** [strerror] of the C library. *)
Section unix_socket.
Context (strerror : Z → bytes).
Implicit Types u : unix_socket.

Definition set_worker (o : option sock) u : unix_socket :=
  mkUnixSocket (worker_fd u) (master_fd u) o (master_sock u) (current_sock u) (uread_buf u) (uwrite_buf u) (uerr_code u) (err_msg u).
Definition set_master (o : option sock) u : unix_socket :=
  mkUnixSocket (worker_fd u) (master_fd u) (worker_sock u) o (current_sock u) (uread_buf u) (uwrite_buf u) (uerr_code u) (err_msg u).
Definition set_current (o : option endpoint) u : unix_socket :=
  mkUnixSocket (worker_fd u) (master_fd u) (worker_sock u) (master_sock u) o (uread_buf u) (uwrite_buf u) (uerr_code u) (err_msg u).
Definition set_bufs (r w : option buffer) u : unix_socket :=
  mkUnixSocket (worker_fd u) (master_fd u) (worker_sock u) (master_sock u) (current_sock u) r w (uerr_code u) (err_msg u).

(** [set_err()]: [e] is [errno]. *)
Definition set_err (e : Z) u : unix_socket :=
  mkUnixSocket (worker_fd u) (master_fd u) (worker_sock u) (master_sock u) (current_sock u) (uread_buf u) (uwrite_buf u)
    e (if e =? 0 then [] else strerror e).
Definition get_err_code u : Z := uerr_code u.
Definition get_err_msg u : bytes := err_msg u.

(** [new fsw::Socket(fd)]: a socket that nothing was done with. *)
Definition new_socket (fd : Z) : sock := mkSock fd 0 [] [] [] [] [] [] false.

(** [UnixSocket()]: [r] is what [socketpair] returns, [e] the [errno] then, and
    [fds] what the array holds behind it. *)
Definition make (r e : Z) (fds : Z * Z) : unix_socket :=
  let u := mkUnixSocket 0 0 None None None None None 0 [] in
  let u := if r <? 0 then set_err e u else u in
  mkUnixSocket fds.1 fds.2 (Some (new_socket fds.1)) (Some (new_socket fds.2)) (current_sock u) (uread_buf u) (uwrite_buf u)
    (uerr_code u) (err_msg u).

(** [get_socket(type)] *)
Definition get_socket (type : endpoint) : endpoint := if bool_decide (type = WORKER) then WORKER else MASTER.

(** The object a pointer to an end points to, and its update. *)
Definition object (t : endpoint) u : option sock := match t with WORKER => worker_sock u | MASTER => master_sock u end.
Definition set_object (t : endpoint) (s : sock) u : unix_socket :=
  match t with WORKER => set_worker (Some s) u | MASTER => set_master (Some s) u end.
Definition current u : outcome (endpoint * sock) :=
  match current_sock u with
  | Some t => match object t u with Some s => Ok (t, s) | None => UB end
  | None => UB
  end.

(** [recv(buf, len)] and [send(buf, len)]: the result is an [int]. *)
Definition recv (buf : bytes) (len : Z) u : outcome (Z * bytes * unix_socket) :=
  '(t, s) ← current u;
  '(r, buf, s) ← Socket.recv s buf 0 len;
  let ret := i32 r in
  let u := set_object t s u in
  Ok (ret, buf, if ret <? 0 then set_err (errno s) u else u).

Definition send (buf : bytes) (len : Z) u : outcome (Z * unix_socket) :=
  '(t, s) ← current u;
  '(r, s) ← Socket.send s buf 0 len;
  let ret := i32 r in
  let u := set_object t s u in
  Ok (ret, if ret <? 0 then set_err (errno s) u else u).

Definition get_read_buf u : buffer * unix_socket :=
  match uread_buf u with
  | Some b => (b, u)
  | None => let b := Buffer.make READ_BUF_MAX_SIZE in (b, set_bufs (Some b) (uwrite_buf u) u)
  end.
Definition get_write_buf u : buffer * unix_socket :=
  match uwrite_buf u with
  | Some b => (b, u)
  | None => let b := Buffer.make WRITE_BUF_MAX_SIZE in (b, set_bufs (uread_buf u) (Some b) u)
  end.

(** [close()]: [r] is what [::close] returns and [e] the [errno] then. *)
Definition close (r e : Z) u : outcome (bool * unix_socket) :=
  _ ← current u;
  let ret := Socket.close r in
  Ok (ret, if negb ret then set_err e u else u).

(** [~UnixSocket()]; deleting a socket closes its descriptor. *)
Definition destroy (r e : Z) u : outcome (bool * unix_socket) :=
  let u := set_bufs None None u in
  let u := set_master None u in
  let u := set_worker None u in
  close r e u.

End unix_socket.
End UnixSocket.

(** [class Process], but for the handler, which [start] is given. *)
Record process := mkProcess { enable_coroutine : bool; pid : Z; child_pid : Z; psocket : unix_socket }.

Module Process.
Section process.
Context (strerror : Z → bytes).
Implicit Types p : process.

Definition set_socket (u : unix_socket) p : process := mkProcess (enable_coroutine p) (pid p) (child_pid p) u.

(** [Process(fn, enable_coroutine)]; [pids] is what the two fields hold. *)
Definition make (enable : bool) (pids : Z * Z) (u : unix_socket) : process := mkProcess enable pids.1 pids.2 u.

(** [p] and then [q], on one stack. *)
Fixpoint and_then {U} (p q : prog U) : prog U :=
  match p with
  | Ret => q
  | Act f => Act (λ u, match f u with Ok (u, p) => Ok (u, and_then p q) | Exit => Exit | UB => UB end)
  | Create fn k => Create fn (λ id, and_then (k id) q)
  | Resume co k => Resume co (and_then k q)
  | ResumeCid id k => ResumeCid id (and_then k q)
  | Yield k => Yield (and_then k q)
  | GetCurrent k => GetCurrent (λ o, and_then (k o) q)
  | GetCid co k => GetCid co (λ id, and_then (k id) q)
  | Defer fn k => Defer fn (and_then k q)
  end.

(** [exit(0)] *)
Definition exit_process {U} : prog U := Act (λ _, Exit).

(** The code of [start] behind the return of the parent: [handler] finds its
    argument, the process, in the state. *)
Definition child_main (handler : prog process) p : prog process :=
  if enable_coroutine p then Create handler (λ _, exit_process) else and_then handler exit_process.

(** [start()]: it returns, or goes on as a program that does not return. [f]
    is what [fork] returns and [me] what [getpid] returns. *)
Inductive started := Returns (b : bool) (p : process) | Continues (main : prog process) (p : process).

Definition start (handler : prog process) (f me : Z) p : started :=
  let p := mkProcess (enable_coroutine p) me f (psocket p) in
  if 0 <? f then Returns true (set_socket (UnixSocket.set_current (Some (UnixSocket.get_socket MASTER)) (psocket p)) p)
  else
    let p := set_socket (UnixSocket.set_current (Some (UnixSocket.get_socket WORKER)) (psocket p)) p in
    Continues (child_main handler p) p.

(** [wait()]: what [::wait] returns. *)
Definition wait (r : Z) : Z := r.

Definition read (buf : bytes) (len : Z) p : outcome (Z * bytes * process) :=
  '(ret, buf, u) ← UnixSocket.recv strerror buf len (psocket p); Ok (ret, buf, set_socket u p).
Definition write (buf : bytes) (len : Z) p : outcome (Z * process) :=
  '(ret, u) ← UnixSocket.send strerror buf len (psocket p); Ok (ret, set_socket u p).

(** [~Process()] *)
Definition destroy (r e : Z) p : outcome (bool * unix_socket) := UnixSocket.destroy strerror r e (psocket p).

End process.
End Process.

(** ** A parent and its child *)
Module Pair.
Section pair.
Context (strerror : Z → bytes).

Inductive side := Parent | Child.
Definition other (s : side) : side := match s with Parent => Child | Child => Parent end.

(** The two descriptors that [socketpair] gave: what is sent on one arrives on
    the other, and both processes have both. *)
Context (fds : Z * Z).
Definition peer (fd : Z) : Z := if fd =? fds.1 then fds.2 else fds.1.

(** The two processes, what the kernel holds for each descriptor, and, as
    ghosts, what each process has written and read by the results of its calls. *)
Record system := mkSystem {
  proc : side → process;
  queue : Z → bytes;         (** arrived on that descriptor, not read yet *)
  wrote : side → bytes;
  got : side → bytes
}.

Definition upd {A} (s : side) (x : A) (f : side → A) : side → A :=
  λ s', match s, s' with Parent, Parent | Child, Child => x | _, _ => f s' end.
Definition fill (fd : Z) (d : bytes) (f : Z → bytes) : Z → bytes := λ z, if z =? fd then d else f z.

(** The descriptor of the end that the process uses. *)
Definition end_of (p : process) : Z := match UnixSocket.current (psocket p) with Ok (_, s) => fd s | _ => -1 end.
Definition inbox (s : side) (y : system) : bytes := queue y (end_of (proc y s)).

(** The kernel gives the current socket its answers. *)
Definition plug (l : list rx_answer) (t : list tx_answer) (p : process) : process :=
  let u := psocket p in
  match UnixSocket.current u with
  | Ok (e, s) => Process.set_socket (UnixSocket.set_object e (mkSock (fd s) (errno s) l t (calls s) (waits s) (waited s) (sent s) (shut s)) u) p
  | _ => p
  end.

(** What the current socket has still to deliver, and what it has sent. *)
Definition undelivered (p : process) : bytes :=
  match UnixSocket.current (psocket p) with
  | Ok (_, s) => rx s ≫= (λ a, match a with RxData d => d | _ => [] end)
  | _ => []
  end.
Definition transmitted (p : process) : bytes :=
  match UnixSocket.current (psocket p) with Ok (_, s) => sent s | _ => [] end.

(** The first [ret] bytes of a region, when a call reports that many. *)
Definition reported (ret : Z) (buf : bytes) : bytes := if ret <? 0 then [] else take (Z.to_nat ret) buf.

Definition after_write (s : side) (buf : bytes) (ret : Z) (p : process) (y : system) : system :=
  mkSystem (upd s p (proc y))
    (let to := peer (end_of (proc y s)) in
     fill to (queue y to ++ drop (length (transmitted (proc y s))) (transmitted p)) (queue y))
    (upd s (wrote y s ++ reported ret buf) (wrote y)) (got y).
Definition after_read (s : side) (mem : bytes) (ret : Z) (p : process) (y : system) : system :=
  mkSystem (upd s p (proc y)) (fill (end_of (proc y s)) (undelivered p) (queue y)) (wrote y) (upd s (got y s ++ reported ret mem) (got y)).

(** The room the kernel has for one direction. *)
Context (capacity : Z).

(** The kernel takes some part of a write, or fails; a read finds the queue, or
    fails. Both ends stay open in both processes, so a read of an empty queue
    waits. *)
Inductive step : system → system → Prop :=
| step_write s y buf n ret p :
    0 < n ≤ zlen buf → zlen (queue y (peer (end_of (proc y s)))) + n ≤ capacity →
    Process.write strerror buf (zlen buf) (plug [] [TxAccept n] (proc y s)) = Ok (ret, p) →
    step y (after_write s buf ret p y)
| step_write_error s y buf e ret p :
    Process.write strerror buf (zlen buf) (plug [] [TxError e] (proc y s)) = Ok (ret, p) →
    step y (after_write s buf ret p y)
| step_read s y mem len ret mem' p :
    inbox s y ≠ [] → 0 ≤ len →
    Process.read strerror mem len (plug [RxData (inbox s y)] [] (proc y s)) = Ok (ret, mem', p) →
    step y (after_read s mem' ret p y)
| step_read_error s y mem len e ret mem' p :
    Process.read strerror mem len (plug [RxError e; RxData (inbox s y)] [] (proc y s)) = Ok (ret, mem', p) →
    step y (after_read s mem' ret p y).

(** The system that a constructor, whose [socketpair] has succeeded, and [start]
    make: [start] returned in the parent and went on in the child. *)
Inductive reachable (handler : prog process) (enable : bool) (pids : Z * Z) (e child me1 me2 : Z) : system → Prop :=
| reach_start p p1 main p2 :
    p = Process.make enable pids (UnixSocket.make strerror 0 e fds) →
    Process.start handler child me1 p = Process.Returns true p1 →
    Process.start handler 0 me2 p = Process.Continues main p2 →
    reachable handler enable pids e child me1 me2
      (mkSystem (λ s, match s with Parent => p1 | Child => p2 end) (λ _, []) (λ _, []) (λ _, []))
| reach_next y z :
    reachable handler enable pids e child me1 me2 y → step y z → reachable handler enable pids e child me1 me2 z.

End pair.
End Pair.

Module PairFacts.
Import Pair.
Section facts.
Context (strerror : Z → bytes) (fds : Z * Z) (capacity : Z).

(** A process with its end of the pair. *)
Definition has_end (p : process) : Prop := ∃ e s, UnixSocket.current (psocket p) = Ok (e, s).

Lemma current_set_object u e s s' :
  UnixSocket.current u = Ok (e, s) → UnixSocket.current (UnixSocket.set_object e s' u) = Ok (e, s').
Proof.
  unfold UnixSocket.current. destruct (current_sock u) as [t|] eqn:Et; [|done].
  destruct (UnixSocket.object t u) eqn:Eo; [|done]. intros [= -> ->].
  destruct e; cbn [UnixSocket.set_object UnixSocket.set_worker UnixSocket.set_master current_sock]; by rewrite Et.
Qed.

Lemma current_set_err u x e : UnixSocket.current (UnixSocket.set_err strerror x u) = Ok e ↔ UnixSocket.current u = Ok e.
Proof. done. Qed.

Lemma plug_current l t p e s :
  UnixSocket.current (psocket p) = Ok (e, s) →
  UnixSocket.current (psocket (plug l t p)) =
    Ok (e, mkSock (fd s) (errno s) l t (calls s) (waits s) (waited s) (sent s) (shut s)).
Proof. intros H. unfold plug. rewrite H. by eapply current_set_object. Qed.

(** A write: the part the kernel took is reported and is behind what was sent. *)
Lemma write_accepts p buf n :
  has_end p → 0 < n ≤ zlen buf → n < 2 ^ 31 →
  ∃ p', Process.write strerror buf (zlen buf) (plug [] [TxAccept n] p) = Ok (n, p') ∧ has_end p' ∧
    end_of p' = end_of p ∧ transmitted p' = transmitted p ++ take (Z.to_nat n) buf.
Proof.
  intros (e & s & H) Hn Hmax. unfold Process.write, UnixSocket.send. rewrite (plug_current _ _ _ _ _ H), outcome_bind_ok.
  unfold Socket.send. cbn [tx]. rewrite Z.max_r, Z.min_l, mem_read_ok, !outcome_bind_ok by lia.
  change (drop (Z.to_nat 0) buf) with buf. rewrite zlen_take, i32_id by lia.
  rewrite (proj2 (Z.ltb_ge _ _)) by lia. eexists. split; [reflexivity|].
  unfold has_end, end_of, transmitted. cbn [psocket Process.set_socket].
  rewrite (current_set_object _ _ _ _ (plug_current _ _ _ _ _ H)). split; [by eexists _, _|]. by rewrite H.
Qed.

Lemma write_fails p buf x ret p' :
  has_end p → Process.write strerror buf (zlen buf) (plug [] [TxError x] p) = Ok (ret, p') →
  ret = -1 ∧ has_end p' ∧ end_of p' = end_of p ∧ transmitted p' = transmitted p.
Proof.
  intros (e & s & H) Hw. unfold Process.write, UnixSocket.send in Hw.
  rewrite (plug_current _ _ _ _ _ H), outcome_bind_ok in Hw. unfold Socket.send in Hw. cbn [tx] in Hw.
  rewrite outcome_bind_ok in Hw. cbv zeta in Hw. change (i32 (-1)) with (-1) in Hw. change (-1 <? 0) with true in Hw.
  rewrite outcome_bind_ok in Hw. injection Hw as <- <-. split; [done|]. unfold has_end, end_of, transmitted.
  cbn [psocket Process.set_socket]. rewrite (proj2 (current_set_err _ _ _) (current_set_object _ _ _ _ (plug_current _ _ _ _ _ H))).
  split; [by eexists _, _|]. rewrite H. split; [done|]. cbn. apply app_nil_r.
Qed.

(** A read: the first bytes of the queue, at most [len] of them. *)
Lemma read_takes p mem len q ret mem' p' :
  has_end p → q ≠ [] → 0 ≤ len → zlen q < 2 ^ 31 →
  Process.read strerror mem len (plug [RxData q] [] p) = Ok (ret, mem', p') →
  ret = Z.min len (zlen q) ∧ take (Z.to_nat ret) mem' = take (Z.to_nat ret) q ∧ has_end p' ∧ end_of p' = end_of p ∧
  undelivered p' = drop (Z.to_nat ret) q ∧ transmitted p' = transmitted p.
Proof.
  intros (e & s & H) Hq Hlen Hmax Hr. unfold Process.read, UnixSocket.recv in Hr.
  rewrite (plug_current _ _ _ _ _ H), outcome_bind_ok in Hr. unfold Socket.recv in Hr. cbn [rx] in Hr.
  set (g := take (Z.to_nat len) q) in *. set (r := drop (Z.to_nat len) q) in *.
  assert (Hg : zlen g = Z.min len (zlen q)).
  { pose proof (zlen_nonneg q). unfold g, zlen in *. rewrite length_take. lia. }
  assert (Hg2 : take (Z.to_nat (Z.min len (zlen q))) q = g ∧ drop (Z.to_nat (Z.min len (zlen q))) q = r).
  { pose proof (zlen_nonneg q). unfold g, r. destruct (Z.min_spec len (zlen q)) as [[? ->]|[? ->]]; [done|].
    unfold zlen in *. rewrite Nat2Z.id. by rewrite take_ge, drop_ge, take_ge, drop_ge by lia. }
  destruct Hg2 as [Hg2 Hr2].
  destruct (mem_write mem 0 g) as [m| |] eqn:Em; [|done..]. rewrite !outcome_bind_ok in Hr.
  apply mem_write_inv in Em as (Hm1 & Hm2 & ->). pose proof (zlen_nonneg g). rewrite i32_id in Hr by (pose proof (zlen_nonneg q); lia).
  rewrite (proj2 (Z.ltb_ge _ _)) in Hr by lia. injection Hr as <- <- <-.
  rewrite Hg, Hg2, Hr2. split; [done|]. split.
  { rewrite <- Hg. change (take (Z.to_nat 0) mem) with (@nil Z). cbn [app]. by rewrite take_zlen_app. }
  unfold has_end, end_of, undelivered, transmitted. cbn [psocket Process.set_socket].
  rewrite (current_set_object _ _ _ _ (plug_current _ _ _ _ _ H)), H. split; [by eexists _, _|]. split; [done|]. split; [|done].
  cbn [set_rx rx]. destruct r as [|b r']; [done|]. cbn. by rewrite app_nil_r.
Qed.

Lemma read_ok p mem len q :
  has_end p → 0 ≤ len ≤ zlen mem → zlen q < 2 ^ 31 →
  ∃ p' mem', Process.read strerror mem len (plug [RxData q] [] p) = Ok (Z.min len (zlen q), mem', p') ∧
    mem' = take (Z.to_nat len) q ++ drop (Z.to_nat (Z.min len (zlen q))) mem.
Proof.
  intros (e & s & H) Hlen Hmax. unfold Process.read, UnixSocket.recv. rewrite (plug_current _ _ _ _ _ H), outcome_bind_ok.
  unfold Socket.recv. cbn [rx]. set (g := take (Z.to_nat len) q). pose proof (zlen_nonneg q).
  assert (Hg : zlen g = Z.min len (zlen q)) by (unfold g, zlen in *; rewrite length_take; lia).
  rewrite mem_write_ok, !outcome_bind_ok by lia. rewrite Hg, i32_id by lia. rewrite (proj2 (Z.ltb_ge _ _)) by lia.
  eexists _, _. split; [reflexivity|]. change (take (Z.to_nat 0) mem) with (@nil Z). cbn [app]. by rewrite Z.add_0_l.
Qed.

Lemma read_fails p mem len x q ret mem' p' :
  has_end p → Process.read strerror mem len (plug [RxError x; RxData q] [] p) = Ok (ret, mem', p') →
  ret = -1 ∧ mem' = mem ∧ has_end p' ∧ end_of p' = end_of p ∧ undelivered p' = q ∧ transmitted p' = transmitted p.
Proof.
  intros (e & s & H) Hr. unfold Process.read, UnixSocket.recv in Hr.
  rewrite (plug_current _ _ _ _ _ H), outcome_bind_ok in Hr. unfold Socket.recv in Hr. cbn [rx] in Hr.
  rewrite outcome_bind_ok in Hr. cbv zeta in Hr. change (i32 (-1)) with (-1) in Hr. change (-1 <? 0) with true in Hr.
  rewrite outcome_bind_ok in Hr. injection Hr as <- <- <-. split; [done|]. split; [done|].
  unfold has_end, end_of, undelivered, transmitted. cbn [psocket Process.set_socket].
  rewrite (proj2 (current_set_err _ _ _) (current_set_object _ _ _ _ (plug_current _ _ _ _ _ H))), H.
  split; [by eexists _, _|]. split; [done|]. split; [|done]. cbn. apply app_nil_r.
Qed.

(** The descriptor each side is meant to use, and the invariant of the pair. *)
Definition fd_of (s : side) : Z := match s with Parent => fds.2 | Child => fds.1 end.

Definition pair_inv (y : system) : Prop :=
  ∀ s, has_end (proc y s) ∧ end_of (proc y s) = fd_of s ∧ zlen (queue y (fd_of s)) ≤ capacity ∧
    wrote y (other s) = got y s ++ queue y (fd_of s).

Context (Hfds : fds.1 ≠ fds.2).

Lemma peer_fd_of s : peer fds (fd_of s) = fd_of (other s).
Proof. unfold peer. destruct s; cbn [fd_of other]; [by rewrite (proj2 (Z.eqb_neq _ _)) by congruence|by rewrite Z.eqb_refl]. Qed.

Lemma fill_at fd d f : fill fd d f fd = d.
Proof. unfold fill. by rewrite Z.eqb_refl. Qed.

Lemma fill_other s d f : fill (fd_of s) d f (fd_of (other s)) = f (fd_of (other s)).
Proof. unfold fill. rewrite (proj2 (Z.eqb_neq _ _)); [done|]. destruct s; cbn [fd_of other]; congruence. Qed.

Lemma pair_inv_start handler enable pids e child me1 me2 p p1 main p2 :
  0 ≤ capacity → p = Process.make enable pids (UnixSocket.make strerror 0 e fds) →
  Process.start handler child me1 p = Process.Returns true p1 →
  Process.start handler 0 me2 p = Process.Continues main p2 →
  pair_inv (mkSystem (λ s, match s with Parent => p1 | Child => p2 end) (λ _, []) (λ _, []) (λ _, [])).
Proof.
  intros Hc -> H1 H2. unfold Process.start in *. destruct (0 <? child); [|done]. injection H1 as <-.
  change (0 <? 0) with false in H2. injection H2 as <- <-.
  intros []; cbn [proc queue wrote got other]; (split; [by eexists _, _|by split]).
Qed.

Lemma pair_inv_write s y buf ret p :
  pair_inv y → has_end p → end_of p = end_of (proc y s) →
  transmitted p = transmitted (proc y s) ++ reported ret buf →
  zlen (queue y (peer fds (end_of (proc y s)))) + zlen (reported ret buf) ≤ capacity →
  pair_inv (after_write fds s buf ret p y).
Proof.
  intros Hinv Hp He Ht Hq t. pose proof (Hinv t) as (H1 & H2 & H3 & H4). pose proof (Hinv s) as (G1 & G2 & G3 & G4).
  unfold after_write. rewrite Ht, drop_app_length. rewrite G2 in He, Hq |- *. rewrite peer_fd_of in Hq |- *.
  cbn [proc queue wrote got].
  assert (Hs : t = s ∨ t = other s) by (destruct s, t; tauto). destruct Hs as [->| ->].
  - pose proof (fill_other (other s)) as Hf. assert (Ho : other (other s) = s) by by destruct s. rewrite Ho in Hf.
    rewrite Hf. split; [|split; [|split; [done|]]]; destruct s; done.
  - rewrite fill_at. split; [|split; [|split]].
    + by destruct s.
    + by destruct s.
    + rewrite zlen_app. lia.
    + assert (Ho : other (other s) = s) by by destruct s. rewrite Ho in H4 |- *.
      assert (Hu : upd s (wrote y s ++ reported ret buf) (wrote y) s = wrote y s ++ reported ret buf) by by destruct s.
      by rewrite Hu, H4, app_assoc.
Qed.

Lemma pair_inv_read s y mem ret p :
  pair_inv y → has_end p → end_of p = end_of (proc y s) →
  inbox s y = reported ret mem ++ undelivered p → pair_inv (after_read s mem ret p y).
Proof.
  intros Hinv Hp He Hq t. pose proof (Hinv t) as (H1 & H2 & H3 & H4). pose proof (Hinv s) as (G1 & G2 & G3 & G4).
  unfold after_read, inbox in *. rewrite G2 in He, Hq |- *. cbn [proc queue wrote got].
  rewrite Hq, zlen_app in G3. pose proof (zlen_nonneg (reported ret mem)).
  assert (Hs : t = s ∨ t = other s) by (destruct s, t; tauto). destruct Hs as [->| ->].
  - rewrite fill_at.
    assert (Hu : upd s (got y s ++ reported ret mem) (got y) s = got y s ++ reported ret mem) by by destruct s.
    split; [|split; [|split]]; [by destruct s|by destruct s|lia|]. by rewrite Hu, H4, Hq, app_assoc.
  - rewrite fill_other. split; [|split; [|split; [done|]]]; destruct s; done.
Qed.

Lemma pair_inv_step y z : capacity < 2 ^ 31 → pair_inv y → step strerror fds capacity y z → pair_inv z.
Proof.
  intros Hc Hinv Hs. destruct Hs as [s y buf n ret p Hn Hq H|s y buf e ret p H|s y mem len ret mem' p Hne Hl H|s y mem len e ret mem' p H];
    destruct (Hinv s) as (He & Hfd & Hcap & _).
  - destruct (write_accepts (proc y s) buf n He Hn) as (p' & H' & He' & Hfd' & Ht);
      [pose proof (zlen_nonneg (queue y (peer fds (end_of (proc y s))))); lia|].
    rewrite H in H'. injection H' as -> ->. apply pair_inv_write; [done|done|done|..]; unfold reported;
      rewrite (proj2 (Z.ltb_ge _ _)) by lia; [done|]. rewrite zlen_take by lia. done.
  - apply write_fails in H as (-> & He' & Hfd' & Ht); [|done]. apply pair_inv_write; [done|done|done|..].
    + by rewrite Ht, app_nil_r.
    + change (reported (-1) buf) with (@nil Z). rewrite zlen_nil, Hfd, peer_fd_of. destruct (Hinv (other s)) as (_ & _ & ? & _). lia.
  - assert (Hi : zlen (inbox s y) ≤ capacity) by (unfold inbox; by rewrite Hfd).
    apply read_takes in H as (Hr & Ht & He' & Hfd' & Hu & _); [|done..|lia]. apply pair_inv_read; [done|done|done|].
    pose proof (zlen_nonneg (inbox s y)). unfold reported. rewrite (proj2 (Z.ltb_ge _ _)) by lia.
    by rewrite Ht, Hu, take_drop.
  - apply read_fails in H as (-> & _ & He' & Hfd' & Hu & _); [|done]. apply pair_inv_read; [done|done|done|]. by rewrite Hu.
Qed.

End facts.
End PairFacts.

(** ** What [start] does *)
Module StartFacts.
Import Sched.

(** Code that only touches the state runs from [p] and [u] to [q] and [v]. *)
Inductive acts {U} : prog U → U → prog U → U → Prop :=
| acts_refl p u : acts p u p u
| acts_step f u u1 p1 p2 u2 : f u = Ok (u1, p1) → acts p1 u1 p2 u2 → acts (Act f) u p2 u2.

Section facts.
Context {U : Type}.
Implicit Types (p q : prog U) (u v : U) (m : machine U).

Lemma acts_and_then p u p' v q : acts p u p' v → acts (Process.and_then p q) u (Process.and_then p' q) v.
Proof. induction 1 as [|f u u1 p1 p2 u2 Hf _ IH]; [constructor|]. apply (acts_step _ u u1 (Process.and_then p1 q)); [by rewrite Hf|done]. Qed.

Lemma acts_steps p u q v :
  acts p u q v → ∀ m, cpu m = Prog p → globals m = u →
  ∃ n, ∀ k, steps (n + k) m = steps k (set_globals v (set_cpu (Prog q) m)).
Proof.
  induction 1 as [p u|f u u1 p1 p2 u2 Hf _ IH]; intros m Hc Hg.
  - exists O. intros k. destruct m. cbn in *. by subst.
  - destruct (IH (set_cpu (Prog p1) (set_globals u1 m))) as (n & Hn); [done..|].
    exists (S n). intros k. change (S n + k)%nat with (S (n + k)). cbn [steps].
    assert (Hs : step m = Ok (Some (set_cpu (Prog p1) (set_globals u1 m)))).
    { unfold step. rewrite Hc, Hg, Hf. by rewrite outcome_bind_ok. }
    rewrite Hs, outcome_bind_ok, Hn. by destruct m.
Qed.

(** The machine at the code of [exit]. *)
Definition exits_with m v : Prop := ∃ n m', steps n m = Ok m' ∧ globals m' = v ∧ step m' = Exit.

Lemma main_exits h u v : acts h u Ret v → exits_with (boot (Process.and_then h Process.exit_process) u) v.
Proof.
  intros H. apply (acts_and_then _ _ _ _ Process.exit_process) in H.
  destruct (acts_steps _ _ _ _ H (boot _ u) eq_refl eq_refl) as (n & Hn). specialize (Hn 0%nat). cbn [steps] in Hn.
  exists (n + 0)%nat. eexists. split; [exact Hn|]. by split.
Qed.

Lemma coroutine_exits h u rest v :
  acts h u rest v → rest = Ret ∨ (∃ k, rest = Yield k) → exits_with (boot (Create h (λ _, Process.exit_process)) u) v.
Proof.
  intros H Hrest. set (m0 := boot _ u).
  assert (H0 : ∃ m1, step m0 = Ok (Some m1) ∧ cpu m1 = Prog h ∧ globals m1 = u ∧ m1 =
    mkMachine (Prog h) (Some 1%positive) (Some 1%positive) 1 (<[1 := 1%positive]> ∅)
      (<[1%positive := mkCoroutine None (mkContext None (Some (AfterRun 1 1 (λ _, Process.exit_process), None)) None false) 1]> ∅)
      2%positive u).
  { eexists. split; [vm_compute; reflexivity|]. split; [done|]. split; [done|]. by vm_compute. }
  destruct H0 as (m1 & H0 & Hc & Hg & Em1). destruct (acts_steps _ _ _ _ H m1 Hc Hg) as (n & Hn).
  specialize (Hn 2%nat). subst m1. exists (S (n + 2)). destruct Hrest as [->|[k ->]].
  - eexists. split; [cbn [steps]; rewrite H0, outcome_bind_ok; rewrite Hn; vm_compute; reflexivity|]. by split.
  - eexists. split; [cbn [steps]; rewrite H0, outcome_bind_ok; rewrite Hn; vm_compute; reflexivity|]. by split.
Qed.

End facts.
End StartFacts.

(** ** Properties *)

(** C30: what [Process::start] does. It returns, with true and the master end,
    exactly when [fork] returns a positive id. Otherwise, in the child but also
    in the caller when [fork] fails, it takes the worker end, runs the handler
    and ends the process with the state the handler left. With
    [enable_coroutine] the handler is a coroutine, and the process ends as soon
    as it has returned or yielded: what is behind the first yield never runs,
    as no event loop does. *)
Theorem start_outcome (handler : prog process) (f me : Z) (p : process) :
  let p1 := mkProcess (enable_coroutine p) me f (UnixSocket.set_current (Some (if 0 <? f then MASTER else WORKER)) (psocket p)) in
  if 0 <? f then Process.start handler f me p = Process.Returns true p1
  else ∃ main, Process.start handler f me p = Process.Continues main p1 ∧
    ∀ rest p2, StartFacts.acts handler p1 rest p2 →
      rest = Ret ∨ (enable_coroutine p = true ∧ ∃ k, rest = Yield k) →
      StartFacts.exits_with (Sched.boot main p1) p2.
Proof.
  cbv zeta. unfold Process.start. destruct (0 <? f) eqn:E; [by vm_compute|].
  eexists. split; [reflexivity|]. intros rest p2 H Hr. unfold Process.child_main. cbn [enable_coroutine Process.set_socket].
  destruct (enable_coroutine p) eqn:Ec.
  - eapply StartFacts.coroutine_exits; [exact H|]. tauto.
  - destruct Hr as [->|[? _]]; [|done]. by apply StartFacts.main_exits.
Qed.

(** C29: the pair of sockets is two queues. Whatever parent and child write and
    read through the ends that [start] has chosen for them, in any order, and
    whatever parts of it the kernel takes and whichever calls fail: by the
    results of their calls, what one side has written is what the other has read
    followed by what has arrived on its descriptor and is still to be read; and
    a read that has room takes exactly the first bytes of that, as many as it
    asks for or as there are. *)
Theorem pipe_in_order (strerror : Z → bytes) (fds : Z * Z) (capacity : Z) (handler : prog process) (enable : bool)
    (pids : Z * Z) (e child me1 me2 : Z) (y : Pair.system) (s : Pair.side) (mem : bytes) (len : Z) :
  0 ≤ capacity < 2 ^ 31 → fds.1 ≠ fds.2 →
  Pair.reachable strerror fds capacity handler enable pids e child me1 me2 y →
  Pair.wrote y (Pair.other s) = Pair.got y s ++ Pair.inbox s y ∧
  (Pair.inbox s y ≠ [] → 0 ≤ len ≤ zlen mem →
   ∃ p' mem', Process.read strerror mem len (Pair.plug [RxData (Pair.inbox s y)] [] (Pair.proc y s)) =
       Ok (Z.min len (zlen (Pair.inbox s y)), mem', p') ∧
     mem' = take (Z.to_nat len) (Pair.inbox s y) ++ drop (Z.to_nat (Z.min len (zlen (Pair.inbox s y)))) mem).
Proof.
  intros Hc Hfds Hr. assert (Hinv : PairFacts.pair_inv fds capacity y).
  { induction Hr as [p p1 main p2 Hp H1 H2|y z _ IH Hstep];
      [|eapply PairFacts.pair_inv_step; [exact Hfds|lia|exact IH|exact Hstep]].
    eapply PairFacts.pair_inv_start; [lia|exact Hp|exact H1|exact H2]. }
  destruct (Hinv s) as (He & Hfd & Hcap & Hq). unfold Pair.inbox. rewrite Hfd. split; [done|].
  intros Hne Hl. apply PairFacts.read_ok; [done|lia|lia].
Qed.

(** Deleting a process is undefined in every state: [close] goes through
    [current_sock], which is uninitialised before [start] and points to a
    deleted object behind it. *)
Lemma destroy_undefined (strerror : Z → bytes) (r e : Z) (p : process) : Process.destroy strerror r e p = UB.
Proof.
  unfold Process.destroy, UnixSocket.destroy, UnixSocket.close, UnixSocket.current.
  cbn. by destruct (current_sock (psocket p)) as [[]|].
Qed.

(** ** Examples *)
Module PairExample.
Import Pair.

(** A handler that notes its id, then waits, then would note another. *)
Definition note (z : Z) (p : process) : process := mkProcess (enable_coroutine p) z (child_pid p) (psocket p).
Definition handler : prog process := Act (λ p, Ok (note 7 p, Yield (Act (λ p, Ok (note 8 p, Ret))))).
Definition proc0 (enable : bool) : process := Process.make enable (0, 0) (UnixSocket.make (λ _, []) 0 0 (3, 4)).

Lemma start_outcome_witness :
  ∃ main p1, Process.start handler (-1) 100 (proc0 true) = Process.Continues main p1 ∧
    StartFacts.exits_with (Sched.boot main p1) (note 7 p1).
Proof.
  destruct (start_outcome handler (-1) 100 (proc0 true)) as (main & H & Hrun).
  eexists main, _. split; [exact H|].
  apply (Hrun (Yield (Act (λ p, Ok (note 8 p, Ret))))).
  - eapply StartFacts.acts_step; [reflexivity|apply StartFacts.acts_refl].
  - right. split; [reflexivity|]. eexists. reflexivity.
Defined.

(** The parent writes, of which the kernel takes three bytes. *)
Definition parent1 : process := mkProcess false 100 200 (UnixSocket.set_current (Some MASTER) (psocket (proc0 false))).
Definition child1 : process := mkProcess false 200 0 (UnixSocket.set_current (Some WORKER) (psocket (proc0 false))).
Definition begin : system := mkSystem (λ s, match s with Parent => parent1 | Child => child1 end) (λ _, []) (λ _, []) (λ _, []).
Definition written : process :=
  match Process.write (λ _, []) (str "hello") 5 (plug [] [TxAccept 3] parent1) with Ok (_, p) => p | _ => parent1 end.
Definition sent_three : system := after_write (3, 4) Parent (str "hello") 3 written begin.

Lemma sent_three_reachable : reachable (λ _, []) (3, 4) 1000 Ret false (0, 0) 0 200 100 200 sent_three.
Proof.
  apply reach_next with begin.
  - eapply (reach_start _ _ _ Ret false (0, 0) 0 200 100 200 (proc0 false) parent1 _ child1); vm_compute; reflexivity.
  - apply (step_write (λ _, []) (3, 4) 1000 Parent begin (str "hello") 3 3 written); [split|..]; by vm_compute.
Qed.

Lemma pipe_in_order_witness :
  wrote sent_three Parent = got sent_three Child ++ queue sent_three 3 ∧
  ∃ p' mem', Process.read (λ _, []) [0; 0; 0; 0; 0] 5 (plug [RxData (str "hel")] [] child1) = Ok (3, mem', p') ∧
    mem' = str "hel" ++ [0; 0].
Proof.
  destruct (pipe_in_order (λ _, []) (3, 4) 1000 Ret false (0, 0) 0 200 100 200
    sent_three Child [0; 0; 0; 0; 0] 5) as [H1 H2].
  - lia.
  - discriminate.
  - exact sent_three_reachable.
  - split; [exact H1|]. destruct H2 as (p' & mem' & H & Hm); [by vm_compute|by vm_compute|].
    exists p', mem'. split; [exact H|exact Hm].
Defined.
End PairExample.
