(* ===== verification/FaultyExamples.v ===== *)
(** * FaultyExamples: the example programs that run into undefined behaviour
    (examples/coroutine/http2/client/client.cc, examples/process/process.cc)

    Both are modelled as they are written, on the library of the other files;
    the lemmas show where each of them leaves the language. *)

From S2P Require Import Prelude Words StdMap CoSocket Http2Frame Http2Client Coroutine UnixSocket.
#[local] Open Scope Z_scope.

(** ** examples/coroutine/http2/client/client.cc *)
Module Http2Example.
Section main.
Context {D I : Type}.
Variable deflate_bound : D → list nv → Z.
Variable deflate_hd : D → Z → list nv → Z * bytes * D.
Variable change_table_size : D → Z → Z * D.
Variable inflate_hd : I → bytes → Z * option (bytes * bytes) * bool * I.
Variable inflate_end_headers : I → I.
Variable fresh_response : response.
Variable ack_buf : bytes.

(** The array [body] points to. *)
Definition body : bytes := str "http2 client" ++ [0].

(** [junk] is what [path_len] holds. *)
Definition req (junk : Z) : request :=
  mkRequest (str "GET") (str "/") junk (Some body) (zlen (str "http2 client")) true
    (StdMap.assign (str "content-type") (str "text/html") (StdMap.assign (str "user-agent") (str "Chrome/49.0.2587.3")
      (StdMap.assign (str "host") (str "127.0.0.1") []))).

(** The body of the function given to [run]; the result is the lines written,
    and [None] that the response is waited for. *)
Definition main (fuel : nat) (junk : Z) (made : cosocket) (pton : Z) (c : client D I) : option (outcome (list bytes)) :=
  let r := req junk in
  let sent :=
    '(ret, c) ← Client.connect made pton c;
    if negb ret then Exit (* fswError *)
    else
      '(id1, c) ← Client.send_request deflate_bound deflate_hd fresh_response r c;
      '(id2, c) ← Client.write_data id1 body (rq_body_length r) false c;
      '(id3, c) ← Client.write_data id2 body (rq_body_length r) true c;
      Ok (map to_string [id1; id2; id3], c) in
  match sent with
  | Ok (lines, c) =>
      match Client.recv_reponse change_table_size inflate_hd inflate_end_headers ack_buf fuel c with
      | Some (Ok (rep, _)) => Some (Ok (lines ++ [rs_body rep]))
      | Some Exit => Some Exit
      | Some UB => Some UB
      | None => None
      end
  | Exit => Some Exit
  | UB => Some UB
  end.

(** Seven bytes are copied from the five of the name "host". *)
Lemma request_headers_undefined junk : Client.request_headers (req junk) = UB.
Proof. vm_compute. reflexivity. Qed.

Lemma main_undefined fuel junk made pton c c' :
  Client.connect made pton c = Ok (true, c') → main fuel junk made pton c = Some UB.
Proof.
  intros H. unfold main. rewrite H, outcome_bind_ok. cbn [negb]. unfold Client.send_request, Client.send_http_header_frame.
  destruct (Client.new_stream _ c') as [p c2]. unfold Client.build_http_header. by rewrite request_headers_undefined.
Qed.

Lemma main_ends_on_failure fuel junk made pton c c' :
  Client.connect made pton c = Ok (false, c') → main fuel junk made pton c = Some Exit.
Proof. intros H. unfold main. by rewrite H, outcome_bind_ok. Qed.

End main.
End Http2Example.

(** ** examples/process/process.cc *)
Module ProcessExample.
Section main.
Variable strerror : Z → bytes.

(** The function the process is made with; [buf] is what its array of six
    characters holds. What it writes is not kept. *)
Definition handler (buf : bytes) : prog process := Act (λ p,
  '(_, buf, p) ← Process.read strerror buf 5 p;
  buf ← mem_write buf 6 [0];
  _ ← CString.c_str buf;
  Ok (p, Ret)).

(** The parent behind [start()]: it writes, waits, and at the end of [main]
    the process object goes; [r] and [e] are the result of [::close] then. *)
Definition parent (waited r e : Z) (p : process) : outcome Z :=
  '(_, p) ← Process.write strerror (str "hello" ++ [0]) 5 p;
  let _ := Process.wait waited in
  _ ← Process.destroy strerror r e p;
  Ok 0.

(** [f] and [me] are what [fork] and [getpid] return; the child goes on with
    its program. *)
Definition main (buf : bytes) (f me waited r e : Z) (p : process) : outcome Z + prog process * process :=
  match Process.start (handler buf) f me p with
  | Process.Returns _ p => inl (parent waited r e p)
  | Process.Continues child p => inr (child, p)
  end.

(** The destructor closes through a deleted socket, in the parent. *)
Lemma parent_undefined buf f me waited r e p : 0 < f → main buf f me waited r e p = inl UB.
Proof.
  intros Hf. unfold main, Process.start. rewrite (proj2 (Z.ltb_lt _ _)) by done. cbv zeta. f_equal.
  set (q := Process.set_socket _ _). clearbody q. unfold parent, Process.write, UnixSocket.send.
  unfold UnixSocket.current. destruct (current_sock (psocket q)) as [t|] eqn:Et; [|done].
  destruct (UnixSocket.object t (psocket q)) as [s|]; [|done]. rewrite outcome_bind_ok.
  destruct (Socket.send s _ 0 5) as [[n s']| |] eqn:E; [| |done].
  2:{ unfold Socket.send in E. destruct (tx s) as [|[]]; [..|done];
      destruct (mem_read _ _ _) eqn:Em in E; try done; by apply mem_read_exit in Em. }
  rewrite !outcome_bind_ok. unfold Process.destroy, UnixSocket.destroy, UnixSocket.close, UnixSocket.current.
  destruct (i32 n <? 0), t; cbn; by rewrite Et.
Qed.

(** A read keeps the size of the array and does not end the process. *)
Lemma read_keeps buf len p :
  match Process.read strerror buf len p with Ok (_, buf', _) => zlen buf' = zlen buf | Exit => False | UB => True end.
Proof.
  unfold Process.read, UnixSocket.recv, UnixSocket.current. destruct (current_sock _) as [t|]; [|done].
  destruct (UnixSocket.object t _) as [s|]; [|done]. rewrite outcome_bind_ok. unfold Socket.recv.
  destruct (rx s) as [|[d|e] l]; [done| |done].
  destruct (mem_write buf 0 _) as [m| |] eqn:E; [|by apply mem_write_exit in E|done]. cbn. by apply mem_write_zlen in E.
Qed.

(** The store behind the end of the array, whatever was read. *)
Lemma child_undefined buf f me waited r e p :
  length buf = 6%nat → f ≤ 0 → enable_coroutine p = false →
  ∃ child p', main buf f me waited r e p = inr (child, p') ∧ Sched.step (Sched.boot child p') = UB.
Proof.
  intros Hb Hf He. unfold main, Process.start. rewrite (proj2 (Z.ltb_ge _ _)) by lia. cbv zeta.
  eexists _, _. split; [reflexivity|]. unfold Process.child_main. cbn [enable_coroutine Process.set_socket]. rewrite He.
  set (q := Process.set_socket _ _). clearbody q. cbn [Process.and_then handler]. unfold Sched.step, Sched.boot. cbn [cpu globals].
  pose proof (read_keeps buf 5 q) as H. destruct (Process.read strerror buf 5 q) as [[[ret b] p']| |]; [|done|done].
  rewrite outcome_bind_ok. assert (mem_write b 6 [0] = UB) as ->; [|done].
  unfold mem_write. change (zlen [0]) with 1. unfold zlen in H. unfold zlen. rewrite H, Hb. done.
Qed.
End main.
End ProcessExample.
