(* ===== verification/TestSuite.v ===== *)
(** * TestSuite: the tests of src/test

    Each [TEST] is a definition on the models of the library, with the asserts
    as a boolean, and a theorem that says whether it passes: for every clock
    and scheduling where it depends on them. Left out are the tests that only
    ask the system (bind, listen, the options and the name of a socket). *)

From S2P Require Import Prelude Words CString Buffer StdMap CoSocket Http Timer Coroutine Waiters Sleep Channel Event UnixSocket.
From Stdlib Require Import QArith_base.
From stdpp Require Import gmap sorting.
#[local] Open Scope Z_scope.

(** [strcmp(p, q) == 0] *)
Definition strcmp_eq (p q : bytes) : outcome bool :=
  x ← c_str p; y ← c_str q; Ok (bool_decide (x = y)).

(** A literal as an array. *)
Definition literal (s : string) : bytes := str s ++ [0].

(** ** src/test/buffer.cc *)
Module BufferTest.
Definition filled (s : string) : outcome buffer := Buffer.append_raw (Buffer.make 16) (literal s) (zlen (str s)).

Definition construct : outcome bool := let b := Buffer.make 16 in Ok ((_size b =? 16) && (_length b =? 0)).
Definition length_test : outcome bool := b ← filled "fsw"; Ok (_length b =? 3).
Definition size_test : outcome bool := b ← filled "fsw"; Ok (_size b =? 16).
Definition c_buffer : outcome bool := b ← filled "fsw"; strcmp_eq (_buffer b) (literal "fsw").
Definition clear : outcome bool :=
  b ← filled "fsw"; b ← Buffer.clear b;
  empty ← strcmp_eq (_buffer b) (literal ""); Ok ((_length b =? 0) && empty).
Definition append_c_string : outcome bool :=
  b ← filled "fsw"; same ← strcmp_eq (_buffer b) (literal "fsw"); Ok (same && (_length b =? 3)).
Definition append_cpp_string : outcome bool :=
  b ← Buffer.append_str (Buffer.make 16) (str "fsw");
  same ← strcmp_eq (_buffer b) (literal "fsw"); Ok (same && (_length b =? 3)).
Definition append_int : outcome bool :=
  b ← Buffer.append_int (Buffer.make 16) 1; one ← strcmp_eq (_buffer b) (literal "1");
  b' ← Buffer.append_int b 2; two ← strcmp_eq (_buffer b') (literal "12");
  Ok ((_length b =? 1) && one && (_length b' =? 2) && two).
Definition append_buffer : outcome bool :=
  b1 ← Buffer.append_str (Buffer.make 16) (str "fsw"); b2 ← Buffer.append_buf (Buffer.make 16) b1;
  same ← strcmp_eq (_buffer b2) (literal "fsw"); Ok (same && (_length b2 =? 3)).
Definition dup : outcome bool :=
  b1 ← Buffer.append_raw (Buffer.make 1024) (literal "aa") 2; b2 ← Buffer.dup b1;
  same ← strcmp_eq (_buffer b2) (_buffer b1); Ok ((_length b2 =? 2) && same).
Definition equal : outcome bool :=
  b1 ← filled "aa"; b2 ← filled "aa"; yes ← Buffer.equal b1 b2;
  b3 ← filled "bb"; no ← Buffer.equal b1 b3; Ok (yes && negb no).

(** The objects and their arrays are apart: [a] and [d] are the addresses. *)
Definition deep_equal (a d : positive * positive * positive) : outcome bool :=
  b1 ← filled "aa"; b2 ← filled "aa"; let b3 := Buffer.make 32 in
  let '(a1, a2, a3) := a in let '(d1, d2, d3) := d in
  yes ← Buffer.deep_equal a1 d1 a1 d1 b1 b1; no2 ← Buffer.deep_equal a1 d1 a2 d2 b1 b2;
  no3 ← Buffer.deep_equal a1 d1 a3 d3 b1 b3; Ok (yes && negb no2 && negb no3).

Lemma buffer_tests_pass :
  Forall (λ t, t = Ok true) [construct; length_test; size_test; c_buffer; clear; append_c_string; append_cpp_string;
    append_int; append_buffer; dup; equal].
Proof. repeat constructor. Qed.

Lemma deep_equal_passes a1 a2 a3 d : a1 ≠ a2 → a1 ≠ a3 → deep_equal (a1, a2, a3) d = Ok true.
Proof.
  intros H2 H3. destruct d as [[d1 d2] d3]. unfold deep_equal.
  destruct (filled "aa") as [b| |] eqn:E; [|vm_compute in E; discriminate E..]. rewrite !outcome_bind_ok.
  unfold Buffer.deep_equal. rewrite (bool_decide_eq_true_2 (a1 = a1)), (bool_decide_eq_true_2 (d1 = d1)) by done.
  rewrite (bool_decide_eq_false_2 (a1 = a2)), (bool_decide_eq_false_2 (a1 = a3)) by done. cbn [negb orb].
  vm_compute in E. injection E as <-. vm_compute. reflexivity.
Qed.
End BufferTest.

(** ** src/test/coroutine_http_request.cc *)
Module RequestTest.
(** The fields that [Request()] leaves as they are. *)
Variant fields := Fields (version path_len body_length : Z).
Definition new (f : fields) : Request := let '(Fields v pl bl) := f in Request.make v pl bl.
Definition with_fsw (r : Request) : Request := Request.set_header (StdMap.assign (str "fsw") (str "hello") (req_header r)) r.

Definition has_header (f : fields) : bool :=
  negb (Request.has_header (str "fsw") (new f)) && Request.has_header (str "fsw") (with_fsw (new f)).
Definition get_header (f : fields) : bool :=
  bool_decide (Request.get_header (str "fsw") (new f) = []) &&
  bool_decide (Request.get_header (str "fsw") (with_fsw (new f)) = str "hello").
Definition header_contain_value (f : fields) : bool :=
  negb (Request.header_contain_value (str "fsw") (str "hello") (new f)) &&
  Request.header_contain_value (str "fsw") (str "hello") (with_fsw (new f)).
Definition has_sec_websocket_key (f : fields) : bool :=
  negb (Request.has_sec_websocket_key (new f)) &&
  Request.has_sec_websocket_key (Request.set_header (StdMap.assign (str "sec-websocket-key") (str "xxxx") []) (new f)).

Definition with_path (r : Request) : Request := Request.set_path (literal "/index") 7 r.
Definition with_body (r : Request) : Request := Request.set_body (literal "hello world") 12 r.
Definition no_path (r : Request) : bool := bool_decide (path r = None) && (path_len r =? 0).
Definition no_body (r : Request) : bool := bool_decide (body r = None) && (body_length r =? 0).
Definition no_header (r : Request) : bool := zlen (req_header r) =? 0.

Definition clear (f : fields) : bool :=
  let r := Request.clear (with_body (with_fsw (with_path (new f)))) in no_path r && no_header r && no_body r.
Definition clear_header (f : fields) : bool := no_header (Request.clear_header (with_fsw (new f))).
Definition clear_path (f : fields) : bool :=
  let r := with_path (new f) in
  bool_decide (path r = Some (literal "/index")) && (path_len r =? 7) && no_path (Request.clear_path r).
Definition clear_body (f : fields) : bool :=
  let r := with_body (new f) in
  bool_decide (body r = Some (literal "hello world")) && (body_length r =? 12) && no_body (Request.clear_body r).

Lemma request_tests_pass f :
  Forall (λ t, t f = true)
    [has_header; get_header; header_contain_value; has_sec_websocket_key; clear; clear_header; clear_path; clear_body].
Proof. destruct f as [v pl bl]. repeat constructor. Qed.
End RequestTest.

(** ** src/test/coroutine_http_response.cc *)
Module ResponseTest.
Definition get_status_message (v : Z) : bool :=
  bool_decide (Response.get_status_message (Response.make v) = str "200 OK") &&
  bool_decide (Response.get_status_message (Response.set_status 404 (Response.make v)) = str "404 Not Found").

(** The context of a socket that [new Socket(1)] makes; [s] is the descriptor,
    and the members that [Ctx()] leaves as they are come last. *)
Definition ctx_of (s : sock) (r : Response) (req : Request) (p : unit) (name : option Z) (n : Z) (k : bool) : Ctx unit :=
  Context.make (CoSocket.make s 0) p req r name n k.

Definition build_http_status_line (s : sock) (v : Z) req p name n k : outcome bool :=
  ctx ← Response.build_http_status_line (ctx_of s (Response.set_status 404 (Response.make v)) req p name n k);
  Buffer.equal_str (CoSocket.get_write_buf (conn ctx)).1 (str "HTTP/1.1 404 Not Found" ++ [13; 10]).

Definition set_version (v : Z) : bool := _version (Response.set_version 100 (Response.make v)) =? 100.
Definition get_real_version (v : Z) : bool :=
  bool_decide (Response.get_real_version (Response.set_version 100 (Response.make v)) = str "1.0") &&
  bool_decide (Response.get_real_version (Response.set_version 400 (Response.make v)) = str "Unknown version: 400").
Definition clear_header (v : Z) : bool :=
  let r := Response.make v in
  let r := mkResponse (_version r) (_status r) (_reason r) (StdMap.assign (str "fsw") (str "hello") (res_header r)) in
  zlen (res_header (Response.clear_header r)) =? 0.

Definition upgrade_request (f : RequestTest.fields) : Request :=
  let h := StdMap.assign (str "sec-websocket-key") (str "xxxx") (StdMap.assign (str "sec-websocket-version") (str "13")
    (StdMap.assign (str "upgrade") (str "websocket") (StdMap.assign (str "connection") (str "upgrade") []))) in
  Request.set_header h (Request.set_method (str "GET") (RequestTest.new f)).
Definition check_websocket_upgrade (s : sock) (v : Z) (f : RequestTest.fields) p name n k : outcome bool :=
  let ctx := ctx_of s (Response.make v) (upgrade_request f) p name n k in
  '(ok, _) ← Response.check_websocket_upgrade (Request.get_header (str "sec-websocket-key") (request ctx)) ctx; Ok ok.

Lemma response_tests_pass s v f p name n k :
  Forall (λ t, t v = true) [get_status_message; set_version; get_real_version; clear_header] ∧
  build_http_status_line s v (RequestTest.new f) p name n k = Ok true ∧ check_websocket_upgrade s v f p name n k = Ok true.
Proof. destruct f as [fv pl bl]. split; [repeat constructor|]. split; vm_compute; reflexivity. Qed.
End ResponseTest.

(** ** src/test/coroutine.cc *)
Module CoroutineTest.
Import Sched EventLoop EventExample.

(** [func1] and [func2] note the id they see. *)
Definition func_cid : prog (list Z) := GetCurrent (λ co, GetCid co (λ cid, Act (λ u, Ok (u ++ [cid], Ret)))).
Definition get_cid : prog (list Z) := Create func_cid (λ _, Create func_cid (λ _, Ret)).

(** [sleep_ret] and [defer_ret] are the list [out]. *)
Definition func3 : prog world := sleep (Qmake 2 1000) (λ _, emit 1 Ret).
Definition func4 : prog world := sleep (Qmake 1 1000) (λ _, emit 2 Ret).
Definition sleep_test : prog world := Create func3 (λ _, Create func4 (λ _, Ret)).

Definition func5 : prog world := Defer (emit 0 Ret) (Defer (emit 1 Ret) Ret).
Definition defer_test : prog world := Create func5 (λ _, Ret).

(** The process when after each of its transitions the clock goes on by [tick]. *)
Definition advance (tick : nat) (l : loop (U := world)) : loop :=
  let m := mach l in let t : time_state queue := view (globals m) in
  mkLoop (with_globals (set_view (mkTime (clock t + Z.of_nat tick) (timers t)) (globals m)) m) (ph l).
Fixpoint timed (tick : loop (U := world) → nat) (n : nat) (l : loop) : loop :=
  match n with
  | O => l
  | S n => match LoopRun.next (K := simple_kernel) (TQ := queue) l with
           | Some l' => timed tick n (advance (tick l') l')
           | None => l
           end
  end.

Lemma timed_reachable tick n fn u l : loop_reachable (K := simple_kernel) (TQ := queue) (run fn u) l →
  loop_reachable (K := simple_kernel) (TQ := queue) (run fn u) (timed tick n l).
Proof.
  revert l. induction n as [|n IH]; intros l Hr; [done|]. cbn [timed].
  destruct (LoopRun.next l) as [l'|] eqn:E; [|done]. apply IH. eapply loop_next.
  - eapply loop_next; [exact Hr|by apply LoopRun.next_sound].
  - destruct l' as [m q]. by apply step_clock.
Qed.

(** Time passes while the process waits, or all the time. *)
Definition while_waiting (l : loop (U := world)) : nat := match ph l with InWait => 1 | _ => 0 end.
Definition always (l : loop (U := world)) : nat := 1.

Lemma get_cid_passes :
  globals (at_step 14 get_cid []) = [1; 2] ∧ cpu (at_step 14 get_cid []) = Prog Ret ∧ stack (at_step 14 get_cid []) = None.
Proof. split_and!; vm_compute; reflexivity. Qed.

Lemma defer_passes : let l := LoopRun.after (K := simple_kernel) (TQ := queue) defer_test EventExample.start 30 in
  ph l = Returned ∧ out (globals (mach l)) = [1; 0].
Proof. split; vm_compute; reflexivity. Qed.

(** The sleeper of one millisecond overtakes the one of two when the second
    starts in the millisecond of the first, and not when it starts later: what
    the test asserts depends on the speed of the process. *)
Lemma sleep_test_depends_on_speed : ∃ l1 l2,
  loop_reachable (K := simple_kernel) (TQ := queue) (run sleep_test EventExample.start) l1 ∧
  loop_reachable (K := simple_kernel) (TQ := queue) (run sleep_test EventExample.start) l2 ∧
  ph l1 = Returned ∧ out (globals (mach l1)) = [2; 1] ∧
  ph l2 = Returned ∧ out (globals (mach l2)) = [1; 2].
Proof.
  exists (timed while_waiting 60 (run sleep_test EventExample.start)), (timed always 60 (run sleep_test EventExample.start)).
  do 2 (split; [apply timed_reachable; constructor|]). split_and!; vm_compute; reflexivity.
Qed.
End CoroutineTest.

(** ** src/test/coroutine_channel.cc *)
Module ChannelTest.
Import Channel ChannelExample.

(** The data is the token 1; the asserts note 1 for the consumer and 2 for the
    producer. *)
Definition pop_test : prog world := pop no_timeout (λ data : option Z, match data with Some 1 => emit 1 Ret | _ => crash end).
Definition push_test : prog world := push 1 no_timeout (λ ret, if ret : bool then emit 2 Ret else crash).
Definition pop_push : prog world := Create pop_test (λ _, Create push_test (λ _, Ret)).

(** When the channel is deleted, both have ended and it is empty. *)
Lemma pop_push_passes : let m := at_step 40 pop_push ChannelExample.start in
  cpu m = Prog Ret ∧ stack m = None ∧ objects m = ∅ ∧ output (globals m) = [1; 2] ∧ chan (globals m) = make 1.
Proof. split_and!; vm_compute; reflexivity. Qed.
End ChannelTest.

(** ** src/test/timer.cc *)
Module TimerTest.
Section timer_test.
Context {TQ : Type} `{!PQueue (Timer unit Z) CompareTimerPointer TQ}.

(** [print_num]: the array [ret] up to [ii]. *)
Definition print_num (t : Timer unit Z) (q : TQ) (ret : list Z) : outcome (TQ * list Z) := Ok (q, ret ++ [private_data t]).

(** The four timers, each added at the time the clock shows then. *)
Definition nth_timer (now i : Z) : Timer unit Z := make_timer now (u64 (i * MILLI_SECOND)) tt i.
Definition add_timer (t1 t2 t3 t4 : Z) : TQ :=
  let add now i q := TimerManager.add_timer now (i * MILLI_SECOND) tt i q in add t4 4 (add t3 3 (add t2 2 (add t1 1 pq_empty))).

(** The event loop runs the timers at the times [nows]. *)
Fixpoint runs (nows : list Z) (q : TQ) (ret : list Z) : option (outcome (TQ * list Z)) :=
  match nows with
  | [] => Some (Ok (q, ret))
  | now :: nows =>
      match TimerManager.run_timers print_num 5 now q ret with
      | Some (Ok (_, q, ret)) => runs nows q ret
      | Some Exit => Some Exit
      | Some UB => Some UB
      | None => None
      end
  end.

Section order.
Variables (ts : list (Timer unit Z)).
Context (Hsorted : StronglySorted (λ t u, exec_msec t < exec_msec u) ts).

(** What is left is the end of the list, and the rest has been printed. *)
Definition progress (i : nat) (q : TQ) (ret : list Z) : Prop :=
  pq_elems q ≡ₚ drop i ts ∧ ret = private_data <$> take i ts ∧ (i ≤ length ts)%nat.

Lemma top_is_next i q ret t : progress i q ret → pq_top q = Some t → ts !! i = Some t ∧ progress (S i) (pq_pop q) (ret ++ [private_data t]).
Proof.
  intros (Hp & Hr & Hi) Ht. assert (Hin : t ∈ drop i ts) by (rewrite <- Hp; by apply TimerFacts.top_elem).
  destruct (drop i ts) as [|x rest] eqn:Ed; [by apply elem_of_nil in Hin|].
  assert (Hx : ts !! i = Some x) by (rewrite <- (Nat.add_0_r i), <- lookup_drop, Ed; done).
  assert (t = x) as ->.
  { apply elem_of_cons in Hin as [->|Hin]; [done|]. exfalso.
    assert (Hs : StronglySorted (λ t u, exec_msec t < exec_msec u) (x :: rest)).
    { rewrite <- Ed. clear Hp Hr Hi Hx Ed. revert Hsorted. generalize ts. clear. intros l Hl. revert i.
      induction Hl as [|y l Hl IH Hy]; intros [|i]; cbn [drop]; [constructor..|by constructor|apply IH]. }
    inversion Hs as [|? ? _ Hf]; subst. rewrite Forall_forall in Hf. pose proof (Hf t Hin).
    assert (x ∈ pq_elems q) by (rewrite Hp; by left). pose proof (TimerFacts.top_min q t x Ht ltac:(done)). lia. }
  split; [done|]. pose proof (lookup_lt_Some _ _ _ Hx). split_and!; [|by rewrite (take_S_r _ _ _ Hx), fmap_app, Hr|lia].
  apply (Permutation_cons_inv (a := x)). rewrite <- (pq_top_pop q x Ht), Hp, (drop_S _ _ _ Hx) in *. by rewrite Ed.
Qed.

Lemma run_progress now : ∀ fuel i q ret, progress i q ret → (length ts - i < fuel)%nat →
  ∃ fired q' ret' j, TimerManager.run_timers print_num fuel now q ret = Some (Ok (fired, q', ret')) ∧
    progress j q' ret' ∧ Forall (λ t, now < exec_msec t) (pq_elems q').
Proof.
  induction fuel as [|fuel IH]; intros i q ret Hp Hf; [lia|]. unfold TimerManager.run_timers. cbn [TimerManager.run_loop].
  destruct (pq_top q) as [t|] eqn:Ht.
  - destruct (Z.ltb_spec now (exec_msec t)) as [Hlt|Hge].
    + exists [], q, ret, i. split_and!; [done|done|]. apply Forall_forall. intros u Hu.
      pose proof (TimerFacts.top_min q t u Ht Hu). lia.
    + destruct (top_is_next i q ret t Hp Ht) as [Hl Hp']. apply lookup_lt_Some in Hl. unfold print_num at 1.
      destruct (IH _ _ _ Hp' ltac:(lia)) as (fired & q' & ret' & j & H & Hj & Hd). unfold TimerManager.run_timers in H.
      rewrite H. by exists (t :: fired), q', ret', j.
  - exists [], q, ret, i. split_and!; [done|done|]. apply pq_top_none in Ht. rewrite Ht. constructor.
Qed.

Lemma runs_progress nows : ∀ i q ret, length ts = 4%nat → progress i q ret →
  ∃ q' ret' j, runs nows q ret = Some (Ok (q', ret')) ∧ progress j q' ret' ∧
    ∀ now, last nows = Some now → Forall (λ t, now < exec_msec t) (pq_elems q').
Proof.
  induction nows as [|now nows IH]; intros i q ret Hn Hp; cbn [runs].
  - by exists q, ret, i.
  - destruct (run_progress now 5 i q ret Hp ltac:(lia)) as (fired & q1 & ret1 & j1 & -> & Hp1 & Hd).
    destruct (IH j1 q1 ret1 Hn Hp1) as (q2 & ret2 & j & H & Hp2 & Hl). exists q2, ret2, j. split; [exact H|]. split; [exact Hp2|].
    destruct nows as [|now' nows]; [|exact Hl]. intros now2 [= <-]. injection H as <- <-. exact Hd.
Qed.
End order.
End timer_test.

(** The test passes for every clock that does not go back while the timers are
    added, and whenever the loop runs the timers: what has been printed is a
    beginning of 1, 2, 3, 4, and all of it once the loop has run them four
    milliseconds after the last one was added. *)
Lemma add_timer_passes {TQ} `{!PQueue (Timer unit Z) CompareTimerPointer TQ} (t1 t2 t3 t4 : Z) (nows : list Z) :
  0 ≤ t1 → t1 ≤ t2 → t2 ≤ t3 → t3 ≤ t4 → t4 < 2 ^ 62 →
  ∃ q ret, runs nows (add_timer (TQ := TQ) t1 t2 t3 t4) [] = Some (Ok (q, ret)) ∧ ret `prefix_of` [1; 2; 3; 4] ∧
    (∀ now, last nows = Some now → t4 + 4 ≤ now → ret = [1; 2; 3; 4]).
Proof.
  intros H1 H2 H3 H4 H5. set (ts := [nth_timer t1 1; nth_timer t2 2; nth_timer t3 3; nth_timer t4 4]).
  assert (He : ∀ now i, 0 ≤ now < 2 ^ 62 → 1 ≤ i ≤ 4 → exec_msec (nth_timer now i) = now + i).
  { intros now i Hn Hi. unfold nth_timer, make_timer, MILLI_SECOND. cbn [exec_msec]. rewrite (u64_id (i * 1)), u64_id by lia. lia. }
  assert (Hs : StronglySorted (λ t u, exec_msec t < exec_msec u) ts).
  { unfold ts. repeat constructor; rewrite !He by lia; lia. }
  assert (Hp : progress ts 0 (add_timer (TQ := TQ) t1 t2 t3 t4) []).
  { split_and!; [|done|cbn; lia]. unfold add_timer, TimerManager.add_timer. rewrite !pq_elems_push, pq_elems_empty. cbn [drop].
    unfold ts. change [nth_timer t1 1; nth_timer t2 2; nth_timer t3 3; nth_timer t4 4]
      with (rev [nth_timer t4 4; nth_timer t3 3; nth_timer t2 2; nth_timer t1 1]). apply Permutation_rev. }
  destruct (runs_progress ts Hs nows 0 _ [] eq_refl Hp) as (q & ret & j & Hr & (Hq & -> & Hj) & Hl). exists q. eexists.
  split; [exact Hr|]. split.
  - change [1; 2; 3; 4] with (private_data <$> ts). exists (private_data <$> drop j ts). by rewrite <- fmap_app, take_drop.
  - intros now Hn Hge. specialize (Hl now Hn). rewrite Hq in Hl. destruct (decide (j = 4)%nat) as [->|Hne]; [done|].
    exfalso. cbn [length ts] in Hj. assert (Hin : nth_timer t4 4 ∈ drop j ts).
    { do 4 (destruct j as [|j]; [set_solver|]). unfold ts in Hj. cbn in Hj. lia. }
    rewrite Forall_forall in Hl. specialize (Hl _ Hin). rewrite He in Hl by lia. lia.
Qed.
End TimerTest.

(** ** src/test/process.cc *)
Module ProcessTest.
Section process_test.
(** [socketpair] gives [fds], the fields of the object hold [pids]. *)
Context (strerror : Z → bytes) (fds pids : Z * Z).

Definition new (enable : bool) : process := Process.make enable pids (UnixSocket.make strerror 0 0 fds).

(** A handler: [child_handler] does nothing, [prctl] leaves nothing behind. *)
Definition child_handler : prog process := Ret.

(** The asserts of the tests that start a process, in the parent: [f] is what
    [fork] returned to it, [me] its own id and [r] what [wait] returns. *)
Definition start_test (enable : bool) (f me r : Z) : bool * process :=
  match Process.start child_handler f me (new enable) with
  | Process.Returns ret p => (ret && (pid p =? me) && (child_pid p =? Process.wait r), p)
  | Process.Continues _ p => (false, p)
  end.

(** TEST(process, write_read), in the parent and in the child. *)
Definition write (p : process) : outcome (bool * process) :=
  let '(b, u) := UnixSocket.get_write_buf (psocket p) in
  b ← Buffer.append_str b (str "hello");
  '(ret, p) ← Process.write strerror (_buffer b) (_length b)
    (Process.set_socket (UnixSocket.set_bufs (uread_buf u) (Some b) u) p);
  Ok (ret =? _length b, p).
Definition read_child_handler (p : process) : outcome bool :=
  let '(b, u) := UnixSocket.get_read_buf (psocket p) in
  '(ret, mem, _) ← Process.read strerror (_buffer b) 1024 (Process.set_socket u p);
  mem ← mem_write mem ret [0];
  strcmp_eq mem (literal "hello").

Lemma start_tests_pass enable f me : 0 < f → (start_test enable f me f).1 = true.
Proof.
  intros Hf. unfold start_test, Process.start. cbn [new Process.make psocket enable_coroutine]. rewrite (proj2 (Z.ltb_lt _ _) Hf).
  cbn. by rewrite !Z.eqb_refl.
Qed.

(** The five bytes reach the child when the system moves them in one piece. *)
Lemma write_read_passes f me : 0 < f →
  (∃ p, write (start_test false f me f).2 = Ok (true, p) ∧ Pair.transmitted p = str "hello") ∧
  read_child_handler (Pair.plug [RxData (str "hello")] [] (start_test false 0 me f).2) = Ok true.
Proof.
  intros Hf. unfold start_test, Process.start. rewrite (proj2 (Z.ltb_lt _ _) Hf). split.
  - eexists. split; vm_compute; reflexivity.
  - vm_compute. reflexivity.
Qed.

(** And yet no test that makes a process on the stack returns: the destructor
    of the process is undefined. *)
Definition construct (enable : bool) (r e : Z) : outcome (bool * unix_socket) := Process.destroy strerror r e (new enable).

Lemma process_tests_end_undefined enable f me r e :
  construct enable r e = UB ∧ Process.destroy strerror r e (start_test enable f me f).2 = UB.
Proof. split; apply destroy_undefined. Qed.
End process_test.
End ProcessTest.
